(* ===== verification/_CoqProject ===== *)
-Q . S2P
Prelude.v
Panic.v
Spinlock.v
Atomic.v
Bitmap.v
Pid.v
Pmm.v
RBHeap.v
RBTree.v
RBInsert.v
RBDelete.v
MmuIface.v
Vmm.v
VmmTree.v
VmmThm.v
Mmu.v
MmuThm.v
VmmClaims.v
TaskDef.v
Eevdf.v
EevdfTree.v
EevdfThm.v
EevdfClaims.v
Sched.v
SchedThm.v
SchedClaims.v
CString.v
CStringThm.v
CStringCopy.v
CStringClaims.v
Dtb.v
DtbThm.v
DtbFind.v
DtbUart.v
DtbPath.v
DtbTree.v
PmmInit.v
PmmInitThm.v
PmmInitClaims.v
PmmBoot.v
Klog.v
KlogThm.v
Printk.v
PrintkThm.v
Frames.v
FramesMmu.v
Vmalloc.v
VmallocThm.v
VmallocMap.v
VmallocAlloc.v
VmallocHang.v
VmallocClaims.v
Io.v
Serial.v
SerialThm.v
Gic.v
GicThm.v
Irq.v
IrqThm.v
IrqClaims.v
TaskList.v
Syscall.v
SyscallThm.v
Ubsan.v
TaskCreate.v
TaskCreateThm.v
TaskCreateClaims.v
Asm.v
AsmThm.v
AsmClaims.v
Vectors.v
Boot.v
Kmain.v
KmainThm.v
KmainClaims.v
