(* ===== verification/Prelude.v ===== *)
(** * Arcline: a verification development

    Arcline is a small ARM64 kernel in C.  This library models its boot-time
    parsing, its memory management, its scheduler and tasks, its interrupt and
    system call paths down to the assembly, its drivers, its log and its string
    library, and proves that they do what they are meant to do, or what they do
    instead.

    ** Conventions

    A C function is a computation of the state monad [ST] below over the static
    state of its file, translated statement by statement and under the names of
    the source.  Integers are [Z]; an operation that can wrap at its C type is
    wrapped with [u8], [u16], [u32], [u64] or [s32].  Undefined behaviour (a null
    or dangling dereference, an index outside an array, a read of an
    uninitialised cell), an endless loop and a lock that is never released all
    give [None], so that a statement [wp m Q s] says at once that [m] returns,
    that it is memory safe, and that its result satisfies [Q].  Loops whose
    recursion is not structural take fuel; every theorem of the form [wp] proves
    that the fuel is enough.

    A function that can call [panic] is a computation in [PS] (Panic.v): its result
    is an option, [None] for a panic; [pwp] is [wp] with the panic excluded.  A
    function that calls into a component with a state of its own runs it through
    [zoom].

    Where a component calls [printk], [printk_simple] or [log_write_str] for a
    message only, the call is left out; Printk.v and Klog.v model these functions,
    and the messages of do_syscall, of panics and of kmain itself are modelled
    where they are output.

    ** Parts of the kernel and the files that model them

    Locks and pids
    - include/kernel/spinlock.h: Spinlock.v.  Lock word and interrupt mask are
      reached through the classes [HasLock] and [HasDaif], which every component
      that owns a lock implements.
    - kernel/pid.c: Pid.v (Module [Pid]), on the bitmaps of Bitmap.v.
    - include/kernel/atomic.h: Atomic.v (Module [Atomic]); no other file calls it.

    Strings and the device tree
    - lib/string.c: CString.v (Module [CString]) over a byte-addressed memory;
      CStringThm.v and CStringCopy.v relate it to lists of bytes, CStringClaims.v
      has the properties.
    - drivers/dtb.c: Dtb.v (Module [Dtb]): finding the blob and the two passes
      that find the UART of the console.  DtbThm.v relates the structure block to
      a list of events, DtbUart.v and DtbPath.v the passes to functions of
      events, DtbTree.v flattens trees into events and events into blobs.

    Physical memory
    - mm/pmm.c: Pmm.v (Module [Pmm]) is the bitmap allocator; PmmInit.v the
      parsers for memory and reserved memory and pmm_init_from_dtb; PmmInitThm.v,
      PmmInitClaims.v (the parsers on trees) and PmmBoot.v (which pages are free
      after boot).

    Virtual memory
    - mm/vmm.c: RBHeap.v is the red-black tree code over a heap of nodes with
      parent pointers; RBTree.v relates such a heap to functional trees and
      contexts; RBInsert.v and RBDelete.v prove the two fix-up loops and
      deletion.  Vmm.v (Module [Vmm]) is the region manager, VmmTree.v its
      searches and insertion, VmmThm.v the refinement of a sorted list of
      disjoint regions, VmmClaims.v the properties.
    - MmuIface.v is the interface between the region manager and the page tables:
      the operations ([MmuOps]) and what they promise ([MmuLaws]), failure
      included: mapping a page takes three frames for tables at most, and fails
      only when none is left.  Vmm is proved against it, MmuThm.v discharges it.
    - mm/mmu.c, mm/tlb.c: Mmu.v (Module [Mmu]), MmuThm.v; tables live in a
      word-addressed memory whose frames come from the page allocator.
    - mm/vmalloc.c: Vmalloc.v (Module [Vmalloc]), against the region manager and
      against the interface of Frames.v ([FrameOps], [FrameLaws]: frames held by
      the heap are kept by the tables, and the frames left are counted), which
      FramesMmu.v discharges.  VmallocThm.v keeps the address ranges, VmallocMap.v
      the pages, VmallocAlloc.v is vmalloc and vfree, VmallocHang.v the merge loop
      and the states a call of vfree goes through there, VmallocClaims.v the
      properties.

    Scheduling
    - include/kernel/sched/task.h: TaskDef.v, the task structures, shared by
      pointer through the class [HasTasks].
    - kernel/sched/eevdf.c: Eevdf.v (Module [Eevdf]) with its own variant of the
      tree code; EevdfTree.v proves that variant against RBTree, EevdfThm.v the
      refinement of a list ordered by virtual run time, EevdfClaims.v the
      properties.
    - kernel/sched/sched.c, kernel/sched/task.c: Sched.v (Module [Sched]),
      SchedThm.v (the invariant between task states and the run queue),
      SchedClaims.v, TaskList.v (the list of tasks, task_kill).
    - task_create, task_init and task_entry_wrapper: TaskCreate.v (Module
      [TaskCreate]) over the scheduler and the kernel heap together;
      TaskCreateThm.v, TaskCreateClaims.v.

    Output
    - kernel/log.c: Klog.v (Module [Klog]), KlogThm.v.
    - kernel/printk.c: Printk.v (Module [Printk]), PrintkThm.v.

    Devices, interrupts, exceptions
    - Io.v: a device is any function from the accesses so far to the next value
      read; what a driver does is the trace of its accesses.
    - drivers/serial.c: Serial.v, SerialThm.v; drivers/gic.c: Gic.v, GicThm.v.
    - kernel/irq.c, kernel/irq_handler.c, drivers/timer.c: Irq.v (Module [Irq])
      over the interrupt controller, the handler table, the timer and the
      scheduler; IrqThm.v, IrqClaims.v.
    - kernel/syscall.c, arch/arm64/exception/exception.c, kernel/panic.c:
      Syscall.v (Module [Syscall]), SyscallThm.v.  san/ubsan.c and the assertions
      of panic.h: Ubsan.v.
    - arch/arm64/exception/exception.S, arch/arm64/context.S, the jump of sched.c
      and the stub of include/unistd.h: Asm.v (Module [Asm]), an interpreter of
      the instructions they use; AsmThm.v, AsmClaims.v.  The vector table and the
      stubs behind it: Vectors.v, which places code at addresses.

    Boot
    - arch/arm64/boot/boot.S and the jump of mmu_switch_to_higher_half: Boot.v, on
      the interpreter of Asm.v.
    - init/main.c: Kmain.v (Module [Kmain]): the components' states side by side
      in one machine, the order in which kmain calls their initialisation, and
      its own messages;
      KmainThm.v carries the invariants from one call to the next, KmainClaims.v
      has the property.

    ** What the theorems show

    - Scheduler: from a state in which ready tasks are the queued ones and at
      most the current task runs, scheduling never panics while a queue node is
      free, preserves that invariant, picks a least virtual run time and loses no
      runnable task.  task_kill takes its task out of the list and the queue and
      of no other; task_exit always reaches another task.
    - Run queue: each operation and every sequence of them refines an ordered
      list; the task picked has least virtual run time.
    - Task creation: over a well-formed heap and scheduler task_create either
      adds one ready task with its own stack and a context, given register by
      register, that starts its entry function, or changes no task; task_init leaves exactly the idle task.
    - Interrupts: an interrupt acknowledges, runs the handler of its number, ends
      the interrupt and switches to a task the scheduler picked; unknown numbers
      and an empty task set are covered.
    - Assembly: an interrupt returns with every register as it was but x9; a
      system call returns with the kernel's result in x0; a switch away and back
      restores the callee-saved registers and the stack pointer; wherever the
      vector table is placed, each exception reaches its handler, and one that is
      not resumed the C function that panics.
    - System calls and panics: every number reaches its function or the error
      message; exit and kill end in the scheduler, write in the log; a panic
      writes its message and powers off.
    - Page allocator: first-fit allocation, exact release, disjointness of live
      allocations, consistency of the counters over every sequence of calls; after
      boot exactly the managed pages outside the reserved ranges are free.
    - Region manager: each call refines an operation on a sorted list of disjoint
      regions and on the page tables, on every error path; so does every sequence
      of calls; the red-black invariant is part of the relation.
    - Page tables: mapping, unmapping and updating a page change exactly the walk
      of that page; the initial tables map what the code means to map.
    - Kernel heap: vmalloc maps a fresh range between two guard pages or undoes
      everything it did, on each of its error paths, which it takes only when
      addresses or frames are short; vfree gives back what vmalloc took;
      neighbouring blocks freed in reverse order make the merge loop endless, with
      the lock held.
    - Device tree: on the blob of any tree the parsers find what the tree says:
      the first memory node, the UART of the console, the interrupt controller's
      version.
    - Log and output: the ring is a queue of records; writing drops only the
      oldest, and as few as needed; formatting renders its arguments and truncates
      to the buffer.
    - Boot: the start-up code hands kmain a stack, cleared static data and the
      pointer of the boot loader; from reset state, a blob and linker symbols in
      order, kmain reaches task_init with every component's invariant
      established and its log in order, and ends with the idle task or in a panic for lack of memory.
    - Drivers: for every behaviour of the hardware the wait loops end and the
      accesses made are the intended ones; delays wait at least as long as asked.
    - Strings: each routine as an operation on lists of bytes.
    - Some theorems pin down behaviour that is not intended: the second use of the
      region pool, the wraps of the overlap test, of vmalloc's sizes, of the
      nanosecond clock and of the delays, execute-never bits that cannot be
      cleared, the truncated time slice, the load weight after a change of nice
      value, the 65th runnable task, the registers x9 and x23, reserved memory
      that is not reserved, a console behind a node with children, a NOP that
      hides a GICv3, a format string from user space.

    ** Fuel

    - The region tree has at most 256 nodes and the run queue 64, so 512 and 200
      iterations exceed every path in them.  Page loops take one iteration per
      page of the size they are given.
    - Dropping log records takes at most one iteration per record, and the ring
      holds fewer than 2048.  Loops over a string or a blob take one iteration per
      mapped byte; loops over a local array one per cell (257 for paths); printing
      a number 24 digits, or 17 nibbles.
    - The free list of the heap has at most 512 blocks, so its walks take 513; the
      merge loop that does not end is shown to exceed every fuel, and to get to
      every count of iterations.
    - A UART wait loop has its own bound of a million polls in the code.  The busy
      loop of udelay waits for the counter, so its fuel is an argument, and the
      theorem says how much is enough for a counter that advances.
    - Clearing the static data takes one branch per word.
    - A walk along the task list takes one iteration per task structure.
    - An assembly block takes one branch per label it falls through or jumps to.

    ** Not modelled

    - tests/ and include/fs/vfs.h: tests, and declarations without bodies.
    - The idle task and the loops after a panic, which wait forever.
    - Hardware beyond its registers: the effect of the tables on the accesses of
      the kernel itself, caches, time.  Concurrency is that of one CPU with
      interrupts masked inside the critical sections; handlers run between calls,
      and the C functions called from assembly are what they do to the frame.
*)
From stdpp Require Import base gmap list option numbers.
From Stdlib Require Import ZArith Lia.

#[local] Open Scope Z_scope.

(** ** Machine integers *)

Definition u8 (x : Z) : Z := x mod 2 ^ 8.
Definition u16 (x : Z) : Z := x mod 2 ^ 16.
Definition u32 (x : Z) : Z := x mod 2 ^ 32.
Definition u64 (x : Z) : Z := x mod 2 ^ 64.

(** Reinterpretation of a 32-bit pattern as a signed [int]. *)
Definition s32 (x : Z) : Z :=
  let y := x mod 2 ^ 32 in if y <? 2 ^ 31 then y else y - 2 ^ 32.

(** A 64-bit pattern as an [int64_t]. *)
Definition s64 (x : Z) : Z := let y := x mod 2 ^ 64 in if y <? 2 ^ 63 then y else y - 2 ^ 64.

Definition is_u8 (x : Z) : Prop := 0 ≤ x < 2 ^ 8.
Definition is_u32 (x : Z) : Prop := 0 ≤ x < 2 ^ 32.
Definition is_u64 (x : Z) : Prop := 0 ≤ x < 2 ^ 64.

(** C truth values of integers. *)
Definition ctrue (x : Z) : bool := negb (x =? 0).

(** ** The state monad of the C fragment

    A computation threads the state of a component.  [None] stands for
    behaviour the C standard leaves undefined (a null or dangling
    dereference, an index outside an array) and for a loop that outlives its
    fuel or spins forever: a theorem whose conclusion is a [wp] therefore
    states termination and memory safety together with the result. *)

Definition ST (S A : Type) : Type := S → option (A * S).

#[global] Instance st_ret S : MRet (ST S) := λ A a s, Some (a, s).
#[global] Instance st_bind S : MBind (ST S) := λ A B k m s,
  match m s with
  | Some (a, s') => k a s'
  | None => None
  end.

Definition gets {S A} (f : S → A) : ST S A := λ s, Some (f s, s).
Definition modify {S} (f : S → S) : ST S unit := λ s, Some (tt, f s).
Definition undef {S A} : ST S A := λ _, None.

(** Reading an option that the C code dereferences without a test. *)
Definition deref {S A} (o : option A) : ST S A := λ s,
  match o with
  | Some a => Some (a, s)
  | None => None
  end.

Definition when {S} (b : bool) (m : ST S unit) : ST S unit :=
  if b then m else mret tt.

(** Running a computation on a part of a larger state. *)
Definition zoom {S T A} (g : S → T) (p : T → S → S) (m : ST T A) : ST S A := λ s,
  match m (g s) with
  | Some (a, t) => Some (a, p t s)
  | None => None
  end.

(** [for (i = from; n more iterations; i++) body], without and with an early
    [return] out of the loop. *)
Fixpoint for_each {S} (n : nat) (i : Z) (body : Z → ST S unit) : ST S unit :=
  match n with
  | O => mret tt
  | Datatypes.S n => body i;; for_each n (i + 1) body
  end.

Fixpoint for_ret {S R} (n : nat) (i : Z) (body : Z → ST S (option R))
    : ST S (option R) :=
  match n with
  | O => mret None
  | Datatypes.S n =>
      r ← body i;
      match r with
      | Some v => mret (Some v)
      | None => for_ret n (i + 1) body
      end
  end.

#[global] Arguments u8 : simpl never.
#[global] Arguments u16 : simpl never.
#[global] Arguments u32 : simpl never.
#[global] Arguments u64 : simpl never.

(** ** Weakest preconditions (total correctness) *)

Definition wp {S A} (m : ST S A) (Q : A → S → Prop) (s : S) : Prop :=
  ∃ a s', m s = Some (a, s') ∧ Q a s'.

Section wp.
Context {S : Type}.
Implicit Types (s : S).

Lemma wp_ret {A} (a : A) (Q : A → S → Prop) s : Q a s → wp (mret a) Q s.
Proof. intros H. by exists a, s. Qed.

Lemma wp_bind {A B} (m : ST S A) (k : A → ST S B) Q s :
  wp m (λ a, wp (k a) Q) s → wp (m ≫= k) Q s.
Proof.
  intros (a & s' & Hm & b & s'' & Hk & HQ). exists b, s''.
  split; [|done]. unfold mbind, st_bind. by rewrite Hm.
Qed.

Lemma wp_gets {A} (f : S → A) (Q : A → S → Prop) s : Q (f s) s → wp (gets f) Q s.
Proof. intros H. by exists (f s), s. Qed.

Lemma wp_modify (f : S → S) (Q : unit → S → Prop) s :
  Q tt (f s) → wp (modify f) Q s.
Proof. intros H. by exists tt, (f s). Qed.

Lemma wp_deref {A} (o : option A) a (Q : A → S → Prop) s :
  o = Some a → Q a s → wp (deref o) Q s.
Proof. intros -> H. by exists a, s. Qed.

Lemma wp_mono {A} (m : ST S A) (P Q : A → S → Prop) s :
  wp m P s → (∀ a s', P a s' → Q a s') → wp m Q s.
Proof. intros (a & s' & Hm & HP) HPQ. exists a, s'. auto. Qed.

Lemma wp_when b (m : ST S unit) (Q : unit → S → Prop) s :
  (b = true → wp m Q s) → (b = false → Q tt s) → wp (when b m) Q s.
Proof. destruct b; simpl; intros H1 H2; [auto|]. apply wp_ret; auto. Qed.

Lemma wp_eq {A} (m : ST S A) (Q : A → S → Prop) s a s' :
  m s = Some (a, s') → Q a s' → wp m Q s.
Proof. intros ??. by exists a, s'. Qed.

(** A computation has one outcome. *)
Lemma wp_det {A} (m : ST S A) (Q : A → S → Prop) s a s' :
  wp m Q s → m s = Some (a, s') → Q a s'.
Proof. intros (b & t & Hm & HQ) Hm'. rewrite Hm in Hm'. by simplify_eq. Qed.

Lemma wp_conj {A} (m : ST S A) (P Q : A → S → Prop) s :
  wp m P s → wp m Q s → wp m (λ a s', P a s' ∧ Q a s') s.
Proof.
  intros (a & s' & Hm & HP) HQ. exists a, s'. split; [done|].
  split; [done|]. eapply wp_det; eauto.
Qed.

(** Loop rules: an invariant indexed by the loop variable. *)
Lemma wp_for_each (I : Z → S → Prop) n i body (Q : unit → S → Prop) s :
  I i s →
  (∀ j s, i ≤ j < i + Z.of_nat n → I j s → wp (body j) (λ _, I (j + 1)) s) →
  (∀ s, I (i + Z.of_nat n) s → Q tt s) →
  wp (for_each n i body) Q s.
Proof.
  revert i s. induction n as [|n IH]; intros i s HI Hbody HQ; simpl.
  - apply wp_ret, HQ. by replace (i + Z.of_nat 0) with i by lia.
  - apply wp_bind. eapply wp_mono; [apply Hbody; [lia|done]|].
    intros [] s' HI'. apply IH; [done| |].
    + intros j s'' Hj. apply Hbody. lia.
    + intros s'' H. apply HQ. by replace (i + Z.of_nat (Datatypes.S n))
        with (i + 1 + Z.of_nat n) by lia.
Qed.

Lemma wp_for_ret {R} (I : Z → S → Prop) n i body
    (Q : option R → S → Prop) s :
  I i s →
  (∀ j s, i ≤ j < i + Z.of_nat n → I j s →
    wp (body j) (λ r s', match r with
                         | Some v => Q (Some v) s'
                         | None => I (j + 1) s'
                         end) s) →
  (∀ s, I (i + Z.of_nat n) s → Q None s) →
  wp (for_ret n i body) Q s.
Proof.
  revert i s. induction n as [|n IH]; intros i s HI Hbody HQ; simpl.
  - apply wp_ret, HQ. by replace (i + Z.of_nat 0) with i by lia.
  - apply wp_bind. eapply wp_mono; [apply Hbody; [lia|done]|].
    intros [v|] s' H; [by apply wp_ret|]. apply IH; [done| |].
    + intros j s'' Hj. apply Hbody. lia.
    + intros s'' H'. apply HQ. by replace (i + Z.of_nat (Datatypes.S n))
        with (i + 1 + Z.of_nat n) by lia.
Qed.
End wp.

Lemma wp_zoom {S T A} (g : S → T) (p : T → S → S) (m : ST T A)
    (Q : A → S → Prop) s :
  wp m (λ a t, Q a (p t s)) (g s) → wp (zoom g p m) Q s.
Proof.
  intros (a & t & Hm & HQ). exists a, (p t s). unfold zoom. by rewrite Hm.
Qed.

#[global] Arguments for_each : simpl never.
#[global] Arguments for_ret : simpl never.

(** One symbolic step of a monadic program. *)
Ltac wp_step :=
  lazymatch goal with
  | |- wp (mret _) _ _ => apply wp_ret
  | |- wp (_ ≫= _) _ _ => apply wp_bind
  | |- wp (gets _) _ _ => apply wp_gets
  | |- wp (modify _) _ _ => apply wp_modify
  | |- wp (deref _) _ _ => eapply wp_deref
  | |- wp (zoom _ _ _) _ _ => apply wp_zoom
  | |- wp (when _ _) _ _ => apply wp_when; intros ?
  end.
Ltac wp_steps := repeat (wp_step; simpl).

(** Undoing a step: what a successful composite computation went through. *)
Lemma st_bind_inv {S A B} (m : ST S A) (k : A → ST S B) s r :
  (m ≫= k) s = Some r → ∃ a s', m s = Some (a, s') ∧ k a s' = Some r.
Proof.
  unfold mbind, st_bind. destruct (m s) as [[a s']|]; [|done]. eauto.
Qed.

(** ** Bits of words *)

Create HintDb arcline.
Create Rewrite HintDb bits.

Lemma testbit_bit1 b k : 0 ≤ b → Z.testbit (Z.shiftl 1 b) k = (k =? b).
Proof.
  intros Hb. rewrite Z.shiftl_1_l. destruct (Z.eqb_spec k b) as [->|Hne].
  - by apply Z.pow2_bits_true.
  - apply Z.pow2_bits_false. lia.
Qed.

Lemma testbit_u (w x k : Z) :
  0 ≤ w → 0 ≤ k → Z.testbit (x mod 2 ^ w) k = (k <? w) && Z.testbit x k.
Proof.
  intros Hw Hk. rewrite <-Z.land_ones by done. rewrite Z.land_spec.
  destruct (Z.ltb_spec k w).
  - rewrite Z.ones_spec_low by lia. by destruct (Z.testbit x k).
  - rewrite Z.ones_spec_high by lia. by destruct (Z.testbit x k).
Qed.

(** [w & (1 << b)] as a C condition. *)
Lemma land_bit1_eqb x b :
  0 ≤ b → (Z.land x (Z.shiftl 1 b) =? 0) = negb (Z.testbit x b).
Proof.
  intros Hb. destruct (Z.testbit x b) eqn:E; simpl.
  - apply Z.eqb_neq. intros H. assert (Z.testbit (Z.land x (Z.shiftl 1 b)) b = false)
      by (rewrite H; apply Z.bits_0).
    rewrite Z.land_spec, testbit_bit1, Z.eqb_refl, E in H0; done.
  - apply Z.eqb_eq, Z.bits_inj'. intros k Hk.
    rewrite Z.land_spec, testbit_bit1, Z.bits_0 by done.
    destruct (Z.eqb_spec k b) as [->|]; [by rewrite E|apply andb_false_r].
Qed.

Lemma bits_above w x k : 0 ≤ x < 2 ^ w → w ≤ k → Z.testbit x k = false.
Proof.
  intros [H0 Hx] Hk. destruct (Z.eq_dec x 0) as [->|]; [apply Z.bits_0|].
  apply Z.bits_above_log2; [done|]. apply Z.log2_lt_pow2; [lia|].
  eapply Z.lt_le_trans; [exact Hx|]. apply Z.pow_le_mono_r; lia.
Qed.

Lemma bits_range w x :
  0 ≤ w → 0 ≤ x → (∀ k, w ≤ k → Z.testbit x k = false) → 0 ≤ x < 2 ^ w.
Proof.
  intros Hw Hx Hk. split; [done|].
  destruct (Z.eq_dec x 0) as [->|]; [apply Z.pow_pos_nonneg; lia|].
  apply Z.log2_lt_pow2; [lia|].
  destruct (Z.lt_ge_cases (Z.log2 x) w); [done|].
  specialize (Hk _ H). rewrite Z.bit_log2 in Hk by lia. done.
Qed.

Lemma lor_range w x y : 0 ≤ w → 0 ≤ x < 2 ^ w → 0 ≤ y < 2 ^ w → 0 ≤ Z.lor x y < 2 ^ w.
Proof.
  intros Hw Hx Hy. apply bits_range; [done|apply Z.lor_nonneg; lia|].
  intros k Hk. rewrite Z.lor_spec, !(bits_above w) by done. done.
Qed.

Lemma land_range w x y : 0 ≤ w → 0 ≤ x < 2 ^ w → 0 ≤ y → 0 ≤ Z.land x y < 2 ^ w.
Proof.
  intros Hw Hx Hy. apply bits_range; [done|apply Z.land_nonneg; lia|].
  intros k Hk. rewrite Z.land_spec, (bits_above w) by done. done.
Qed.

Lemma bit1_range w b : 0 ≤ b < w → 0 ≤ Z.shiftl 1 b < 2 ^ w.
Proof.
  intros Hb. rewrite Z.shiftl_1_l. split; [apply Z.pow_nonneg; lia|].
  apply Z.pow_lt_mono_r; lia.
Qed.

(** [x & ~mask] at width [w], for a mask of [k] low bits: rounding down. *)
Lemma land_lnot_ones w k x :
  0 ≤ k ≤ w → 0 ≤ x < 2 ^ w →
  Z.land x (Z.lnot (2 ^ k - 1) mod 2 ^ w) = x / 2 ^ k * 2 ^ k.
Proof.
  intros Hk Hx. rewrite <-Z.shiftr_div_pow2, <-Z.shiftl_mul_pow2 by lia.
  apply Z.bits_inj'. intros b Hb.
  replace (2 ^ k - 1) with (Z.ones k) by (rewrite Z.ones_equiv; lia).
  rewrite Z.land_spec, testbit_u, Z.lnot_spec by lia.
  destruct (Z.lt_ge_cases b k).
  - rewrite Z.ones_spec_low, Z.shiftl_spec_low by lia. by rewrite !andb_false_r.
  - rewrite Z.ones_spec_high, Z.shiftl_spec, Z.shiftr_spec by lia.
    replace (b - k + k) with b by lia. simpl. rewrite andb_true_r.
    destruct (Z.ltb_spec b w); [by rewrite andb_true_r|].
    rewrite (bits_above w x) by done. done.
Qed.

Lemma land_ones_mod k x : 0 ≤ k → Z.land x (2 ^ k - 1) = x mod 2 ^ k.
Proof.
  intros Hk. rewrite <-Z.land_ones by done. by rewrite Z.ones_equiv, Z.sub_1_r.
Qed.

Lemma wrap_small w x : 0 ≤ x < 2 ^ w → x mod 2 ^ w = x.
Proof. apply Z.mod_small. Qed.

#[export] Hint Resolve lor_range land_range bit1_range : arcline.
#[export] Hint Rewrite Z.lor_spec Z.land_spec Z.lxor_spec : bits.

(** ** Counting over an index range *)

Fixpoint countb (f : Z → bool) (i : Z) (n : nat) : Z :=
  match n with
  | O => 0
  | S n => (if f i then 1 else 0) + countb f (i + 1) n
  end.

Lemma countb_range f i n : 0 ≤ countb f i n ≤ Z.of_nat n.
Proof.
  revert i. induction n as [|n IH]; intros i; simpl; [lia|].
  specialize (IH (i + 1)). destruct (f i); lia.
Qed.

Lemma countb_ext f g i n :
  (∀ j, i ≤ j < i + Z.of_nat n → f j = g j) → countb f i n = countb g i n.
Proof.
  revert i. induction n as [|n IH]; intros i H; simpl; [done|].
  rewrite (H i) by lia. rewrite (IH (i + 1)); [done|]. intros j Hj. apply H. lia.
Qed.

Lemma countb_app f i n m :
  countb f i (n + m) = countb f i n + countb f (i + Z.of_nat n) m.
Proof.
  revert i. induction n as [|n IH]; intros i; simpl; [by rewrite Z.add_0_r|].
  rewrite IH. replace (i + 1 + Z.of_nat n) with (i + Z.of_nat (S n)) by lia.
  destruct (f i); lia.
Qed.

(** Flipping one index moves the count by one. *)
Lemma countb_update f g i n k :
  i ≤ k < i + Z.of_nat n →
  (∀ j, j ≠ k → f j = g j) → f k = false → g k = true →
  countb g i n = countb f i n + 1.
Proof.
  revert i. induction n as [|n IH]; intros i Hk Hne Hf Hg; simpl; [lia|].
  destruct (Z.eq_dec i k) as [->|].
  - rewrite Hf, Hg, (countb_ext f g); [lia|]. intros j Hj. apply Hne. lia.
  - rewrite (Hne i) by lia. rewrite (IH (i + 1)) by (done || lia). lia.
Qed.

Lemma countb_all f i n :
  (∀ j, i ≤ j < i + Z.of_nat n → f j = true) → countb f i n = Z.of_nat n.
Proof.
  revert i. induction n as [|n IH]; intros i H; simpl; [done|].
  rewrite H, IH by (intros; try apply H; lia). lia.
Qed.

Lemma countb_none f i n :
  (∀ j, i ≤ j < i + Z.of_nat n → f j = false) → countb f i n = 0.
Proof.
  revert i. induction n as [|n IH]; intros i H; simpl; [done|].
  rewrite H, IH by (intros; try apply H; lia). lia.
Qed.

Lemma countb_negb f i n : countb (λ j, negb (f j)) i n = Z.of_nat n - countb f i n.
Proof.
  revert i. induction n as [|n IH]; intros i; simpl; [done|].
  rewrite IH. destruct (f i); simpl; lia.
Qed.

(** Clearing a range on which the predicate held lowers the count by its
    length. *)
Lemma countb_clear_range f g n lo hi :
  0 ≤ lo ≤ hi → hi ≤ Z.of_nat n →
  (∀ j, lo ≤ j < hi → f j = true) →
  (∀ j, 0 ≤ j → g j = if (lo <=? j) && (j <? hi) then false else f j) →
  countb g 0 n = countb f 0 n - (hi - lo).
Proof.
  intros Hlo Hhi Hf Hg.
  replace n with (Z.to_nat lo + (Z.to_nat (hi - lo) + (n - Z.to_nat hi)))%nat by lia.
  rewrite !countb_app, (countb_all f (0 + _)), (countb_none g (0 + _));
    [|intros; rewrite Hg by lia; destruct (Z.leb_spec lo j), (Z.ltb_spec j hi); done || lia
     |intros; apply Hf; lia].
  rewrite (countb_ext g f), (countb_ext g f (_ + _)); [lia| |];
    intros j Hj; rewrite Hg by lia;
    destruct (Z.leb_spec lo j), (Z.ltb_spec j hi); done || lia.
Qed.
