(* ===== verification/Panic.v ===== *)
(** * Computations that may panic

    [panic] does not return: the rest of the computation is dropped.  An inner
    [None] is a panic, as opposed to the undefined behaviour of [ST]; [pwp]
    excludes both. *)
From stdpp Require Import base list option numbers.
From S2P Require Import Prelude.

Abbreviation PS S A := (ST S (option A)).

Section panic.
Context {S : Type}.

Definition pret {A} (a : A) : PS S A := mret (Some a).
Definition panic {A} : PS S A := mret None.
Definition pbind {A B} (m : PS S A) (k : A → PS S B) : PS S B :=
  r ← m; match r with Some a => k a | None => mret None end.
(** [if (!b) panic(...)] *)
Definition require (b : bool) : PS S unit := if b then pret tt else panic.

(** ** Running without a panic *)

Definition pwp {A} (m : PS S A) (Q : A → S → Prop) (s : S) : Prop :=
  wp m (λ r s', match r with Some a => Q a s' | None => False end) s.

Lemma pwp_ret {A} (a : A) Q s : Q a s → pwp (pret a) Q s.
Proof. intros H. by apply wp_ret. Qed.
Lemma pwp_bind {A B} (m : PS S A) (k : A → PS S B) Q s :
  pwp m (λ a, pwp (k a) Q) s → pwp (pbind m k) Q s.
Proof.
  intros H. apply wp_bind. eapply wp_mono; [exact H|]. intros [a|] s'; [done|by intros []].
Qed.
Lemma pwp_lift {A B} (m : ST S A) (k : A → PS S B) Q s :
  wp m (λ a, pwp (k a) Q) s → pwp (m ≫= k) Q s.
Proof. apply wp_bind. Qed.
Lemma pwp_mono {A} (m : PS S A) (P Q : A → S → Prop) s :
  pwp m P s → (∀ a s', P a s' → Q a s') → pwp m Q s.
Proof. intros H HPQ. eapply wp_mono; [exact H|]. intros [a|] s'; [apply HPQ|done]. Qed.
Lemma pwp_require (b : bool) (Q : unit → S → Prop) s : b = true → Q tt s → pwp (require b) Q s.
Proof. intros -> H. by apply pwp_ret. Qed.
End panic.

(** A computation on a part of a larger state keeps its panics. *)
Lemma pwp_zoom {S T A} (g : S → T) (p : T → S → S) (m : PS T A) (Q : A → S → Prop) s :
  pwp m (λ a t, Q a (p t s)) (g s) → pwp (zoom g p m) Q s.
Proof. intros H. apply wp_zoom. eapply wp_mono; [exact H|]. by intros [a|] t. Qed.

Declare Scope panic_scope.
Delimit Scope panic_scope with panic.
Notation "x ←! m ; k" := (pbind m (λ x, k))
  (at level 20, m at level 100, k at level 200, right associativity) : panic_scope.
Notation "m ;! k" := (pbind m (λ _, k)) (at level 100, right associativity) : panic_scope.
