(* ===== verification/Spinlock.v ===== *)
(** * Spinlocks (include/kernel/spinlock.h)

    A component that owns a spinlock exposes its lock word through the class
    [HasLock], and one whose critical sections mask interrupts exposes the
    DAIF register of the CPU through [HasDaif]; the lock operations are
    written against those interfaces. *)
From stdpp Require Import base option numbers.
From S2P Require Import Prelude.
#[local] Open Scope Z_scope.

(** The interrupt mask bit set by [msr daifset, #2] (PSTATE.I). *)
Definition DAIF_I : Z := 128.

Class HasLock (S : Type) := {
  lk_word : S → Z;
  lk_set_word : Z → S → S;
}.

Class HasDaif (S : Type) := {
  lk_daif : S → Z;
  lk_set_daif : Z → S → S;
}.

Section spinlock.
Context {S : Type} `{!HasLock S, !HasDaif S}.

Definition spinlock_init : ST S unit := modify (lk_set_word 0).

(** The exclusive-load loop leaves only when it has read 0 and stored 1.
    On the single CPU the kernel runs on nobody else can release a lock
    that is already taken: acquiring it then never returns. *)
Definition spinlock_lock : ST S unit := λ s,
  if lk_word s =? 0 then Some (tt, lk_set_word 1 s) else None.

Definition spinlock_unlock : ST S unit := modify (lk_set_word 0).

Definition spinlock_lock_irqsave : ST S Z :=
  flags ← gets lk_daif;
  modify (λ s, lk_set_daif (Z.lor (lk_daif s) DAIF_I) s);;
  spinlock_lock;;
  mret flags.

Definition spinlock_unlock_irqrestore (flags : Z) : ST S unit :=
  spinlock_unlock;;
  modify (lk_set_daif flags).

Lemma wp_spinlock_lock (Q : unit → S → Prop) s :
  lk_word s = 0 → Q tt (lk_set_word 1 s) → wp spinlock_lock Q s.
Proof. intros Hw HQ. eapply wp_eq; [|exact HQ]. unfold spinlock_lock. by rewrite Hw. Qed.

Lemma wp_spinlock_unlock (Q : unit → S → Prop) s :
  Q tt (lk_set_word 0 s) → wp spinlock_unlock Q s.
Proof. apply wp_modify. Qed.

Lemma wp_lock_irqsave (Q : Z → S → Prop) s :
  (∀ v, lk_word (lk_set_daif v s) = 0) →
  Q (lk_daif s) (lk_set_word 1 (lk_set_daif (Z.lor (lk_daif s) DAIF_I) s)) →
  wp spinlock_lock_irqsave Q s.
Proof.
  intros Hw HQ. unfold spinlock_lock_irqsave. wp_steps.
  apply wp_spinlock_lock; [apply Hw|]. by wp_steps.
Qed.

Lemma wp_unlock_irqrestore flags (Q : unit → S → Prop) s :
  Q tt (lk_set_daif flags (lk_set_word 0 s)) →
  wp (spinlock_unlock_irqrestore flags) Q s.
Proof.
  intros HQ. unfold spinlock_unlock_irqrestore.
  apply wp_bind, wp_spinlock_unlock, wp_modify, HQ.
Qed.
End spinlock.
