(* ===== verification/Atomic.v ===== *)
(** * Atomic cells (include/kernel/atomic.h)

    Every operation is one indivisible step on a cell of [w] bits; the order in
    which the CPUs take their steps is the order of a list. *)
From stdpp Require Import base list option numbers.
From S2P Require Import Prelude.
#[local] Open Scope Z_scope.

Module Atomic.

Section atomic.
(** 32 or 64. *)
Context (w : Z).
Definition uw (x : Z) : Z := x mod 2 ^ w.

Definition atomic_read : ST Z Z := gets id.
Definition atomic_write (val : Z) : ST Z unit := modify (λ _, val).
Definition atomic_inc : ST Z Z := modify (λ x, uw (x + 1));; gets id.
Definition atomic_dec : ST Z Z := modify (λ x, uw (x - 1));; gets id.
(** The result is the value found, whether or not it was exchanged. *)
Definition atomic_cmpxchg (old new : Z) : ST Z Z :=
  x ← gets id; when (x =? old) (modify (λ _, new));; mret x.
Definition atomic_fetch_and (val : Z) : ST Z Z := x ← gets id; modify (λ x, Z.land x val);; mret x.
Definition atomic_fetch_or (val : Z) : ST Z Z := x ← gets id; modify (λ x, Z.lor x val);; mret x.
End atomic.

Definition atomic_read64 : ST Z Z := atomic_read.
Definition atomic_write64 (val : Z) : ST Z unit := atomic_write val.
Definition atomic_inc64 : ST Z Z := atomic_inc 64.
Definition atomic_fetch_and64 (val : Z) : ST Z Z := atomic_fetch_and val.
Definition atomic_fetch_or64 (val : Z) : ST Z Z := atomic_fetch_or val.

(** ** Tickets *)

Section tickets.
Context (w : Z) (Hw : 0 < w).

(** The results of [n] increments, by whichever CPUs. *)
Fixpoint tickets (n : nat) : ST Z (list Z) :=
  match n with O => mret [] | S n => t ← atomic_inc w; ts ← tickets n; mret (t :: ts) end.

Lemma tickets_are n x :
  ∃ y, tickets n x = Some ((λ i, uw w (x + 1 + Z.of_nat i)) <$> seq 0 n, y).
Proof.
  revert x. induction n as [|n IH]; intros x; [by eexists|]. destruct (IH (uw w (x + 1))) as [y E]. exists y.
  cbn [tickets]. unfold atomic_inc, mbind, st_bind, gets, modify, id. rewrite E. unfold mret, st_ret, uw.
  change (seq 0 (S n)) with (0%nat :: seq 1 n). rewrite <-fmap_S_seq, fmap_cons, Z.add_0_r, <-list_fmap_compose.
  do 3 f_equal. apply list_fmap_ext. intros i j _. cbn [compose]. rewrite <-Z.add_assoc, Zplus_mod_idemp_l. f_equal. lia.
Qed.

(** No two of [2 ^ w] increments in a row return the same value. *)
Lemma tickets_distinct n x ts y :
  Z.of_nat n ≤ 2 ^ w → tickets n x = Some (ts, y) → NoDup ts.
Proof.
  intros Hn Ht. destruct (tickets_are n x) as [z E]. rewrite E in Ht. injection Ht as <- _. apply NoDup_fmap_2_strong; [|apply NoDup_seq].
  intros i j Hi%elem_of_seq Hj%elem_of_seq Hij. unfold uw in Hij.
  assert (0 < 2 ^ w) by (apply Z.pow_pos_nonneg; lia).
  assert (Hd : (Z.of_nat i - Z.of_nat j) mod 2 ^ w = 0).
  { replace (Z.of_nat i - Z.of_nat j) with ((x + 1 + Z.of_nat i) - (x + 1 + Z.of_nat j)) by lia. rewrite Zminus_mod, Hij, Z.sub_diag. apply Zmod_0_l. }
  apply Z.mod_divide in Hd as [q Hq]; [|lia]. assert (q = 0) by nia. lia.
Qed.
End tickets.

(** A failed exchange leaves the cell alone. *)
Lemma atomic_cmpxchg_spec old new x :
  atomic_cmpxchg old new x = Some (x, if x =? old then new else x).
Proof. unfold atomic_cmpxchg, when, mbind, st_bind, gets, modify, id. by destruct (x =? old). Qed.

End Atomic.
