(* ===== verification/Bitmap.v ===== *)
(** * Bitmaps over word arrays

    The page allocator, the pid allocator and the scheduler's node pool keep
    their occupancy in arrays of 8-, 32- and 64-bit words.  This file holds
    their common theory: an array of [n] words of [w] bits is a finite map
    whose domain is exactly the valid indices, so that an access outside the
    array is a failing lookup. *)
From stdpp Require Import base gmap list option numbers.
From S2P Require Import Prelude.
#[local] Open Scope Z_scope.

(** The [i]-th bit of the array. *)
Definition bm_bit (w : Z) (bm : gmap Z Z) (i : Z) : bool :=
  match bm !! (i / w) with
  | Some x => Z.testbit x (i mod w)
  | None => false
  end.

(** An array of [n] words, each in the range of its width. *)
Record bm_ok (w n : Z) (bm : gmap Z Z) : Prop := {
  bm_ok_in : ∀ k, 0 ≤ k < n → ∃ x, bm !! k = Some x ∧ 0 ≤ x < 2 ^ w;
  bm_ok_dom : ∀ k x, bm !! k = Some x → 0 ≤ k < n;
}.

(** An array filled with one value, as an initialisation loop leaves it. *)
Fixpoint fill_words (n : nat) (i v : Z) : gmap Z Z :=
  match n with
  | O => ∅
  | S n => <[i := v]> (fill_words n (i + 1) v)
  end.
Definition bm_fill (n v : Z) : gmap Z Z := fill_words (Z.to_nat n) 0 v.

Section bitmap.
Context (w n : Z).
Hypothesis w_pos : 0 < w.
Implicit Types (bm : gmap Z Z) (i j k x v : Z).

Lemma bm_index i : 0 ≤ i < n * w → 0 ≤ i / w < n.
Proof.
  intros Hi. split; [apply Z.div_pos; lia|]. apply Z.div_lt_upper_bound; lia.
Qed.

Lemma bm_word bm i :
  bm_ok w n bm → 0 ≤ i < n * w → ∃ x, bm !! (i / w) = Some x ∧ 0 ≤ x < 2 ^ w.
Proof. intros H Hi. by apply H, bm_index. Qed.

Lemma bm_ok_insert bm k v :
  bm_ok w n bm → 0 ≤ k < n → 0 ≤ v < 2 ^ w → bm_ok w n (<[k := v]> bm).
Proof.
  intros [Hin Hdom] Hk Hv. split.
  - intros j Hj. destruct (decide (k = j)) as [->|].
    + exists v. by rewrite lookup_insert_eq.
    + rewrite lookup_insert_ne by done. by apply Hin.
  - intros j x Hj. destruct (decide (k = j)) as [->|]; [done|].
    rewrite lookup_insert_ne in Hj by done. eauto.
Qed.

(** A word store that changes bit [i] of its word to [b] and no other bit
    changes bit [i] of the array and no other bit. *)
Lemma bm_bit_insert bm i x v b j :
  0 ≤ i → 0 ≤ j →
  bm !! (i / w) = Some x →
  (∀ k, 0 ≤ k < w → Z.testbit v k = if k =? i mod w then b else Z.testbit x k) →
  bm_bit w (<[i / w := v]> bm) j = if j =? i then b else bm_bit w bm j.
Proof.
  intros Hi Hj Hx Hv. unfold bm_bit.
  assert (0 ≤ j mod w < w) by (apply Z.mod_pos_bound; lia).
  pose proof (Z.div_mod j w ltac:(lia)). pose proof (Z.div_mod i w ltac:(lia)).
  destruct (decide (i / w = j / w)) as [E|E].
  - rewrite E, lookup_insert_eq, Hv by done.
    destruct (Z.eqb_spec j i) as [->|Hji]; [by rewrite Z.eqb_refl|].
    destruct (Z.eqb_spec (j mod w) (i mod w)); [nia|].
    by rewrite <-E, Hx.
  - rewrite lookup_insert_ne by done.
    destruct (Z.eqb_spec j i) as [->|]; done.
Qed.

(** Bits determine the array. *)
Lemma bm_ext bm bm' :
  bm_ok w n bm → bm_ok w n bm' →
  (∀ i, 0 ≤ i < n * w → bm_bit w bm i = bm_bit w bm' i) → bm = bm'.
Proof.
  intros Hok Hok' Hbit. apply map_eq. intros k.
  destruct (decide (0 ≤ k < n)) as [Hk|Hk].
  - destruct (bm_ok_in _ _ _ Hok k Hk) as (x & Hx & Hrx).
    destruct (bm_ok_in _ _ _ Hok' k Hk) as (y & Hy & Hry).
    rewrite Hx, Hy. f_equal. apply Z.bits_inj'. intros b Hb.
    destruct (Z.lt_ge_cases b w).
    + specialize (Hbit (w * k + b) ltac:(nia)). unfold bm_bit in Hbit.
      rewrite (Z.mul_comm w k), Z.div_add_l, (Z.div_small b), Z.add_0_r in Hbit by lia.
      rewrite (Z.add_comm _ b), Z_mod_plus_full, Z.mod_small in Hbit by lia.
      by rewrite Hx, Hy in Hbit.
    + by rewrite !(bits_above w).
  - destruct (bm !! k) eqn:E, (bm' !! k) eqn:E'; [| | |done];
      [apply (bm_ok_dom _ _ _ Hok) in E|apply (bm_ok_dom _ _ _ Hok) in E|
       apply (bm_ok_dom _ _ _ Hok') in E']; lia.
Qed.

(** The words written by [bm[i / w] |= 1 << (i % w)] and
    [bm[i / w] &= ~(1 << (i % w))]. *)
Lemma bit_set_spec i x k :
  0 ≤ i → 0 ≤ k < w →
  Z.testbit (Z.lor x (Z.shiftl 1 (i mod w))) k =
    if k =? i mod w then true else Z.testbit x k.
Proof.
  intros Hi Hk. rewrite Z.lor_spec, testbit_bit1 by (apply Z.mod_pos_bound; lia).
  destruct (k =? i mod w); [apply orb_true_r|apply orb_false_r].
Qed.

Lemma bit_clear_spec i x k :
  0 ≤ i → 0 ≤ k < w →
  Z.testbit (Z.land x (Z.lnot (Z.shiftl 1 (i mod w)) mod 2 ^ w)) k =
    if k =? i mod w then false else Z.testbit x k.
Proof.
  intros Hi Hk. rewrite Z.land_spec, testbit_u, Z.lnot_spec, testbit_bit1
    by (try apply Z.mod_pos_bound; lia).
  destruct (Z.ltb_spec k w); [|lia]. simpl.
  destruct (k =? i mod w); simpl; [apply andb_false_r|apply andb_true_r].
Qed.

Lemma bit_set_range i x : 0 ≤ x < 2 ^ w → 0 ≤ Z.lor x (Z.shiftl 1 (i mod w)) < 2 ^ w.
Proof.
  intros Hx. apply lor_range; [lia|done|].
  apply bit1_range, Z.mod_pos_bound. lia.
Qed.

Lemma bit_clear_range i x :
  0 ≤ x < 2 ^ w → 0 ≤ Z.land x (Z.lnot (Z.shiftl 1 (i mod w)) mod 2 ^ w) < 2 ^ w.
Proof.
  intros Hx. apply land_range; [lia|done|].
  apply Z.mod_pos_bound, Z.pow_pos_nonneg; lia.
Qed.
End bitmap.

Lemma fill_words_lookup n i v k :
  fill_words n i v !! k = if decide (i ≤ k < i + Z.of_nat n) then Some v else None.
Proof.
  revert i. induction n as [|m IH]; intros i; cbn [fill_words].
  - rewrite lookup_empty. case_decide; [lia|done].
  - destruct (decide (i = k)) as [<-|].
    + rewrite lookup_insert_eq. clear IH. case_decide; [done|lia].
    + rewrite lookup_insert_ne, IH by done. clear IH.
      repeat case_decide; first [done|exfalso; lia].
Qed.

Lemma bm_fill_lookup n v k :
  bm_fill n v !! k = if decide (0 ≤ k < n) then Some v else None.
Proof.
  unfold bm_fill. rewrite fill_words_lookup.
  repeat case_decide; first [done|exfalso; lia].
Qed.

Lemma bm_fill_ok w n v : 0 ≤ v < 2 ^ w → bm_ok w n (bm_fill n v).
Proof.
  intros Hv. split.
  - intros k Hk. exists v. rewrite bm_fill_lookup. by case_decide.
  - intros k x. rewrite bm_fill_lookup. by case_decide.
Qed.

#[global] Arguments bm_fill : simpl never.
#[global] Arguments bm_bit : simpl never.
