(* ===== verification/Pid.v ===== *)
(** * The pid allocator (kernel/pid.c)

    State: the bitmap of 1024 32-bit words and the spinlock word.  The
    theorems give the allocator its contract over the set of pids in use:
    lowest-free-first allocation, exhaustion, release, and pid 0 reserved for
    the idle task. *)
From stdpp Require Import base gmap list option numbers.
From S2P Require Import Prelude Spinlock Bitmap.
#[local] Open Scope Z_scope.

Module Pid.

(** include/kernel/pid.h *)
Definition MAX_PID : Z := 32768.

Record pid_state := {
  pid_bitmap : gmap Z Z;
  pid_lock : Z;
}.

#[export] Instance pid_has_lock : HasLock pid_state := {|
  lk_word := pid_lock;
  lk_set_word v s := {| pid_bitmap := pid_bitmap s; pid_lock := v |};
|}.

Definition set_pid_bitmap (bm : gmap Z Z) (s : pid_state) : pid_state :=
  {| pid_bitmap := bm; pid_lock := pid_lock s |}.

(** The array accesses [pid_bitmap[word]]. *)
Definition load_word (word : Z) : ST pid_state Z :=
  bm ← gets pid_bitmap; deref (bm !! word).
Definition store_word (word v : Z) : ST pid_state unit :=
  bm ← gets pid_bitmap; _ ← deref (bm !! word);
  modify (set_pid_bitmap (<[word := v]> bm)).

Definition pid_init : ST pid_state unit :=
  modify (set_pid_bitmap (bm_fill 1024 0));;
  w ← load_word 0;
  store_word 0 (Z.lor w 1).

Definition pid_alloc : ST pid_state Z :=
  spinlock_lock;;
  r ← for_ret (Z.to_nat (MAX_PID - 1)) 1 (λ i,
    let word := Z.quot i 32 in
    let bit := Z.rem i 32 in
    w ← load_word word;
    if Z.land w (Z.shiftl 1 bit) =? 0 then
      store_word word (Z.lor w (Z.shiftl 1 bit));;
      spinlock_unlock;;
      mret (Some i)
    else mret None);
  match r with
  | Some i => mret i
  | None => spinlock_unlock;; mret (-1)
  end.

Definition pid_free (pid : Z) : ST pid_state unit :=
  if (pid <=? 0) || (MAX_PID <=? pid) then mret tt
  else
    spinlock_lock;;
    let word := Z.quot pid 32 in
    let bit := Z.rem pid 32 in
    w ← load_word word;
    store_word word (Z.land w (u32 (Z.lnot (Z.shiftl 1 bit))));;
    spinlock_unlock.

(** ** Contract *)

Definition pid_used (s : pid_state) (i : Z) : bool := bm_bit 32 (pid_bitmap s) i.

Record pid_ok (s : pid_state) : Prop := {
  pid_ok_bitmap : bm_ok 32 1024 (pid_bitmap s);
  pid_ok_idle : pid_used s 0 = true;
  pid_ok_lock : pid_lock s = 0;
}.

Lemma wp_load_word s i (Q : Z → pid_state → Prop) :
  bm_ok 32 1024 (pid_bitmap s) → 0 ≤ i < MAX_PID →
  (∀ w, pid_bitmap s !! (i / 32) = Some w → 0 ≤ w < 2 ^ 32 →
        Z.testbit w (i mod 32) = pid_used s i → Q w s) →
  wp (load_word (Z.quot i 32)) Q s.
Proof.
  unfold MAX_PID. intros Hok Hi HQ. rewrite Z.quot_div_nonneg by lia.
  destruct (bm_word 32 1024 ltac:(lia) _ i Hok ltac:(lia)) as (w & Hw & Hrw).
  unfold load_word. wp_steps; [exact Hw|]. apply HQ; [done..|].
  unfold pid_used, bm_bit. by rewrite Hw.
Qed.

Lemma wp_store_word s i w v b (Q : unit → pid_state → Prop) :
  bm_ok 32 1024 (pid_bitmap s) → 0 ≤ i < MAX_PID →
  pid_bitmap s !! (i / 32) = Some w → 0 ≤ v < 2 ^ 32 →
  (∀ k, 0 ≤ k < 32 → Z.testbit v k = if k =? i mod 32 then b else Z.testbit w k) →
  (∀ bm, bm_ok 32 1024 bm →
         (∀ j, 0 ≤ j → bm_bit 32 bm j = if j =? i then b else pid_used s j) →
         Q tt (set_pid_bitmap bm s)) →
  wp (store_word (Z.quot i 32) v) Q s.
Proof.
  unfold MAX_PID. intros Hok Hi Hw Hv Hb HQ. rewrite Z.quot_div_nonneg by lia.
  unfold store_word. wp_steps; [exact Hw|]. wp_steps. apply HQ.
  - apply bm_ok_insert; [done| |done]. apply bm_index; lia.
  - intros j Hj. apply (bm_bit_insert 32 ltac:(lia) _ _ w); [lia..|done|done].
Qed.

(** [pid_init] leaves exactly pid 0 in use. *)
Lemma wp_pid_init s :
  pid_lock s = 0 →
  wp pid_init (λ _ s', pid_ok s' ∧ ∀ i, 0 ≤ i → pid_used s' i = (i =? 0)) s.
Proof.
  intros Hl. unfold pid_init. apply wp_bind, wp_modify, wp_bind.
  assert (Hfill : bm_ok 32 1024 (bm_fill 1024 0)) by (apply bm_fill_ok; lia).
  assert (Hfill0 : ∀ j, bm_bit 32 (bm_fill 1024 0) j = false).
  { intros j. unfold bm_bit. rewrite bm_fill_lookup. case_decide; [apply Z.bits_0|done]. }
  apply (wp_load_word _ 0); [done|unfold MAX_PID; lia|]. intros w Hw Hrw Hb.
  eapply (wp_store_word _ 0 w _ true); [done|unfold MAX_PID; lia|done| | |].
  - apply (lor_range 32); lia.
  - intros k Hk. apply (bit_set_spec 32 ltac:(lia) 0); lia.
  - intros bm Hbm Hbits. split; [split|]; [done| |done|].
    + exact (Hbits 0 ltac:(lia)).
    + intros i Hi. transitivity (bm_bit 32 bm i); [done|].
      rewrite Hbits by done. destruct (i =? 0); [done|apply Hfill0].
Qed.

(** Lowest pid first, or -1 when every pid is in use. *)
Lemma wp_pid_alloc s :
  pid_ok s →
  wp pid_alloc (λ r s',
    pid_ok s' ∧
    (0 < r < MAX_PID ∧ pid_used s r = false ∧
       (∀ j, 0 < j < r → pid_used s j = true) ∧
       (∀ j, 0 ≤ j → pid_used s' j = if j =? r then true else pid_used s j)
     ∨ r = -1 ∧ s' = s ∧ ∀ j, 0 < j < MAX_PID → pid_used s j = true)) s.
Proof.
  intros [Hbm Hidle Hlock]. unfold pid_alloc.
  apply wp_bind, wp_spinlock_lock; [done|]. apply wp_bind.
  set (s1 := lk_set_word 1 s).
  apply (wp_for_ret (λ i t, t = s1 ∧ ∀ j, 0 < j < i → pid_used s j = true)).
  - split; [done|]. lia.
  - intros i t Hi [-> Hlow]. unfold MAX_PID in *. wp_step.
    apply (wp_load_word _ i); [done|unfold MAX_PID; lia|].
    intros w Hw Hrw Hb. change (pid_used s1 i) with (pid_used s i) in Hb.
    assert (Hr : 0 ≤ i mod 32) by (apply Z.mod_pos_bound; lia).
    rewrite Z.rem_mod_nonneg, land_bit1_eqb, Hb by lia.
    destruct (pid_used s i) eqn:Eu; simpl.
    + wp_steps. split; [done|]. intros j Hj.
      destruct (Z.eq_dec j i) as [->|]; [done|]. apply Hlow. lia.
    + wp_step. eapply (wp_store_word _ i w _ true);
        [done|unfold MAX_PID; lia|done|apply bit_set_range; lia
        |intros k Hk; apply bit_set_spec; lia|].
      intros bm Hbm' Hbits. wp_step. apply wp_spinlock_unlock. wp_step.
      wp_step. split; [split; [done| |done]|].
      * unfold pid_used; simpl. rewrite Hbits by lia.
        destruct (0 =? i); [done|exact Hidle].
      * left. split_and!; [lia|lia|done|done|done].
  - intros t [-> Hall]. simpl. wp_step. apply wp_spinlock_unlock. wp_step.
    assert (Hs : lk_set_word 0 s1 = s) by (destruct s; simpl in *; by subst).
    rewrite Hs. split; [by split|]. right. split; [done|split; [done|]].
    intros j Hj. apply Hall. unfold MAX_PID in *. lia.
Qed.

(** Exactly the pid that is given is released. *)
Lemma wp_pid_free s pid :
  pid_ok s →
  wp (pid_free pid) (λ _ s',
    pid_ok s' ∧
    (pid ≤ 0 ∨ MAX_PID ≤ pid → s' = s) ∧
    (0 < pid < MAX_PID → ∀ j, 0 ≤ j →
      pid_used s' j = if j =? pid then false else pid_used s j)) s.
Proof.
  intros Hok. pose proof Hok as [Hbm Hidle Hlock]. unfold pid_free.
  destruct (_ || _) eqn:E; [wp_step; split_and!; [done|done|lia]|].
  assert (Hp : 0 < pid < MAX_PID) by lia.
  apply wp_bind, wp_spinlock_lock; [done|]. apply wp_bind.
  apply (wp_load_word _ pid); [done|lia|]. intros w Hw Hrw Hb.
  rewrite Z.rem_mod_nonneg by lia. unfold u32. wp_step.
  eapply (wp_store_word _ pid w _ false);
    [done|lia|done|apply bit_clear_range; lia|intros k Hk; apply bit_clear_spec; lia|].
  intros bm Hbm' Hbits. apply wp_spinlock_unlock. split_and!; [|lia|done].
  split; [done| |done]. unfold pid_used; simpl. rewrite Hbits by lia.
  destruct (Z.eqb_spec 0 pid); [lia|exact Hidle].
Qed.

(** The pids in use determine a quiescent allocator. *)
Lemma pid_state_ext s s' :
  pid_ok s → pid_ok s' →
  (∀ i, 0 ≤ i < MAX_PID → pid_used s i = pid_used s' i) → s = s'.
Proof.
  intros [Hbm _ Hl] [Hbm' _ Hl'] Hext. destruct s as [bm l], s' as [bm' l'].
  simpl in *. subst. f_equal. by apply (bm_ext 32 1024).
Qed.

(** [pid_alloc] returns the least pid that is not in use and marks exactly
    that pid, or returns -1 and changes nothing when every pid is in use; the
    lock is free again afterwards and pid 0 stays reserved. *)
Theorem pid_alloc_least s :
  pid_ok s →
  wp pid_alloc (λ r s',
    pid_ok s' ∧
    (0 < r < MAX_PID ∧ pid_used s r = false ∧
       (∀ j, 0 < j < r → pid_used s j = true) ∧
       (∀ j, 0 ≤ j → pid_used s' j = if j =? r then true else pid_used s j)
     ∨ r = -1 ∧ s' = s ∧ ∀ j, 0 < j < MAX_PID → pid_used s j = true)) s.
Proof. apply wp_pid_alloc. Qed.

Definition pid_static : pid_state := {| pid_bitmap := bm_fill 1024 0; pid_lock := 0 |}.
Lemma pid_alloc_least_witness :
  ∃ s, pid_init pid_static = Some (tt, s) ∧ pid_used s 1 = false ∧
  wp pid_alloc (λ r s',
    pid_ok s' ∧
    (0 < r < MAX_PID ∧ pid_used s r = false ∧
       (∀ j, 0 < j < r → pid_used s j = true) ∧
       (∀ j, 0 ≤ j → pid_used s' j = if j =? r then true else pid_used s j)
     ∨ r = -1 ∧ s' = s ∧ ∀ j, 0 < j < MAX_PID → pid_used s j = true)) s.
Proof.
  destruct (wp_pid_init pid_static eq_refl) as ([] & s & Hrun & Hok & Hused).
  exists s. split; [exact Hrun|]. split; [apply (Hused 1); lia|].
  exact (pid_alloc_least s Hok).
Defined.

(** Freeing the pid just allocated restores the allocator. *)
Theorem pid_alloc_free s r s' :
  pid_ok s → pid_alloc s = Some (r, s') → 0 < r →
  pid_free r s' = Some (tt, s).
Proof.
  intros Hok Ha Hr. pose proof (wp_det _ _ _ _ _ (wp_pid_alloc s Hok) Ha)
    as (Hok' & [(Hr' & Hfree & _ & Hbits)|(-> & _)]); [|lia].
  destruct (wp_pid_free s' r Hok') as ([] & s'' & Hf & Hok'' & _ & Hbits'').
  rewrite Hf. do 2 f_equal. apply pid_state_ext; [done..|]. intros i Hi.
  rewrite Hbits'', Hbits by lia. destruct (Z.eqb_spec i r) as [->|]; done.
Qed.
Lemma pid_alloc_free_witness :
  ∃ s r s', pid_ok s ∧ pid_alloc s = Some (r, s') ∧ 0 < r ∧ pid_free r s' = Some (tt, s).
Proof.
  destruct (wp_pid_init pid_static eq_refl) as ([] & s & Hrun & Hok & Hused).
  destruct (wp_pid_alloc s Hok) as (r & s' & Ha & Hok' & Hr). exists s, r, s'.
  assert (Hpos : 0 < r).
  { destruct Hr as [[Hr _]|(_ & _ & Hall)]; [lia|].
    pose proof (Hall 1 ltac:(unfold MAX_PID; lia)) as H1. pose proof (Hused 1 ltac:(lia)) as H2.
    rewrite H1 in H2. discriminate H2. }
  split; [exact Hok|]. split; [exact Ha|]. split; [exact Hpos|].
  exact (pid_alloc_free s r s' Hok Ha Hpos).
Defined.

End Pid.
