(* ===== verification/Pmm.v ===== *)
(** * The physical page allocator (mm/pmm.c)

    State: the page bitmap (one bit per page, set = allocated), the managed
    range, the page counters, the spinlock word and the CPU's interrupt mask.
    [printk] calls are not part of the state: they write to the log only. *)
From stdpp Require Import base gmap list option numbers.
From S2P Require Import Prelude Spinlock Bitmap.
#[local] Open Scope Z_scope.

Module Pmm.

(** include/mm/pmm.h and mm/pmm.c *)
Definition PMM_PAGE_SIZE : Z := 4096.
Definition PMM_MAX_PAGES : Z := 1048576.

Record pmm := {
  pmm_lock : Z;
  pmm_daif : Z;
  pmm_bitmap : gmap Z Z;
  pmm_mem_base : Z;
  pmm_mem_size : Z;
  pmm_pages_total : Z;
  pmm_pages_free : Z;
}.

Definition set_lock (v : Z) (s : pmm) : pmm :=
  {| pmm_lock := v; pmm_daif := pmm_daif s; pmm_bitmap := pmm_bitmap s;
     pmm_mem_base := pmm_mem_base s; pmm_mem_size := pmm_mem_size s;
     pmm_pages_total := pmm_pages_total s; pmm_pages_free := pmm_pages_free s |}.
Definition set_daif (v : Z) (s : pmm) : pmm :=
  {| pmm_lock := pmm_lock s; pmm_daif := v; pmm_bitmap := pmm_bitmap s;
     pmm_mem_base := pmm_mem_base s; pmm_mem_size := pmm_mem_size s;
     pmm_pages_total := pmm_pages_total s; pmm_pages_free := pmm_pages_free s |}.
Definition set_bitmap (v : gmap Z Z) (s : pmm) : pmm :=
  {| pmm_lock := pmm_lock s; pmm_daif := pmm_daif s; pmm_bitmap := v;
     pmm_mem_base := pmm_mem_base s; pmm_mem_size := pmm_mem_size s;
     pmm_pages_total := pmm_pages_total s; pmm_pages_free := pmm_pages_free s |}.
Definition set_range (base size : Z) (s : pmm) : pmm :=
  {| pmm_lock := pmm_lock s; pmm_daif := pmm_daif s; pmm_bitmap := pmm_bitmap s;
     pmm_mem_base := base; pmm_mem_size := size;
     pmm_pages_total := pmm_pages_total s; pmm_pages_free := pmm_pages_free s |}.
Definition set_pages_total (v : Z) (s : pmm) : pmm :=
  {| pmm_lock := pmm_lock s; pmm_daif := pmm_daif s; pmm_bitmap := pmm_bitmap s;
     pmm_mem_base := pmm_mem_base s; pmm_mem_size := pmm_mem_size s;
     pmm_pages_total := v; pmm_pages_free := pmm_pages_free s |}.
Definition set_pages_free (v : Z) (s : pmm) : pmm :=
  {| pmm_lock := pmm_lock s; pmm_daif := pmm_daif s; pmm_bitmap := pmm_bitmap s;
     pmm_mem_base := pmm_mem_base s; pmm_mem_size := pmm_mem_size s;
     pmm_pages_total := pmm_pages_total s; pmm_pages_free := v |}.

#[export] Instance pmm_has_lock : HasLock pmm :=
  {| lk_word := pmm_lock; lk_set_word := set_lock |}.
#[export] Instance pmm_has_daif : HasDaif pmm :=
  {| lk_daif := pmm_daif; lk_set_daif := set_daif |}.

(** ** Bit operations *)

Definition set_bit (idx : Z) : ST pmm unit :=
  bm ← gets pmm_bitmap;
  b ← deref (bm !! Z.shiftr idx 3);
  modify (set_bitmap (<[Z.shiftr idx 3 :=
    Z.lor b (u8 (Z.shiftl 1 (Z.land idx 7)))]> bm)).

Definition clear_bit (idx : Z) : ST pmm unit :=
  bm ← gets pmm_bitmap;
  b ← deref (bm !! Z.shiftr idx 3);
  modify (set_bitmap (<[Z.shiftr idx 3 :=
    Z.land b (u8 (Z.lnot (Z.shiftl 1 (Z.land idx 7))))]> bm)).

Definition test_bit (idx : Z) : ST pmm Z :=
  bm ← gets pmm_bitmap;
  b ← deref (bm !! Z.shiftr idx 3);
  mret (Z.land (Z.shiftr b (Z.land idx 7)) 1).

Definition addr_to_page (addr : Z) : ST pmm Z :=
  base ← gets pmm_mem_base;
  mret (u64 (addr - base) / PMM_PAGE_SIZE).

Definition page_to_addr (page : Z) : ST pmm Z :=
  base ← gets pmm_mem_base;
  mret (u64 (base + u64 (page * PMM_PAGE_SIZE))).

(** The mask [~(PMM_PAGE_SIZE - 1)]. *)
Definition page_mask : Z := u64 (Z.lnot (PMM_PAGE_SIZE - 1)).

Definition reserve_range (start size : Z) : ST pmm unit :=
  if size =? 0 then mret tt else
  base ← gets pmm_mem_base;
  msize ← gets pmm_mem_size;
  if u64 (start + size) <=? base then mret tt else
  if u64 (base + msize) <=? start then mret tt else
  let rstart := if start <? base then base else start in
  let rend0 := u64 (start + size) in
  let rlimit := u64 (base + msize) in
  let rend := if rlimit <? rend0 then rlimit else rend0 in
  first ← addr_to_page (Z.land rstart page_mask);
  last0 ← addr_to_page (Z.land (u64 (u64 (rend + PMM_PAGE_SIZE) - 1)) page_mask);
  total ← gets pmm_pages_total;
  let last := if total <? last0 then total else last0 in
  for_each (Z.to_nat (last - first)) first (λ i,
    t ← test_bit i;
    when (t =? 0)
      (set_bit i;;
       free ← gets pmm_pages_free;
       when (ctrue free) (modify (set_pages_free (free - 1))))).

(** ** Allocation *)

(** The scanning loop of [pmm_alloc_run], [n] iterations from page [i] with
    the loop-carried [run] and [run_start]; [Some p] is the early return. *)
Fixpoint alloc_scan (n : nat) (i run run_start count flags : Z)
    : ST pmm (option Z) :=
  match n with
  | O => mret None
  | S n =>
      t ← test_bit i;
      if t =? 0 then
        let run_start := if run =? 0 then i else run_start in
        let run := run + 1 in
        if run =? count then
          for_each (Z.to_nat count) 0 (λ j, set_bit (run_start + j));;
          modify (λ s, set_pages_free (u64 (pmm_pages_free s - count)) s);;
          spinlock_unlock_irqrestore flags;;
          a ← page_to_addr run_start;
          mret (Some a)
        else alloc_scan n (i + 1) run run_start count flags
      else alloc_scan n (i + 1) 0 run_start count flags
  end.

(** The result is the address as an integer; 0 is [NULL]. *)
Definition pmm_alloc_run (count : Z) : ST pmm Z :=
  flags ← spinlock_lock_irqsave;
  free ← gets pmm_pages_free;
  if (count =? 0) || (free <? count) then
    spinlock_unlock_irqrestore flags;; mret 0
  else
    total ← gets pmm_pages_total;
    r ← alloc_scan (Z.to_nat total) 0 0 0 count flags;
    match r with
    | Some a => mret a
    | None => spinlock_unlock_irqrestore flags;; mret 0
    end.

Definition pmm_alloc_pages (count : Z) : ST pmm Z := pmm_alloc_run count.
Definition pmm_alloc_page : ST pmm Z := pmm_alloc_run 1.

(** ** Release *)

(** The loop of [pmm_free_pages] from iteration [i]. *)
Fixpoint free_loop (fuel : nat) (i first count : Z) : ST pmm unit :=
  match fuel with
  | O => undef
  | S fuel =>
      total ← gets pmm_pages_total;
      if (i <? count) && (u64 (first + i) <? total) then
        let idx := u64 (first + i) in
        t ← test_bit idx;
        (if t =? 0 then mret tt
         else clear_bit idx;;
              modify (λ s, set_pages_free (u64 (pmm_pages_free s + 1)) s));;
        free_loop fuel (i + 1) first count
      else mret tt
  end.

Definition pmm_free_pages (addr count : Z) : ST pmm unit :=
  flags ← spinlock_lock_irqsave;
  if (addr =? 0) || (count =? 0) then spinlock_unlock_irqrestore flags else
  base ← gets pmm_mem_base;
  size ← gets pmm_mem_size;
  if (addr <? base) || (u64 (base + size) <=? addr) then
    spinlock_unlock_irqrestore flags else
  if ctrue (Z.land addr (PMM_PAGE_SIZE - 1)) then
    spinlock_unlock_irqrestore flags else
  first ← addr_to_page addr;
  total ← gets pmm_pages_total;
  free_loop (S (Z.to_nat total)) 0 first count;;
  spinlock_unlock_irqrestore flags.

Definition pmm_free_page (addr : Z) : ST pmm unit := pmm_free_pages addr 1.

(** ** Queries *)

Definition pmm_total_pages : ST pmm Z :=
  flags ← spinlock_lock_irqsave;
  total ← gets pmm_pages_total;
  spinlock_unlock_irqrestore flags;;
  mret total.

Definition pmm_free_pages_count : ST pmm Z :=
  flags ← spinlock_lock_irqsave;
  free_count ← gets pmm_pages_free;
  spinlock_unlock_irqrestore flags;;
  mret free_count.

(** The counting loop of [pmm_check]. *)
Fixpoint count_set (n : nat) (i set_count : Z) : ST pmm Z :=
  match n with
  | O => mret set_count
  | S n =>
      t ← test_bit i;
      count_set n (i + 1) (if ctrue t then set_count + 1 else set_count)
  end.

Definition pmm_check : ST pmm Z :=
  flags ← spinlock_lock_irqsave;
  total ← gets pmm_pages_total;
  set_count ← count_set (Z.to_nat total) 0 0;
  free ← gets pmm_pages_free;
  let expected_set := u64 (total - free) in
  if negb (set_count =? expected_set) then
    spinlock_unlock_irqrestore flags;; mret (-1)
  else
    spinlock_unlock_irqrestore flags;; mret 0.

(** ** Contract *)

Definition page_alloc (s : pmm) (i : Z) : bool := bm_bit 8 (pmm_bitmap s) i.

Definition free_pages (s : pmm) : Z :=
  countb (λ i, negb (page_alloc s i)) 0 (Z.to_nat (pmm_pages_total s)).

Record pmm_ok (s : pmm) : Prop := {
  ok_bitmap : bm_ok 8 131072 (pmm_bitmap s);
  ok_lock : pmm_lock s = 0;
  ok_base : 0 ≤ pmm_mem_base s ∧ pmm_mem_base s mod 4096 = 0 ∧
            pmm_mem_size s mod 4096 = 0;
  ok_range : 0 ≤ pmm_mem_size s ∧ pmm_mem_base s + pmm_mem_size s < 2 ^ 64;
  ok_total : 0 ≤ pmm_pages_total s ≤ PMM_MAX_PAGES;
  ok_total_size : pmm_pages_total s * 4096 ≤ pmm_mem_size s;
  ok_free : pmm_pages_free s = free_pages s;
}.

(** [s'] is [s] with the occupancy of pages [lo, hi) set to [b] and the free
    counter adjusted; nothing else differs. *)
Record pages_set (s s' : pmm) (lo hi : Z) (b : bool) : Prop := {
  ps_lock : pmm_lock s' = pmm_lock s;
  ps_daif : pmm_daif s' = pmm_daif s;
  ps_base : pmm_mem_base s' = pmm_mem_base s;
  ps_size : pmm_mem_size s' = pmm_mem_size s;
  ps_total : pmm_pages_total s' = pmm_pages_total s;
  ps_bits : ∀ j, 0 ≤ j →
    page_alloc s' j = if (lo <=? j) && (j <? hi) then b else page_alloc s j;
}.

(** A run of [count] free pages below page [lim], and the first one. *)
Definition is_run (s : pmm) (lim count p : Z) : Prop :=
  0 ≤ p ∧ p + count ≤ lim ∧ ∀ j, p ≤ j < p + count → page_alloc s j = false.
Definition first_fit (s : pmm) (count p : Z) : Prop :=
  is_run s (pmm_pages_total s) count p ∧
  ∀ q, 0 ≤ q < p → ¬ is_run s (pmm_pages_total s) count q.

(** ** Bit operations against the page predicate *)

Lemma shiftr_3 i : Z.shiftr i 3 = i / 8.
Proof. by rewrite Z.shiftr_div_pow2. Qed.
Lemma land_7 i : Z.land i 7 = i mod 8.
Proof. apply (land_ones_mod 3). lia. Qed.
Lemma mod8_range i : 0 ≤ i mod 8 < 8.
Proof. apply Z.mod_pos_bound. lia. Qed.

Lemma wp_test_bit s i (Q : Z → pmm → Prop) :
  bm_ok 8 131072 (pmm_bitmap s) → 0 ≤ i < PMM_MAX_PAGES →
  Q (if page_alloc s i then 1 else 0) s → wp (test_bit i) Q s.
Proof.
  unfold PMM_MAX_PAGES. intros Hok Hi HQ.
  destruct (bm_word 8 131072 ltac:(lia) _ i Hok ltac:(lia)) as (b & Hb & Hrb).
  unfold test_bit. apply wp_bind, wp_gets, wp_bind.
  eapply wp_deref; [by rewrite shiftr_3|]. apply wp_ret.
  assert (Hv : Z.land (Z.shiftr b (Z.land i 7)) 1 = if page_alloc s i then 1 else 0).
  { unfold page_alloc, bm_bit. rewrite Hb, land_7. pose proof (mod8_range i).
    change 1 with (Z.ones 1) at 1. rewrite Z.land_ones by lia.
    rewrite <-Z.bit0_mod, Z.shiftr_spec by lia.
    replace (0 + i mod 8) with (i mod 8) by lia. by destruct (Z.testbit b (i mod 8)). }
  by rewrite Hv.
Qed.

Lemma u8_bit i : u8 (Z.shiftl 1 (i mod 8)) = Z.shiftl 1 (i mod 8).
Proof. apply (wrap_small 8), bit1_range, mod8_range. Qed.

Lemma wp_set_bit s i (Q : unit → pmm → Prop) :
  bm_ok 8 131072 (pmm_bitmap s) → 0 ≤ i < PMM_MAX_PAGES →
  (∀ bm, bm_ok 8 131072 bm →
    (∀ j, 0 ≤ j → bm_bit 8 bm j = if j =? i then true else page_alloc s j) →
    Q tt (set_bitmap bm s)) →
  wp (set_bit i) Q s.
Proof.
  unfold PMM_MAX_PAGES. intros Hok Hi HQ.
  destruct (bm_word 8 131072 ltac:(lia) _ i Hok ltac:(lia)) as (b & Hb & Hrb).
  unfold set_bit. apply wp_bind, wp_gets, wp_bind.
  eapply wp_deref; [by rewrite shiftr_3|]. apply wp_modify.
  rewrite shiftr_3, land_7, u8_bit. apply HQ.
  - apply bm_ok_insert; [done|apply bm_index; lia|apply bit_set_range; lia].
  - intros j Hj. apply (bm_bit_insert 8 ltac:(lia) _ _ b); [lia..|done|].
    intros k Hk. apply bit_set_spec; lia.
Qed.

Lemma wp_clear_bit s i (Q : unit → pmm → Prop) :
  bm_ok 8 131072 (pmm_bitmap s) → 0 ≤ i < PMM_MAX_PAGES →
  (∀ bm, bm_ok 8 131072 bm →
    (∀ j, 0 ≤ j → bm_bit 8 bm j = if j =? i then false else page_alloc s j) →
    Q tt (set_bitmap bm s)) →
  wp (clear_bit i) Q s.
Proof.
  unfold PMM_MAX_PAGES. intros Hok Hi HQ.
  destruct (bm_word 8 131072 ltac:(lia) _ i Hok ltac:(lia)) as (b & Hb & Hrb).
  unfold clear_bit, u8. apply wp_bind, wp_gets, wp_bind.
  eapply wp_deref; [by rewrite shiftr_3|]. apply wp_modify.
  rewrite shiftr_3, land_7. apply HQ.
  - apply bm_ok_insert; [done|apply bm_index; lia|apply bit_clear_range; lia].
  - intros j Hj. apply (bm_bit_insert 8 ltac:(lia) _ _ b); [lia..|done|].
    intros k Hk. apply bit_clear_spec; lia.
Qed.

(** ** Allocation *)

(** Marking [count] pages from [p]. *)
Lemma wp_mark s p count (Q : unit → pmm → Prop) :
  bm_ok 8 131072 (pmm_bitmap s) → 0 ≤ p → 0 ≤ count → p + count ≤ PMM_MAX_PAGES →
  (∀ bm, bm_ok 8 131072 bm →
    (∀ j, 0 ≤ j → bm_bit 8 bm j =
       if (p <=? j) && (j <? p + count) then true else page_alloc s j) →
    Q tt (set_bitmap bm s)) →
  wp (for_each (Z.to_nat count) 0 (λ j, set_bit (p + j))) Q s.
Proof.
  intros Hok Hp Hc Hlim HQ.
  apply (wp_for_each (λ i t, ∃ bm, t = set_bitmap bm s ∧ bm_ok 8 131072 bm ∧
    ∀ j, 0 ≤ j → bm_bit 8 bm j =
       if (p <=? j) && (j <? p + i) then true else page_alloc s j)).
  - exists (pmm_bitmap s). split_and!; [by destruct s|done|]. intros j Hj.
    destruct (Z.leb_spec p j), (Z.ltb_spec j (p + 0)); done || lia.
  - intros i t Hi (bm & -> & Hbm & Hbits).
    apply wp_set_bit; [done|lia|]. intros bm' Hbm' Hbits'.
    exists bm'. split_and!; [done|done|]. intros j Hj. rewrite Hbits' by done.
    unfold page_alloc at 1; simpl. rewrite Hbits by done.
    destruct (Z.eqb_spec j (p + i)), (Z.leb_spec p j), (Z.ltb_spec j (p + i)),
      (Z.ltb_spec j (p + (i + 1))); done || lia.
  - intros t (bm & -> & Hbm & Hbits). apply HQ; [done|].
    by replace (0 + Z.of_nat (Z.to_nat count)) with count in Hbits by lia.
Qed.

(** What the scan knows when it reaches page [i] with [run] pages in hand. *)
Record scan_inv (s : pmm) (count i run run_start : Z) : Prop := {
  sc_run : 0 ≤ run < count ∧ run ≤ i;
  sc_start : 0 < run → run_start = i - run;
  sc_free : ∀ j, i - run ≤ j < i → page_alloc s j = false;
  sc_max : i - run = 0 ∨ page_alloc s (i - run - 1) = true;
  sc_none : ∀ q, ¬ is_run s i count q;
}.

(** A free page that does not complete the run extends it. *)
Lemma scan_extend s count i run rs :
  scan_inv s count i run rs → page_alloc s i = false → run + 1 ≠ count →
  scan_inv s count (i + 1) (run + 1) (if run =? 0 then i else rs).
Proof.
  intros [Hrun Hst Hfr Hmax Hno] Hi Hne. split.
  - lia.
  - intros _. destruct (Z.eqb_spec run 0); [lia|]. rewrite Hst by lia. lia.
  - intros j Hj. destruct (Z.eq_dec j i) as [->|]; [done|]. apply Hfr. lia.
  - by replace (i + 1 - (run + 1)) with (i - run) by lia.
  - intros q (Hq0 & Hq & Hall). destruct (Z.eq_dec (q + count) (i + 1)) as [E|].
    + destruct Hmax as [|Hm]; [lia|]. rewrite Hall in Hm by lia. done.
    + apply (Hno q). split_and!; [lia|lia|done].
Qed.

(** An allocated page resets it. *)
Lemma scan_reset s count i run rs :
  scan_inv s count i run rs → 0 ≤ i → page_alloc s i = true →
  scan_inv s count (i + 1) 0 rs.
Proof.
  intros [Hrun Hst Hfr Hmax Hno] H0 Hi. split; [lia..| | |].
  - lia.
  - right. by replace (i + 1 - 0 - 1) with i by lia.
  - intros q (Hq0 & Hq & Hall). destruct (Z.eq_dec (q + count) (i + 1)) as [E|].
    + rewrite Hall in Hi by lia. done.
    + apply (Hno q). split_and!; [lia|lia|done].
Qed.

(** A free page that completes the run ends at the first fit. *)
Lemma scan_found s count i run rs :
  scan_inv s count i run rs → 0 ≤ i < pmm_pages_total s → page_alloc s i = false →
  run + 1 = count →
  first_fit s count (if run =? 0 then i else rs).
Proof.
  intros [Hrun Hst Hfr Hmax Hno] Ht Hi Hc.
  assert (Hp : (if run =? 0 then i else rs) = i - run).
  { destruct (Z.eqb_spec run 0); [lia|]. apply Hst. lia. }
  rewrite Hp. split.
  - split_and!; [lia|lia|]. intros j Hj. destruct (Z.eq_dec j i) as [->|]; [done|].
    apply Hfr. lia.
  - intros q Hq (_ & _ & Hall). apply (Hno q). split_and!; [lia|lia|done].
Qed.

Lemma wp_alloc_scan n i run rs count flags s (Q : option Z → pmm → Prop) :
  bm_ok 8 131072 (pmm_bitmap s) → pmm_pages_total s ≤ PMM_MAX_PAGES →
  0 ≤ i → i + Z.of_nat n = pmm_pages_total s → scan_inv s count i run rs →
  (∀ p bm, first_fit s count p → bm_ok 8 131072 bm →
    (∀ j, 0 ≤ j → bm_bit 8 bm j =
       if (p <=? j) && (j <? p + count) then true else page_alloc s j) →
    Q (Some (u64 (pmm_mem_base s + u64 (p * PMM_PAGE_SIZE))))
      (set_daif flags (set_lock 0
        (set_pages_free (u64 (pmm_pages_free s - count)) (set_bitmap bm s))))) →
  ((∀ q, ¬ is_run s (pmm_pages_total s) count q) → Q None s) →
  wp (alloc_scan n i run rs count flags) Q s.
Proof.
  intros Hok Htot. revert i run rs.
  induction n as [|n IH]; intros i run rs Hi Hn Hinv Hfound Hnone; simpl.
  - apply wp_ret, Hnone. replace (pmm_pages_total s) with i by lia. apply Hinv.
  - apply wp_bind, wp_test_bit; [done|lia|].
    destruct (page_alloc s i) eqn:Ea; simpl.
    + apply IH; [lia|lia|by eapply scan_reset|done|done].
    + destruct (Z.eqb_spec (run + 1) count) as [Ec|Ec].
      * pose proof (scan_found _ _ _ _ _ Hinv ltac:(lia) Ea Ec) as Hff.
        set (p := if run =? 0 then i else rs) in *.
        pose proof Hff as [(Hp0 & Hp1 & _) _]. destruct Hinv as [Hrun _ _ _ _].
        apply wp_bind, wp_mark; [done|lia|lia|lia|]. intros bm Hbm Hbits.
        apply wp_bind, wp_modify, wp_bind, wp_unlock_irqrestore, wp_bind.
        unfold page_to_addr. wp_steps. by apply Hfound.
      * apply IH; [lia|lia|by apply scan_extend|done|done].
Qed.

(** A run fits among the free pages. *)
Lemma is_run_count s count p :
  0 ≤ pmm_pages_total s → 0 ≤ count →
  is_run s (pmm_pages_total s) count p → count ≤ free_pages s.
Proof.
  intros Ht Hc (Hp & Hlim & Hfree). unfold free_pages.
  pose proof (countb_clear_range (λ i, negb (page_alloc s i))
    (λ j, if (p <=? j) && (j <? p + count) then false else negb (page_alloc s j))
    (Z.to_nat (pmm_pages_total s)) p (p + count) ltac:(lia) ltac:(lia)
    ltac:(intros j Hj; simpl; by rewrite (Hfree j)) ltac:(done)) as E.
  pose proof (countb_range (λ j, if (p <=? j) && (j <? p + count) then false
    else negb (page_alloc s j)) 0 (Z.to_nat (pmm_pages_total s))). lia.
Qed.

Lemma free_pages_range s : 0 ≤ pmm_pages_total s → 0 ≤ free_pages s ≤ pmm_pages_total s.
Proof. intros H. unfold free_pages. pose proof (countb_range
  (λ i, negb (page_alloc s i)) 0 (Z.to_nat (pmm_pages_total s))). lia. Qed.

(** The result of [pmm_alloc_run]. *)
Definition alloc_post (s : pmm) (count : Z) (a : Z) (s' : pmm) : Prop :=
  (∃ p, 0 < count ∧ first_fit s count p ∧ a = pmm_mem_base s + p * 4096 ∧
        pages_set s s' p (p + count) true ∧
        pmm_pages_free s' = pmm_pages_free s - count)
  ∨ (a = 0 ∧ s' = s ∧ (count = 0 ∨ ∀ p, ¬ is_run s (pmm_pages_total s) count p)).

(** The state after a successful allocation satisfies the invariant. *)
Lemma pages_set_alloc_ok s s' p count :
  pmm_ok s → is_run s (pmm_pages_total s) count p → 0 ≤ count →
  bm_ok 8 131072 (pmm_bitmap s') → pages_set s s' p (p + count) true →
  pmm_pages_free s' = pmm_pages_free s - count → pmm_ok s'.
Proof.
  intros [] (Hp & Hlim & Hfr) Hc Hbm [] Hf.
  split; rewrite ?ps_lock0, ?ps_base0, ?ps_size0, ?ps_total0; try done.
  rewrite Hf, ok_free0. unfold free_pages. rewrite ps_total0. symmetry.
  rewrite (countb_clear_range (λ i, negb (page_alloc s i)) _ _ p (p + count));
    [lia|lia|lia| |].
  - intros j Hj. by rewrite Hfr.
  - intros j Hj. rewrite ps_bits0 by done. by destruct (_ && _).
Qed.

(** Leaving the critical section: an untouched state is restored. *)
Lemma lock_unlock s d :
  pmm_lock s = 0 → set_daif (pmm_daif s) (set_lock 0 (set_lock 1 (set_daif d s))) = s.
Proof. destruct s; simpl. by intros ->. Qed.

Lemma wp_pmm_alloc_run s count :
  pmm_ok s → 0 ≤ count →
  wp (pmm_alloc_run count) (λ a s', pmm_ok s' ∧ alloc_post s count a s') s.
Proof.
  intros Hok Hc. pose proof Hok as [Hbm Hlock Hbase Hrange Htot Hts Hfree].
  pose proof (free_pages_range s ltac:(lia)) as Hfr.
  unfold pmm_alloc_run. apply wp_bind, wp_lock_irqsave; [done|]. simpl.
  apply wp_bind, wp_gets. simpl. set (d := Z.lor _ _).
  destruct ((count =? 0) || (pmm_pages_free s <? count)) eqn:E.
  - apply wp_bind, wp_unlock_irqrestore, wp_ret. simpl. rewrite lock_unlock by done.
    split; [done|]. right. split; [done|split; [done|]].
    destruct (Z.eqb_spec count 0); [by left|].
    right. intros p Hp. apply is_run_count in Hp; lia.
  - apply wp_bind, wp_gets, wp_bind. simpl.
    apply (wp_alloc_scan _ _ _ _ _ _ (set_lock 1 (set_daif d s)));
      [done|simpl; lia|lia|simpl; lia| | |].
    + split; [lia|lia|lia|by left|]. intros q (?&?&?). lia.
    + intros p bm Hff Hbm' Hbits. apply wp_ret. simpl.
      pose proof Hff as [(Hp0 & Hp1 & _) _]. simpl in Hp1.
      assert (Ha : u64 (pmm_mem_base s + u64 (p * 4096)) = pmm_mem_base s + p * 4096).
      { unfold u64, PMM_MAX_PAGES in *. rewrite (wrap_small 64 (p * 4096)) by lia.
        apply (wrap_small 64). lia. }
      assert (Hf : u64 (pmm_pages_free s - count) = pmm_pages_free s - count).
      { unfold u64, PMM_MAX_PAGES in *. rewrite (wrap_small 64); lia. }
      set (s' := set_daif _ _).
      assert (Hps : pages_set s s' p (p + count) true) by (by split; try done).
      split; [eapply pages_set_alloc_ok; [done|apply Hff|lia|done|done|done]|].
      left. exists p. split_and!; [lia|exact Hff|exact Ha|done|exact Hf].
    + intros Hnone. apply wp_bind, wp_unlock_irqrestore, wp_ret. simpl.
      rewrite lock_unlock by done.
      split; [done|]. right. split_and!; [done|done|]. right. exact Hnone.
Qed.

(** ** Release *)

Lemma pages_set_refl s lo hi b : hi ≤ lo → pages_set s s lo hi b.
Proof.
  intros H. split; try done. intros j Hj.
  destruct (Z.leb_spec lo j), (Z.ltb_spec j hi); done || lia.
Qed.

Lemma pages_set_cons s s1 s2 lo hi b :
  pages_set s s1 lo (lo + 1) b → pages_set s1 s2 (lo + 1) hi b → lo < hi →
  pages_set s s2 lo hi b.
Proof.
  intros [] [] Hlt. split; try congruence. intros j Hj.
  rewrite ps_bits1, ps_bits0 by done.
  destruct (Z.leb_spec lo j), (Z.ltb_spec j hi), (Z.leb_spec (lo + 1) j),
    (Z.ltb_spec j (lo + 1)); done || lia.
Qed.

(** The part of the invariant the loops maintain while the lock is held. *)
Record pages_ok (s : pmm) : Prop := {
  po_bitmap : bm_ok 8 131072 (pmm_bitmap s);
  po_total : 0 ≤ pmm_pages_total s ≤ PMM_MAX_PAGES;
  po_free : pmm_pages_free s = free_pages s;
}.

Lemma pmm_ok_pages s : pmm_ok s → pages_ok s.
Proof. by intros []. Qed.

Lemma pages_set_ok s s' lo hi b : pmm_ok s → pages_set s s' lo hi b → pages_ok s' → pmm_ok s'.
Proof. intros [] [] []. split; congruence || rewrite ?ps_base0, ?ps_size0, ?ps_total0; done. Qed.

(** Changing the occupancy of one page together with the counter. *)
Lemma one_page_set t bm k b :
  pages_ok t → 0 ≤ k < pmm_pages_total t → page_alloc t k = negb b →
  bm_ok 8 131072 bm →
  (∀ j, 0 ≤ j → bm_bit 8 bm j = if j =? k then b else page_alloc t j) →
  let f' := if b then pmm_pages_free t - 1 else pmm_pages_free t + 1 in
  let t' := set_pages_free f' (set_bitmap bm t) in
  0 ≤ f' ≤ PMM_MAX_PAGES ∧ pages_set t t' k (k + 1) b ∧ pages_ok t'.
Proof.
  intros Ht Hk Ha Hbm Hbits f' t'. pose proof Ht as [_ Htot Hf].
  assert (Hps : pages_set t t' k (k + 1) b).
  { split; try done. intros j Hj. unfold page_alloc at 1; simpl. rewrite Hbits by done.
    destruct (Z.eqb_spec j k), (Z.leb_spec k j), (Z.ltb_spec j (k + 1)); done || lia. }
  assert (Hf' : f' = free_pages t').
  { unfold free_pages, f'. rewrite Hf. unfold free_pages. destruct b; simpl in Ha.
    - rewrite (countb_clear_range (λ i, negb (page_alloc t i)) (λ i, negb (page_alloc t' i))
        _ k (k + 1)); [simpl; lia|lia|simpl; lia| |].
      + intros j Hj. replace j with k by lia. by rewrite Ha.
      + intros j Hj. rewrite (ps_bits _ _ _ _ _ Hps) by done. by destruct (_ && _).
    - rewrite (countb_clear_range (λ i, negb (page_alloc t' i)) (λ i, negb (page_alloc t i))
        _ k (k + 1)); [simpl; lia|lia|simpl; lia| |].
      + intros j Hj. replace j with k by lia. unfold page_alloc; simpl.
        rewrite Hbits by lia. by rewrite Z.eqb_refl.
      + intros j Hj. rewrite (ps_bits _ _ _ _ _ Hps) by done.
        destruct (Z.leb_spec k j), (Z.ltb_spec j (k + 1)); try done.
        replace j with k by lia. by rewrite Ha. }
  split_and!; [| |done|split; done].
  - rewrite Hf'. apply free_pages_range. simpl. lia.
  - rewrite Hf'. transitivity (pmm_pages_total t'); [apply free_pages_range|]; simpl; lia.
Qed.

Lemma wp_free_loop fuel i first count t (Q : unit → pmm → Prop) :
  pages_ok t → 0 ≤ i → 0 ≤ first → first + i < 2 ^ 64 →
  pmm_pages_total t - (first + i) < Z.of_nat fuel → (0 < fuel)%nat →
  (∀ t', pages_set t t' (first + i) (Z.min (first + count) (pmm_pages_total t)) false →
         pages_ok t' → Q tt t') →
  wp (free_loop fuel i first count) Q t.
Proof.
  revert i t. induction fuel as [|fuel IH]; intros i t Ht Hi Hf Hlt Hfuel Hpos HQ; [lia|].
  pose proof Ht as [Hbm Htot Hfree].
  simpl. apply wp_bind, wp_gets. unfold u64. rewrite (wrap_small 64) by lia.
  destruct ((i <? count) && (first + i <? pmm_pages_total t)) eqn:E.
  2: { apply wp_ret, HQ; [|done]. apply pages_set_refl. lia. }
  unfold PMM_MAX_PAGES in *.
  assert (Hnext : ∀ t1, pages_ok t1 → pages_set t t1 (first + i) (first + i + 1) false →
    wp (free_loop fuel (i + 1) first count) Q t1).
  { intros t1 Ht1 Hps1. pose proof (ps_total _ _ _ _ _ Hps1) as Hpt.
    apply IH; [done|lia|lia|lia|lia|lia|]. intros t' Hps' Ht'. apply HQ; [|done].
    eapply pages_set_cons; [done| |lia].
    by rewrite Hpt, Z.add_assoc in Hps'. }
  apply wp_bind, wp_test_bit; [done|unfold PMM_MAX_PAGES; lia|].
  destruct (page_alloc t (first + i)) eqn:Ea; simpl.
  - apply wp_bind, wp_bind, wp_clear_bit; [done|unfold PMM_MAX_PAGES; lia|].
    intros bm Hbm' Hbits. apply wp_modify.
    destruct (one_page_set t bm (first + i) false) as (Hr & Hps & Hpo);
      [done|lia|done|done|done|]. simpl in *. unfold PMM_MAX_PAGES in Hr.
    rewrite (wrap_small 64) by lia. by apply Hnext.
  - apply wp_bind, wp_ret, Hnext; [done|]. split; try done. intros j Hj.
    destruct (Z.leb_spec (first + i) j), (Z.ltb_spec j (first + i + 1)); try done.
    by replace j with (first + i) by lia.
Qed.

(** The arguments [pmm_free_pages] acts on. *)
Definition free_args_ok (s : pmm) (addr count : Z) : bool :=
  negb (addr =? 0) && negb (count =? 0) && (pmm_mem_base s <=? addr)
  && (addr <? pmm_mem_base s + pmm_mem_size s) && (addr mod 4096 =? 0).

Lemma wp_pmm_free_pages s addr count :
  pmm_ok s → 0 ≤ addr < 2 ^ 64 → 0 ≤ count →
  wp (pmm_free_pages addr count) (λ _ s',
    pmm_ok s' ∧
    if free_args_ok s addr count then
      let first := (addr - pmm_mem_base s) / 4096 in
      pages_set s s' first (Z.min (first + count) (pmm_pages_total s)) false
    else s' = s) s.
Proof.
  intros Hok Ha Hc. pose proof Hok as [Hbm Hlock Hbase Hrange Htot Hts Hfree].
  unfold pmm_free_pages, free_args_ok.
  apply wp_bind, wp_lock_irqsave; [done|]. simpl. set (d := Z.lor _ _).
  assert (Hsame : wp (spinlock_unlock_irqrestore (pmm_daif s))
    (λ _ s', pmm_ok s' ∧ s' = s) (set_lock 1 (set_daif d s))).
  { apply wp_unlock_irqrestore. simpl. by rewrite lock_unlock. }
  destruct (Z.eqb_spec addr 0); simpl; [done|].
  destruct (Z.eqb_spec count 0); simpl; [done|].
  apply wp_bind, wp_gets, wp_bind, wp_gets. simpl.
  unfold u64. rewrite (wrap_small 64 (_ + _)) by lia.
  destruct (Z.ltb_spec addr (pmm_mem_base s)); simpl.
  { destruct (Z.leb_spec (pmm_mem_base s) addr); [lia|done]. }
  destruct (Z.leb_spec (pmm_mem_base s) addr); [|lia].
  destruct (Z.leb_spec (pmm_mem_base s + pmm_mem_size s) addr); simpl.
  { destruct (Z.ltb_spec addr (pmm_mem_base s + pmm_mem_size s)); [lia|done]. }
  destruct (Z.ltb_spec addr (pmm_mem_base s + pmm_mem_size s)); [simpl|lia].
  change (PMM_PAGE_SIZE - 1) with (2 ^ 12 - 1). rewrite land_ones_mod by lia.
  change (2 ^ 12) with 4096. unfold ctrue.
  destruct (Z.eqb_spec (addr mod 4096) 0) as [Hal|]; simpl; [|done].
  unfold addr_to_page. apply wp_bind, wp_bind, wp_gets, wp_ret. simpl.
  unfold u64, PMM_PAGE_SIZE. rewrite (wrap_small 64 (addr - pmm_mem_base s)) by lia.
  apply wp_bind, wp_gets. simpl. apply wp_bind.
  assert (Hq : 0 ≤ (addr - pmm_mem_base s) / 4096 < 2 ^ 64).
  { split; [apply Z.div_pos; lia|]. apply Z.div_lt_upper_bound; lia. }
  apply (wp_free_loop (S _) _ _ _ (set_lock 1 (set_daif d s))); [|simpl; lia..|].
  { destruct Hok. by split. }
  intros t Hps Hpo. apply wp_unlock_irqrestore. simpl. rewrite Z.add_0_r in Hps.
  assert (Hps' : pages_set s (set_daif (pmm_daif s) (set_lock 0 t))
    ((addr - pmm_mem_base s) / 4096)
    (Z.min ((addr - pmm_mem_base s) / 4096 + count) (pmm_pages_total s)) false).
  { destruct Hps. by split. }
  split; [|done]. eapply pages_set_ok; [done|done|]. by destruct Hpo.
Qed.

(** ** Reservation *)

(** Page [j] is managed and intersects the bytes [start, start + size). *)
Definition covers (s : pmm) (start size j : Z) : bool :=
  (pmm_mem_base s + j * 4096 <? start + size)
  && (start <? pmm_mem_base s + (j + 1) * 4096)
  && (0 <? size) && (j <? pmm_pages_total s).

Lemma wp_reserve_loop first n t (Q : unit → pmm → Prop) :
  pages_ok t → 0 ≤ first → (0 < n → first + n ≤ pmm_pages_total t) →
  (∀ t', pages_set t t' first (first + n) true → pages_ok t' → Q tt t') →
  wp (for_each (Z.to_nat n) first (λ i,
    t ← test_bit i;
    when (t =? 0)
      (set_bit i;;
       free ← gets pmm_pages_free;
       when (ctrue free) (modify (set_pages_free (free - 1)))))) Q t.
Proof.
  intros Ht Hf Hlim HQ.
  apply (wp_for_each (λ i t', pages_set t t' first i true ∧ pages_ok t')).
  - split; [apply pages_set_refl; lia|done].
  - intros i t' Hi [Hps Hpo]. pose proof (ps_total _ _ _ _ _ Hps) as Hpt.
    pose proof Hpo as [Hbm Htot Hfree]. unfold PMM_MAX_PAGES in *.
    apply wp_bind, wp_test_bit; [done|unfold PMM_MAX_PAGES; lia|].
    assert (Hsnoc : ∀ t'', pages_set t' t'' i (i + 1) true → pages_ok t'' →
      pages_set t t'' first (i + 1) true ∧ pages_ok t'').
    { intros t'' [] Hpo''. split; [|done]. destruct Hps. split; try congruence.
      intros j Hj. rewrite ps_bits0, ps_bits1 by done.
      destruct (Z.leb_spec first j), (Z.ltb_spec j i), (Z.leb_spec i j),
        (Z.ltb_spec j (i + 1)); done || lia. }
    destruct (page_alloc t' i) eqn:Ea; simpl.
    + apply wp_ret, Hsnoc; [|done]. split; try done. intros j Hj.
      destruct (Z.leb_spec i j), (Z.ltb_spec j (i + 1)); try done.
      by replace j with i by lia.
    + apply wp_bind, wp_set_bit; [done|unfold PMM_MAX_PAGES; lia|].
      intros bm Hbm' Hbits. apply wp_bind, wp_gets. simpl.
      destruct (one_page_set t' bm i true) as (Hr & Hps' & Hpo');
        [done|lia|done|done|done|]. simpl in Hr.
      apply wp_when; intros Hc; [|unfold ctrue in Hc; lia].
      apply wp_modify. by apply Hsnoc.
  - intros t' [Hps Hpo]. apply HQ; [|done]. destruct Hps. split; try done.
    intros j Hj. rewrite ps_bits0 by done.
    destruct (Z.leb_spec first j), (Z.ltb_spec j (first + Z.of_nat (Z.to_nat n))),
      (Z.ltb_spec j (first + n)); done || lia.
Qed.

Lemma land_page_mask x : 0 ≤ x < 2 ^ 64 → Z.land x page_mask = x / 4096 * 4096.
Proof.
  intros Hx. unfold page_mask, u64. change (PMM_PAGE_SIZE - 1) with (2 ^ 12 - 1).
  rewrite (land_lnot_ones 64 12) by lia. done.
Qed.

(** The page index of a rounded-down address. *)
Lemma page_index b x :
  b mod 4096 = 0 → 0 ≤ b ≤ x → x < 2 ^ 64 →
  (x / 4096 * 4096 - b) mod 2 ^ 64 / 4096 = (x - b) / 4096.
Proof.
  intros Hb Hx Hlt. apply Z.div_exact in Hb; [|lia].
  set (q := b / 4096) in *. clearbody q. subst b.
  assert (q ≤ x / 4096) by (apply Z.div_le_lower_bound; lia).
  assert (x / 4096 < 2 ^ 52) by (apply Z.div_lt_upper_bound; lia).
  rewrite (wrap_small 64) by lia.
  replace (x / 4096 * 4096 - 4096 * q) with ((x / 4096 - q) * 4096) by lia.
  rewrite Z.div_mul by lia. replace (x - 4096 * q) with (x + (- q) * 4096) by lia.
  rewrite Z.div_add by lia. lia.
Qed.

(** The managed pages that intersect [start, start + size), and only they,
    become allocated. *)
Definition reserved (s s' : pmm) (start size : Z) : Prop :=
  ∃ lo hi, pages_set s s' lo hi true ∧
    ∀ j, 0 ≤ j → (lo <=? j) && (j <? hi) = covers s start size j.

Lemma reserved_none s start size :
  (∀ j, 0 ≤ j → covers s start size j = false) → reserved s s start size.
Proof.
  intros H. exists 0, 0. split; [by apply pages_set_refl|].
  intros j Hj. rewrite H by done. destruct (Z.leb_spec 0 j), (Z.ltb_spec j 0); done || lia.
Qed.

Lemma wp_reserve_range s start size :
  pmm_ok s → 0 ≤ start → 0 ≤ size → start + size < 2 ^ 64 →
  wp (reserve_range start size) (λ _ s', pmm_ok s' ∧ reserved s s' start size) s.
Proof.
  intros Hok Hst Hsz Hnw. pose proof Hok as [Hbm Hlock Hbase Hrange Htot Hts Hfree].
  unfold reserve_range. destruct (Z.eqb_spec size 0) as [->|Hsz0].
  { apply wp_ret. split; [done|]. apply reserved_none. intros j Hj. unfold covers.
    by rewrite andb_false_r. }
  apply wp_bind, wp_gets, wp_bind, wp_gets. unfold u64.
  rewrite (wrap_small 64 (start + size)) by lia.
  rewrite (wrap_small 64 (pmm_mem_base s + pmm_mem_size s)) by lia.
  destruct (Z.leb_spec (start + size) (pmm_mem_base s)) as [|Hlo].
  { apply wp_ret. split; [done|]. apply reserved_none. intros j Hj. unfold covers.
    destruct (Z.ltb_spec (pmm_mem_base s + j * 4096) (start + size)); [lia|done]. }
  destruct (Z.leb_spec (pmm_mem_base s + pmm_mem_size s) start) as [|Hhi].
  { apply wp_ret. split; [done|]. apply reserved_none. intros j Hj. unfold covers.
    destruct (Z.ltb_spec start (pmm_mem_base s + (j + 1) * 4096)),
      (Z.ltb_spec j (pmm_pages_total s)); rewrite ?andb_false_r; done || lia. }
  set (rstart := if start <? pmm_mem_base s then _ else _).
  set (rend := if _ <? start + size then _ else _).
  assert (Hrs : rstart = Z.max start (pmm_mem_base s))
    by (unfold rstart; destruct (Z.ltb_spec start (pmm_mem_base s)); lia).
  assert (Hre : rend = Z.min (start + size) (pmm_mem_base s + pmm_mem_size s))
    by (unfold rend; destruct (Z.ltb_spec (pmm_mem_base s + pmm_mem_size s) (start + size)); lia).
  clearbody rstart rend. destruct Hbase as (Hb0 & Hbm4 & Hsm4).
  set (B := pmm_mem_base s) in *. set (M := pmm_mem_size s) in *.
  set (T := pmm_pages_total s) in *.
  assert (HBM : B + M ≤ 2 ^ 64 - 4096).
  { apply Z.div_exact in Hbm4, Hsm4; lia. }
  unfold addr_to_page, u64, PMM_PAGE_SIZE.
  rewrite Zminus_mod_idemp_l, (wrap_small 64 (rend + 4096 - 1)) by lia.
  rewrite !land_page_mask by lia.
  apply wp_bind, wp_bind, wp_gets, wp_ret, wp_bind, wp_bind, wp_gets, wp_ret.
  apply wp_bind, wp_gets. fold B T.
  set (first := (rstart / 4096 * 4096 - B) mod 2 ^ 64 / 4096).
  set (last0 := ((rend + 4096 - 1) / 4096 * 4096 - B) mod 2 ^ 64 / 4096).
  assert (Hfirst : first = (rstart - B) / 4096).
  { apply page_index; lia. }
  assert (Hlast : last0 = (rend - B + 4095) / 4096).
  { unfold last0. rewrite page_index by lia. f_equal. lia. }
  clearbody first last0.
  set (last := if T <? last0 then T else last0).
  assert (Hlast' : last = Z.min T last0) by (unfold last; destruct (Z.ltb_spec T last0); lia).
  clearbody last.
  apply wp_reserve_loop; [by apply pmm_ok_pages| |fold T; lia|].
  { rewrite Hfirst. apply Z.div_pos; lia. }
  intros s' Hps Hpo. split; [by eapply pages_set_ok|].
  exists first, (first + (last - first)). split; [done|]. intros j Hj.
  unfold covers. fold B T.
  destruct (Z.leb_spec first j), (Z.ltb_spec j (first + (last - first))),
    (Z.ltb_spec (B + j * 4096) (start + size)), (Z.ltb_spec start (B + (j + 1) * 4096)),
    (Z.ltb_spec 0 size), (Z.ltb_spec j T); simpl; try done; exfalso;
    Z.to_euclidean_division_equations; lia.
Qed.

(** ** Queries *)

Lemma wp_count_set n i acc s (Q : Z → pmm → Prop) :
  bm_ok 8 131072 (pmm_bitmap s) → 0 ≤ i → i + Z.of_nat n ≤ PMM_MAX_PAGES →
  Q (acc + countb (page_alloc s) i n) s → wp (count_set n i acc) Q s.
Proof.
  intros Hbm. revert i acc. induction n as [|n IH]; intros i acc Hi Hlim HQ; simpl.
  - apply wp_ret. by rewrite Z.add_0_r in HQ.
  - apply wp_bind, wp_test_bit; [done|lia|]. apply IH; [lia|lia|]. simpl in HQ.
    destruct (page_alloc s i); simpl; [by rewrite Z.add_assoc in HQ|done].
Qed.

(** [pmm_check] decides the counter invariant, on any state whose bitmap and
    counters are in range. *)
Lemma wp_pmm_check s :
  bm_ok 8 131072 (pmm_bitmap s) → pmm_lock s = 0 →
  0 ≤ pmm_pages_total s ≤ PMM_MAX_PAGES → 0 ≤ pmm_pages_free s ≤ pmm_pages_total s →
  wp pmm_check (λ r s', s' = s ∧
    r = if pmm_pages_free s =? free_pages s then 0 else -1) s.
Proof.
  intros Hbm Hlock Htot Hfr. unfold pmm_check, free_pages.
  apply wp_bind, wp_lock_irqsave; [done|]. simpl. apply wp_bind, wp_gets. simpl.
  apply wp_bind, wp_count_set; [done|lia|lia|].
  apply wp_bind, wp_gets. rewrite Z.add_0_l, countb_negb. simpl. unfold u64, PMM_MAX_PAGES in *.
  rewrite (wrap_small 64) by lia.
  change (page_alloc (set_lock _ _)) with (page_alloc s).
  pose proof (countb_range (page_alloc s) 0 (Z.to_nat (pmm_pages_total s))).
  destruct (Z.eqb_spec (countb (page_alloc s) 0 (Z.to_nat (pmm_pages_total s)))
    (pmm_pages_total s - pmm_pages_free s)), (Z.eqb_spec (pmm_pages_free s)
    (Z.of_nat (Z.to_nat (pmm_pages_total s)) -
       countb (page_alloc s) 0 (Z.to_nat (pmm_pages_total s)))); simpl; try lia;
    apply wp_bind, wp_unlock_irqrestore, wp_ret; simpl; by rewrite lock_unlock.
Qed.

(** A state is determined by its registers and the occupancy of every page. *)
Lemma pmm_ext s s' :
  pmm_ok s → pmm_ok s' → pmm_daif s = pmm_daif s' →
  pmm_mem_base s = pmm_mem_base s' → pmm_mem_size s = pmm_mem_size s' →
  pmm_pages_total s = pmm_pages_total s' →
  (∀ j, 0 ≤ j → page_alloc s j = page_alloc s' j) → s = s'.
Proof.
  intros Hok Hok' Hd Hb Hs Ht Hbits.
  assert (Hf : pmm_pages_free s = pmm_pages_free s').
  { rewrite (ok_free _ Hok), (ok_free _ Hok'). unfold free_pages. rewrite Ht.
    apply countb_ext. intros j Hj. rewrite Hbits; [done|lia]. }
  assert (Hbm : pmm_bitmap s = pmm_bitmap s').
  { apply (bm_ext 8 131072); [lia|apply Hok|apply Hok'|]. intros i Hi. apply Hbits. lia. }
  destruct Hok as [_ Hl _ _ _ _ _], Hok' as [_ Hl' _ _ _ _ _].
  destruct s, s'; simpl in *; congruence.
Qed.

(** ** Theorems *)

(** A range of 16 pages at 1 GiB, all free: the instance the witnesses use. *)
Definition demo_bitmap : gmap Z Z := <[0 := 0]> (<[1 := 0]> (bm_fill 131072 255)).
Definition demo : pmm := {|
  pmm_lock := 0; pmm_daif := 0; pmm_bitmap := demo_bitmap;
  pmm_mem_base := 1073741824; pmm_mem_size := 65536;
  pmm_pages_total := 16; pmm_pages_free := 16 |}.

Lemma demo_ok : pmm_ok demo.
Proof.
  split; [|reflexivity|by split|by split|by split|by vm_compute|by vm_compute].
  change (pmm_bitmap demo) with demo_bitmap. unfold demo_bitmap.
  do 2 (apply bm_ok_insert; [|lia|lia]). apply bm_fill_ok. lia.
Qed.

(** C22: first-fit allocation.  From a consistent state, [pmm_alloc_pages]
    terminates without leaving the bitmap; it either returns the address of
    the lowest run of [count] free pages, marks exactly those pages and lowers
    the free counter by [count], or returns NULL with the state unchanged, and
    then [count] is 0 or no such run exists.  Consistency (the free counter
    equals the number of clear bits, the lock is released and interrupts are
    as before) is preserved on every path. *)
Theorem pmm_alloc_first_fit s count :
  pmm_ok s → 0 ≤ count →
  ∃ a s', pmm_alloc_pages count s = Some (a, s') ∧
    pmm_ok s' ∧ pmm_daif s' = pmm_daif s ∧ alloc_post s count a s'.
Proof.
  intros Hok Hc. destruct (wp_pmm_alloc_run s count Hok Hc) as (a & s' & Hr & Hok' & Hp).
  exists a, s'. split_and!; [done|done| |done].
  destruct Hp as [(p & _ & _ & _ & [] & _)|(_ & -> & _)]; done.
Qed.

Lemma pmm_alloc_first_fit_witness :
  pmm_ok demo ∧ ∃ a s', pmm_alloc_pages 3 demo = Some (a, s') ∧
    pmm_ok s' ∧ pmm_daif s' = pmm_daif demo ∧ alloc_post demo 3 a s'.
Proof. split; [exact demo_ok|]. apply (pmm_alloc_first_fit demo 3); [exact demo_ok|lia]. Defined.

(** C23: release.  [pmm_free_pages] ignores a null, unaligned or unmanaged
    address and a zero count; otherwise exactly the managed pages of
    [addr, addr + count * 4096) become free, pages of that range that were
    free already stay free (a double free changes nothing), and consistency is
    preserved. *)
Theorem pmm_free_exact s addr count :
  pmm_ok s → 0 ≤ addr < 2 ^ 64 → 0 ≤ count →
  ∃ s', pmm_free_pages addr count s = Some (tt, s') ∧ pmm_ok s' ∧
    if free_args_ok s addr count then
      let first := (addr - pmm_mem_base s) / 4096 in
      pages_set s s' first (Z.min (first + count) (pmm_pages_total s)) false
    else s' = s.
Proof.
  intros Hok Ha Hc. destruct (wp_pmm_free_pages s addr count Hok Ha Hc)
    as ([] & s' & Hr & Hok' & Hp). eauto.
Qed.

Lemma pmm_free_exact_witness :
  ∃ s', pmm_free_pages 1073745920 2 demo = Some (tt, s') ∧ pmm_ok s' ∧
    if free_args_ok demo 1073745920 2 then
      let first := (1073745920 - pmm_mem_base demo) / 4096 in
      pages_set demo s' first (Z.min (first + 2) (pmm_pages_total demo)) false
    else s' = demo.
Proof. apply (pmm_free_exact demo); [exact demo_ok|lia|lia]. Defined.

Lemma alloc_success s count a s' :
  alloc_post s count a s' → a ≠ 0 →
  ∃ p, 0 < count ∧ first_fit s count p ∧ a = pmm_mem_base s + p * 4096 ∧
       pages_set s s' p (p + count) true.
Proof. intros [(p & H1 & H2 & H3 & H4 & _)|(? & _)] Ha; [|done]. eauto 8. Qed.

(** Freeing what was just allocated restores the allocator exactly. *)
Theorem pmm_alloc_free_roundtrip s count a s' :
  pmm_ok s → 0 ≤ count → pmm_alloc_pages count s = Some (a, s') → a ≠ 0 →
  pmm_free_pages a count s' = Some (tt, s).
Proof.
  intros Hok Hc Hr Ha.
  destruct (wp_det _ _ _ _ _ (wp_pmm_alloc_run s count Hok Hc) Hr) as [Hok' Hp].
  apply alloc_success in Hp as (p & Hc0 & [(Hp0 & Hp1 & Hfree) _] & -> & Hps); [|done].
  pose proof Hok as [_ _ (Hb0 & Hb1 & _) Hrange Htot Hts _].
  pose proof Hps as [_ Hd Hb Hs Ht Hbits].
  destruct (wp_pmm_free_pages s' (pmm_mem_base s + p * 4096) count) as ([] & s'' & Hf & Hok'' & Hps'');
    [done|lia|lia|]. rewrite Hf. do 2 f_equal.
  unfold free_args_ok in Hps''. rewrite Hb, Hs, Ht in Hps''.
  rewrite Z_mod_plus_full, Hb1 in Hps''.
  replace ((pmm_mem_base s + p * 4096 - pmm_mem_base s) / 4096) with p in Hps''
    by (rewrite Z.add_simpl_l, Z.div_mul; lia).
  replace (Z.min (p + count) (pmm_pages_total s)) with (p + count) in Hps'' by lia.
  rewrite !(proj2 (Z.eqb_neq _ _)) in Hps'' by lia.
  rewrite (proj2 (Z.leb_le _ _)), (proj2 (Z.ltb_lt _ _)) in Hps'' by lia.
  simpl in Hps''. destruct Hps'' as [_ Hd' Hb' Hs' Ht' Hbits'].
  apply pmm_ext; try congruence. intros j Hj. rewrite Hbits', Hbits by done.
  destruct (Z.leb_spec p j), (Z.ltb_spec j (p + count)); simpl; try done.
  by rewrite Hfree.
Qed.

Lemma pmm_alloc_free_roundtrip_witness :
  match pmm_alloc_pages 5 demo with
  | Some (a, s') => a = 1073741824 ∧ pmm_free_pages a 5 s' = Some (tt, demo)
  | None => False
  end.
Proof.
  assert (Ha : fst <$> pmm_alloc_pages 5 demo = Some 1073741824)
    by (vm_compute; reflexivity).
  destruct (pmm_alloc_pages 5 demo) as [[a s']|] eqn:E; [|discriminate].
  injection Ha as ->. split; [reflexivity|].
  apply (pmm_alloc_free_roundtrip demo 5 _ s'); [exact demo_ok|lia|exact E|lia].
Defined.

(** C24: two live allocations never overlap. *)
Theorem pmm_live_disjoint s n m a b s1 s2 :
  pmm_ok s → 0 ≤ n → 0 ≤ m →
  pmm_alloc_pages n s = Some (a, s1) → pmm_alloc_pages m s1 = Some (b, s2) →
  a ≠ 0 → b ≠ 0 → a + n * 4096 ≤ b ∨ b + m * 4096 ≤ a.
Proof.
  intros Hok Hn Hm H1 H2 Ha Hb.
  destruct (wp_det _ _ _ _ _ (wp_pmm_alloc_run s n Hok Hn) H1) as [Hok1 Hp1].
  destruct (wp_det _ _ _ _ _ (wp_pmm_alloc_run s1 m Hok1 Hm) H2) as [_ Hp2].
  apply alloc_success in Hp1 as (p & Hn0 & [(Hp0 & _) _] & -> & [_ _ Hbase _ _ Hbits]); [|done].
  apply alloc_success in Hp2 as (q & Hm0 & [(Hq0 & _ & Hfree) _] & -> & _); [|done].
  rewrite Hbase. destruct (Z.le_gt_cases (p + n) q); [lia|].
  destruct (Z.le_gt_cases (q + m) p); [lia|]. exfalso.
  specialize (Hfree (Z.max p q) ltac:(lia)). rewrite Hbits in Hfree by lia.
  destruct (Z.leb_spec p (Z.max p q)), (Z.ltb_spec (Z.max p q) (p + n)); done || lia.
Qed.

Lemma two_allocs s n m a b :
  fst <$> (a ← pmm_alloc_pages n; b ← pmm_alloc_pages m; mret (a, b)) s = Some (a, b) →
  ∃ s1 s2, pmm_alloc_pages n s = Some (a, s1) ∧ pmm_alloc_pages m s1 = Some (b, s2).
Proof.
  unfold mbind, st_bind. destruct (pmm_alloc_pages n s) as [[a' s1]|]; [|done].
  destruct (pmm_alloc_pages m s1) as [[b' s2]|] eqn:E; [|done].
  intros [= -> ->]. eauto.
Qed.

Lemma pmm_live_disjoint_witness :
  ∃ a b s1 s2, pmm_alloc_pages 4 demo = Some (a, s1) ∧
    pmm_alloc_pages 2 s1 = Some (b, s2) ∧ (a + 4 * 4096 ≤ b ∨ b + 2 * 4096 ≤ a).
Proof.
  destruct (two_allocs demo 4 2 1073741824 1073758208) as (s1 & s2 & E1 & E2);
    [vm_compute; reflexivity|].
  exists 1073741824, 1073758208, s1, s2. split; [exact E1|]. split; [exact E2|].
  apply (pmm_live_disjoint demo 4 2 _ _ s1 s2);
    [exact demo_ok|lia|lia|exact E1|exact E2|lia|lia].
Defined.

(** [reserve_range] withdraws every managed page that intersects the given
    byte range and no other page, keeping the counters consistent. *)
Theorem pmm_reserve_exact s start size :
  pmm_ok s → 0 ≤ start → 0 ≤ size → start + size < 2 ^ 64 →
  ∃ s', reserve_range start size s = Some (tt, s') ∧ pmm_ok s' ∧
    ∀ j, 0 ≤ j → page_alloc s' j = covers s start size j || page_alloc s j.
Proof.
  intros Hok H1 H2 H3. destruct (wp_reserve_range s start size Hok H1 H2 H3)
    as ([] & s' & Hr & Hok' & lo & hi & Hps & Hcov).
  exists s'. split_and!; [done|done|]. intros j Hj.
  rewrite (ps_bits _ _ _ _ _ Hps), Hcov by done. by destruct (covers _ _ _ _).
Qed.

Lemma pmm_reserve_exact_witness :
  ∃ s', reserve_range 1073743000 5000 demo = Some (tt, s') ∧ pmm_ok s' ∧
    ∀ j, 0 ≤ j → page_alloc s' j = covers demo 1073743000 5000 j || page_alloc demo j.
Proof. apply (pmm_reserve_exact demo); [exact demo_ok|lia|lia|lia]. Defined.

(** Client operations, and running a sequence of them. *)
Inductive pmm_op :=
  | OpAlloc (count : Z)
  | OpFree (addr count : Z).

Definition op_args (o : pmm_op) : Prop :=
  match o with
  | OpAlloc count => 0 ≤ count
  | OpFree addr count => 0 ≤ addr < 2 ^ 64 ∧ 0 ≤ count
  end.

Definition run_op (o : pmm_op) : ST pmm unit :=
  match o with
  | OpAlloc count => pmm_alloc_pages count;; mret tt
  | OpFree addr count => pmm_free_pages addr count
  end.

Fixpoint run_ops (os : list pmm_op) : ST pmm unit :=
  match os with
  | [] => mret tt
  | o :: os => run_op o;; run_ops os
  end.

Lemma wp_run_op o s : pmm_ok s → op_args o → wp (run_op o) (λ _, pmm_ok) s.
Proof.
  intros Hok Ho. destruct o as [n|a n]; simpl in *.
  - apply wp_bind. eapply wp_mono; [by apply wp_pmm_alloc_run|].
    intros b s' [? _]. by apply wp_ret.
  - eapply wp_mono; [apply wp_pmm_free_pages; tauto|]. by intros ? ? [? _].
Qed.

(** The consistency check never fails.  After any sequence of allocations
    and releases, valid or not, [pmm_check] returns 0; and it is not vacuous:
    with the same bitmap and a wrong free counter it returns -1. *)
Theorem pmm_check_complete s os :
  pmm_ok s → Forall op_args os →
  ∃ s', (run_ops os;; pmm_check) s = Some (0, s') ∧ pmm_ok s' ∧
    ∀ f, 0 ≤ f ≤ pmm_pages_total s' → f ≠ pmm_pages_free s' →
      pmm_check (set_pages_free f s') = Some (-1, set_pages_free f s').
Proof.
  intros Hok Hos.
  assert (Hrun : wp (run_ops os) (λ _, pmm_ok) s).
  { revert s Hok. induction Hos as [|o os Ho Hos IH]; intros s Hok; simpl; [by apply wp_ret|].
    apply wp_bind. eapply wp_mono; [by apply wp_run_op|]. auto. }
  destruct Hrun as ([] & s' & Hr & Hok'). exists s'. pose proof Hok' as [? ? _ _ ? _ Hf].
  pose proof (free_pages_range s' ltac:(lia)).
  split_and!; [|done|].
  - unfold mbind, st_bind. rewrite Hr.
    destruct (wp_pmm_check s') as (r & t & -> & -> & ->); [done|done|done|lia|].
    by rewrite Hf, Z.eqb_refl.
  - intros f Hfr Hne. destruct (wp_pmm_check (set_pages_free f s')) as (r & t & -> & -> & ->);
      [done..|]. simpl. change (free_pages (set_pages_free f s')) with (free_pages s').
    rewrite (proj2 (Z.eqb_neq _ _)) by congruence. done.
Qed.

Lemma pmm_check_complete_witness :
  ∃ s', (run_ops [OpAlloc 2; OpFree 1073745920 3; OpAlloc 100];; pmm_check) demo = Some (0, s') ∧
    pmm_ok s' ∧ ∀ f, 0 ≤ f ≤ pmm_pages_total s' → f ≠ pmm_pages_free s' →
      pmm_check (set_pages_free f s') = Some (-1, set_pages_free f s').
Proof. apply pmm_check_complete; [exact demo_ok|]. repeat constructor; simpl; lia. Defined.

End Pmm.
