(* ===== verification/RBHeap.v ===== *)
(** * Red-black trees in a node pool: the pointer code (mm/vmm.c)

    The trees of mm/vmm.c and kernel/sched/eevdf.c are threaded through a
    static array of nodes with left, right and parent pointers.  This file
    translates the tree surgery of mm/vmm.c over a heap of nodes: rotations,
    insertion fix-up, transplant, deletion and its fix-up.  The payload of a
    node is a parameter, so the scheduler shares the theory.

    The two branches of each fix-up loop are mirror images in the source
    ([left] exchanged with [right] and [rotate_left] with [rotate_right]);
    the translation writes the branch once, indexed by the side on which the
    current node hangs, and instantiates it twice. *)
From stdpp Require Import base gmap list option numbers.
From S2P Require Import Prelude.
#[local] Open Scope Z_scope.

Inductive color := RB_RED | RB_BLACK.
#[export] Instance color_eq_dec : EqDecision color.
Proof. solve_decision. Defined.

(** A node pointer: an index into the pool, or [NULL]. *)
Abbreviation ptr := (option Z).

Definition is_null (p : ptr) : bool := match p with Some _ => false | None => true end.
Definition ptr_eqb (p q : ptr) : bool := bool_decide (p = q).

Inductive side := L | R.
#[export] Instance side_eq_dec : EqDecision side.
Proof. solve_decision. Defined.
Definition opp (sd : side) : side := match sd with L => R | R => L end.

Section heap.
Context {D : Type}.

Record node := Node {
  left : ptr;
  right : ptr;
  parent : ptr;
  ncolor : color;
  data : D;
}.

Definition set_left (v : ptr) (n : node) : node :=
  Node v (right n) (parent n) (ncolor n) (data n).
Definition set_right (v : ptr) (n : node) : node :=
  Node (left n) v (parent n) (ncolor n) (data n).
Definition set_parent (v : ptr) (n : node) : node :=
  Node (left n) (right n) v (ncolor n) (data n).
Definition set_color (c : color) (n : node) : node :=
  Node (left n) (right n) (parent n) c (data n).
Definition set_data (d : D) (n : node) : node :=
  Node (left n) (right n) (parent n) (ncolor n) d.

Definition child (sd : side) (n : node) : ptr :=
  match sd with L => left n | R => right n end.
Definition set_child (sd : side) (v : ptr) (n : node) : node :=
  match sd with L => set_left v n | R => set_right v n end.

(** The node pool and the root pointer the tree functions receive. *)
Record rbst := {
  heap : gmap Z node;
  root : ptr;
}.

Definition set_heap (h : gmap Z node) (s : rbst) : rbst := {| heap := h; root := root s |}.
Definition set_root (r : ptr) (s : rbst) : rbst := {| heap := heap s; root := r |}.

(** [p->f] and [p->f = v]: undefined on a null or dangling pointer. *)
Definition load (p : ptr) : ST rbst node := λ s,
  match p with
  | Some a => match heap s !! a with Some n => Some (n, s) | None => None end
  | None => None
  end.
Definition rd {A} (f : node → A) (p : ptr) : ST rbst A := n ← load p; mret (f n).
Definition store (p : ptr) (n : node) : ST rbst unit :=
  a ← deref p; modify (λ s, set_heap (<[a := n]> (heap s)) s).
Definition wr (f : node → node) (p : ptr) : ST rbst unit := n ← load p; store p (f n).

Definition is_red (p : ptr) : ST rbst bool :=
  if is_null p then mret false
  else c ← rd ncolor p; mret (bool_decide (c = RB_RED)).
Definition is_black (p : ptr) : ST rbst bool :=
  if is_null p then mret true
  else c ← rd ncolor p; mret (bool_decide (c = RB_BLACK)).

(** [if (!u->parent) *root = v; else if (u == u->parent->left)
    u->parent->left = v; else u->parent->right = v;] *)
Definition replace_child (u v : ptr) : ST rbst unit :=
  up ← rd parent u;
  if is_null up then modify (set_root v)
  else
    upl ← rd left up;
    if ptr_eqb u upl then wr (set_left v) up else wr (set_right v) up.

(** [if (v) v->parent = p;] *)
Definition link_parent (v p : ptr) : ST rbst unit :=
  when (negb (is_null v)) (wr (set_parent p) v).

Definition rotate_left (x : ptr) : ST rbst unit :=
  y ← rd right x;
  yl ← rd left y;
  wr (set_right yl) x;;
  yl ← rd left y;
  link_parent yl x;;
  xp ← rd parent x;
  wr (set_parent xp) y;;
  replace_child x y;;
  wr (set_left x) y;;
  wr (set_parent y) x.

Definition rotate_right (y : ptr) : ST rbst unit :=
  x ← rd left y;
  xr ← rd right x;
  wr (set_left xr) y;;
  xr ← rd right x;
  link_parent xr y;;
  yp ← rd parent y;
  wr (set_parent yp) x;;
  replace_child y x;;
  wr (set_right y) x;;
  wr (set_parent x) y.

Definition rotate (sd : side) : ptr → ST rbst unit :=
  match sd with L => rotate_left | R => rotate_right end.

(** ** Fix-up loops

    mm/vmm.c and kernel/sched/eevdf.c differ in which link of the parent
    [rotate_right] tests first; the loops take the rotations as a parameter,
    and mm/vmm.c's are [rotate]. *)
Section fixup.
Context (rot : side → ptr → ST rbst unit).

(** One iteration of [insert_fixup] when [p = z->parent] is red and is the
    [sd] child of [g]; the result is the new [z]. *)
Definition insert_fixup_side (sd : side) (z p g : ptr) : ST rbst ptr :=
  u ← rd (child (opp sd)) g;
  ured ← is_red u;
  if (ured : bool) then
    wr (set_color RB_BLACK) p;;
    wr (set_color RB_BLACK) u;;
    wr (set_color RB_RED) g;;
    mret g
  else
    pi ← rd (child (opp sd)) p;
    zpg ← (if ptr_eqb z pi then
             rot sd p;;
             p' ← rd parent p;
             g' ← rd parent p';
             mret (p, p', g')
           else mret (z, p, g));
    let '(z, p, g) := zpg in
    wr (set_color RB_BLACK) p;;
    wr (set_color RB_RED) g;;
    rot (opp sd) g;;
    mret z.

Fixpoint insert_fixup (fuel : nat) (z : ptr) : ST rbst unit :=
  match fuel with
  | O => undef
  | S fuel =>
      p ← rd parent z;
      pred ← is_red p;
      if (pred : bool) then
        g ← rd parent p;
        gl ← rd left g;
        z' ← (if ptr_eqb p gl then insert_fixup_side L z p g
              else insert_fixup_side R z p g);
        insert_fixup fuel z'
      else
        r ← gets root;
        wr (set_color RB_BLACK) r
  end.

Fixpoint tree_min (fuel : nat) (n : ptr) : ST rbst ptr :=
  match fuel with
  | O => undef
  | S fuel =>
      if is_null n then mret n
      else
        l ← rd left n;
        if is_null l then mret n else tree_min fuel l
  end.

Definition transplant (u v : ptr) : ST rbst unit :=
  replace_child u v;;
  up ← rd parent u;
  link_parent v up.

(** [p ? p->f : d] *)
Definition rd_or {A} (d : A) (f : node → A) (p : ptr) : ST rbst A :=
  if is_null p then mret d else rd f p.
(** [if (p) p->f = v;] *)
Definition wr_if (f : node → node) (p : ptr) : ST rbst unit :=
  when (negb (is_null p)) (wr f p).

(** Case 4 of [delete_fixup]: the far child of the sibling [w] is red. *)
Definition delete_fixup_far (sd : side) (xp w : ptr) : ST rbst ptr :=
  xpc ← rd_or RB_BLACK ncolor xp;
  wr_if (set_color xpc) w;;
  wr_if (set_color RB_BLACK) xp;;
  wf ← rd_or None (child (opp sd)) w;
  wr_if (set_color RB_BLACK) wf;;
  rot sd xp;;
  gets root.

(** The second half of an iteration of [delete_fixup], once the sibling [w]
    of [x] is black: [inl] continues with the new [x] and [x_parent], [inr] is
    the [break] with [x = *root]. *)
Definition delete_fixup_black (sd : side) (xp w : ptr) : ST rbst (ptr * ptr + ptr) :=
  wn ← rd_or None (child sd) w;
  wf ← rd_or None (child (opp sd)) w;
  nb ← is_black wn;
  fb ← is_black wf;
  if (nb : bool) && (fb : bool) then
    wr_if (set_color RB_RED) w;;
    xpp ← rd_or None parent xp;
    mret (inl (xp, xpp))
  else
    w ← (if (fb : bool) then
           wn ← rd_or None (child sd) w;
           wr_if (set_color RB_BLACK) wn;;
           wr_if (set_color RB_RED) w;;
           rot (opp sd) w;;
           rd_or None (child (opp sd)) xp
         else mret w);
    r ← delete_fixup_far sd xp w;
    mret (inr r).

(** One iteration for an [x] that is the [sd] child of [x_parent]. *)
Definition delete_fixup_side (sd : side) (xp : ptr) : ST rbst (ptr * ptr + ptr) :=
  w ← rd_or None (child (opp sd)) xp;
  wred ← is_red w;
  w ← (if (wred : bool) then
         wr (set_color RB_BLACK) w;;
         wr_if (set_color RB_RED) xp;;
         rot sd xp;;
         rd_or None (child (opp sd)) xp
       else mret w);
  delete_fixup_black sd xp w.

Fixpoint delete_fixup (fuel : nat) (x xp : ptr) : ST rbst unit :=
  match fuel with
  | O => undef
  | S fuel =>
      r ← gets root;
      xb ← is_black x;
      if negb (ptr_eqb x r) && (xb : bool) then
        xpl ← rd_or None left xp;
        next ← (if ptr_eqb x xpl then delete_fixup_side L xp
                else delete_fixup_side R xp);
        match next with
        | inl (x, xp) => delete_fixup fuel x xp
        | inr x => wr_if (set_color RB_BLACK) x
        end
      else wr_if (set_color RB_BLACK) x
  end.

Definition rb_delete (fuel : nat) (z : ptr) : ST rbst unit :=
  y_orig ← rd ncolor z;
  zl ← rd left z;
  zr ← rd right z;
  res ← (if is_null zl then
           xp ← rd parent z;
           transplant z zr;;
           mret (zr, xp, y_orig)
         else if is_null zr then
           xp ← rd parent z;
           transplant z zl;;
           mret (zl, xp, y_orig)
         else
           y ← tree_min fuel zr;
           y_orig ← rd ncolor y;
           x ← rd right y;
           yp ← rd parent y;
           xp ← (if ptr_eqb yp z then
                   link_parent x y;;
                   mret y
                 else
                   yr ← rd right y;
                   transplant y yr;;
                   zr ← rd right z;
                   wr (set_right zr) y;;
                   yr ← rd right y;
                   link_parent yr y;;
                   mret yp);
           transplant z y;;
           zl ← rd left z;
           wr (set_left zl) y;;
           yl ← rd left y;
           link_parent yl y;;
           zc ← rd ncolor z;
           wr (set_color zc) y;;
           mret (x, xp, y_orig));
  let '(x, xp, y_orig) := res in
  when (bool_decide (y_orig = RB_BLACK)) (delete_fixup fuel x xp).

End fixup.

End heap.
Arguments node : clear implicits.
Arguments rbst : clear implicits.
