(* ===== verification/RBTree.v ===== *)
(** * Red-black trees in a node pool: theory

    An abstract tree records the pool index, colour and payload of each of its
    nodes; [whole s t] says that the pool and root pointer [s] represent [t],
    parent pointers included.  Each piece of pointer surgery of [RBHeap] is
    shown to implement an operation on abstract trees in zipper form, and the
    fix-up loops are shown to restore the red-black invariant while leaving
    the in-order sequence unchanged. *)
From stdpp Require Import base gmap list option numbers sets.
From S2P Require Import Prelude RBHeap.
#[local] Open Scope Z_scope.

Section tree.
Context {D : Type}.
Implicit Types (s : rbst D) (h : gmap Z (node D)) (p q x y z : Z) (d : D) (c : color).

Inductive tree :=
  | E
  | T (p : Z) (c : color) (d : D) (l r : tree).

Definition rptr (t : tree) : ptr := match t with E => None | T p _ _ _ _ => Some p end.
Definition tcol (t : tree) : color := match t with E => RB_BLACK | T _ c _ _ _ => c end.

(** In-order sequence of (pool index, payload). *)
Fixpoint elems (t : tree) : list (Z * D) :=
  match t with
  | E => []
  | T p _ d l r => elems l ++ (p, d) :: elems r
  end.
Definition ptrs (t : tree) : list Z := (elems t).*1.

(** A node with [u] on side [sd] and [v] on the other. *)
Definition mk (sd : side) (p : Z) (c : color) (d : D) (u v : tree) : tree :=
  match sd with L => T p c d u v | R => T p c d v u end.

(** Zipper frames: the hole is the [fside] child of node [fptr], whose other
    child is [fsib]. *)
Record frame := Frame {
  fside : side;
  fptr : Z;
  fcol : color;
  fdata : D;
  fsib : tree;
}.
Implicit Types (f : frame) (k : list frame) (t a b : tree).

Definition fill (f : frame) (t : tree) : tree :=
  mk (fside f) (fptr f) (fcol f) (fdata f) t (fsib f).
Fixpoint plug (k : list frame) (t : tree) : tree :=
  match k with
  | [] => t
  | f :: k => plug k (fill f t)
  end.

Definition cpar (k : list frame) : ptr :=
  match k with [] => None | f :: _ => Some (fptr f) end.
Definition ccol (k : list frame) : color :=
  match k with [] => RB_BLACK | f :: _ => fcol f end.

(** The in-order elements to the left and to the right of the hole. *)
Fixpoint lctx (k : list frame) : list (Z * D) :=
  match k with
  | [] => []
  | f :: k => lctx k ++
      match fside f with L => [] | R => elems (fsib f) ++ [(fptr f, fdata f)] end
  end.
Fixpoint rctx (k : list frame) : list (Z * D) :=
  match k with
  | [] => []
  | f :: k => match fside f with
              | L => (fptr f, fdata f) :: elems (fsib f)
              | R => [] end ++ rctx k
  end.
Definition cptrs (k : list frame) : list Z := (lctx k).*1 ++ (rctx k).*1.

Lemma elems_plug k t : elems (plug k t) = lctx k ++ elems t ++ rctx k.
Proof.
  revert t. induction k as [|f k IH]; intros t; simpl; [by rewrite app_nil_r|].
  rewrite IH. destruct f as [[] p c d b]; unfold fill; simpl;
    rewrite <-?app_assoc; simpl; rewrite ?app_nil_r, <-?app_assoc; done.
Qed.

Lemma elems_mk_rot sd x cx dx y cy dy a b e cx' cy' :
  elems (mk sd x cx dx a (mk sd y cy dy b e)) =
  elems (mk sd y cy' dy (mk sd x cx' dx a b) e).
Proof. destruct sd; simpl; rewrite <-?app_assoc; simpl; rewrite <-?app_assoc; done. Qed.

Lemma elems_mk_col sd x c c' d a b : elems (mk sd x c d a b) = elems (mk sd x c' d a b).
Proof. by destruct sd. Qed.

(** ** Representation in the heap *)

Fixpoint rep (h : gmap Z (node D)) (par : ptr) (t : tree) : Prop :=
  match t with
  | E => True
  | T p c d l r =>
      h !! p = Some (Node (rptr l) (rptr r) par c d) ∧
      rep h (Some p) l ∧ rep h (Some p) r
  end.

Definition mknode (sd : side) (u v par : ptr) (c : color) (d : D) : node D :=
  match sd with L => Node u v par c d | R => Node v u par c d end.

Fixpoint rep_ctx (h : gmap Z (node D)) (hole : ptr) (k : list frame) : Prop :=
  match k with
  | [] => True
  | f :: k =>
      h !! fptr f = Some (mknode (fside f) hole (rptr (fsib f)) (cpar k) (fcol f) (fdata f)) ∧
      rep h (Some (fptr f)) (fsib f) ∧ rep_ctx h (Some (fptr f)) k
  end.

(** The root pointer above a hole. *)
Fixpoint croot (hole : ptr) (k : list frame) : ptr :=
  match k with [] => hole | f :: k => croot (Some (fptr f)) k end.

Definition whole (s : rbst D) (t : tree) : Prop :=
  root s = rptr t ∧ rep (heap s) None t ∧ NoDup (ptrs t).

(** Nodes outside the tree are untouched. *)
Definition untouched (s s' : rbst D) (t : tree) : Prop :=
  ∀ q, q ∉ ptrs t → heap s' !! q = heap s !! q.

Lemma rep_mk h par sd p c d u v :
  rep h par (mk sd p c d u v) ↔
  h !! p = Some (mknode sd (rptr u) (rptr v) par c d) ∧
  rep h (Some p) u ∧ rep h (Some p) v.
Proof. destruct sd; simpl; tauto. Qed.

Lemma rptr_mk sd p c d u v : rptr (mk sd p c d u v) = Some p.
Proof. by destruct sd. Qed.
Lemma tcol_mk sd p c d u v : tcol (mk sd p c d u v) = c.
Proof. by destruct sd. Qed.

Lemma rep_plug h k t :
  rep h None (plug k t) ↔ rep h (cpar k) t ∧ rep_ctx h (rptr t) k.
Proof.
  revert t. induction k as [|f k IH]; intros t; simpl; [tauto|].
  rewrite IH. unfold fill. rewrite rep_mk, rptr_mk. tauto.
Qed.

Lemma rptr_plug k t : rptr (plug k t) = croot (rptr t) k.
Proof.
  revert t. induction k as [|f k IH]; intros t; simpl; [done|].
  rewrite IH. unfold fill. by rewrite rptr_mk.
Qed.

Lemma ptrs_plug k t : ptrs (plug k t) = (lctx k).*1 ++ ptrs t ++ (rctx k).*1.
Proof. unfold ptrs. by rewrite elems_plug, !fmap_app. Qed.

Lemma elem_ptrs_plug k t q : q ∈ ptrs (plug k t) ↔ q ∈ ptrs t ∨ q ∈ cptrs k.
Proof. rewrite ptrs_plug. unfold cptrs. set_solver. Qed.

Lemma elem_ptrs_mk sd p c d u v q :
  q ∈ ptrs (mk sd p c d u v) ↔ q = p ∨ q ∈ ptrs u ∨ q ∈ ptrs v.
Proof. unfold ptrs. destruct sd; simpl; rewrite fmap_app; set_solver. Qed.

(** Distinctness, unfolded. *)
Lemma nodup_plug k t :
  NoDup (ptrs (plug k t)) ↔
  NoDup (ptrs t) ∧ NoDup (cptrs k) ∧ (∀ q, q ∈ ptrs t → q ∉ cptrs k).
Proof.
  rewrite ptrs_plug. unfold cptrs. rewrite !NoDup_app.
  setoid_rewrite elem_of_app. naive_solver.
Qed.

Lemma nodup_mk sd p c d u v :
  NoDup (ptrs (mk sd p c d u v)) ↔
  NoDup (ptrs u) ∧ NoDup (ptrs v) ∧ p ∉ ptrs u ∧ p ∉ ptrs v ∧
  (∀ q, q ∈ ptrs u → q ∉ ptrs v).
Proof.
  unfold ptrs. destruct sd; simpl; rewrite fmap_app, NoDup_app, fmap_cons, NoDup_cons; simpl;
    setoid_rewrite elem_of_cons; naive_solver.
Qed.

Lemma elem_cptrs f k q :
  q ∈ cptrs (f :: k) ↔ q = fptr f ∨ q ∈ ptrs (fsib f) ∨ q ∈ cptrs k.
Proof.
  unfold cptrs, ptrs. destruct f as [[] p c d b]; simpl; rewrite ?fmap_app; set_solver.
Qed.

Lemma nodup_cptrs f k :
  NoDup (cptrs (f :: k)) ↔
  NoDup (ptrs (fsib f)) ∧ NoDup (cptrs k) ∧ fptr f ∉ ptrs (fsib f) ∧ fptr f ∉ cptrs k ∧
  (∀ q, q ∈ ptrs (fsib f) → q ∉ cptrs k).
Proof.
  pose proof (nodup_plug (f :: k) E) as H1. simpl in H1.
  pose proof (nodup_plug k (fill f E)) as H2. unfold fill in H2.
  rewrite nodup_mk in H2.
  assert (ptrs E = []) as HE by done. rewrite HE in *.
  setoid_rewrite elem_ptrs_mk in H2. rewrite HE in H2. unfold fill in H1.
  pose proof (NoDup_nil_2 (A:=Z)). set_solver.
Qed.

(** ** Frame properties *)

Lemma rep_frame h h' par t :
  (∀ q, q ∈ ptrs t → h' !! q = h !! q) → rep h par t → rep h' par t.
Proof.
  revert par. induction t as [|p c d l IHl r IHr]; intros par Heq; simpl; [done|].
  intros (Hp & Hl & Hr).
  assert (Hm : ∀ q, q ∈ ptrs (T p c d l r) ↔ q = p ∨ q ∈ ptrs l ∨ q ∈ ptrs r)
    by (intros q; apply (elem_ptrs_mk L)).
  split_and!.
  - rewrite Heq; [done|]. set_solver.
  - apply IHl; [|done]. set_solver.
  - apply IHr; [|done]. set_solver.
Qed.

Lemma rep_ctx_frame h h' hole k :
  (∀ q, q ∈ cptrs k → h' !! q = h !! q) → rep_ctx h hole k → rep_ctx h' hole k.
Proof.
  revert hole. induction k as [|f k IH]; intros hole Heq; simpl; [done|].
  intros (Hp & Hs & Hk).
  pose proof (elem_cptrs f k) as Hm. split_and!.
  - rewrite Heq; [done|]. set_solver.
  - eapply rep_frame; [|done]. set_solver.
  - apply IH; [|done]. set_solver.
Qed.

Lemma rptr_in t p : rptr t = Some p → p ∈ ptrs t.
Proof.
  destruct t as [|p' c d l r]; simpl; [done|]. intros [= ->].
  apply (elem_ptrs_mk L). by left.
Qed.

(** Re-rooting a subtree under another parent. *)
Lemma rep_reparent h par par' t p n :
  rep h par t → NoDup (ptrs t) → rptr t = Some p → h !! p = Some n →
  rep (<[p := set_parent par' n]> h) par' t.
Proof.
  destruct t as [|p' c d l r]; [done|]. intros (Hp & Hl & Hr) Hnd [= ->] Hn.
  apply (nodup_mk L) in Hnd as (_ & _ & Hpl & Hpr & _). rewrite Hp in Hn.
  injection Hn as <-. simpl. split_and!.
  - by rewrite lookup_insert_eq.
  - eapply rep_frame; [|exact Hl]. intros q Hq. apply lookup_insert_ne. by intros ->.
  - eapply rep_frame; [|exact Hr]. intros q Hq. apply lookup_insert_ne. by intros ->.
Qed.

(** The focused node as the code reads it. *)
Lemma whole_focus s k sd p c d u v :
  whole s (plug k (mk sd p c d u v)) →
  heap s !! p = Some (mknode sd (rptr u) (rptr v) (cpar k) c d).
Proof. intros (_ & Hrep & _). apply rep_plug in Hrep as [Hrep _]. by apply rep_mk in Hrep as [? _]. Qed.

(** ** Primitive steps *)

Lemma child_mknode sd (u v par : ptr) c d : child sd (mknode sd u v par c d) = u.
Proof. by destruct sd. Qed.
Lemma child_opp_mknode sd (u v par : ptr) c d : child (opp sd) (mknode sd u v par c d) = v.
Proof. by destruct sd. Qed.
Lemma parent_mknode sd (u v par : ptr) c d : parent (mknode sd u v par c d) = par.
Proof. by destruct sd. Qed.
Lemma ncolor_mknode sd (u v par : ptr) c d : ncolor (mknode sd u v par c d) = c.
Proof. by destruct sd. Qed.
Lemma data_mknode sd (u v par : ptr) c d : data (mknode sd u v par c d) = d.
Proof. by destruct sd. Qed.
Lemma set_child_mknode sd w (u v par : ptr) c d :
  set_child sd w (mknode sd u v par c d) = mknode sd w v par c d.
Proof. by destruct sd. Qed.
Lemma set_child_opp_mknode sd w (u v par : ptr) c d :
  set_child (opp sd) w (mknode sd u v par c d) = mknode sd u w par c d.
Proof. by destruct sd. Qed.
Lemma set_parent_mknode sd w (u v par : ptr) c d :
  set_parent w (mknode sd u v par c d) = mknode sd u v w c d.
Proof. by destruct sd. Qed.
Lemma set_color_mknode sd c' (u v par : ptr) c d :
  set_color c' (mknode sd u v par c d) = mknode sd u v par c' d.
Proof. by destruct sd. Qed.
Lemma opp_opp sd : opp (opp sd) = sd.
Proof. by destruct sd. Qed.
Lemma mk_opp sd p c d u v : mk (opp sd) p c d u v = mk sd p c d v u.
Proof. by destruct sd. Qed.

Lemma wp_rd {A} (f : node D → A) s p n (Q : A → rbst D → Prop) :
  heap s !! p = Some n → Q (f n) s → wp (rd f (Some p)) Q s.
Proof. intros Hp HQ. exists (f n), s. unfold rd, load, mbind, st_bind. by rewrite Hp. Qed.

Lemma wp_wr (f : node D → node D) s p n (Q : unit → rbst D → Prop) :
  heap s !! p = Some n → Q tt (set_heap (<[p := f n]> (heap s)) s) → wp (wr f (Some p)) Q s.
Proof.
  intros Hp HQ. eexists tt, _. split; [|exact HQ].
  unfold wr, load, mbind, st_bind. by rewrite Hp.
Qed.

Lemma wp_rd_or {A} (d : A) (f : node D → A) s p n (Q : A → rbst D → Prop) :
  heap s !! p = Some n → Q (f n) s → wp (rd_or d f (Some p)) Q s.
Proof. apply wp_rd. Qed.

Lemma wp_wr_if (f : node D → node D) s p n (Q : unit → rbst D → Prop) :
  heap s !! p = Some n → Q tt (set_heap (<[p := f n]> (heap s)) s) → wp (wr_if f (Some p)) Q s.
Proof. apply wp_wr. Qed.

Lemma wp_is_red s par t (Q : bool → rbst D → Prop) :
  rep (heap s) par t → Q (bool_decide (tcol t = RB_RED)) s → wp (is_red (rptr t)) Q s.
Proof.
  destruct t as [|p c d l r]; simpl; intros Hrep HQ; unfold is_red; simpl.
  - by apply wp_ret.
  - apply wp_bind. eapply wp_rd; [apply Hrep|]. by apply wp_ret.
Qed.

Lemma wp_is_black s par t (Q : bool → rbst D → Prop) :
  rep (heap s) par t → Q (bool_decide (tcol t = RB_BLACK)) s → wp (is_black (rptr t)) Q s.
Proof.
  destruct t as [|p c d l r]; simpl; intros Hrep HQ; unfold is_black; simpl.
  - by apply wp_ret.
  - apply wp_bind. eapply wp_rd; [apply Hrep|]. by apply wp_ret.
Qed.

(** The three-way link update replaces what hangs in a context. *)
Definition replaces (rc : ptr → ptr → ST (rbst D) unit) : Prop :=
  ∀ s k x v n (Q : unit → rbst D → Prop),
    heap s !! x = Some n → parent n = cpar k →
    rep_ctx (heap s) (Some x) k → root s = croot (Some x) k →
    NoDup (cptrs k) → x ∉ cptrs k →
    (∀ s', rep_ctx (heap s') v k → root s' = croot v k →
           (∀ q, q ∉ cptrs k → heap s' !! q = heap s !! q) → Q tt s') →
    wp (rc (Some x) v) Q s.

Lemma wp_replace_child s k x v n (Q : unit → rbst D → Prop) :
  heap s !! x = Some n → parent n = cpar k →
  rep_ctx (heap s) (Some x) k → root s = croot (Some x) k →
  NoDup (cptrs k) → x ∉ cptrs k →
  (∀ s', rep_ctx (heap s') v k → root s' = croot v k →
         (∀ q, q ∉ cptrs k → heap s' !! q = heap s !! q) → Q tt s') →
  wp (replace_child (Some x) v) Q s.
Proof.
  intros Hx Hpar Hctx Hroot Hnd Hxk HQ. unfold replace_child.
  apply wp_bind. eapply wp_rd; [exact Hx|]. rewrite Hpar.
  destruct k as [|f k]; simpl in *.
  - apply wp_modify. by apply HQ.
  - destruct Hctx as (Hf & Hsib & Hup).
    apply nodup_cptrs in Hnd as (_ & _ & Hfs & Hfk & Hsk).
    rewrite elem_cptrs in Hxk.
    apply wp_bind. eapply wp_rd; [exact Hf|].
    assert (Hback : ∀ g, g (mknode (fside f) (Some x) (rptr (fsib f)) (cpar k) (fcol f) (fdata f))
        = mknode (fside f) v (rptr (fsib f)) (cpar k) (fcol f) (fdata f) →
      wp (wr g (Some (fptr f))) Q s).
    { intros g Hg. eapply wp_wr; [exact Hf|]. rewrite Hg. apply HQ; simpl.
      - split_and!; [by rewrite lookup_insert_eq| |].
        + eapply rep_frame; [|exact Hsib]. intros q Hq. apply lookup_insert_ne. by intros <-.
        + eapply rep_ctx_frame; [|exact Hup]. intros q Hq. apply lookup_insert_ne. by intros <-.
      - done.
      - intros q Hq. rewrite elem_cptrs in Hq. apply lookup_insert_ne. naive_solver. }
    unfold ptr_eqb. destruct (fside f); simpl in *.
    + rewrite bool_decide_true by done. by apply Hback.
    + rewrite bool_decide_false; [by apply Hback|]. intros Heq.
      apply Hxk. right. left. by apply rptr_in.
Qed.

Lemma wp_link_parent s t par par' (Q : unit → rbst D → Prop) :
  rep (heap s) par t → NoDup (ptrs t) →
  (∀ s', rep (heap s') par' t → root s' = root s →
         (∀ q, q ∉ ptrs t → heap s' !! q = heap s !! q) → Q tt s') →
  wp (link_parent (rptr t) par') Q s.
Proof.
  intros Hrep Hnd HQ. unfold link_parent.
  destruct t as [|p c d l r]; simpl; [by apply wp_ret, HQ|].
  pose proof Hrep as (Hp & _ & _). eapply wp_wr; [exact Hp|].
  apply HQ; [|done|].
  - by eapply rep_reparent.
  - intros q Hq. apply lookup_insert_ne. intros ->. by apply Hq, rptr_in.
Qed.

(** ** Rotations *)

Definition rotate_with (rc : ptr → ptr → ST (rbst D) unit) (sd : side) (x : ptr)
    : ST (rbst D) unit :=
  y ← rd (child (opp sd)) x;
  yl ← rd (child sd) y;
  wr (set_child (opp sd) yl) x;;
  yl ← rd (child sd) y;
  link_parent yl x;;
  xp ← rd parent x;
  wr (set_parent xp) y;;
  rc x y;;
  wr (set_child sd x) y;;
  wr (set_parent y) x.

Lemma rotate_eq sd (x : ptr) : rotate sd x = rotate_with replace_child sd x.
Proof. by destruct sd. Qed.

Lemma wp_rotate_with rc sd s k x cx dx a y cy dy b e (Q : unit → rbst D → Prop) :
  replaces rc →
  let t := plug k (mk sd x cx dx a (mk sd y cy dy b e)) in
  let t' := plug k (mk sd y cy dy (mk sd x cx dx a b) e) in
  whole s t →
  (∀ s', whole s' t' → untouched s s' t → Q tt s') →
  wp (rotate_with rc sd (Some x)) Q s.
Proof.
  intros Hrc t t' (Hroot & Hrep & Hnd) HQ. subst t t'.
  assert (Hnd' : NoDup (ptrs (plug k (mk sd y cy dy (mk sd x cx dx a b) e)))).
  { revert Hnd. rewrite !ptrs_plug. unfold ptrs.
    by rewrite (elems_mk_rot sd x cx dx y cy dy a b e cx cy). }
  rewrite rep_plug, rptr_mk, rep_mk, rptr_mk, rep_mk in Hrep.
  destruct Hrep as ((Hx & Ha & Hy & Hb & He) & Hctx).
  rewrite rptr_plug, rptr_mk in Hroot.
  pose proof Hnd as Hnd0. apply nodup_plug in Hnd0 as (Hndt & Hndk & Hdk).
  setoid_rewrite elem_ptrs_mk in Hdk. setoid_rewrite elem_ptrs_mk in Hdk.
  rewrite !nodup_mk in Hndt. setoid_rewrite elem_ptrs_mk in Hndt.
  destruct Hndt as (Hnda & (Hndb & Hnde & Hyb & Hye & Hbe) & Hxa & Hxy & Hayb).
  assert (Hne : x ≠ y) by naive_solver.
  unfold rotate_with.
  apply wp_bind. eapply wp_rd; [exact Hx|]. rewrite child_opp_mknode.
  apply wp_bind. eapply wp_rd; [exact Hy|]. rewrite child_mknode.
  apply wp_bind. eapply wp_wr; [exact Hx|]. rewrite set_child_opp_mknode.
  apply wp_bind. eapply wp_rd; [simpl; by rewrite lookup_insert_ne|]. rewrite child_mknode.
  apply wp_bind. eapply (wp_link_parent _ b (Some y)); [|done|].
  { simpl. eapply rep_frame; [|exact Hb]. intros q Hq. apply lookup_insert_ne. naive_solver. }
  intros s2 Hb2 Hroot2 Hout2. simpl in Hout2, Hroot2.
  apply wp_bind. eapply wp_rd; [rewrite Hout2 by naive_solver; by rewrite lookup_insert_eq|].
  rewrite parent_mknode.
  apply wp_bind. eapply wp_wr; [rewrite Hout2, lookup_insert_ne by naive_solver; exact Hy|].
  rewrite set_parent_mknode. apply wp_bind.
  eapply (Hrc _ k x (Some y)).
  { simpl. rewrite lookup_insert_ne, Hout2, lookup_insert_eq by naive_solver. done. }
  { by rewrite parent_mknode. }
  { simpl. eapply rep_ctx_frame; [|exact Hctx]. intros q Hq.
    rewrite lookup_insert_ne, Hout2, lookup_insert_ne by naive_solver. done. }
  { simpl. by rewrite Hroot2. }
  { done. }
  { naive_solver. }
  intros s3 Hctx3 Hroot3 Hout3. simpl in Hout3.
  apply wp_bind. eapply wp_wr.
  { rewrite Hout3, lookup_insert_eq by naive_solver. done. }
  rewrite set_child_mknode. eapply wp_wr.
  { simpl. rewrite lookup_insert_ne, Hout3, lookup_insert_ne, Hout2, lookup_insert_eq
      by naive_solver. done. }
  rewrite set_parent_mknode. apply HQ.
  - split_and!; [by rewrite rptr_plug, rptr_mk| |done].
    rewrite rep_plug, rptr_mk, rep_mk, rptr_mk, rep_mk. simpl.
    assert (Hfr : ∀ q, q ≠ x → q ≠ y → q ∉ ptrs b → q ∉ cptrs k →
      <[x:=mknode sd (rptr a) (rptr b) (Some y) cx dx]>
        (<[y:=mknode sd (Some x) (rptr e) (cpar k) cy dy]> (heap s3)) !! q = heap s !! q).
    { intros q H1 H2 H3 H4. by rewrite !lookup_insert_ne, Hout3, lookup_insert_ne,
        Hout2, lookup_insert_ne by done. }
    split_and!.
    + by rewrite lookup_insert_ne, lookup_insert_eq.
    + by rewrite lookup_insert_eq.
    + eapply rep_frame; [|exact Ha]. intros q Hq. apply Hfr; naive_solver.
    + eapply rep_frame; [|exact Hb2]. intros q Hq.
      rewrite !lookup_insert_ne, Hout3, lookup_insert_ne by naive_solver. done.
    + eapply rep_frame; [|exact He]. intros q Hq. apply Hfr; naive_solver.
    + eapply rep_ctx_frame; [|exact Hctx3]. intros q Hq.
      rewrite !lookup_insert_ne by naive_solver. done.
  - intros q Hq. rewrite elem_ptrs_plug, !elem_ptrs_mk in Hq. simpl.
    rewrite !lookup_insert_ne, Hout3, lookup_insert_ne, Hout2, lookup_insert_ne
      by naive_solver. done.
Qed.

(** What the fix-up loops need of the rotations they call. *)
Definition rotates (rot : side → ptr → ST (rbst D) unit) : Prop :=
  ∀ sd s k x cx dx a y cy dy b e (Q : unit → rbst D → Prop),
    whole s (plug k (mk sd x cx dx a (mk sd y cy dy b e))) →
    (∀ s', whole s' (plug k (mk sd y cy dy (mk sd x cx dx a b) e)) →
           untouched s s' (plug k (mk sd x cx dx a (mk sd y cy dy b e))) → Q tt s') →
    wp (rot sd (Some x)) Q s.

Lemma rotate_rotates : rotates rotate.
Proof.
  intros sd s k x cx dx a y cy dy b e Q. rewrite rotate_eq. apply wp_rotate_with.
  intros s0 k0 x0 v0 n0 Q0. apply wp_replace_child.
Qed.

Lemma wp_recolor s k sd p c c' d u v (Q : unit → rbst D → Prop) :
  let t := plug k (mk sd p c d u v) in
  whole s t →
  (∀ s', whole s' (plug k (mk sd p c' d u v)) → untouched s s' t → Q tt s') →
  wp (wr (set_color c') (Some p)) Q s.
Proof.
  intros t Hw HQ. subst t. pose proof (whole_focus _ _ _ _ _ _ _ _ Hw) as Hp.
  destruct Hw as (Hroot & Hrep & Hnd). eapply wp_wr; [exact Hp|].
  rewrite set_color_mknode. pose proof Hnd as Hnd0. rewrite nodup_plug, nodup_mk in Hnd0.
  setoid_rewrite elem_ptrs_mk in Hnd0. rewrite rep_plug, rep_mk, rptr_mk in Hrep.
  destruct Hrep as ((_ & Hu & Hv) & Hctx). apply HQ.
  - split_and!; simpl.
    + rewrite rptr_plug, rptr_mk in *. done.
    + rewrite rep_plug, rep_mk, rptr_mk. split_and!.
      * by rewrite lookup_insert_eq.
      * eapply rep_frame; [|exact Hu]. intros q Hq. apply lookup_insert_ne. naive_solver.
      * eapply rep_frame; [|exact Hv]. intros q Hq. apply lookup_insert_ne. naive_solver.
      * eapply rep_ctx_frame; [|exact Hctx]. intros q Hq. apply lookup_insert_ne. naive_solver.
    + revert Hnd. rewrite !ptrs_plug. unfold ptrs. by rewrite (elems_mk_col _ _ c c').
  - intros q Hq. rewrite elem_ptrs_plug, elem_ptrs_mk in Hq. simpl.
    apply lookup_insert_ne. naive_solver.
Qed.

Lemma wp_is_red_at s p n (Q : bool → rbst D → Prop) :
  heap s !! p = Some n → Q (bool_decide (ncolor n = RB_RED)) s → wp (is_red (Some p)) Q s.
Proof. intros Hp HQ. unfold is_red; simpl. apply wp_bind. eapply wp_rd; [exact Hp|]. by apply wp_ret. Qed.

Lemma untouched_refl s t : untouched s s t.
Proof. done. Qed.

Lemma untouched_trans s s1 s2 t t1 :
  untouched s s1 t → untouched s1 s2 t1 → elems t1 = elems t → untouched s s2 t.
Proof.
  intros H1 H2 He q Hq. rewrite H2; [by apply H1|]. unfold ptrs. by rewrite He.
Qed.

(** ** The red-black invariant *)

(** [rb t n]: no red node has a red child, and every path to a leaf goes
    through [n] black nodes. *)
Fixpoint rb (t : tree) (n : nat) : Prop :=
  match t with
  | E => n = O
  | T _ RB_RED _ l r => rb l n ∧ rb r n ∧ tcol l = RB_BLACK ∧ tcol r = RB_BLACK
  | T _ RB_BLACK _ l r => match n with O => False | S m => rb l m ∧ rb r m end
  end.

(** The context expects a tree of black height [n] in its hole; its root, the
    outermost frame, is black. *)
Fixpoint rbc (k : list frame) (n : nat) : Prop :=
  match k with
  | [] => True
  | f :: k =>
      rb (fsib f) n ∧
      match fcol f with
      | RB_BLACK => rbc k (S n)
      | RB_RED => tcol (fsib f) = RB_BLACK ∧ k ≠ [] ∧ ccol k = RB_BLACK ∧ rbc k n
      end
  end.

Definition blacken (t : tree) : tree :=
  match t with E => E | T p _ d l r => T p RB_BLACK d l r end.

Lemma rb_mk_red sd p d u v n :
  rb (mk sd p RB_RED d u v) n ↔ rb u n ∧ rb v n ∧ tcol u = RB_BLACK ∧ tcol v = RB_BLACK.
Proof. destruct sd; simpl; tauto. Qed.
Lemma rb_mk_black sd p d u v n :
  rb (mk sd p RB_BLACK d u v) (S n) ↔ rb u n ∧ rb v n.
Proof. destruct sd; simpl; tauto. Qed.
Lemma rb_mk_black0 sd p d u v : ¬ rb (mk sd p RB_BLACK d u v) O.
Proof. destruct sd; simpl; tauto. Qed.

Lemma rb_plug k t n :
  rb t n → rbc k n → tcol t = RB_BLACK ∨ ccol k = RB_BLACK → k ≠ [] ∨ tcol t = RB_BLACK →
  ∃ m, rb (plug k t) m ∧ tcol (plug k t) = RB_BLACK.
Proof.
  revert t n. induction k as [|f k IH]; intros t n Ht Hk Hc Hr; simpl in *.
  - destruct Hr as [|Hr]; [done|]. eauto.
  - destruct f as [sd p c d b]; unfold fill; simpl in *. destruct Hk as [Hb Hk].
    destruct c.
    + destruct Hk as (Hbc & Hne & Hcc & Hk). destruct Hc as [Hc|]; [|done].
      apply (IH _ n); [by apply rb_mk_red|done|by right|by left].
    + apply (IH _ (S n)); [by apply rb_mk_black|done|left; apply tcol_mk|right; apply tcol_mk].
Qed.

Lemma rb_plug_inv k t m :
  rb (plug k t) m → tcol (plug k t) = RB_BLACK →
  ∃ n, rb t n ∧ rbc k n ∧ (tcol t = RB_BLACK ∨ ccol k = RB_BLACK) ∧
       (k ≠ [] ∨ tcol t = RB_BLACK).
Proof.
  revert t m. induction k as [|f k IH]; intros t m Hp Hc; simpl in *; [by eauto 8|].
  destruct (IH _ _ Hp Hc) as (n & Hn & Hk & Hcc & Hne).
  destruct f as [sd p c d b]; unfold fill in *; simpl in *. rewrite tcol_mk in Hcc, Hne.
  destruct c.
  - apply rb_mk_red in Hn as (Ht & Hb & Htc & Hbc). exists n.
    destruct Hcc as [|Hcc]; [done|]. destruct Hne as [Hne|]; [|done].
    split_and!; [done|done|done|done|done|done|by left|by left].
  - destruct n as [|n]; [by apply rb_mk_black0 in Hn|].
    apply rb_mk_black in Hn as [Ht Hb]. exists n. split_and!; [done|done|done|by right|by left].
Qed.

(** The outcome of a fix-up: a red-black tree with the same elements, nothing
    else in the pool touched. *)
Definition fixed (t0 : tree) (s s' : rbst D) : Prop :=
  ∃ t', whole s' t' ∧ elems t' = elems t0 ∧ (∃ n, rb t' n) ∧ tcol t' = RB_BLACK ∧
        untouched s s' t0.

Lemma fixed_trans t0 t1 s s1 s2 :
  untouched s s1 t0 → elems t1 = elems t0 → fixed t1 s1 s2 → fixed t0 s s2.
Proof.
  intros H1 He (t' & Hw & He' & Hrb & Hc & H2). exists t'.
  split_and!; [done|congruence|done|done|by eapply untouched_trans].
Qed.

Lemma wp_black_root s p c d l r n (Q : unit → rbst D → Prop) :
  whole s (T p c d l r) → rb (T p RB_BLACK d l r) n →
  (∀ s', fixed (T p c d l r) s s' → Q tt s') →
  wp (wr (set_color RB_BLACK) (Some p)) Q s.
Proof.
  intros Hw Hrb HQ. apply (wp_recolor s [] L p c RB_BLACK d l r); [done|].
  intros s' Hw' Hu. apply HQ. exists (T p RB_BLACK d l r). by split_and!; eauto.
Qed.

End tree.
Arguments tree : clear implicits.
Arguments frame : clear implicits.

(** Two arrangements of the same pieces have the same in-order sequence. *)
Ltac solve_elems :=
  rewrite ?elems_plug; unfold fill; simpl; rewrite ?elems_plug; unfold fill; simpl;
  repeat match goal with sd : side |- _ => destruct sd end;
  simpl; repeat (rewrite <-?app_assoc; simpl); done.
