(* ===== verification/RBInsert.v ===== *)
(** * Red-black trees in a node pool: insertion fix-up

    [insert_fixup] of mm/vmm.c, started at a freshly linked red leaf, restores
    the red-black invariant, keeps the in-order sequence and terminates. *)
From stdpp Require Import base gmap list option numbers.
From S2P Require Import Prelude RBHeap RBTree.
#[local] Open Scope Z_scope.

Section insert.
Context {D : Type}.
Implicit Types (s : rbst D) (t u l r : tree D) (k : list (frame D)).

Lemma plug_nonempty k t : t ≠ E → plug k t ≠ E.
Proof.
  revert t. induction k as [|f k IH]; intros t Ht; simpl; [done|].
  apply IH. unfold fill. by destruct (fside f).
Qed.

(** A node's left pointer tells on which side a child hangs. *)
Lemma side_of_child s k sd g c d t u p :
  whole s (plug k (mk sd g c d t u)) → rptr t = Some p →
  ∃ n, heap s !! g = Some n ∧ parent n = cpar k ∧ ncolor n = c ∧ data n = d ∧
       child (opp sd) n = rptr u ∧ ptr_eqb (Some p) (left n) = bool_decide (sd = L).
Proof.
  intros Hw Hp. eexists. split; [by eapply whole_focus|].
  rewrite parent_mknode, ncolor_mknode, data_mknode, child_opp_mknode.
  split_and!; [done..|]. unfold ptr_eqb. destruct sd; simpl.
  - by rewrite Hp, !bool_decide_true.
  - apply bool_decide_false. intros Hu.
    destruct Hw as (_ & _ & Hnd). apply nodup_plug in Hnd as (Hnd & _).
    apply nodup_mk in Hnd as (_ & _ & _ & _ & Hd).
    apply (Hd p); by apply rptr_in.
Qed.

Section fixup.
Context (rot : side → ptr → ST (rbst D) unit) (Hrot : rotates rot).

(** The end of the loop: the parent is black or there is none. *)
Lemma wp_insert_fixup_exit fuel s k t z n (Q : unit → rbst D → Prop) :
  whole s (plug k t) → rptr t = Some z → rb t n → rbc k n → ccol k = RB_BLACK →
  (∀ s', fixed (plug k t) s s' → Q tt s') →
  wp (insert_fixup rot (S fuel) (Some z)) Q s.
Proof.
  intros Hw Hz Hrb Hk Hc HQ.
  destruct t as [|z' c d l r]; [done|]. injection Hz as ->.
  assert (Hroot : ∃ (p0 : Z) c' d' l' r' m, plug k (T z c d l r) = T p0 c' d' l' r' ∧
    rb (T p0 RB_BLACK d' l' r') m).
  { destruct k as [|f k].
    - destruct c; simpl in *.
      + exists z, RB_RED, d, l, r, (S n). simpl. tauto.
      + exists z, RB_BLACK, d, l, r, n. done.
    - destruct (rb_plug (f :: k) (T z c d l r) n) as (m & Hm & Hcm);
        [done|done|by right|by left|].
      destruct (plug (f :: k) (T z c d l r)) as [|r0 c0 d0 l0 r0'] eqn:Epl.
      + by apply plug_nonempty in Epl.
      + simpl in Hcm. subst c0. by exists r0, RB_BLACK, d0, l0, r0', m. }
  destruct Hroot as (r0 & c0 & d0 & l0 & r0' & m & Hpl & Hm).
  simpl. apply wp_bind. eapply wp_rd; [by apply (whole_focus s k L z c d l r)|]. simpl.
  assert (Hred : wp (is_red (cpar k)) (λ b s', b = false ∧ s' = s) s).
  { destruct k as [|f k]; simpl in *; [by apply wp_ret|].
    eapply wp_is_red_at; [by eapply whole_focus|]. rewrite ncolor_mknode, Hc. done. }
  apply wp_bind. eapply wp_mono; [exact Hred|]. intros b s' [-> ->].
  apply wp_bind, wp_gets. pose proof Hw as (Hr & _ & _). rewrite Hr, Hpl. simpl.
  rewrite Hpl in *. eapply wp_black_root; [done|exact Hm|done].
Qed.

(** One iteration under a red parent [p] that is the [sd] child of a black
    grandparent [g], with [z] the [sd'] child of [p]. *)
Lemma wp_insert_fixup_side sd sd' s k g dg p dp (zt ps u : tree D) z n
    (Q : ptr → rbst D → Prop) :
  let t := mk sd g RB_BLACK dg (mk sd' p RB_RED dp zt ps) u in
  whole s (plug k t) → rptr zt = Some z → tcol zt = RB_RED →
  rb zt n → rb ps n → tcol ps = RB_BLACK → rb u n →
  (∀ s' t', whole s' (plug k t') → elems t' = elems t → rptr t' = Some g →
    tcol t' = RB_RED → rb t' (S n) → untouched s s' (plug k t) → Q (Some g) s') →
  (∀ s' zt' q dq gt, whole s' (plug k (mk sd q RB_BLACK dq zt' gt)) →
    elems (mk sd q RB_BLACK dq zt' gt) = elems t → rb zt' n → rb gt n →
    is_Some (rptr zt') →
    untouched s s' (plug k t) → Q (rptr zt') s') →
  wp (insert_fixup_side rot sd (Some z) (Some p) (Some g)) Q s.
Proof.
  intros t Hw Hz Hzc Hzt Hps Hpc Hu HQ1 HQ2. unfold insert_fixup_side.
  apply wp_bind. eapply wp_rd; [by eapply (whole_focus s k sd)|]. rewrite child_opp_mknode.
  pose proof Hw as (_ & Hrep & _). apply rep_plug in Hrep as [Hrep _].
  apply rep_mk in Hrep as (_ & _ & Hru).
  apply wp_bind. eapply wp_is_red; [exact Hru|]. clear Hru.
  destruct (bool_decide_reflect (tcol u = RB_RED)) as [Hured|Hublack].
  - (* case 1: recolour *)
    destruct u as [|pu cu du ul ur]; [done|]. simpl in Hured. subst cu.
    apply wp_bind.
    apply (wp_recolor s (Frame sd g RB_BLACK dg (T pu RB_RED du ul ur) :: k) sd' p RB_RED
      RB_BLACK dp zt ps); [done|]. intros s1 Hw1 Hu1.
    apply wp_bind.
    apply (wp_recolor s1 (Frame (opp sd) g RB_BLACK dg (mk sd' p RB_BLACK dp zt ps) :: k)
      L pu RB_RED RB_BLACK du ul ur).
    { simpl. unfold fill; simpl. by rewrite mk_opp. }
    intros s2 Hw2 Hu2. simpl in Hw2, Hu2. unfold fill in Hw2, Hu2; simpl in Hw2, Hu2.
    rewrite mk_opp in Hw2, Hu2.
    apply wp_bind. apply (wp_recolor s2 k sd g RB_BLACK RB_RED dg
      (mk sd' p RB_BLACK dp zt ps) (T pu RB_BLACK du ul ur)); [done|].
    intros s3 Hw3 Hu3. apply wp_ret.
    apply (HQ1 s3 (mk sd g RB_RED dg (mk sd' p RB_BLACK dp zt ps) (T pu RB_BLACK du ul ur)));
      [done| |apply rptr_mk|apply tcol_mk| |].
    + unfold t. solve_elems.
    + apply rb_mk_red. rewrite rb_mk_black, !tcol_mk. simpl in Hu |- *. tauto.
    + eapply untouched_trans; [exact Hu1| |];
        [eapply untouched_trans; [exact Hu2|exact Hu3|]|]; unfold t; solve_elems.
  - assert (Huc : tcol u = RB_BLACK) by (destruct (tcol u); done).
    apply wp_bind. eapply wp_rd;
      [by apply (whole_focus s (Frame sd g RB_BLACK dg u :: k) sd' p RB_RED dp zt ps)|].
    assert (Hnd : ∀ q, q ∈ ptrs zt → q ∉ ptrs ps).
    { destruct Hw as (_ & _ & Hnd). apply nodup_plug in Hnd as (Hnd & _). unfold t in Hnd.
      rewrite !nodup_mk in Hnd. tauto. }
    destruct (decide (sd' = sd)) as [->|Hsd].
    + (* case 3 *)
      rewrite child_opp_mknode.
      assert (Hne : ptr_eqb (Some z) (rptr ps) = false).
      { apply bool_decide_false. intros H. symmetry in H. apply rptr_in in Hz, H.
        by apply (Hnd z). }
      rewrite Hne. apply wp_bind, wp_ret.
      apply wp_bind. apply (wp_recolor s (Frame sd g RB_BLACK dg u :: k) sd p RB_RED
        RB_BLACK dp zt ps); [done|]. intros s1 Hw1 Hu1.
      apply wp_bind. apply (wp_recolor s1 k sd g RB_BLACK RB_RED dg
        (mk sd p RB_BLACK dp zt ps) u); [done|]. intros s2 Hw2 Hu2.
      apply wp_bind. apply (Hrot (opp sd) s2 k g RB_RED dg u p RB_BLACK dp ps zt).
      { by rewrite !mk_opp. }
      intros s3 Hw3 Hu3. rewrite !mk_opp in Hw3, Hu3. apply wp_ret. rewrite <-Hz.
      apply (HQ2 s3 zt p dp (mk sd g RB_RED dg ps u)); [done| |done| |by rewrite Hz|].
      * unfold t. solve_elems.
      * by apply rb_mk_red.
      * eapply untouched_trans; [exact Hu1| |];
          [eapply untouched_trans; [exact Hu2|exact Hu3|]|]; unfold t; solve_elems.
    + (* case 2, then 3 *)
      assert (sd' = opp sd) as -> by (destruct sd, sd'; done). clear Hsd.
      unfold t in *. clear t. rewrite mk_opp in *. rewrite child_mknode.
      rewrite <-Hz. unfold ptr_eqb. rewrite bool_decide_true by done.
      assert (Hzt' : ∃ dz zn zf, zt = mk sd z RB_RED dz zn zf).
      { destruct zt as [|z' c dz zl zr]; [done|]. simpl in Hz, Hzc. injection Hz as ->.
        subst c. destruct sd; [by exists dz, zl, zr|by exists dz, zr, zl]. }
      destruct Hzt' as (dz & zn & zf & ->). clear Hz Hzc.
      apply rb_mk_red in Hzt as (Hzn & Hzf & Hznc & Hzfc).
      apply wp_bind, wp_bind.
      apply (Hrot sd s (Frame sd g RB_BLACK dg u :: k) p RB_RED dp ps z RB_RED dz zn zf);
        [done|]. intros s1 Hw1 Hu1.
      apply wp_bind. eapply wp_rd; [by apply (whole_focus s1
        (Frame sd z RB_RED dz zf :: Frame sd g RB_BLACK dg u :: k) sd p RB_RED dp ps zn)|].
      rewrite parent_mknode. simpl.
      apply wp_bind. eapply wp_rd; [by apply (whole_focus s1
        (Frame sd g RB_BLACK dg u :: k) sd z RB_RED dz)|].
      rewrite parent_mknode. simpl. apply wp_ret.
      apply wp_bind. apply (wp_recolor s1 (Frame sd g RB_BLACK dg u :: k) sd z RB_RED
        RB_BLACK dz (mk sd p RB_RED dp ps zn) zf); [done|]. intros s2 Hw2 Hu2.
      apply wp_bind. apply (wp_recolor s2 k sd g RB_BLACK RB_RED dg
        (mk sd z RB_BLACK dz (mk sd p RB_RED dp ps zn) zf) u); [done|]. intros s3 Hw3 Hu3.
      apply wp_bind. apply (Hrot (opp sd) s3 k g RB_RED dg u z RB_BLACK dz zf
        (mk sd p RB_RED dp ps zn)).
      { by rewrite !mk_opp. }
      intros s4 Hw4 Hu4. rewrite !mk_opp in Hw4, Hu4. apply wp_ret.
      rewrite <-(rptr_mk sd p RB_RED dp ps zn).
      apply (HQ2 s4 (mk sd p RB_RED dp ps zn) z dz (mk sd g RB_RED dg zf u)); [done| | | | |].
      * solve_elems.
      * by apply rb_mk_red.
      * by apply rb_mk_red.
      * by rewrite rptr_mk.
      * eapply untouched_trans; [exact Hu1| |];
          [eapply untouched_trans; [exact Hu2| |];
            [eapply untouched_trans; [exact Hu3|exact Hu4|]|]|]; solve_elems.
Qed.

Lemma wp_insert_fixup fuel s k z d l r n :
  whole s (plug k (T z RB_RED d l r)) → rb (T z RB_RED d l r) n → rbc k n →
  (length k + 1 < fuel)%nat →
  wp (insert_fixup rot fuel (Some z)) (λ _ s', fixed (plug k (T z RB_RED d l r)) s s') s.
Proof.
  revert s k z d l r n.
  induction fuel as [|fuel IH]; intros s k z d l r n Hw Hrb Hk Hfuel; [lia|].
  destruct (decide (ccol k = RB_BLACK)) as [Hc|Hc].
  { by eapply wp_insert_fixup_exit. }
  destruct k as [|[sd' p c dp ps] k]; [done|]. simpl in Hk, Hc.
  destruct c; [|done]. destruct Hk as (Hps & Hpsc & Hne & Hcc & Hk).
  destruct k as [|[sd g c dg u] k]; [done|]. simpl in Hcc. subst c.
  simpl in Hk. destruct Hk as [Hu Hk]. simpl in Hfuel.
  set (zt := T z RB_RED d l r) in *.
  assert (Hpl : plug (Frame sd' p RB_RED dp ps :: Frame sd g RB_BLACK dg u :: k) zt =
    plug k (mk sd g RB_BLACK dg (mk sd' p RB_RED dp zt ps) u)) by done.
  rewrite Hpl in *.
  simpl. apply wp_bind. eapply wp_rd; [by apply (whole_focus s
    (Frame sd' p RB_RED dp ps :: Frame sd g RB_BLACK dg u :: k) L z RB_RED d l r)|].
  simpl. apply wp_bind. eapply wp_is_red_at; [by apply (whole_focus s
    (Frame sd g RB_BLACK dg u :: k) sd' p RB_RED dp zt ps)|].
  rewrite ncolor_mknode, bool_decide_true by done.
  apply wp_bind. eapply wp_rd; [by apply (whole_focus s
    (Frame sd g RB_BLACK dg u :: k) sd' p RB_RED dp zt ps)|].
  rewrite parent_mknode. simpl.
  destruct (side_of_child s k sd g RB_BLACK dg (mk sd' p RB_RED dp zt ps) u p Hw
    ltac:(apply rptr_mk)) as (ng & Hng & _ & _ & _ & _ & Hside).
  apply wp_bind. eapply wp_rd; [exact Hng|]. rewrite Hside.
  assert (Hstep : wp (z' ← insert_fixup_side rot sd (Some z) (Some p) (Some g); insert_fixup rot fuel z')
    (λ _ s', fixed (plug k (mk sd g RB_BLACK dg (mk sd' p RB_RED dp zt ps) u)) s s') s).
  { apply wp_bind. eapply (wp_insert_fixup_side sd sd' s k g dg p dp zt ps u z n);
      [done..| |].
    - intros s' t' Hw' He Hp' Hc' Hrb' Hu'.
      destruct t' as [|p' c' d' l' r']; [done|]. simpl in Hp', Hc'. injection Hp' as ->. subst c'.
      eapply wp_mono; [apply (IH s' k g d' l' r' (S n)); [done|done|done|lia]|].
      intros [] s'' Hf. eapply fixed_trans; [exact Hu'| |exact Hf]. by rewrite !elems_plug, He.
    - intros s' zt' q dq gt Hw' He Hzt' Hgt [z' Hz'] Hu'. rewrite Hz'.
      destruct fuel as [|fuel]; [lia|].
      apply (wp_insert_fixup_exit fuel s' (Frame sd q RB_BLACK dq gt :: k) zt' z' n);
        [done|done|done|done|done|].
      intros s'' Hf. eapply fixed_trans; [exact Hu'| |exact Hf].
      unfold fill; simpl. rewrite !elems_plug. unfold fill; simpl. by rewrite He. }
  destruct sd; exact Hstep.
Qed.

End fixup.

End insert.
