(* ===== verification/RBDelete.v ===== *)
(** * Red-black trees in a node pool: deletion

    [rb_delete] of mm/vmm.c unlinks a node, keeps the in-order sequence of the
    others, restores the red-black invariant and terminates. *)
From stdpp Require Import base gmap list option numbers.
From S2P Require Import Prelude RBHeap RBTree RBInsert.
#[local] Open Scope Z_scope.

Section delete.
Context {D : Type}.
Implicit Types (s : rbst D) (t u l r x : tree D) (k : list (frame D)).

(** The tree [x] in context [k] is one black node short: either it is black
    and has height [n] where [S n] is expected, or it is red and turning it
    black makes up for it. *)
Definition short (k : list (frame D)) (x : tree D) (n : nat) : Prop :=
  rbc k (S n) ∧
  (tcol x = RB_BLACK ∧ rb x n ∨ tcol x = RB_RED ∧ rb (blacken x) (S n)).

Lemma short_rb k x n : rb x n → rbc k (S n) → short k x n.
Proof.
  intros Hx Hk. split; [done|]. destruct x as [|p [] d l r]; simpl in *; tauto.
Qed.

(** A black tree of positive height is a node. *)
Lemma black_node sd t n :
  rb t (S n) → tcol t = RB_BLACK → ∃ p d u v, t = mk sd p RB_BLACK d u v ∧ rb u n ∧ rb v n.
Proof.
  destruct t as [|p [] d l r]; simpl; [done|done|]. intros [Hl Hr] _.
  destruct sd; [by exists p, d, l, r|by exists p, d, r, l].
Qed.

Lemma red_node sd t : tcol t = RB_RED → ∃ p d u v, t = mk sd p RB_RED d u v.
Proof.
  destruct t as [|p c d l r]; simpl; [done|]. intros ->.
  destruct sd; [by exists p, d, l, r|by exists p, d, r, l].
Qed.

Lemma tcol_not_black t : tcol t ≠ RB_BLACK → tcol t = RB_RED.
Proof. by destruct (tcol t). Qed.

(** The root of a non-empty red-black tree in a context, blackened again. *)
Lemma wp_black_root_noop s t n (Q : unit → rbst D → Prop) :
  whole s t → rb t n → tcol t = RB_BLACK →
  (∀ s', fixed t s s' → Q tt s') →
  wp (wr_if (set_color RB_BLACK) (root s)) Q s.
Proof.
  intros Hw Hrb Hc HQ. pose proof Hw as (-> & _ & _).
  destruct t as [|p c d l r]; simpl.
  - apply wp_ret, HQ. exists E. split_and!; [done|done|by exists n|done|done].
  - simpl in Hc. subst c. by eapply wp_black_root.
Qed.

(** ** Recolouring around the sibling *)

Lemma wp_recolor_sib sd s k xp c d x w cw cw' dw u v (Q : unit → rbst D → Prop) :
  let t := plug k (mk sd xp c d x (mk sd w cw dw u v)) in
  whole s t →
  (∀ s', whole s' (plug k (mk sd xp c d x (mk sd w cw' dw u v))) → untouched s s' t → Q tt s') →
  wp (wr (set_color cw') (Some w)) Q s.
Proof.
  intros t Hw HQ. apply (wp_recolor s (Frame (opp sd) xp c d x :: k) sd w cw cw' dw u v);
    simpl; unfold fill; simpl; rewrite !mk_opp; done.
Qed.

Lemma wp_recolor_near sd s k xp c d x w cw dw wf a ca ca' da u v (Q : unit → rbst D → Prop) :
  let t := plug k (mk sd xp c d x (mk sd w cw dw (mk sd a ca da u v) wf)) in
  whole s t →
  (∀ s', whole s' (plug k (mk sd xp c d x (mk sd w cw dw (mk sd a ca' da u v) wf))) →
         untouched s s' t → Q tt s') →
  wp (wr (set_color ca') (Some a)) Q s.
Proof.
  intros t Hw HQ.
  apply (wp_recolor s (Frame sd w cw dw wf :: Frame (opp sd) xp c d x :: k) sd a ca ca' da u v);
    simpl; unfold fill; simpl; rewrite !mk_opp; done.
Qed.

Lemma wp_recolor_far sd s k xp c d x w cw dw wn f cf cf' df u v (Q : unit → rbst D → Prop) :
  let t := plug k (mk sd xp c d x (mk sd w cw dw wn (mk sd f cf df u v))) in
  whole s t →
  (∀ s', whole s' (plug k (mk sd xp c d x (mk sd w cw dw wn (mk sd f cf' df u v)))) →
         untouched s s' t → Q tt s') →
  wp (wr (set_color cf') (Some f)) Q s.
Proof.
  intros t Hw HQ.
  apply (wp_recolor s (Frame (opp sd) w cw dw wn :: Frame (opp sd) xp c d x :: k)
    sd f cf cf' df u v); simpl; unfold fill; simpl; rewrite !mk_opp; done.
Qed.

Lemma whole_focus_sib sd s k xp c d x w cw dw u v :
  whole s (plug k (mk sd xp c d x (mk sd w cw dw u v))) →
  heap s !! w = Some (mknode sd (rptr u) (rptr v) (Some xp) cw dw).
Proof.
  intros H. apply (whole_focus s (Frame (opp sd) xp c d x :: k) sd w).
  simpl. unfold fill; simpl. by rewrite mk_opp.
Qed.

(** The tree a terminating case leaves behind. *)
Lemma rb_plug_frame sd k xp c d x n t :
  rbc (Frame sd xp c d x :: k) n → tcol t = c → rb t (if c then n else S n) →
  ∃ m, rb (plug k t) m ∧ tcol (plug k t) = RB_BLACK.
Proof.
  intros [_ Hk] Hc Ht. destruct c; simpl in *.
  - destruct Hk as (_ & Hne & Hcc & Hk). apply (rb_plug k _ n); auto.
  - apply (rb_plug k _ (S n)); auto.
Qed.

(** ** The fix-up loop *)

Section fixup.
Context (rot : side → ptr → ST (rbst D) unit) (Hrot : rotates rot).

(** Case 4: the far nephew is red. *)
Lemma wp_delete_fixup_far sd s k xp c d x w dw wn f df fn ff n (Q : ptr → rbst D → Prop) :
  let wt := mk sd w RB_BLACK dw wn (mk sd f RB_RED df fn ff) in
  let t := plug k (mk sd xp c d x wt) in
  whole s t → rb x n → rb wn n → rb fn n → rb ff n →
  rbc (Frame sd xp c d wt :: k) (S n) →
  (∀ s', fixed t s s' → Q (root s') s') →
  wp (delete_fixup_far rot sd (Some xp) (Some w)) Q s.
Proof.
  intros wt t Hw Hx Hwn Hfn Hff Hk HQ. unfold delete_fixup_far.
  apply wp_bind. eapply wp_rd_or; [by apply (whole_focus s k sd xp)|]. rewrite ncolor_mknode.
  apply wp_bind. eapply wp_recolor_sib; [exact Hw|]. intros s1 Hw1 Hu1.
  apply wp_bind. apply (wp_recolor s1 k sd xp c RB_BLACK d _ _ _ Hw1). intros s2 Hw2 Hu2.
  apply wp_bind. eapply wp_rd_or; [by eapply whole_focus_sib|]. rewrite child_opp_mknode, rptr_mk.
  apply wp_bind. eapply wp_recolor_far; [exact Hw2|]. intros s3 Hw3 Hu3.
  apply wp_bind. eapply Hrot; [exact Hw3|]. intros s4 Hw4 Hu4. apply wp_gets, HQ.
  destruct (rb_plug_frame sd k xp c d wt (S n)
    (mk sd w c dw (mk sd xp RB_BLACK d x wn) (mk sd f RB_BLACK df fn ff))) as (m & Hm & Hmc);
    [done|apply tcol_mk| |].
  { destruct c; rewrite ?rb_mk_red, ?rb_mk_black, ?tcol_mk; tauto. }
  eexists. split; [exact Hw4|]. split_and!; [unfold t, wt; solve_elems|by exists m|done|].
  eapply untouched_trans; [exact Hu1| |];
    [eapply untouched_trans; [exact Hu2| |];
      [eapply untouched_trans; [exact Hu3|exact Hu4|]|]|]; unfold t, wt; solve_elems.
Qed.

(** Cases 2 to 4: the sibling is black. *)
Lemma wp_delete_fixup_black sd s k xp c d x w dw wn wf n (Q : ptr * ptr + ptr → rbst D → Prop) :
  let wt := mk sd w RB_BLACK dw wn wf in
  let t := plug k (mk sd xp c d x wt) in
  whole s t → rb x n → rbc (Frame sd xp c d wt :: k) (S n) →
  (∀ s' x', whole s' (plug k x') → rptr x' = Some xp → tcol x' = c → elems (plug k x') = elems t →
    short k x' (if c then n else S n) → untouched s s' t → Q (inl (Some xp, cpar k)) s') →
  (∀ s', fixed t s s' → Q (inr (root s')) s') →
  wp (delete_fixup_black rot sd (Some xp) (Some w)) Q s.
Proof.
  intros wt t Hw Hx Hk HQ1 HQ2. unfold delete_fixup_black.
  apply wp_bind. eapply wp_rd_or; [by eapply whole_focus_sib|]. rewrite child_mknode.
  apply wp_bind. eapply wp_rd_or; [by eapply whole_focus_sib|]. rewrite child_opp_mknode.
  assert (Hrw : rep (heap s) (Some w) wn ∧ rep (heap s) (Some w) wf).
  { destruct Hw as (_ & Hrep & _). apply rep_plug in Hrep as [Hrep _]. unfold wt in Hrep.
    rewrite !rep_mk in Hrep. tauto. }
  apply wp_bind. eapply wp_is_black; [apply Hrw|].
  apply wp_bind. eapply wp_is_black; [apply Hrw|]. clear Hrw.
  pose proof Hk as [Hrbw Hk']. simpl in Hrbw. apply rb_mk_black in Hrbw as [Hrn Hrf].
  destruct (bool_decide_reflect (tcol wf = RB_BLACK)) as [Hfb|Hfr].
  - destruct (bool_decide_reflect (tcol wn = RB_BLACK)) as [Hnb|Hnr]; simpl.
    + (* case 2: both nephews are black *)
      apply wp_bind. unfold wr_if; simpl. eapply wp_recolor_sib; [exact Hw|]. intros s1 Hw1 Hu1.
      apply wp_bind. eapply wp_rd_or; [by apply (whole_focus s1 k sd xp)|].
      rewrite parent_mknode. apply wp_ret. eapply (HQ1 s1); [exact Hw1|apply rptr_mk
        |apply tcol_mk|unfold t, wt; solve_elems| |done].
      destruct c; simpl in *; split; [tauto| |done|].
      * right. split; [apply tcol_mk|]. destruct sd; simpl; tauto.
      * left. split; [apply tcol_mk|]. rewrite rb_mk_black, rb_mk_red. tauto.
    + (* case 3: only the near nephew is red *)
      apply tcol_not_black in Hnr. destruct (red_node sd wn Hnr) as (a & da & an & af & ->).
      apply rb_mk_red in Hrn as (Han & Haf & Hanc & Hafc).
      apply wp_bind, wp_bind. eapply wp_rd_or; [by eapply whole_focus_sib|].
      rewrite child_mknode, rptr_mk. unfold wr_if; simpl.
      apply wp_bind. eapply wp_recolor_near; [exact Hw|]. intros s1 Hw1 Hu1.
      apply wp_bind. eapply wp_recolor_sib; [exact Hw1|]. intros s2 Hw2 Hu2.
      apply wp_bind. apply (Hrot (opp sd) s2 (Frame (opp sd) xp c d x :: k)
        w RB_RED dw wf a RB_BLACK da af an).
      { simpl. unfold fill; simpl. by rewrite !mk_opp. }
      intros s3 Hw3 Hu3. simpl in Hw3, Hu3. unfold fill in Hw3, Hu3; simpl in Hw3, Hu3.
      rewrite !mk_opp in Hw3, Hu3.
      eapply wp_rd_or; [by apply (whole_focus s3 k sd xp)|]. rewrite child_opp_mknode, rptr_mk.
      apply wp_bind. eapply wp_delete_fixup_far;
        [exact Hw3|exact Hx|exact Han|exact Haf|exact Hrf| |].
      { destruct c; simpl in *; rewrite ?rb_mk_black, ?rb_mk_red, ?tcol_mk in *; tauto. }
      intros s4 Hf4. apply wp_ret, HQ2.
      eapply (fixed_trans t _ s s3 s4); [| |exact Hf4]; [|unfold t, wt; solve_elems].
      eapply untouched_trans; [exact Hu1|eapply untouched_trans; [exact Hu2|exact Hu3|]|];
        unfold t, wt; solve_elems.
  - rewrite andb_false_r. apply tcol_not_black in Hfr.
    destruct (red_node sd wf Hfr) as (f & df & fn & ff & ->).
    apply rb_mk_red in Hrf as (Hfn & Hff & Hfnc & Hffc).
    apply wp_bind, wp_ret, wp_bind.
    eapply wp_delete_fixup_far;
      [exact Hw|exact Hx|exact Hrn|exact Hfn|exact Hff|exact Hk|].
    intros s' Hf. by apply wp_ret, HQ2.
Qed.

(** One iteration: afterwards the shortage has moved up, or sits on a red
    node (and the loop ends), or has been repaired. *)
Lemma wp_delete_fixup_side sd s k xp c d x w n (Q : ptr * ptr + ptr → rbst D → Prop) :
  let t := plug k (mk sd xp c d x w) in
  whole s t → rb x n → rbc (Frame sd xp c d w :: k) (S n) →
  (∀ s' k' x' n', whole s' (plug k' x') → elems (plug k' x') = elems t →
    short k' x' n' → (length k' ≤ length k)%nat ∨ tcol x' = RB_RED →
    untouched s s' t → Q (inl (rptr x', cpar k')) s') →
  (∀ s', fixed t s s' → Q (inr (root s')) s') →
  wp (delete_fixup_side rot sd (Some xp)) Q s.
Proof.
  intros t Hw Hx Hk HQ1 HQ2. unfold delete_fixup_side.
  apply wp_bind. eapply wp_rd_or; [by apply (whole_focus s k sd xp)|]. rewrite child_opp_mknode.
  assert (Hrw : rep (heap s) (Some xp) w).
  { destruct Hw as (_ & Hrep & _). apply rep_plug in Hrep as [Hrep _]. rewrite rep_mk in Hrep. tauto. }
  apply wp_bind. eapply wp_is_red; [exact Hrw|]. clear Hrw.
  pose proof Hk as [Hrbw Hk']. simpl in Hrbw.
  destruct (bool_decide_reflect (tcol w = RB_RED)) as [Hr|Hb].
  - (* case 1: rotate the red sibling up *)
    destruct c; simpl in Hk'; [destruct Hk' as (Hwc & _); congruence|].
    destruct (red_node sd w Hr) as (p & dw & wn & wf & ->). rewrite rptr_mk.
    apply rb_mk_red in Hrbw as (Hwn & Hwf & Hwnc & Hwfc).
    destruct (black_node sd wn n Hwn Hwnc) as (a & da & an & af & -> & Han & Haf).
    apply wp_bind, wp_bind. eapply wp_recolor_sib; [exact Hw|]. intros s1 Hw1 Hu1.
    apply wp_bind. unfold wr_if; simpl.
    apply (wp_recolor s1 k sd xp RB_BLACK RB_RED d _ _ _ Hw1). intros s2 Hw2 Hu2.
    apply wp_bind. eapply Hrot; [exact Hw2|]. intros s3 Hw3 Hu3.
    eapply wp_rd_or; [by apply (whole_focus s3 (Frame sd p RB_BLACK dw wf :: k) sd xp)|].
    rewrite child_opp_mknode, rptr_mk.
    assert (Hu : untouched s s3 t).
    { eapply untouched_trans; [exact Hu1|eapply untouched_trans; [exact Hu2|exact Hu3|]|];
        unfold t; solve_elems. }
    eapply (wp_delete_fixup_black sd s3 (Frame sd p RB_BLACK dw wf :: k) xp RB_RED d x a da an af n);
      [exact Hw3|exact Hx|simpl; rewrite rb_mk_black, tcol_mk; done| |].
    + intros s' x' Hw' Hp' Hc' He' Hs' Hu'. rewrite <-Hp'. apply (HQ1 _ _ _ n); [done| |done|by right|].
      * rewrite He'. unfold t; solve_elems.
      * eapply untouched_trans; [exact Hu|exact Hu'|]. unfold t; solve_elems.
    + intros s' Hf'. apply HQ2. eapply fixed_trans; [exact Hu| |exact Hf']. unfold t; solve_elems.
  - assert (Hwc : tcol w = RB_BLACK) by (by destruct (tcol w)).
    destruct (black_node sd w n Hrbw Hwc) as (p & dw & wn & wf & -> & Hwn & Hwf). rewrite rptr_mk.
    apply wp_bind, wp_ret.
    eapply wp_delete_fixup_black; [exact Hw|exact Hx|exact Hk| |exact HQ2].
    intros s' x' Hw' Hp' Hc' He' Hs' Hu'. rewrite <-Hp'. by eapply HQ1; [| | |left|].
Qed.

(** The root pointer above a non-empty context is one of its nodes. *)
Lemma croot_in (p : Z) k : ∃ q, croot (Some p) k = Some q ∧ (q = p ∨ q ∈ cptrs k).
Proof.
  revert p. induction k as [|f k IH]; intros p; simpl; [eauto|].
  destruct (IH (fptr f)) as (q & -> & Hq). exists q. split; [done|].
  right. rewrite elem_cptrs. tauto.
Qed.

Lemma not_root s f k x :
  whole s (plug (f :: k) x) → ptr_eqb (rptr x) (root s) = false.
Proof.
  intros (Hroot & _ & Hnd). apply bool_decide_false. rewrite Hroot, rptr_plug. simpl.
  destruct (croot_in (fptr f) k) as (q & -> & Hq). intros Heq%rptr_in.
  apply nodup_plug in Hnd as (_ & _ & Hd). apply (Hd q Heq). rewrite elem_cptrs. tauto.
Qed.

(** On which side of its parent the short tree hangs; its sibling is a node. *)
Lemma short_side s k x sd p c d w n :
  whole s (plug (Frame sd p c d w :: k) x) → rb w (S n) →
  ∃ nd, heap s !! p = Some nd ∧ ptr_eqb (rptr x) (left nd) = bool_decide (sd = L).
Proof.
  intros Hw Hrw. eexists. split; [by apply (whole_focus s k sd p c d x w)|].
  destruct Hw as (_ & _ & Hnd). destruct sd; simpl; [by apply bool_decide_true|].
  apply bool_decide_false. destruct w as [|pw cw dw lw rw]; [done|]. simpl.
  intros Heq%rptr_in. apply nodup_plug in Hnd as (_ & _ & Hd).
  apply (Hd pw Heq). rewrite elem_cptrs. right. left. by apply rptr_in.
Qed.

(** Leaving the loop: blacken [x]. *)
Lemma wp_short_exit s k x n :
  whole s (plug k x) → k = [] ∨ tcol x = RB_RED → rbc k (S n) →
  tcol x = RB_BLACK ∧ rb x n ∨ tcol x = RB_RED ∧ rb (blacken x) (S n) →
  wp (wr_if (set_color RB_BLACK) (rptr x)) (λ _ s', fixed (plug k x) s s') s.
Proof.
  intros Hw Hexit Hk Hx. destruct x as [|p c d l r]; simpl.
  - destruct Hexit as [->|]; [|done]. apply wp_ret. exists E. split_and!; [done|done| |done|done].
    destruct Hx as [[_ Hx]|[? _]]; [|done]. by exists n.
  - unfold wr_if; simpl. apply (wp_recolor s k L p c RB_BLACK d l r _ Hw). intros s' Hw' Hu'.
    assert (Hm : ∃ m, rb (plug k (T p RB_BLACK d l r)) m ∧
      tcol (plug k (T p RB_BLACK d l r)) = RB_BLACK).
    { destruct Hx as [[Hc Hx]|[Hc Hx]].
      - simpl in Hc. subst c. destruct Hexit as [->|]; [|done]. simpl. by exists n.
      - apply (rb_plug k _ (S n)); [exact Hx|done|by left|by right]. }
    destruct Hm as (m & Hm & Hmc). exists (plug k (T p RB_BLACK d l r)).
    split_and!; [done|solve_elems|by exists m|done|done].
Qed.

(** The loop. *)
Lemma wp_delete_fixup fuel s k x n :
  whole s (plug k x) → short k x n →
  (length k < fuel)%nat ∨ tcol x = RB_RED ∧ (0 < fuel)%nat →
  wp (delete_fixup rot fuel (rptr x) (cpar k)) (λ _ s', fixed (plug k x) s s') s.
Proof.
  revert s k x n. induction fuel as [|fuel IH]; intros s k x n Hw Hs Hfuel; [lia|].
  simpl. apply wp_bind, wp_gets.
  pose proof Hw as (Hroot & Hrep & Hnd). apply rep_plug in Hrep as [Hrx Hrk].
  apply wp_bind. eapply wp_is_black; [exact Hrx|]. destruct Hs as [Hk Hx].
  destruct (decide (k = [] ∨ tcol x = RB_RED)) as [Hexit|Hgo].
  - (* exit *)
    assert (Hcond : negb (ptr_eqb (rptr x) (root s)) && bool_decide (tcol x = RB_BLACK) = false).
    { destruct Hexit as [->| ->]; [|by rewrite andb_false_r].
      rewrite Hroot. simpl. unfold ptr_eqb. by rewrite bool_decide_true. }
    rewrite Hcond. by eapply wp_short_exit.
  - assert (k ≠ [] ∧ tcol x ≠ RB_RED) as [Hne Hxc] by tauto. clear Hgo.
    destruct Hx as [[Hc Hx]|[? _]]; [|done]. destruct Hfuel as [Hfuel|[? _]]; [|done].
    destruct k as [|[sd p c d w] k]; [done|]. simpl in Hfuel.
    pose proof Hk as [Hrw _]. simpl in Hrw.
    rewrite (not_root _ _ _ _ Hw), bool_decide_true by done. simpl.
    destruct (short_side s k x sd p c d w n Hw Hrw) as (nd & Hnd' & Hside).
    apply wp_bind. eapply wp_rd_or; [exact Hnd'|]. rewrite Hside. apply wp_bind.
    assert (Hit : wp (delete_fixup_side rot sd (Some p)) (λ next s', wp
      (match next with
       | inl (x, xp) => delete_fixup rot fuel x xp
       | inr x => wr_if (set_color RB_BLACK) x
       end) (λ _ s', fixed (plug k (mk sd p c d x w)) s s') s') s).
    { apply (wp_delete_fixup_side sd s k p c d x w n); [exact Hw|done|done| |].
      - intros s1 k1 x1 n1 Hw1 He1 Hs1 Hlen Hu1.
        eapply wp_mono; [apply (IH _ _ _ n1); [done|done|]|].
        + destruct Hlen; [left; lia|right; split; [done|lia]].
        + intros ? s2 Hf2. by eapply fixed_trans.
      - intros s1 (t1 & Hw1 & He1 & (m & Hm) & Hc1 & Hu1).
        eapply wp_black_root_noop; [exact Hw1|exact Hm|done|].
        intros s2 Hf2. by eapply fixed_trans. }
    destruct sd; exact Hit.
Qed.

End fixup.

(** ** Unlinking a node *)

Lemma elem_ptrs_T p c (d : D) l r q :
  q ∈ ptrs (T p c d l r) ↔ q = p ∨ q ∈ ptrs l ∨ q ∈ ptrs r.
Proof. apply (elem_ptrs_mk L). Qed.
Lemma nodup_T p c (d : D) l r :
  NoDup (ptrs (T p c d l r)) ↔
  NoDup (ptrs l) ∧ NoDup (ptrs r) ∧ p ∉ ptrs l ∧ p ∉ ptrs r ∧ (∀ q, q ∈ ptrs l → q ∉ ptrs r).
Proof. apply (nodup_mk L). Qed.
Lemma ptrs_E : ptrs (D := D) E = [].
Proof. done. Qed.

Lemma plug_app k1 k2 t : plug (k1 ++ k2) t = plug k2 (plug k1 t).
Proof. revert t. induction k1 as [|f k1 IH]; intros t; simpl; auto. Qed.
Lemma lctx_app k1 k2 : lctx (k1 ++ k2) = lctx k2 ++ lctx k1.
Proof. induction k1 as [|f k1 IH]; simpl; [by rewrite app_nil_r|]. by rewrite IH, app_assoc. Qed.
Lemma rctx_app k1 k2 : rctx (k1 ++ k2) = rctx k1 ++ rctx k2.
Proof. induction k1 as [|f k1 IH]; simpl; [done|]. by rewrite IH, app_assoc. Qed.
Lemma cpar_app k1 f k2 : cpar (k1 ++ f :: k2) = cpar (k1 ++ [f]).
Proof. by destruct k1. Qed.

Lemma length_ctx k : (length k ≤ length (lctx k) + length (rctx k))%nat.
Proof.
  induction k as [|[[] p c d b] k IH]; simpl; rewrite ?length_app; simpl;
    rewrite ?length_app; simpl; lia.
Qed.

(** Only colours and siblings of the frames matter to the invariant. *)
Lemma rbc_swap k1 sd p p' c d d' b k n :
  rbc (k1 ++ Frame sd p c d b :: k) n → rbc (k1 ++ Frame sd p' c d' b :: k) n.
Proof.
  revert n. induction k1 as [|f k1 IH]; intros n; simpl; [done|].
  intros [Hb Hk]. split; [done|]. destruct (fcol f); [|by apply IH].
  destruct Hk as (H1 & _ & H2 & H3). split_and!; [done|by destruct k1| |by apply IH].
  by destruct k1.
Qed.

(** [u] hangs in context [k]; [t], whose root's parent pointer is stale,
    takes its place. *)
Lemma wp_transplant s k z n t par (Q : unit → rbst D → Prop) :
  heap s !! z = Some n → parent n = cpar k →
  rep_ctx (heap s) (Some z) k → root s = croot (Some z) k →
  rep (heap s) par t → NoDup (ptrs (plug k t)) → z ∉ ptrs (plug k t) →
  (∀ s', whole s' (plug k t) → untouched s s' (plug k t) → Q tt s') →
  wp (transplant (Some z) (rptr t)) Q s.
Proof.
  intros Hz Hpar Hctx Hroot Ht Hnd Hzn HQ. unfold transplant.
  rewrite elem_ptrs_plug in Hzn. pose proof Hnd as (Hndt & Hndk & Hd)%nodup_plug.
  apply wp_bind. eapply wp_replace_child; [exact Hz|done|done|done|done|tauto|].
  intros s1 Hctx1 Hroot1 Hout1.
  apply wp_bind. eapply wp_rd; [rewrite Hout1 by tauto; exact Hz|]. rewrite Hpar.
  eapply (wp_link_parent _ t par); [|done|].
  { eapply rep_frame; [|exact Ht]. intros q Hq. by apply Hout1, Hd. }
  intros s2 Ht2 Hroot2 Hout2. apply HQ.
  - split_and!; [by rewrite Hroot2, rptr_plug| |done]. apply rep_plug. split; [done|].
    eapply rep_ctx_frame; [|exact Hctx1]. intros q Hq. apply Hout2. naive_solver.
  - intros q Hq. rewrite elem_ptrs_plug in Hq. rewrite Hout2, Hout1 by tauto. done.
Qed.

(** Filling an empty child slot of a node of the tree. *)
Lemma wp_attach_left s k y c d r l par (Q : unit → rbst D → Prop) :
  whole s (plug k (T y c d E r)) → rep (heap s) par l →
  NoDup (ptrs (plug k (T y c d l r))) →
  (∀ s', whole s' (plug k (T y c d l r)) → untouched s s' (plug k (T y c d l r)) → Q tt s') →
  wp (wr (set_left (rptr l)) (Some y);; yl ← rd left (Some y); link_parent yl (Some y)) Q s.
Proof.
  intros Hw Hl Hnd HQ. pose proof (whole_focus s k L y c d E r Hw) as Hy.
  destruct Hw as (Hroot & Hrep & _). apply rep_plug in Hrep as [(_ & _ & Hr) Hctx].
  pose proof Hnd as Hnd0. apply nodup_plug in Hnd0 as (Hndt & _ & Hd).
  pose proof (elem_ptrs_mk L y c d l r) as Hm. simpl in Hm. setoid_rewrite Hm in Hd.
  apply (nodup_mk L) in Hndt as (Hndl & _ & Hyl & Hyr & Hlr).
  apply wp_bind. eapply wp_wr; [exact Hy|].
  apply wp_bind. eapply wp_rd; [by apply lookup_insert_eq|]. simpl.
  eapply (wp_link_parent _ l par); [|done|].
  { simpl. eapply rep_frame; [|exact Hl]. intros q Hq. apply lookup_insert_ne. naive_solver. }
  intros s2 Hl2 Hroot2 Hout2. simpl in Hout2, Hroot2. apply HQ.
  - split_and!; [rewrite Hroot2, Hroot, !rptr_plug; done| |done].
    apply rep_plug. split; [split_and!|].
    + rewrite Hout2 by done. by rewrite lookup_insert_eq.
    + done.
    + eapply rep_frame; [|exact Hr]. intros q Hq.
      rewrite Hout2, lookup_insert_ne by naive_solver. done.
    + eapply rep_ctx_frame; [|exact Hctx]. intros q Hq.
      rewrite Hout2, lookup_insert_ne by naive_solver. done.
  - intros q Hq. rewrite elem_ptrs_plug, Hm in Hq.
    rewrite Hout2, lookup_insert_ne by naive_solver. done.
Qed.

(** The successor of the deleted node, as the leftmost node of its right
    subtree. *)
Lemma wp_tree_min fuel s par t (Q : ptr → rbst D → Prop) :
  rep (heap s) par t → t ≠ E → (length (elems t) ≤ fuel)%nat →
  (∀ kr y cy dy yr, t = plug kr (T y cy dy E yr) → lctx kr = [] → Q (Some y) s) →
  wp (tree_min fuel (rptr t)) Q s.
Proof.
  revert par t Q. induction fuel as [|fuel IH]; intros par t Q Hrep Hne Hlen HQ.
  { destruct t; [done|]. simpl in Hlen. rewrite length_app in Hlen. simpl in Hlen. lia. }
  destruct t as [|p c d l r]; [done|]. destruct Hrep as (Hp & Hl & Hr). simpl.
  apply wp_bind. eapply wp_rd; [exact Hp|]. simpl.
  destruct l as [|pl cl dl ll rl] eqn:El; simpl; [by apply wp_ret, (HQ [] p c d r)|]. rewrite <-El in *.
  assert (Hne' : l ≠ E) by (by subst). change (Some pl) with (rptr (T pl cl dl ll rl)).
  rewrite <-El. apply (IH (Some p)); [done|done| |].
  { simpl in Hlen. rewrite length_app in Hlen. simpl in Hlen. lia. }
  intros kr y cy dy yr Heq Hlc. apply (HQ (kr ++ [Frame L p c d r]) y cy dy yr).
  - by rewrite plug_app, <-Heq.
  - by rewrite lctx_app, Hlc.
Qed.

(** The successor [y], detached and with the remaining right subtree below it,
    takes the place, the left subtree and the colour of the deleted node. *)
Lemma wp_splice s k z cz dz zr y cy dy l r par parl (Q : ptr * ptr * color → rbst D → Prop) v :
  heap s !! z = Some (Node (rptr l) zr (cpar k) cz dz) →
  rep_ctx (heap s) (Some z) k → root s = croot (Some z) k →
  rep (heap s) parl l → rep (heap s) par (T y cy dy E r) →
  NoDup (ptrs (plug k (T y cy dy l r))) → z ∉ ptrs (plug k (T y cy dy l r)) →
  (∀ s', whole s' (plug k (T y cz dy l r)) → untouched s s' (plug k (T y cz dy l r)) → Q v s') →
  wp (transplant (Some z) (Some y);;
      zl ← rd left (Some z);
      wr (set_left zl) (Some y);;
      yl ← rd left (Some y);
      link_parent yl (Some y);;
      zc ← rd ncolor (Some z);
      wr (set_color zc) (Some y);;
      mret v) Q s.
Proof.
  intros Hz Hctx Hroot Hl Hy Hnd Hzn HQ.
  assert (Hnd' : NoDup (ptrs (plug k (T y cy dy E r)))).
  { revert Hnd. rewrite !nodup_plug, !nodup_T. setoid_rewrite elem_ptrs_T. rewrite ptrs_E.
    pose proof (NoDup_nil_2 (A:=Z)). set_solver. }
  assert (Hsub : ∀ q, q ∉ ptrs (plug k (T y cy dy l r)) → q ∉ ptrs (plug k (T y cy dy E r))).
  { intros q. rewrite !elem_ptrs_plug, !elem_ptrs_T, ptrs_E. set_solver. }
  assert (Hcol : ptrs (plug k (T y cy dy l r)) = ptrs (plug k (T y cz dy l r)))
    by (unfold ptrs; by rewrite !elems_plug).
  apply wp_bind. change (Some y) with (rptr (T y cy dy E r)) at 1.
  eapply wp_transplant; [exact Hz|done|done|done|exact Hy|done|by apply Hsub|].
  intros s1 Hw1 Hu1.
  assert (Hz1 : heap s1 !! z = heap s !! z) by (by apply Hu1, Hsub).
  apply wp_bind. eapply wp_rd; [rewrite Hz1; exact Hz|]. simpl.
  assert (Hatt : wp (wr (set_left (rptr l)) (Some y);; yl ← rd left (Some y);
     link_parent yl (Some y)) (λ _ s2, wp (zc ← rd ncolor (Some z);
      wr (set_color zc) (Some y);; mret v) Q s2) s1).
  { eapply wp_attach_left; [exact Hw1| |done|].
    { eapply rep_frame; [|exact Hl]. intros q Hq. apply Hu1.
      rewrite elem_ptrs_plug, elem_ptrs_T, ptrs_E.
      apply nodup_plug in Hnd as (Hnd1 & _ & Hd). pose proof (Hd q) as Hdq.
      rewrite elem_ptrs_T in Hdq. apply nodup_T in Hnd1. set_solver. }
    intros s2 Hw2 Hu2. apply wp_bind. eapply wp_rd; [rewrite Hu2, Hz1 by done; exact Hz|]. simpl.
    apply wp_bind. apply (wp_recolor s2 k L y cy cz dy l r _ Hw2). intros s3 Hw3 Hu3.
    apply wp_ret, HQ; [done|]. intros q Hq. rewrite <-Hcol in Hq.
    rewrite Hu3, Hu2, Hu1 by auto. done. }
  revert Hatt. unfold wp, mbind, st_bind. clear. intros (a & s' & H1 & H2).
  destruct (wr _ _ s1) as [[[] s2]|]; [|done].
  destruct (rd left _ s2) as [[yl s3]|]; [|done].
  destruct (link_parent _ _ s3) as [[[] s4]|]; [|done]. by simplify_eq.
Qed.

(** Removing a node with at most one child leaves its place one black node
    short exactly when the node was black. *)
Definition vacated (c : color) (k : list (frame D)) (x : tree D) : Prop :=
  match c with
  | RB_BLACK => ∃ n, short k x n
  | RB_RED => ∃ n, rb (plug k x) n ∧ tcol (plug k x) = RB_BLACK
  end.

Lemma unlink_vacated sd k p c (d : D) x n :
  rb (mk sd p c d E x) n → rbc k n → vacated c k x.
Proof.
  intros Hrb Hk. destruct c; simpl.
  - apply rb_mk_red in Hrb as (_ & Hx & _ & Hc). apply (rb_plug k x n); auto.
  - destruct n as [|n]; [by apply rb_mk_black0 in Hrb|].
    apply rb_mk_black in Hrb as [_ Hx]. exists n. by apply short_rb.
Qed.

(** The state in which [delete_fixup] starts: [x] hangs in context [k]. *)
Record unlinked (z : Z) (els : list (Z * D)) (t0 : tree D) (fuel : nat) (s s' : rbst D)
    (k : list (frame D)) (x : tree D) (c : color) : Prop := {
  un_whole : whole s' (plug k x);
  un_elems : elems (plug k x) = els;
  un_vacated : vacated c k x;
  un_fuel : (length k < fuel)%nat;
  un_untouched : untouched s s' t0;
  un_z : is_Some (heap s' !! z);
}.

Lemma elems_remove k z c (d : D) l r :
  elems (plug k (T z c d l r)) = lctx k ++ elems l ++ (z, d) :: elems r ++ rctx k.
Proof. rewrite elems_plug. simpl. by rewrite <-app_assoc. Qed.

Lemma ptrs_remove (z : Z) (d : D) (l1 l2 : list (Z * D)) :
  NoDup (l1 ++ (z, d) :: l2).*1 → NoDup (l1 ++ l2).*1 ∧ z ∉ (l1 ++ l2).*1.
Proof.
  rewrite !fmap_app, fmap_cons. simpl. rewrite !list.NoDup_app, list.NoDup_cons.
  intros (H1 & H2 & H3 & H4). split_and!; [done|set_solver|done|set_solver].
Qed.

(** At most one child. *)
Lemma wp_unlink_one sd s k z cz dz x m fuel c (Q : ptr * ptr * color → rbst D → Prop) :
  let t := plug k (mk sd z cz dz E x) in
  whole s t → rb t m → tcol t = RB_BLACK → (length (elems t) ≤ fuel)%nat → c = cz →
  (∀ s', unlinked z (lctx k ++ elems x ++ rctx k) t fuel s s' k x c →
         Q (rptr x, cpar k, c) s') →
  wp (xp ← rd parent (Some z); transplant (Some z) (rptr x);; mret (rptr x, xp, c)) Q s.
Proof.
  intros t Hw Hrb Hc Hfuel -> HQ. pose proof (whole_focus s k sd z cz dz E x Hw) as Hz.
  destruct (rb_plug_inv k _ m Hrb Hc) as (n & Hn & Hk & _ & _).
  destruct Hw as (Hroot & Hrep & Hnd). apply rep_plug in Hrep as [Hrep Hctx].
  apply rep_mk in Hrep as (_ & _ & Hx). rewrite rptr_mk in Hctx.
  unfold t in Hroot. rewrite rptr_plug, rptr_mk in Hroot.
  assert (He : elems t = lctx k ++ elems (mk sd z cz dz E x) ++ rctx k) by apply elems_plug.
  assert (NoDup (ptrs (plug k x)) ∧ z ∉ ptrs (plug k x)) as [Hnd' Hzn].
  { unfold ptrs in *. rewrite He in Hnd. rewrite elems_plug.
    destruct sd; simpl in Hnd; rewrite <-?app_assoc in Hnd; simpl in Hnd.
    - by apply (ptrs_remove z dz).
    - rewrite app_assoc in Hnd. rewrite app_assoc. by apply (ptrs_remove z dz). }
  apply wp_bind. eapply wp_rd; [exact Hz|]. rewrite parent_mknode.
  apply wp_bind. eapply wp_transplant;
    [exact Hz|by rewrite parent_mknode|done|done|exact Hx|done|done|].
  intros s' Hw' Hu'. apply wp_ret, HQ. split; [done|apply elems_plug| | | |].
  - by eapply unlink_vacated.
  - pose proof (length_ctx k). rewrite He, !length_app in Hfuel.
    destruct sd; simpl in Hfuel; rewrite ?length_app in Hfuel; simpl in Hfuel; lia.
  - intros q Hq. apply Hu'. unfold t in Hq. rewrite elem_ptrs_plug, elem_ptrs_mk in Hq.
    rewrite elem_ptrs_plug. tauto.
  - rewrite Hu' by done. by eexists.
Qed.

(** Two children: the successor [y] of [z] is detached from the right
    subtree [plug kr (T y cy dy E yr)], and the rest hung below it. *)
Section succ.
Context (k : list (frame D)) (z : Z) (cz : color) (dz : D) (l : tree D)
        (kr : list (frame D)) (y : Z) (cy : color) (dy : D) (yr : tree D).
Let t := plug k (T z cz dz l (plug kr (T y cy dy E yr))).
Let kz := kr ++ Frame R z cz dz l :: k.

Lemma succ_ctx x : plug kz x = plug k (T z cz dz l (plug kr x)).
Proof. unfold kz. by rewrite plug_app. Qed.

Lemma succ_whole s : whole s t → whole s (plug kz (T y cy dy E yr)).
Proof. by rewrite succ_ctx. Qed.

Definition detached (par : ptr) (s : rbst D) : Prop :=
  ∃ zr, heap s !! z = Some (Node (rptr l) zr (cpar k) cz dz) ∧
    rep_ctx (heap s) (Some z) k ∧ root s = croot (Some z) k ∧
    rep (heap s) (Some z) l ∧ rep (heap s) par (T y cy dy E (plug kr yr)).

Lemma wp_detach_root s (Q : ptr → rbst D → Prop) :
  whole s t → kr = [] →
  (∀ s', detached (Some z) s' → untouched s s' t → Q (Some y) s') →
  wp (link_parent (rptr yr) (Some y);; mret (Some y)) Q s.
Proof using t.
  intros (Hroot & Hrep & Hnd) Hkr HQ. unfold detached, t in *. clear t kz. subst kr. simpl in *.
  apply rep_plug in Hrep as [(Hz & Hl & Hy & _ & Hyr) Hctx]. rewrite rptr_plug in Hroot.
  apply nodup_plug in Hnd as (Hndt & _ & Hd).
  repeat setoid_rewrite elem_ptrs_T in Hd. rewrite !nodup_T in Hndt.
  repeat setoid_rewrite elem_ptrs_T in Hndt.
  destruct Hndt as (Hndl & (_ & Hndyr & _ & Hyyr & _) & Hzl & Hzy & Hlr).
  apply wp_bind. eapply (wp_link_parent _ yr (Some y)); [done|done|].
  intros s' Hyr' Hroot' Hout. apply wp_ret, HQ.
  - exists (Some y). split_and!.
    + rewrite Hout by tauto. done.
    + eapply rep_ctx_frame; [|exact Hctx]. intros q Hq. apply Hout. naive_solver.
    + by rewrite Hroot'.
    + eapply rep_frame; [|exact Hl]. intros q Hq. apply Hout. naive_solver.
    + simpl. rewrite Hout by done. done.
    + done.
    + done.
  - intros q Hq. apply Hout. rewrite elem_ptrs_plug, !elem_ptrs_T in Hq. tauto.
Qed.

(** Facts about the distinctness of the pieces. *)
Lemma succ_nodup s :
  whole s t →
  NoDup (ptrs (plug kz yr)) ∧ y ∉ ptrs (plug kz yr) ∧
  (∀ q, q ∉ ptrs t → q ∉ ptrs (plug kz yr) ∧ q ≠ y).
Proof using t kz.
  intros Hw%succ_whole. destruct Hw as (_ & _ & Hnd).
  pose proof Hnd as (Hndy & Hndk & Hdk)%nodup_plug. rewrite nodup_T in Hndy.
  setoid_rewrite elem_ptrs_T in Hdk. destruct Hndy as (_ & Hndyr & _ & Hyyr & _).
  split_and!.
  - apply nodup_plug; naive_solver.
  - rewrite elem_ptrs_plug; naive_solver.
  - intros q. unfold t. rewrite <-succ_ctx, !elem_ptrs_plug, elem_ptrs_T. tauto.
Qed.

(** The rest of the right subtree is hung below the detached [y]. *)
Lemma wp_hang_rest s s1 (Q : unit → rbst D → Prop) :
  whole s t → whole s1 (plug kz yr) → untouched s s1 (plug kz yr) →
  (∀ s', detached (cpar kz) s' → untouched s s' t → Q tt s') →
  wp (zr ← rd right (Some z);
      wr (set_right zr) (Some y);;
      yr' ← rd right (Some y);
      link_parent yr' (Some y)) Q s1.
Proof using t kz.
  intros Hw Hw1 Hu1 HQ. destruct (succ_nodup s Hw) as (Hnd1 & Hyn & Hsub).
  pose proof (whole_focus s kz L y cy dy E yr (succ_whole s Hw)) as Hy. simpl in Hy.
  assert (Hy1 : heap s1 !! y = heap s !! y) by (by apply Hu1). rewrite Hy in Hy1.
  rewrite succ_ctx in *. pose proof (whole_focus s1 k L z cz dz l (plug kr yr) Hw1) as Hz1.
  destruct Hw1 as (Hroot1 & Hrep1 & _). rewrite rptr_plug in Hroot1.
  apply rep_plug in Hrep1 as [(_ & Hl1 & Hr1) Hctx1]. simpl in Hz1, Hroot1, Hctx1.
  apply nodup_plug in Hnd1 as (Hndt1 & _ & Hd1). setoid_rewrite elem_ptrs_T in Hd1.
  apply nodup_T in Hndt1 as (Hndl & Hndr & Hzl & Hzr & Hlr).
  rewrite elem_ptrs_plug, elem_ptrs_T in Hyn.
  apply wp_bind. eapply wp_rd; [exact Hz1|]. simpl.
  apply wp_bind. eapply wp_wr; [exact Hy1|].
  apply wp_bind. eapply wp_rd; [by apply lookup_insert_eq|]. simpl.
  eapply (wp_link_parent _ (plug kr yr) (Some z)); [|done|].
  { simpl. eapply rep_frame; [|exact Hr1]. intros q Hq. apply lookup_insert_ne. naive_solver. }
  intros s3 Hr3 Hroot3 Hout3. simpl in Hout3, Hroot3. apply HQ.
  - exists (rptr (plug kr yr)). split_and!.
    + rewrite Hout3, lookup_insert_ne by naive_solver. done.
    + eapply rep_ctx_frame; [|exact Hctx1]. intros q Hq.
      rewrite Hout3, lookup_insert_ne by naive_solver. done.
    + congruence.
    + eapply rep_frame; [|exact Hl1]. intros q Hq.
      rewrite Hout3, lookup_insert_ne by naive_solver. done.
    + simpl. rewrite Hout3, lookup_insert_eq by tauto. done.
  - intros q Hq. destruct (Hsub q Hq) as [Hq1 Hq2].
    assert (q ∉ ptrs (plug kr yr)) by (rewrite elem_ptrs_plug, elem_ptrs_T in Hq1; tauto).
    rewrite Hout3, lookup_insert_ne by done. by apply Hu1.
Qed.

Lemma wp_detach_deep s yp (Q : ptr → rbst D → Prop) :
  whole s t → kr ≠ [] →
  (∀ s', detached (cpar kz) s' → untouched s s' t → Q yp s') →
  wp (yr' ← rd right (Some y);
      transplant (Some y) yr';;
      zr ← rd right (Some z);
      wr (set_right zr) (Some y);;
      yr' ← rd right (Some y);
      link_parent yr' (Some y);;
      mret yp) Q s.
Proof using t kz.
  intros Hw Hkr HQ. pose proof (succ_whole s Hw) as Hw'.
  destruct (succ_nodup s Hw) as (Hnd1 & Hyn & Hsub).
  pose proof (whole_focus s kz L y cy dy E yr Hw') as Hy. simpl in Hy.
  destruct Hw' as (Hroot & Hrep & Hnd). rewrite rptr_plug in Hroot. simpl in Hroot.
  apply rep_plug in Hrep as [(_ & _ & Hyr) Hctx].
  apply wp_bind. eapply wp_rd; [exact Hy|]. simpl.
  apply wp_bind. eapply wp_transplant; [exact Hy|done|done|done|exact Hyr|done|done|].
  intros s1 Hw1 Hu1.
  destruct (wp_hang_rest s s1 (λ _ s', detached (cpar kz) s' ∧ untouched s s' t) Hw Hw1 Hu1)
    as (u & s' & Hrun & Hd & Hu); [done|].
  exists yp, s'. split; [|by apply HQ]. revert Hrun. unfold mbind, st_bind.
  destruct (rd right (Some z) s1) as [[zr s2]|]; [|done].
  destruct (wr _ _ s2) as [[[] s3]|]; [|done].
  destruct (rd right (Some y) s3) as [[yr' s4]|]; [|done].
  destruct (link_parent _ _ s4) as [[[] s5]|]; [|done]. by intros [= _ ->].
Qed.

(** Which of the two ways the code takes. *)
Lemma succ_parent s :
  whole s t → ptr_eqb (cpar kz) (Some z) = bool_decide (kr = []).
Proof using t kz.
  intros Hw%succ_whole. destruct Hw as (_ & _ & Hnd). unfold kz in *.
  destruct kr as [|f kr']; simpl in *; [by apply bool_decide_true|].
  apply bool_decide_false. intros [= Heq].
  apply (nodup_plug (f :: kr' ++ Frame R z cz dz l :: k)) in Hnd as (_ & Hndk & _).
  apply nodup_cptrs in Hndk as (_ & _ & _ & Hf & _). apply Hf. rewrite Heq.
  clear. induction kr' as [|g kr' IH]; simpl; rewrite elem_cptrs; simpl; auto.
Qed.

Lemma succ_elems :
  lctx kr = [] →
  elems (plug k (T y cy dy l (plug kr yr))) =
  lctx k ++ elems l ++ elems (plug kr (T y cy dy E yr)) ++ rctx k.
Proof.
  intros Hlc. rewrite elems_plug. simpl. rewrite !elems_plug, Hlc. simpl.
  repeat (rewrite <-?app_assoc; simpl). done.
Qed.

Lemma wp_unlink_succ s m fuel (Q : ptr * ptr * color → rbst D → Prop) :
  whole s t → rb t m → tcol t = RB_BLACK → (length (elems t) ≤ fuel)%nat → lctx kr = [] →
  (∀ s', unlinked z (lctx k ++ elems l ++ elems (plug kr (T y cy dy E yr)) ++ rctx k)
           t fuel s s' (kr ++ Frame R y cz dy l :: k) yr cy →
         Q (rptr yr, cpar (kr ++ Frame R y cz dy l :: k), cy) s') →
  wp (y_orig ← rd ncolor (Some y);
      x ← rd right (Some y);
      yp ← rd parent (Some y);
      xp ← (if ptr_eqb yp (Some z) then
              link_parent x (Some y);;
              mret (Some y)
            else
              yr ← rd right (Some y);
              transplant (Some y) yr;;
              zr ← rd right (Some z);
              wr (set_right zr) (Some y);;
              yr ← rd right (Some y);
              link_parent yr (Some y);;
              mret yp);
      transplant (Some z) (Some y);;
      zl ← rd left (Some z);
      wr (set_left zl) (Some y);;
      yl ← rd left (Some y);
      link_parent yl (Some y);;
      zc ← rd ncolor (Some z);
      wr (set_color zc) (Some y);;
      mret (x, xp, y_orig)) Q s.
Proof using t kz.
  intros Hw Hrb Hc Hfuel Hlc HQ.
  pose proof (whole_focus s kz L y cy dy E yr (succ_whole s Hw)) as Hy. simpl in Hy.
  do 3 (apply wp_bind; eapply wp_rd; [exact Hy|]; simpl).
  rewrite (succ_parent s Hw).
  assert (Hfin : ∀ par s1, detached par s1 → untouched s s1 t →
    wp (transplant (Some z) (Some y);;
      zl ← rd left (Some z);
      wr (set_left zl) (Some y);;
      yl ← rd left (Some y);
      link_parent yl (Some y);;
      zc ← rd ncolor (Some z);
      wr (set_color zc) (Some y);;
      mret (rptr yr, cpar (kr ++ Frame R y cz dy l :: k), cy)) Q s1).
  { intros par s1 (zr & Hz & Hctx & Hroot & Hl & Hyt) Hu1.
    pose proof (succ_elems Hlc) as Hel. pose proof (elems_remove k z cz dz l) as Hrem.
    destruct Hw as (_ & _ & Hnd). unfold t, ptrs in Hnd. rewrite Hrem, app_assoc in Hnd.
    apply ptrs_remove in Hnd as [Hnd Hzn]. rewrite <-app_assoc, <-Hel in Hnd, Hzn.
    eapply wp_splice; [exact Hz|exact Hctx|exact Hroot|exact Hl|exact Hyt|exact Hnd|exact Hzn|].
    intros s2 Hw2 Hu2. apply HQ. split.
    - by rewrite plug_app.
    - rewrite plug_app, <-Hel. simpl. unfold fill. by rewrite !elems_plug.
    - unfold t in Hrb, Hc. rewrite <-succ_ctx in Hrb, Hc.
      destruct (rb_plug_inv kz _ m Hrb Hc) as (n & Hn & Hk & _ & _).
      eapply (unlink_vacated L); [exact Hn|]. by eapply rbc_swap.
    - unfold t in Hfuel. rewrite <-succ_ctx, elems_plug, !length_app in Hfuel. simpl in Hfuel.
      pose proof (length_ctx kz). unfold kz in *. rewrite length_app in *. simpl in *. lia.
    - intros q Hq. rewrite Hu2; [by apply Hu1|]. unfold t in Hq. contradict Hq.
      rewrite elem_ptrs_plug, elem_ptrs_T, elem_ptrs_plug in Hq.
      rewrite !elem_ptrs_plug, !elem_ptrs_T, elem_ptrs_plug, elem_ptrs_T. tauto.
    - rewrite Hu2; [by eexists|]. unfold ptrs in *. by rewrite !elems_plug in *. }
  apply wp_bind. destruct (bool_decide_reflect (kr = [])) as [Hkr|Hkr].
  - eapply wp_detach_root; [exact Hw|done|]. intros s1 Hd Hu.
    assert (Hcp : cpar (kr ++ Frame R y cz dy l :: k) = Some y) by (by rewrite Hkr).
    rewrite Hcp in Hfin. by eapply Hfin.
  - eapply wp_detach_deep; [exact Hw|done|]. intros s1 Hd Hu.
    assert (Hcp : cpar (kr ++ Frame R y cz dy l :: k) = cpar kz) by (unfold kz; by destruct kr).
    rewrite Hcp in Hfin. by eapply Hfin.
Qed.

End succ.

(** Deletion of node [z]: its context keeps its elements and order, the
    red-black invariant is restored, nothing outside the tree is touched. *)
Lemma wp_rb_delete (rot : side → ptr → ST (rbst D) unit) (Hrot : rotates rot)
    fuel s k z cz dz l r m (Q : unit → rbst D → Prop) :
  let t := plug k (T z cz dz l r) in
  whole s t → rb t m → tcol t = RB_BLACK → (length (elems t) ≤ fuel)%nat →
  (∀ s' t', whole s' t' → elems t' = lctx k ++ elems l ++ elems r ++ rctx k →
     (∃ n, rb t' n) → tcol t' = RB_BLACK → untouched s s' t → is_Some (heap s' !! z) → Q tt s') →
  wp (rb_delete rot fuel (Some z)) Q s.
Proof.
  intros t Hw Hrb Hc Hfuel HQ. pose proof (whole_focus s k L z cz dz l r Hw) as Hz.
  unfold rb_delete. do 3 (apply wp_bind; eapply wp_rd; [exact Hz|]; simpl).
  assert (Hfin : ∀ s1 k1 x c, unlinked z (lctx k ++ elems l ++ elems r ++ rctx k) t fuel s s1 k1 x c →
    wp (when (bool_decide (c = RB_BLACK)) (delete_fixup rot fuel (rptr x) (cpar k1))) Q s1).
  { intros s1 k1 x c [Hw1 He1 Hv1 Hf1 Hu1 Hz1]. destruct c; simpl in *.
    - destruct Hv1 as (n & Hn & Hnc). apply wp_ret. by eapply HQ; eauto.
    - destruct Hv1 as (n & Hn). eapply wp_mono; [apply (wp_delete_fixup rot Hrot _ _ _ _ n); auto|].
      simpl. intros [] s2 (t2 & Hw2 & He2 & Hrb2 & Hc2 & Hu2).
      assert (Hsub : ∀ q, q ∈ ptrs (plug k1 x) → q ∈ ptrs t ∧ q ≠ z).
      { destruct Hw as (_ & _ & Hnd). unfold t, ptrs in *. rewrite elems_remove in *.
        rewrite app_assoc in Hnd, He1. pose proof (ptrs_remove _ _ _ _ Hnd) as [_ Hzn].
        rewrite He1. intros q Hq. split; [|by intros ->].
        rewrite !fmap_app in *. set_solver. }
      eapply HQ; [exact Hw2|congruence|done|done| |].
      + intros q Hq. rewrite Hu2; [by apply Hu1|]. intros Hq'. by apply Hq, Hsub.
      + rewrite Hu2; [done|]. intros Hq'. by apply Hsub in Hq' as [_ []]. }
  apply wp_bind. destruct l as [|pl cl dl ll rl]; simpl.
  { apply (wp_unlink_one L s k z cz dz r m fuel); [done|done|done|done|done|].
    intros s1 H1. by apply Hfin. }
  destruct r as [|pr cr dr lr rr]; simpl.
  { apply (wp_unlink_one R s k z cz dz (T pl cl dl ll rl) m fuel); [done|done|done|done|done|].
    intros s1 H1. by apply Hfin. }
  set (l := T pl cl dl ll rl) in *. set (r := T pr cr dr lr rr) in *.
  apply wp_bind. change (Some pr) with (rptr r).
  pose proof Hw as (_ & Hrep & _). apply rep_plug in Hrep as [(_ & _ & Hr) _].
  eapply wp_tree_min; [exact Hr|done| |].
  { unfold t in Hfuel. rewrite elems_remove, !length_app in Hfuel. cbn [length] in Hfuel.
    rewrite length_app in Hfuel. lia. }
  intros kr y cy dy yr Heq Hlc. unfold t in *. clearbody r. subst r.
  apply (wp_unlink_succ k z cz dz l kr y cy dy yr s m fuel); [done|done|done|done|done|].
  intros s1 H1. by apply Hfin.
Qed.

End delete.
