(* ===== verification/MmuIface.v ===== *)
(** * What the virtual memory manager asks of the page tables

    mm/vmm.c drives mm/mmu.c and mm/tlb.c through seven functions.  [MmuOps]
    lists them; [MmuLaws] states what the manager relies on, in terms of the
    leaf entry the TTBR1 tables hold for each page number.  The theorems on the
    manager are proved against this interface, and the page-table model
    instantiates it. *)
From stdpp Require Import base option numbers.
From S2P Require Import Prelude.
#[local] Open Scope Z_scope.

(** include/mm/mmu.h *)
Definition PTE_VALID : Z := Z.shiftl 1 0.
Definition PTE_TABLE : Z := Z.shiftl 1 1.
Definition PTE_PAGE : Z := Z.shiftl 1 1.
Definition PTE_AF : Z := Z.shiftl 1 10.
Definition PTE_RO : Z := Z.shiftl 1 7.
Definition PTE_SH_INNER : Z := Z.shiftl 3 8.
Definition PTE_ATTR_IDX (x : Z) : Z := u64 (Z.shiftl x 2).
Definition MAIR_IDX_DEVICE : Z := 0.
Definition MAIR_IDX_NORMAL_NC : Z := 1.
Definition MAIR_IDX_NORMAL : Z := 2.
Definition MMU_PAGE_SHIFT : Z := 12.
Definition MMU_PAGE_SIZE : Z := Z.shiftl 1 MMU_PAGE_SHIFT.
Definition MMU_PAGE_MASK : Z := MMU_PAGE_SIZE - 1.

(** The page number a 48-bit table walk uses: bits 47..12 of the address. *)
Definition vpn (va : Z) : Z := (va / 2 ^ 12) mod 2 ^ 36.

(** The leaf entries the code writes. *)
Definition leaf_map (pa attrs : Z) : Z :=
  Z.lor (Z.lor (Z.lor (Z.land pa (u64 (Z.lnot MMU_PAGE_MASK))) attrs) PTE_AF) PTE_VALID.
Definition leaf_update (old attrs : Z) : Z :=
  Z.lor (Z.lor (Z.lor (Z.land old (u64 (Z.lnot 4095))) attrs) PTE_AF) PTE_VALID.

(** A page-aligned region that ends below the top of the address space. *)
Definition page_region (va size : Z) : Prop :=
  0 ≤ va ∧ 0 ≤ size ∧ va + size < 2 ^ 64 ∧ va mod 4096 = 0 ∧ size mod 4096 = 0.

Class MmuOps (M : Type) := {
  mmu_ttbr1 : M → Z;
  mmu_map_page : Z → Z → Z → Z → ST M Z;
  mmu_unmap_page : Z → Z → ST M Z;
  mmu_update_page_attrs : Z → Z → Z → ST M Z;
  cache_flush_range : Z → Z → ST M unit;
  icache_invalidate_range : Z → Z → ST M unit;
  tlb_flush_range : Z → Z → ST M unit;
}.

Definition mmu_get_ttbr1 `{MmuOps M} : ST M Z := gets mmu_ttbr1.

Class MmuLaws (M : Type) `{MmuOps M} := {
  mmu_inv : M → Prop;
  (** the valid leaf entry of a page number *)
  mmu_walk : M → Z → option Z;
  (** how many frames the tables can still take *)
  mmu_left : M → nat;

  mmu_map_law m va pa attrs :
    mmu_inv m → mmu_ttbr1 m ≠ 0 → is_u64 va → is_u64 pa → is_u64 attrs →
    wp (mmu_map_page (mmu_ttbr1 m) va pa attrs) (λ r m',
      mmu_inv m' ∧ mmu_ttbr1 m' = mmu_ttbr1 m ∧
      (∀ p, p ≠ vpn va → mmu_walk m' p = mmu_walk m p) ∧
      (r = 0 ∧ mmu_walk m' (vpn va) = Some (leaf_map pa attrs) ∨
       r = -1 ∧ mmu_walk m' (vpn va) = mmu_walk m (vpn va) ∧ mmu_left m' = 0%nat) ∧
      (mmu_left m' ≤ mmu_left m ≤ mmu_left m' + 3)%nat) m;

  mmu_unmap_law m va :
    mmu_inv m → mmu_ttbr1 m ≠ 0 → is_u64 va →
    wp (mmu_unmap_page (mmu_ttbr1 m) va) (λ r m',
      mmu_inv m' ∧ mmu_ttbr1 m' = mmu_ttbr1 m ∧
      (∀ p, p ≠ vpn va → mmu_walk m' p = mmu_walk m p) ∧
      mmu_walk m' (vpn va) = None ∧
      (r = 0 ∧ is_Some (mmu_walk m (vpn va)) ∨ r = -1 ∧ mmu_walk m (vpn va) = None) ∧
      mmu_left m' = mmu_left m) m;

  mmu_update_law m va attrs :
    mmu_inv m → mmu_ttbr1 m ≠ 0 → is_u64 va → is_u64 attrs →
    wp (mmu_update_page_attrs (mmu_ttbr1 m) va attrs) (λ r m',
      mmu_inv m' ∧ mmu_ttbr1 m' = mmu_ttbr1 m ∧
      (∀ p, p ≠ vpn va → mmu_walk m' p = mmu_walk m p) ∧
      mmu_walk m' (vpn va) = (λ old, leaf_update old attrs) <$> mmu_walk m (vpn va) ∧
      r = match mmu_walk m (vpn va) with Some _ => 0 | None => -1 end ∧
      mmu_left m' = mmu_left m) m;

  (** maintenance of a page-aligned region does not change the tables *)
  cache_flush_law m va size :
    mmu_inv m → page_region va size →
    wp (cache_flush_range va size) (λ _ m', mmu_inv m' ∧ mmu_ttbr1 m' = mmu_ttbr1 m ∧
      (∀ p, mmu_walk m' p = mmu_walk m p) ∧ mmu_left m' = mmu_left m) m;
  icache_invalidate_law m va size :
    mmu_inv m → page_region va size →
    wp (icache_invalidate_range va size) (λ _ m', mmu_inv m' ∧ mmu_ttbr1 m' = mmu_ttbr1 m ∧
      (∀ p, mmu_walk m' p = mmu_walk m p) ∧ mmu_left m' = mmu_left m) m;
  tlb_flush_law m va size :
    mmu_inv m → page_region va size →
    wp (tlb_flush_range va size) (λ _ m', mmu_inv m' ∧ mmu_ttbr1 m' = mmu_ttbr1 m ∧
      (∀ p, mmu_walk m' p = mmu_walk m p) ∧ mmu_left m' = mmu_left m) m;
}.
