(* ===== verification/Vmm.v ===== *)
(** * The virtual memory manager (mm/vmm.c): translation

    State: the lock and interrupt mask, the VMA tree in its static node pool,
    the free list threaded through the [left] links of the unused nodes, the
    function-local [initialized] flag of [vma_alloc_node], the lines printed by
    [vmm_dump], and the page tables behind the interface [MmuOps]. *)
From stdpp Require Import base gmap list option numbers.
From S2P Require Import Prelude Spinlock RBHeap MmuIface.
#[local] Open Scope Z_scope.

Module Vmm.

Definition VMM_PAGE_SIZE : Z := 4096.
Definition VMA_POOL_CAP : nat := 256.
Definition VMM_ATTR_R : Z := Z.shiftl 1 0.
Definition VMM_ATTR_W : Z := Z.shiftl 1 1.
Definition VMM_ATTR_X : Z := Z.shiftl 1 2.
Definition VMM_ATTR_DEVICE : Z := Z.shiftl 1 3.
Definition VMM_ATTR_NORMAL : Z := Z.shiftl 1 4.
Definition VMM_ATTR_UXN : Z := Z.shiftl 1 5.
Definition VMM_ATTR_PXN : Z := Z.shiftl 1 6.
Definition VMM_KERNEL_VIRT_BASE : Z := 0xFFFFFF8000000000.

(** The payload of a [vma_node_t]; links and colour are in [RBHeap.node]. *)
Record vma := Vma {
  vma_va : Z;
  vma_pa : Z;
  vma_size : Z;
  vma_attrs : Z;
}.
#[export] Instance vma_eq_dec : EqDecision vma.
Proof. solve_decision. Defined.

Definition set_attrs (a : Z) (v : vma) : vma := Vma (vma_va v) (vma_pa v) (vma_size v) a.

Record vmm (M : Type) := {
  vmm_lock : Z;
  vmm_daif : Z;
  vma_tree : rbst vma;
  vma_free_list : ptr;
  initialized : bool;
  console : list (Z * Z * Z * Z);
  mmu : M;
}.
#[global] Arguments vmm_lock {M}.
#[global] Arguments vmm_daif {M}.
#[global] Arguments vma_tree {M}.
#[global] Arguments vma_free_list {M}.
#[global] Arguments initialized {M}.
#[global] Arguments console {M}.
#[global] Arguments mmu {M}.

Section vmm.
Context {M : Type} `{!MmuOps M}.
Implicit Types (s : vmm M) (p : ptr).

Definition set_lock (v : Z) s : vmm M :=
  {| vmm_lock := v; vmm_daif := vmm_daif s; vma_tree := vma_tree s;
     vma_free_list := vma_free_list s; initialized := initialized s;
     console := console s; mmu := mmu s |}.
Definition set_daif (v : Z) s : vmm M :=
  {| vmm_lock := vmm_lock s; vmm_daif := v; vma_tree := vma_tree s;
     vma_free_list := vma_free_list s; initialized := initialized s;
     console := console s; mmu := mmu s |}.
Definition set_tree (v : rbst vma) s : vmm M :=
  {| vmm_lock := vmm_lock s; vmm_daif := vmm_daif s; vma_tree := v;
     vma_free_list := vma_free_list s; initialized := initialized s;
     console := console s; mmu := mmu s |}.
Definition set_free_list (v : ptr) s : vmm M :=
  {| vmm_lock := vmm_lock s; vmm_daif := vmm_daif s; vma_tree := vma_tree s;
     vma_free_list := v; initialized := initialized s;
     console := console s; mmu := mmu s |}.
Definition set_initialized (v : bool) s : vmm M :=
  {| vmm_lock := vmm_lock s; vmm_daif := vmm_daif s; vma_tree := vma_tree s;
     vma_free_list := vma_free_list s; initialized := v;
     console := console s; mmu := mmu s |}.
Definition set_console (v : list (Z * Z * Z * Z)) s : vmm M :=
  {| vmm_lock := vmm_lock s; vmm_daif := vmm_daif s; vma_tree := vma_tree s;
     vma_free_list := vma_free_list s; initialized := initialized s;
     console := v; mmu := mmu s |}.
Definition set_mmu (v : M) s : vmm M :=
  {| vmm_lock := vmm_lock s; vmm_daif := vmm_daif s; vma_tree := vma_tree s;
     vma_free_list := vma_free_list s; initialized := initialized s;
     console := console s; mmu := v |}.

#[export] Instance vmm_has_lock : HasLock (vmm M) :=
  {| lk_word := vmm_lock; lk_set_word := set_lock |}.
#[export] Instance vmm_has_daif : HasDaif (vmm M) :=
  {| lk_daif := vmm_daif; lk_set_daif := set_daif |}.

(** Tree code runs on the node pool, page-table code on the tables. *)
Definition on_tree {A} (m : ST (rbst vma) A) : ST (vmm M) A := zoom vma_tree set_tree m.
Definition on_mmu {A} (m : ST M A) : ST (vmm M) A := zoom mmu set_mmu m.

(** Every walk down the tree visits each node at most once, so twice the pool
    capacity is more fuel than any loop of the component consumes. *)
Definition tree_fuel : nat := 512.
#[global] Arguments tree_fuel : simpl never.

(** ** Searches *)

Fixpoint find_le (fuel : nat) (root : ptr) (va : Z) (res : ptr) : ST (rbst vma) ptr :=
  match fuel with
  | O => undef
  | S fuel =>
      if is_null root then mret res
      else
        d ← rd data root;
        if va <? vma_va d then l ← rd left root; find_le fuel l va res
        else r ← rd right root; find_le fuel r va root
  end.

Fixpoint find_ge (fuel : nat) (root : ptr) (va : Z) (res : ptr) : ST (rbst vma) ptr :=
  match fuel with
  | O => undef
  | S fuel =>
      if is_null root then mret res
      else
        d ← rd data root;
        if va <=? vma_va d then l ← rd left root; find_ge fuel l va root
        else r ← rd right root; find_ge fuel r va res
  end.

Fixpoint find_exact (fuel : nat) (root : ptr) (va : Z) : ST (rbst vma) ptr :=
  match fuel with
  | O => undef
  | S fuel =>
      if is_null root then mret None
      else
        d ← rd data root;
        if va <? vma_va d then l ← rd left root; find_exact fuel l va
        else if vma_va d <? va then r ← rd right root; find_exact fuel r va
        else mret root
  end.

Definition overlaps (n : ptr) (va size : Z) : ST (rbst vma) bool :=
  if is_null n then mret false
  else
    d ← rd data n;
    let a0 := vma_va d in
    let a1 := u64 (vma_va d + vma_size d) in
    let b0 := va in
    let b1 := u64 (va + size) in
    mret (negb ((b1 <=? a0) || (a1 <=? b0))).

(** ** The node pool *)

Definition init_vma_pool : ST (vmm M) unit :=
  for_each VMA_POOL_CAP 0 (λ i,
    fl ← gets vma_free_list;
    on_tree (wr (set_left fl) (Some i));;
    modify (set_free_list (Some i))).

Definition vma_alloc_node : ST (vmm M) ptr :=
  fl ← gets vma_free_list;
  empty ← (if is_null fl then
             ini ← gets initialized;
             when (negb ini) (init_vma_pool;; modify (set_initialized true));;
             fl ← gets vma_free_list;
             mret (is_null fl)
           else mret false);
  if (empty : bool) then mret None
  else
    n ← gets vma_free_list;
    l ← on_tree (rd left n);
    modify (set_free_list l);;
    on_tree (wr (set_parent None) n;; wr (set_right None) n;; wr (set_left None) n);;
    on_tree (wr (set_color RB_RED) n);;
    mret n.

Definition vma_free_node (n : ptr) : ST (vmm M) unit :=
  if is_null n then mret tt
  else
    fl ← gets vma_free_list;
    on_tree (wr (set_left fl) n);;
    modify (set_free_list n).

Definition vmm_init : ST (vmm M) Z :=
  spinlock_init;;
  on_tree (modify (set_root None));;
  init_vma_pool;;
  mret 0.

(** ** Mapping *)

(** The [vma_node_t **link] of the insertion loop: the root variable, or a
    child field of a node. *)
Inductive link := LRoot | LChild (sd : side) (p : ptr).

Definition read_link (k : link) : ST (rbst vma) ptr :=
  match k with LRoot => gets root | LChild sd p => rd (child sd) p end.
Definition write_link (k : link) (v : ptr) : ST (rbst vma) unit :=
  match k with LRoot => modify (set_root v) | LChild sd p => wr (set_child sd v) p end.

Fixpoint find_link (fuel : nat) (va : Z) (k : link) (parent : ptr)
    : ST (rbst vma) (link * ptr) :=
  match fuel with
  | O => undef
  | S fuel =>
      cur ← read_link k;
      if is_null cur then mret (k, parent)
      else
        d ← rd data cur;
        find_link fuel va (LChild (if va <? vma_va d then L else R) cur) cur
  end.

(** [for (uint64_t off = 0; off < size; off += VMM_PAGE_SIZE)] *)
Fixpoint for_pages (fuel : nat) (size off : Z) (body : Z → ST M unit) : ST M unit :=
  match fuel with
  | O => undef
  | S fuel =>
      if off <? size then body off;; for_pages fuel size (u64 (off + VMM_PAGE_SIZE)) body
      else mret tt
  end.
Definition page_fuel (size : Z) : nat := S (Z.to_nat (size / VMM_PAGE_SIZE)).
#[global] Arguments page_fuel : simpl never.

(** The leaf attributes, computed alike in [vmm_map] and [vmm_protect]. *)
Definition pte_attrs_of (attrs : Z) : Z :=
  let a := Z.lor (Z.lor PTE_PAGE PTE_AF) PTE_SH_INNER in
  let a := if ctrue (Z.land attrs VMM_ATTR_DEVICE)
           then Z.lor a (PTE_ATTR_IDX MAIR_IDX_DEVICE)
           else Z.lor a (PTE_ATTR_IDX MAIR_IDX_NORMAL) in
  let a := if negb (ctrue (Z.land attrs VMM_ATTR_W)) then Z.lor a PTE_RO else a in
  let a := if ctrue (Z.land attrs VMM_ATTR_UXN) then Z.lor a (Z.shiftl 1 54) else a in
  let a := if ctrue (Z.land attrs VMM_ATTR_PXN) then Z.lor a (Z.shiftl 1 53) else a in
  a.

Definition misaligned (x : Z) : bool := ctrue (Z.land x (VMM_PAGE_SIZE - 1)).

(** Releasing the lock on the way out. *)
Definition unlock_ret (flags r : Z) : ST (vmm M) Z :=
  spinlock_unlock_irqrestore flags;; mret r.

(** The page-table part of [vmm_map]. *)
Definition map_pages (va pa size attrs : Z) : ST M unit :=
  ttbr1 ← mmu_get_ttbr1;
  when (ctrue ttbr1) (
    let pte_attrs := pte_attrs_of attrs in
    for_pages (page_fuel size) size 0 (λ off,
      _ ← mmu_map_page ttbr1 (u64 (va + off)) (u64 (pa + off)) pte_attrs; mret tt);;
    when (ctrue (Z.land attrs VMM_ATTR_X))
      (cache_flush_range va size;; icache_invalidate_range va size);;
    tlb_flush_range va size).

Definition insert_vma (n : ptr) (va : Z) : ST (rbst vma) unit :=
  lp ← find_link tree_fuel va LRoot None;
  let '(lnk, par) := lp in
  write_link lnk n;;
  wr (set_parent par) n;;
  wr (set_right None) n;;
  wr (set_left None) n;;
  wr (set_color RB_RED) n;;
  insert_fixup rotate tree_fuel n.

Definition vmm_map (va pa size attrs : Z) : ST (vmm M) Z :=
  flags ← spinlock_lock_irqsave;
  if size =? 0 then unlock_ret flags (-1)
  else if misaligned va || misaligned pa || misaligned size then unlock_ret flags (-2)
  else
    rt ← gets (λ s, root (vma_tree s));
    pred ← on_tree (find_le tree_fuel rt va None);
    ov ← on_tree (overlaps pred va size);
    if (ov : bool) then unlock_ret flags (-3)
    else
      succ ← on_tree (find_ge tree_fuel rt va None);
      ov ← on_tree (overlaps succ va size);
      if (ov : bool) then unlock_ret flags (-3)
      else
        n ← vma_alloc_node;
        if is_null n then unlock_ret flags (-4)
        else
          on_tree (wr (set_data (Vma va pa size attrs)) n;;
                   wr (set_color RB_RED) n;;
                   insert_vma n va);;
          on_mmu (map_pages va pa size attrs);;
          unlock_ret flags 0.

Definition unmap_pages (va size : Z) : ST M unit :=
  ttbr1 ← mmu_get_ttbr1;
  when (ctrue ttbr1) (
    for_pages (page_fuel size) size 0 (λ off,
      _ ← mmu_unmap_page ttbr1 (u64 (va + off)); mret tt);;
    tlb_flush_range va size).

(** [!cur || cur->size != size] *)
Definition size_differs (cur : ptr) (size : Z) : ST (rbst vma) bool :=
  if is_null cur then mret true
  else d ← rd data cur; mret (negb (vma_size d =? size)).

Definition vmm_unmap (va size : Z) : ST (vmm M) Z :=
  flags ← spinlock_lock_irqsave;
  if size =? 0 then unlock_ret flags (-1)
  else if misaligned va || misaligned size then unlock_ret flags (-2)
  else
    rt ← gets (λ s, root (vma_tree s));
    cur ← on_tree (find_exact tree_fuel rt va);
    bad ← on_tree (size_differs cur size);
    if (bad : bool) then unlock_ret flags (-3)
    else
      on_mmu (unmap_pages va size);;
      on_tree (rb_delete rotate tree_fuel cur);;
      vma_free_node cur;;
      unlock_ret flags 0.

Definition protect_pages (va size attrs : Z) : ST M unit :=
  ttbr1 ← mmu_get_ttbr1;
  when (ctrue ttbr1) (
    let pte_attrs := pte_attrs_of attrs in
    for_pages (page_fuel size) size 0 (λ off,
      _ ← mmu_update_page_attrs ttbr1 (u64 (va + off)) pte_attrs; mret tt);;
    tlb_flush_range va size).

Definition vmm_protect (va size attrs : Z) : ST (vmm M) Z :=
  flags ← spinlock_lock_irqsave;
  if size =? 0 then unlock_ret flags (-1)
  else if misaligned va || misaligned size then unlock_ret flags (-2)
  else
    rt ← gets (λ s, root (vma_tree s));
    cur ← on_tree (find_exact tree_fuel rt va);
    bad ← on_tree (size_differs cur size);
    if (bad : bool) then unlock_ret flags (-3)
    else
      on_tree (wr (λ n, set_data (set_attrs attrs (data n)) n) cur);;
      on_mmu (protect_pages va size attrs);;
      unlock_ret flags 0.

(** ** Queries *)

(** The arguments of the [printk] call of [inorder_dump]. *)
Definition dump_line (d : vma) : Z * Z * Z * Z :=
  (vma_va d, u64 (vma_va d + vma_size d), vma_pa d, vma_attrs d).

Fixpoint inorder_dump (fuel : nat) (n : ptr) : ST (vmm M) unit :=
  match fuel with
  | O => undef
  | S fuel =>
      if is_null n then mret tt
      else
        l ← on_tree (rd left n);
        inorder_dump fuel l;;
        d ← on_tree (rd data n);
        modify (λ s, set_console (console s ++ [dump_line d]) s);;
        r ← on_tree (rd right n);
        inorder_dump fuel r
  end.

Definition vmm_dump : ST (vmm M) unit :=
  flags ← spinlock_lock_irqsave;
  rt ← gets (λ s, root (vma_tree s));
  inorder_dump tree_fuel rt;;
  spinlock_unlock_irqrestore flags.

(** The result code and the value stored through [pa_out], if any; [out] is
    the truth value of the pointer [pa_out]. *)
Definition vmm_virt_to_phys (va : Z) (out : bool) : ST (vmm M) (Z * option Z) :=
  if negb out then mret (-1, None)
  else
    flags ← spinlock_lock_irqsave;
    rt ← gets (λ s, root (vma_tree s));
    n ← on_tree (find_le tree_fuel rt va None);
    hit ← (if is_null n then mret None
           else
             d ← on_tree (rd data n);
             mret (if (vma_va d <=? va) && (va <? u64 (vma_va d + vma_size d))
                   then Some (u64 (vma_pa d + (u64 (va - vma_va d)))) else None));
    match (hit : option Z) with
    | Some pa => spinlock_unlock_irqrestore flags;; mret (0, Some pa)
    | None => spinlock_unlock_irqrestore flags;; mret (0, Some va)
    end.

Definition vmm_kernel_base : Z := VMM_KERNEL_VIRT_BASE.
Definition vmm_phys_to_virt (pa : Z) : Z := pa.

End vmm.
End Vmm.
