(* ===== verification/VmmTree.v ===== *)
(** * The VMA tree: searches and insertion

    The three searches of mm/vmm.c, the overlap test and the insertion loop,
    characterised on the in-order sequence of the tree. *)
From stdpp Require Import base gmap list option numbers sorting.
From S2P Require Import Prelude RBHeap RBTree RBInsert RBDelete MmuIface Vmm.
#[local] Open Scope Z_scope.
Import Vmm.

(** ** Regions *)

Definition vma_end (v : vma) : Z := vma_va v + vma_size v.

(** A region the manager tracks: page-aligned, non-empty, and ending below the
    top of the address space. *)
Record vma_ok (v : vma) : Prop := {
  vo_va : 0 ≤ vma_va v;
  vo_size : 0 < vma_size v;
  vo_end : vma_end v < 2 ^ 64;
  vo_va_al : vma_va v mod 4096 = 0;
  vo_size_al : vma_size v mod 4096 = 0;
  vo_pa : is_u64 (vma_pa v);
}.

(** Sorted by address and disjoint. *)
Definition before (v w : vma) : Prop := vma_end v ≤ vma_va w.
Definition regions (l : list vma) : Prop := StronglySorted before l ∧ Forall vma_ok l.

Lemma regions_app l1 l2 :
  regions (l1 ++ l2) ↔
  regions l1 ∧ regions l2 ∧ ∀ v w, v ∈ l1 → w ∈ l2 → before v w.
Proof.
  unfold regions. rewrite StronglySorted_app, Forall_app. naive_solver.
Qed.

Lemma regions_cons v l :
  regions (v :: l) ↔ vma_ok v ∧ regions l ∧ ∀ w, w ∈ l → before v w.
Proof.
  unfold regions. rewrite StronglySorted_cons, Forall_cons.
  rewrite Forall_forall. naive_solver.
Qed.

Lemma regions_ok l v : regions l → v ∈ l → vma_ok v.
Proof. intros [_ Hok] Hv. rewrite Forall_forall in Hok. by apply Hok. Qed.

(** The regions of a subtree, seen through the pool indices. *)
Definition vmas (els : list (Z * vma)) : list vma := els.*2.

Lemma vmas_node p c d l r :
  vmas (elems (T p c d l r)) = vmas (elems l) ++ d :: vmas (elems r).
Proof. unfold vmas. simpl. by rewrite fmap_app. Qed.

Lemma regions_node p c d l r :
  regions (vmas (elems (T p c d l r))) →
  vma_ok d ∧ regions (vmas (elems l)) ∧ regions (vmas (elems r)) ∧
  (∀ e, e ∈ elems l → vma_va e.2 < vma_va d) ∧ (∀ e, e ∈ elems r → vma_va d < vma_va e.2).
Proof.
  rewrite vmas_node, regions_app, regions_cons.
  intros (Hl & (Hd & Hr & Hdr) & Hlr). split_and!; [done|done|done| |].
  - intros e He. assert (e.2 ∈ vmas (elems l)) as He' by (apply list_elem_of_fmap; eauto).
    pose proof (Hlr _ d He' ltac:(set_solver)) as Hb.
    pose proof (vo_size _ (regions_ok _ _ Hl He')). unfold before, vma_end in Hb. lia.
  - intros e He. assert (e.2 ∈ vmas (elems r)) as He' by (apply list_elem_of_fmap; eauto).
    pose proof (Hdr _ He') as Hb. pose proof (vo_size _ Hd). unfold before, vma_end in Hb. lia.
Qed.

Definition below (va : Z) (e : Z * vma) : Prop := vma_va e.2 ≤ va.
Definition above (va : Z) (e : Z * vma) : Prop := va < vma_va e.2.

(** ** Searches *)

Section search.
Implicit Types (s : rbst vma) (t : tree vma).

Definition or_else (r : option (Z * vma)) (res : ptr) : ptr :=
  match r with Some e => Some e.1 | None => res end.

Lemma wp_find_le fuel s par t va res (Q : ptr → rbst vma → Prop) :
  rep (heap s) par t → regions (vmas (elems t)) → (length (elems t) < fuel)%nat →
  (∀ A B, elems t = A ++ B → Forall (below va) A → Forall (above va) B →
          Q (or_else (last A) res) s) →
  wp (find_le fuel (rptr t) va res) Q s.
Proof.
  revert par t res Q. induction fuel as [|fuel IH]; intros par t res Q Hrep Hreg Hlen HQ; [lia|].
  destruct t as [|p c d l r]; simpl; [by apply wp_ret, (HQ [] [])|].
  destruct Hrep as (Hp & Hl & Hr). simpl in Hlen. rewrite length_app in Hlen. simpl in Hlen.
  apply regions_node in Hreg as (Hd & Hregl & Hregr & Hlt & Hgt).
  apply wp_bind. eapply wp_rd; [exact Hp|]. simpl. destruct (Z.ltb_spec va (vma_va d)) as [Hva|Hva].
  - apply wp_bind. eapply wp_rd; [exact Hp|]. simpl.
    eapply IH; [exact Hl|done|lia|]. intros A B Heq HA HB.
    apply (HQ A (B ++ (p, d) :: elems r)); [simpl; by rewrite Heq, <-app_assoc|done|].
    apply Forall_app. split; [done|]. constructor; [done|]. apply Forall_forall.
    intros e He%Hgt. unfold above. lia.
  - apply wp_bind. eapply wp_rd; [exact Hp|]. simpl.
    eapply IH; [exact Hr|done|lia|]. intros A B Heq HA HB.
    assert (Hlast : or_else (last A) (Some p) = or_else (last (elems l ++ (p, d) :: A)) res).
    { rewrite last_app_cons. change ((p, d) :: A) with ([(p, d)] ++ A). rewrite last_app.
      by destruct (last A). }
    rewrite Hlast. apply (HQ _ B); [simpl; by rewrite Heq, <-app_assoc| |done].
    apply Forall_app. split; [|by constructor]. apply Forall_forall.
    intros e He%Hlt. unfold below. lia.
Qed.

Lemma wp_find_ge fuel s par t va res (Q : ptr → rbst vma → Prop) :
  rep (heap s) par t → regions (vmas (elems t)) → (length (elems t) < fuel)%nat →
  (∀ A B, elems t = A ++ B → Forall (λ e, vma_va e.2 < va) A → Forall (λ e, va ≤ vma_va e.2) B →
          Q (or_else (head B) res) s) →
  wp (find_ge fuel (rptr t) va res) Q s.
Proof.
  revert par t res Q. induction fuel as [|fuel IH]; intros par t res Q Hrep Hreg Hlen HQ; [lia|].
  destruct t as [|p c d l r]; simpl; [by apply wp_ret, (HQ [] [])|].
  destruct Hrep as (Hp & Hl & Hr). simpl in Hlen. rewrite length_app in Hlen. simpl in Hlen.
  apply regions_node in Hreg as (Hd & Hregl & Hregr & Hlt & Hgt).
  apply wp_bind. eapply wp_rd; [exact Hp|]. simpl. destruct (Z.leb_spec va (vma_va d)) as [Hva|Hva].
  - apply wp_bind. eapply wp_rd; [exact Hp|]. simpl.
    eapply IH; [exact Hl|done|lia|]. intros A B Heq HA HB.
    assert (Hhd : or_else (head B) (Some p) = or_else (head (B ++ (p, d) :: elems r)) res)
      by (by destruct B).
    rewrite Hhd. apply (HQ A); [simpl; by rewrite Heq, <-app_assoc|done|].
    apply Forall_app. split; [done|]. constructor; [done|]. apply Forall_forall.
    intros e He%Hgt. lia.
  - apply wp_bind. eapply wp_rd; [exact Hp|]. simpl.
    eapply IH; [exact Hr|done|lia|]. intros A B Heq HA HB.
    apply (HQ (elems l ++ (p, d) :: A) B); [simpl; by rewrite Heq, <-app_assoc| |done].
    apply Forall_app. split; [|by constructor]. apply Forall_forall. intros e He%Hlt. lia.
Qed.

(** [find_exact] focuses the tree on the node it returns. *)
Lemma wp_find_exact fuel s par t va (Q : ptr → rbst vma → Prop) :
  rep (heap s) par t → regions (vmas (elems t)) → (length (elems t) < fuel)%nat →
  (∀ k p c d l r, t = plug k (T p c d l r) → vma_va d = va → Q (Some p) s) →
  ((∀ v, v ∈ vmas (elems t) → vma_va v ≠ va) → Q None s) →
  wp (find_exact fuel (rptr t) va) Q s.
Proof.
  revert par t Q. induction fuel as [|fuel IH]; intros par t Q Hrep Hreg Hlen HQ1 HQ2; [lia|].
  destruct t as [|p c d l r]; simpl; [apply wp_ret, HQ2; intros v Hv; by apply elem_of_nil in Hv|].
  destruct Hrep as (Hp & Hl & Hr). simpl in Hlen. rewrite length_app in Hlen. simpl in Hlen.
  pose proof (regions_node _ _ _ _ _ Hreg) as (Hd & Hregl & Hregr & Hlt & Hgt).
  apply wp_bind. eapply wp_rd; [exact Hp|]. simpl. destruct (Z.ltb_spec va (vma_va d)) as [Hva|Hva].
  { apply wp_bind. eapply wp_rd; [exact Hp|]. simpl. eapply IH; [exact Hl|done|lia| |].
    - intros k p' c' d' l' r' -> Hd'.
      apply (HQ1 (k ++ [Frame L p c d r]) p' c' d' l' r'); [|done].
      by rewrite plug_app.
    - intros Hn. apply HQ2. intros v. rewrite vmas_node, elem_of_app, elem_of_cons.
      intros [Hv|[->|Hv]]; [by apply Hn|lia|].
      apply list_elem_of_fmap in Hv as (e & -> & He). apply Hgt in He. lia. }
  destruct (Z.ltb_spec (vma_va d) va) as [Hva'|Hva'].
  - apply wp_bind. eapply wp_rd; [exact Hp|]. simpl. eapply IH; [exact Hr|done|lia| |].
    + intros k p' c' d' l' r' -> Hd'.
      apply (HQ1 (k ++ [Frame R p c d l]) p' c' d' l' r'); [|done].
      by rewrite plug_app.
    + intros Hn. apply HQ2. intros v. rewrite vmas_node, elem_of_app, elem_of_cons.
      intros [Hv|[->|Hv]]; [|lia|by apply Hn].
      apply list_elem_of_fmap in Hv as (e & -> & He). apply Hlt in He. lia.
  - apply wp_ret. apply (HQ1 [] p c d l r); [done|lia].
Qed.
End search.

(** ** Overlap *)

(** Two half-open regions intersect. *)
Definition meets (va size : Z) (v : vma) : bool :=
  (va <? vma_end v) && (vma_va v <? va + size).

Lemma rep_elem {D} (h : gmap Z (node D)) par (t : tree D) p d :
  rep h par t → (p, d) ∈ elems t → ∃ n, h !! p = Some n ∧ data n = d.
Proof.
  revert par. induction t as [|q c dq l IHl r IHr]; intros par; simpl.
  - intros _ Hin. by apply elem_of_nil in Hin.
  - intros (Hq & Hl & Hr). rewrite elem_of_app, elem_of_cons.
    intros [Hin|[[= -> ->]|Hin]]; [by eapply IHl|by eexists|by eapply IHr].
Qed.

Lemma meets_spec va size v :
  meets va size v = true ↔ va < vma_end v ∧ vma_va v < va + size.
Proof. unfold meets. rewrite andb_true_iff, Z.ltb_lt, Z.ltb_lt. done. Qed.

Lemma overlaps_meets v va size :
  vma_ok v → 0 ≤ va → 0 < size → va + size < 2 ^ 64 →
  negb ((u64 (va + size) <=? vma_va v) || (u64 (vma_va v + vma_size v) <=? va))
  = meets va size v.
Proof.
  intros [] Hva Hsz Hend. unfold u64, meets, vma_end in *. rewrite !wrap_small by lia.
  destruct (Z.leb_spec (va + size) (vma_va v)), (Z.leb_spec (vma_va v + vma_size v) va),
    (Z.ltb_spec va (vma_va v + vma_size v)), (Z.ltb_spec (vma_va v) (va + size)); simpl; lia.
Qed.

Definition opt_meets (va size : Z) (e : option (Z * vma)) : bool :=
  match e with Some e => meets va size e.2 | None => false end.

Lemma wp_overlaps s par t (o : option (Z * vma)) va size (Q : bool → rbst vma → Prop) :
  rep (heap s) par t → regions (vmas (elems t)) →
  (∀ e, o = Some e → e ∈ elems t) →
  0 ≤ va → 0 < size → va + size < 2 ^ 64 →
  Q (opt_meets va size o) s →
  wp (overlaps (or_else o None) va size) Q s.
Proof.
  intros Hrep Hreg Ho Hva Hsz Hend HQ. destruct o as [[p d]|]; simpl; [|by apply wp_ret].
  specialize (Ho _ eq_refl). unfold overlaps. simpl.
  destruct (rep_elem _ _ _ _ _ Hrep Ho) as (n & Hn & <-).
  apply wp_bind. eapply wp_rd; [exact Hn|]. apply wp_ret.
  rewrite overlaps_meets; [done| |done|done|done].
  eapply regions_ok; [exact Hreg|]. apply list_elem_of_fmap. by exists (p, data n).
Qed.

Lemma regions_before (A B : list (Z * vma)) a b :
  regions (vmas (A ++ B)) → a ∈ A → b ∈ B → before a.2 b.2.
Proof.
  unfold vmas. rewrite fmap_app, regions_app. intros (_ & _ & H) Ha Hb.
  apply H; apply list_elem_of_fmap; eauto.
Qed.

Lemma regions_elem (els : list (Z * vma)) e : regions (vmas els) → e ∈ els → vma_ok e.2.
Proof. intros H He. eapply regions_ok; [exact H|]. apply list_elem_of_fmap. eauto. Qed.

(** Checking the neighbours is enough: if neither the greatest region starting
    at or below [va] nor the least one starting at or above it meets the new
    region, no region does. *)
Lemma neighbours_suffice els A B A' B' va size :
  regions (vmas els) → 0 < size →
  els = A ++ B → Forall (below va) A → Forall (above va) B →
  els = A' ++ B' → Forall (λ e, vma_va e.2 < va) A' → Forall (λ e, va ≤ vma_va e.2) B' →
  opt_meets va size (last A) = false → opt_meets va size (head B') = false →
  Forall (λ e, vma_end e.2 ≤ va) A ∧ Forall (λ e, va + size ≤ vma_va e.2) B.
Proof.
  intros Hreg Hsz HAB HA HB HAB' HA' HB' Hpred Hsucc. rewrite Forall_forall in HA, HB, HA', HB'.
  assert (HAend : ∀ a, a ∈ A → vma_end a.2 ≤ va).
  { intros a Ha. destruct (last A) as [e|] eqn:Hl.
    - apply last_Some in Hl as [A0 ->]. simpl in Hpred.
      assert (He : e ∈ A0 ++ [e]) by set_solver. specialize (HA _ He).
      assert (vma_end e.2 ≤ va).
      { unfold meets, below in *. destruct (Z.ltb_spec va (vma_end e.2)); [|lia].
        destruct (Z.ltb_spec (vma_va e.2) (va + size)); [done|lia]. }
      apply elem_of_app in Ha as [Ha|Ha]; [|set_solver].
      assert (before a.2 e.2).
      { eapply (regions_before A0 (e :: B)); [|done|set_solver].
        by rewrite HAB, <-app_assoc in Hreg. }
      unfold before in *. pose proof (vo_size _ (regions_elem els e Hreg ltac:(set_solver))).
      unfold vma_end in *. lia.
    - apply last_None in Hl. subst A. by apply elem_of_nil in Ha. }
  split; apply Forall_forall; [done|]. intros b Hb.
  assert (Hbe : b ∈ els) by set_solver. specialize (HB _ Hb). unfold above in HB.
  assert (Hb' : b ∈ B').
  { rewrite HAB' in Hbe. apply elem_of_app in Hbe as [Hbe|]; [|done]. specialize (HA' _ Hbe). lia. }
  destruct B' as [|e B'']; [by apply elem_of_nil in Hb'|]. simpl in Hsucc.
  assert (He : e ∈ els) by (rewrite HAB'; apply elem_of_app; right; apply elem_of_cons; by left).
  pose proof (vo_size _ (regions_elem _ _ Hreg He)).
  assert (va ≤ vma_va e.2) by (apply HB', elem_of_cons; by left).
  assert (va + size ≤ vma_va e.2).
  { unfold meets in Hsucc. unfold vma_end in *.
    destruct (Z.ltb_spec va (vma_va e.2 + vma_size e.2)); [|lia].
    destruct (Z.ltb_spec (vma_va e.2) (va + size)); [done|lia]. }
  apply elem_of_cons in Hb' as [->|Hb']; [done|].
  assert (before e.2 b.2).
  { eapply (regions_before (A' ++ [e]) B''); [|set_solver|done].
    rewrite <-app_assoc. simpl. by rewrite <-HAB'. }
  unfold before, vma_end in *. lia.
Qed.

(** ** Insertion *)

(** Where the insertion loop stands. *)
Definition link_at (lnk : link) (k : list (frame vma)) : Prop :=
  match k with
  | [] => lnk = LRoot
  | f :: _ => lnk = LChild (fside f) (Some (fptr f))
  end.

Lemma wp_read_link s lnk k t (Q : ptr → rbst vma → Prop) :
  whole s (plug k t) → link_at lnk k → Q (rptr t) s → wp (read_link lnk) Q s.
Proof.
  intros Hw Hl HQ. destruct k as [|[sd p c d b] k]; simpl in Hl; subst lnk; simpl.
  - apply wp_gets. by destruct Hw as (-> & _ & _).
  - eapply wp_rd; [by apply (whole_focus s k sd p c d t b)|]. by rewrite child_mknode.
Qed.

Lemma wp_find_link fuel s va k t lnk (Q : link * ptr → rbst vma → Prop) :
  whole s (plug k t) → link_at lnk k → regions (vmas (elems t)) →
  (length (elems t) < fuel)%nat →
  Forall (below va) (lctx k) → Forall (above va) (rctx k) →
  (∀ k' lnk', plug k t = plug k' E → link_at lnk' k' → Forall (below va) (lctx k') →
     Forall (above va) (rctx k') → Q (lnk', cpar k') s) →
  wp (find_link fuel va lnk (cpar k)) Q s.
Proof.
  revert k t lnk Q. induction fuel as [|fuel IH];
    intros k t lnk Q Hw Hl Hreg Hlen Hbel Habv HQ; [lia|]. simpl.
  apply wp_bind. eapply wp_read_link; [exact Hw|done|].
  destruct t as [|p c d l r]; simpl; [by apply wp_ret, HQ|].
  apply wp_bind. eapply wp_rd; [by apply (whole_focus s k L p c d l r)|]. simpl.
  pose proof (regions_node _ _ _ _ _ Hreg) as (Hd & Hregl & Hregr & Hlt & Hgt).
  simpl in Hlen. rewrite length_app in Hlen. simpl in Hlen.
  destruct (Z.ltb_spec va (vma_va d)) as [Hva|Hva].
  - apply (IH (Frame L p c d r :: k) l); [done|done|done|lia| | |done].
    + simpl. by rewrite app_nil_r.
    + simpl. constructor; [done|]. apply Forall_app. split; [|done]. apply Forall_forall.
      intros e He%Hgt. unfold above. lia.
  - apply (IH (Frame R p c d l :: k) r); [done|done|done|lia| |done|done].
    simpl. rewrite app_assoc. apply Forall_app. split; [|by repeat constructor].
    apply Forall_app. split; [done|]. apply Forall_forall. intros e He%Hlt. unfold below. lia.
Qed.

Lemma wp_write_link s k lnk hole v (Q : unit → rbst vma → Prop) :
  rep_ctx (heap s) hole k → root s = croot hole k → NoDup (cptrs k) → link_at lnk k →
  (∀ s', rep_ctx (heap s') v k → root s' = croot v k →
         (∀ q, q ∉ cptrs k → heap s' !! q = heap s !! q) → Q tt s') →
  wp (write_link lnk v) Q s.
Proof.
  intros Hctx Hroot Hnd Hl HQ. destruct k as [|[sd p c d b] k]; simpl in Hl; subst lnk; simpl.
  - apply wp_modify. by apply HQ.
  - destruct Hctx as (Hp & Hb & Hk). simpl in Hp, Hb, Hk, Hroot.
    apply nodup_cptrs in Hnd as (_ & _ & Hpb & Hpk & _). simpl in Hpb, Hpk.
    eapply wp_wr; [exact Hp|]. rewrite set_child_mknode. apply HQ; simpl.
    + split_and!; [by rewrite lookup_insert_eq| |].
      * eapply rep_frame; [|exact Hb]. intros q Hq. apply lookup_insert_ne. by intros <-.
      * eapply rep_ctx_frame; [|exact Hk]. intros q Hq. apply lookup_insert_ne. by intros <-.
    + done.
    + intros q Hq. rewrite elem_cptrs in Hq. simpl in Hq. apply lookup_insert_ne. naive_solver.
Qed.

(** Hanging a fresh red leaf at the end of the descent. *)
Lemma wp_hang s k lnk p n (Q : unit → rbst vma → Prop) :
  whole s (plug k E) → link_at lnk k → heap s !! p = Some n → p ∉ cptrs k →
  (∀ s', whole s' (plug k (T p RB_RED (data n) E E)) →
         (∀ q, q ∉ cptrs k → q ≠ p → heap s' !! q = heap s !! q) → wp (insert_fixup rotate tree_fuel (Some p)) Q s') →
  wp (write_link lnk (Some p);;
      wr (set_parent (cpar k)) (Some p);;
      wr (set_right None) (Some p);;
      wr (set_left None) (Some p);;
      wr (set_color RB_RED) (Some p);;
      insert_fixup rotate tree_fuel (Some p)) Q s.
Proof.
  intros (Hroot & Hrep & Hnd) Hl Hn Hp HQ. apply rep_plug in Hrep as [_ Hctx].
  rewrite rptr_plug in Hroot. apply nodup_plug in Hnd as (_ & Hnd & _).
  apply wp_bind. eapply wp_write_link; [exact Hctx|done|done|done|].
  intros s1 Hctx1 Hroot1 Hout1.
  assert (Hn1 : heap s1 !! p = Some n) by (by rewrite Hout1).
  apply wp_bind. eapply wp_wr; [exact Hn1|].
  do 3 (apply wp_bind; eapply wp_wr; [by apply lookup_insert_eq|]; simpl).
  rewrite !insert_insert_eq. apply HQ; simpl.
  - split_and!; simpl.
    + by rewrite Hroot1, rptr_plug.
    + apply rep_plug. split; [split; [|done]; simpl; by rewrite lookup_insert_eq|].
      eapply rep_ctx_frame; [|exact Hctx1]. intros q Hq. apply lookup_insert_ne. by intros <-.
    + apply nodup_plug. split_and!; [|done|].
      * unfold ptrs; simpl. apply NoDup_singleton.
      * intros q Hq. unfold ptrs in Hq; simpl in Hq. by apply list_elem_of_singleton in Hq as ->.
  - intros q Hq Hqp. rewrite lookup_insert_ne by done. by apply Hout1.
Qed.

Lemma wp_insert_vma s t p n va m (Q : unit → rbst vma → Prop) :
  whole s t → regions (vmas (elems t)) → rb t m → tcol t = RB_BLACK →
  (length (elems t) ≤ 300)%nat → heap s !! p = Some n → p ∉ ptrs t →
  (∀ s' t' A B, whole s' t' → elems t = A ++ B → Forall (below va) A → Forall (above va) B →
     elems t' = A ++ (p, data n) :: B → (∃ m, rb t' m) → tcol t' = RB_BLACK →
     (∀ q, q ∉ ptrs t → q ≠ p → heap s' !! q = heap s !! q) → Q tt s') →
  wp (insert_vma (Some p) va) Q s.
Proof.
  intros Hw Hreg Hrb Hc Hlen Hn Hp HQ. unfold insert_vma. apply wp_bind.
  apply (wp_find_link tree_fuel s va [] t); [done|done|done|unfold tree_fuel; lia|done|done|].
  simpl. intros k lnk -> Hl Hbel Habv.
  pose proof (elems_plug k E) as He. simpl in He.
  assert (Hpk : p ∉ cptrs k) by (rewrite elem_ptrs_plug in Hp; tauto).
  eapply wp_hang; [exact Hw|exact Hl|exact Hn|done|]. intros s1 Hw1 Hout1.
  destruct (rb_plug_inv k E m Hrb Hc) as (j & Hj & Hk & _ & _). simpl in Hj. subst j.
  eapply wp_mono; [apply (wp_insert_fixup _ rotate_rotates _ s1 k p (data n) E E 0)|].
  - done.
  - done.
  - done.
  - pose proof (length_ctx k). rewrite He, length_app in Hlen. unfold tree_fuel. lia.
  - simpl. intros [] s2 (t2 & Hw2 & He2 & Hrb2 & Hc2 & Hu2).
    apply (HQ s2 t2 (lctx k) (rctx k)); try done.
    + by rewrite He2, elems_plug.
    + intros q Hq Hqp. rewrite elem_ptrs_plug in Hq. rewrite Hu2; [apply Hout1; tauto|].
      rewrite elem_ptrs_plug, elem_ptrs_T, ptrs_E. set_solver.
Qed.
