(* ===== verification/VmmThm.v ===== *)
(** * The virtual memory manager: what it guarantees

    The manager implements a finite set of disjoint regions: [vmm_abs s l]
    relates a state to the sorted list of its regions, and every operation is
    shown to compute its list-level specification, to return the code the
    source documents, and to keep the page tables in step. *)
From stdpp Require Import base gmap list option numbers sorting.
From S2P Require Import Prelude Spinlock RBHeap RBTree RBInsert RBDelete MmuIface Vmm VmmTree.
#[local] Open Scope Z_scope.
Import Vmm.

(** ** The free list *)

Fixpoint chain (h : gmap Z (node vma)) (p : ptr) (free : list Z) : Prop :=
  match free with
  | [] => p = None
  | x :: free => p = Some x ∧ ∃ n, h !! x = Some n ∧ chain h (left n) free
  end.

Lemma chain_frame h h' p free :
  (∀ q, q ∈ free → h' !! q = h !! q) → chain h p free → chain h' p free.
Proof.
  revert p. induction free as [|x free IH]; intros p Heq; simpl; [done|].
  intros [-> (n & Hn & Hc)]. split; [done|]. exists n. split.
  - rewrite Heq; [done|]. by left.
  - apply IH; [|done]. intros q Hq. apply Heq. by right.
Qed.

(** The node pool: the tree, and the unused nodes on the free list. *)
Record pool_rep (tr : rbst vma) (fl : ptr) (t : tree vma) (free : list Z) : Prop := {
  pr_whole : whole tr t;
  pr_rb : ∃ n, rb t n;
  pr_black : tcol t = RB_BLACK;
  pr_regions : regions (vmas (elems t));
  pr_free : chain (heap tr) fl free;
  pr_pool : ptrs t ++ free ≡ₚ seqZ 0 256;
}.

Lemma pool_length (t : tree vma) free : ptrs t ++ free ≡ₚ seqZ 0 256 → (length (elems t) + length free = 256)%nat.
Proof.
  intros Hp%Permutation_length. rewrite length_app, length_seqZ in Hp.
  unfold ptrs in Hp. rewrite length_fmap in Hp. lia.
Qed.

Lemma pool_nodup (t : tree vma) free :
  ptrs t ++ free ≡ₚ seqZ 0 256 → NoDup free ∧ ∀ q, q ∈ ptrs t → q ∉ free.
Proof.
  intros Hp. pose proof (NoDup_seqZ 0 256) as Hnd. rewrite <-Hp in Hnd.
  apply list.NoDup_app in Hnd as (_ & Hd & Hf). done.
Qed.

Lemma whole_frame s s' (t : tree vma) :
  root s' = root s → (∀ q, q ∈ ptrs t → heap s' !! q = heap s !! q) → whole s t → whole s' t.
Proof.
  intros Hr Hh (Hroot & Hrep & Hnd). split_and!; [congruence| |done]. by eapply rep_frame.
Qed.

(** ** List-level specification

    The regions, as a list sorted by address. *)

Definition aligned (x : Z) : bool := x mod 4096 =? 0.

Fixpoint vinsert (v : vma) (l : list vma) : list vma :=
  match l with
  | [] => [v]
  | w :: l' => if vma_va v <? vma_va w then v :: l else w :: vinsert v l'
  end.

Definition map_spec (va pa size attrs : Z) (l : list vma) : Z * list vma :=
  if size =? 0 then (-1, l)
  else if negb (aligned va && aligned pa && aligned size) then (-2, l)
  else if existsb (meets va size) l then (-3, l)
  else (0, vinsert (Vma va pa size attrs) l).

(** The region starting at [va], if its size is [size]. *)
Definition exact (va size : Z) (v : vma) : bool := (vma_va v =? va) && (vma_size v =? size).

Definition unmap_spec (va size : Z) (l : list vma) : Z * list vma :=
  if size =? 0 then (-1, l)
  else if negb (aligned va && aligned size) then (-2, l)
  else if existsb (exact va size) l then (0, filter (λ v, vma_va v ≠ va) l)
  else (-3, l).

Definition protect_spec (va size attrs : Z) (l : list vma) : Z * list vma :=
  if size =? 0 then (-1, l)
  else if negb (aligned va && aligned size) then (-2, l)
  else if existsb (exact va size) l
  then (0, (λ v, if vma_va v =? va then set_attrs attrs v else v) <$> l)
  else (-3, l).

Definition translate_spec (va : Z) (l : list vma) : Z :=
  match List.find (λ v, (vma_va v <=? va) && (va <? vma_end v)) l with
  | Some v => u64 (vma_pa v + (va - vma_va v))
  | None => va
  end.

Lemma vinsert_split v (A B : list vma) :
  Forall (λ w, vma_va w ≤ vma_va v) A → Forall (λ w, vma_va v < vma_va w) B →
  vinsert v (A ++ B) = A ++ v :: B.
Proof.
  intros HA HB. induction HA as [|w A Hw HA IH]; simpl.
  - destruct HB as [|w B Hw HB]; [done|]. simpl. by destruct (Z.ltb_spec (vma_va v) (vma_va w)); [|lia].
  - destruct (Z.ltb_spec (vma_va v) (vma_va w)); [lia|]. by rewrite IH.
Qed.

Lemma misaligned_spec x : misaligned x = negb (aligned x).
Proof.
  unfold misaligned, aligned, VMM_PAGE_SIZE, ctrue. f_equal.
  change (4096 - 1) with (2 ^ 12 - 1). rewrite land_ones_mod by lia. done.
Qed.

Lemma aligned_spec x : aligned x = true ↔ x mod 4096 = 0.
Proof. unfold aligned. apply Z.eqb_eq. Qed.

Lemma existsb_vmas (f : vma → bool) (els : list (Z * vma)) :
  existsb f (vmas els) = true ↔ ∃ e, e ∈ els ∧ f e.2 = true.
Proof.
  rewrite existsb_exists. split.
  - intros (v & Hv & Hf). apply list_elem_of_In, list_elem_of_fmap in Hv as (e & -> & He). eauto.
  - intros (e & He & Hf). exists e.2. split; [|done]. apply list_elem_of_In, list_elem_of_fmap. eauto.
Qed.

Lemma existsb_vmas_false (f : vma → bool) (els : list (Z * vma)) :
  existsb f (vmas els) = false ↔ ∀ e, e ∈ els → f e.2 = false.
Proof.
  rewrite <-not_true_iff_false, existsb_vmas. split.
  - intros H e He. destruct (f e.2) eqn:Hf; [|done]. exfalso. eauto.
  - intros H (e & He & Hf). by rewrite H in Hf.
Qed.

(** A region that meets the new one. *)
Lemma conflict_spec e (els : list (Z * vma)) va size l :
  e ∈ els → meets va size e.2 = true → l = vmas els → existsb (meets va size) l = true.
Proof. intros He Hm ->. apply existsb_vmas. eauto. Qed.

Lemma no_conflict_spec (A B : list (Z * vma)) va size :
  Forall (λ e, vma_end e.2 ≤ va) A → Forall (λ e, va + size ≤ vma_va e.2) B →
  existsb (meets va size) (vmas (A ++ B)) = false.
Proof.
  rewrite !Forall_forall. intros HA HB. apply existsb_vmas_false. intros e He. unfold meets.
  apply elem_of_app in He as [He|He]; [specialize (HA _ He)|specialize (HB _ He)].
  - by destruct (Z.ltb_spec va (vma_end e.2)); [lia|].
  - destruct (Z.ltb_spec (vma_va e.2) (va + size)); [lia|]. by rewrite andb_false_r.
Qed.

(** ** Regions by their start *)

Lemma regions_inj l v w : regions l → v ∈ l → w ∈ l → vma_va v = vma_va w → v = w.
Proof.
  induction l as [|x l IH]; [by intros _ ?%elem_of_nil|].
  intros (Hx & Hl & Hb)%regions_cons Hv Hw Heq. pose proof (vo_size _ Hx).
  apply elem_of_cons in Hv as [->|Hv], Hw as [->|Hw]; [done| | |by apply IH].
  - specialize (Hb _ Hw). unfold before, vma_end in Hb. lia.
  - specialize (Hb _ Hv). unfold before, vma_end in Hb. lia.
Qed.

Lemma exact_found l v va size :
  regions l → v ∈ l → vma_va v = va → existsb (exact va size) l = (vma_size v =? size).
Proof.
  intros Hreg Hv Hva. apply eq_bool_prop_intro. rewrite !Is_true_true, existsb_exists, Z.eqb_eq.
  unfold exact. setoid_rewrite andb_true_iff. setoid_rewrite Z.eqb_eq. split.
  - intros (w & Hw%list_elem_of_In & Hwa & Hws).
    by rewrite (regions_inj l v w Hreg Hv Hw) by congruence.
  - intros Hs. exists v. by rewrite <-list_elem_of_In.
Qed.

Lemma exact_absent l va size :
  (∀ v, v ∈ l → vma_va v ≠ va) → existsb (exact va size) l = false.
Proof.
  intros Hn. apply not_true_iff_false. rewrite existsb_exists.
  intros (w & Hw%list_elem_of_In & [Hwa _]%andb_prop). apply Z.eqb_eq in Hwa. by apply (Hn w).
Qed.

Lemma regions_others (A B : list vma) v :
  regions (A ++ v :: B) →
  Forall (λ w, vma_va w ≠ vma_va v) A ∧ Forall (λ w, vma_va w ≠ vma_va v) B.
Proof.
  intros (HA & HB & HAB)%regions_app. apply regions_cons in HB as (Hv & HB & HvB).
  rewrite !Forall_forall. split; intros w Hw.
  - pose proof (vo_size _ (regions_ok _ _ HA Hw)). specialize (HAB w v Hw ltac:(by left)).
    unfold before, vma_end in *. lia.
  - pose proof (vo_size _ Hv). specialize (HvB w Hw). unfold before, vma_end in *. lia.
Qed.

Lemma filter_other (A : list vma) va :
  Forall (λ w, vma_va w ≠ va) A → filter (λ w, vma_va w ≠ va) A = A.
Proof.
  induction 1 as [|w A Hw HA IH]; [done|]. rewrite filter_cons_True by done. by rewrite IH.
Qed.

Lemma filter_out (A B : list vma) v :
  regions (A ++ v :: B) → filter (λ w, vma_va w ≠ vma_va v) (A ++ v :: B) = A ++ B.
Proof.
  intros [HA HB]%regions_others. rewrite filter_app, filter_cons_False by naive_solver.
  by rewrite !filter_other.
Qed.

Lemma update_one (A B : list vma) v (f : vma → vma) :
  regions (A ++ v :: B) →
  (λ w, if vma_va w =? vma_va v then f w else w) <$> (A ++ v :: B) = A ++ f v :: B.
Proof.
  intros [HA HB]%regions_others. rewrite fmap_app, fmap_cons, Z.eqb_refl.
  assert (Hid : ∀ C, Forall (λ w, vma_va w ≠ vma_va v) C →
    (λ w, if vma_va w =? vma_va v then f w else w) <$> C = C).
  { induction 1 as [|w C Hw HC IH]; [done|]. rewrite fmap_cons, IH.
    by destruct (Z.eqb_spec (vma_va w) (vma_va v)). }
  by rewrite !Hid.
Qed.

(** ** Updates of the pool *)

Lemma pool_insert tr tr' fl fl' t t' free p A B v :
  pool_rep tr fl t (p :: free) →
  whole tr' t' → (∃ n, rb t' n) → tcol t' = RB_BLACK →
  elems t = A ++ B → elems t' = A ++ (p, v) :: B → vma_ok v →
  Forall (λ e, vma_end e.2 ≤ vma_va v) A → Forall (λ e, vma_end v ≤ vma_va e.2) B →
  chain (heap tr') fl' free →
  pool_rep tr' fl' t' free.
Proof.
  intros [_ _ _ Hreg _ Hpool] Hw Hrb Hc He He' Hok HA HB Hch.
  split; [done|done|done| |done|].
  - rewrite He in Hreg. rewrite He'. unfold vmas in *. rewrite fmap_app, fmap_cons in *. simpl.
    apply regions_app in Hreg as (HrA & HrB & HAB). apply regions_app.
    rewrite Forall_forall in HA, HB. split; [done|]. split.
    + apply regions_cons. split_and!; [done|done|].
      intros w (e & -> & Hin)%list_elem_of_fmap. by apply HB.
    + intros x w Hx [->|Hw']%elem_of_cons; [|by apply HAB].
      apply list_elem_of_fmap in Hx as (e & -> & Hin). by apply HA.
  - unfold ptrs in *. rewrite He' , fmap_app, fmap_cons. rewrite He, fmap_app in Hpool.
    rewrite <-Hpool. simpl. rewrite <-!app_assoc. simpl. f_equiv. by rewrite Permutation_middle.
Qed.

Lemma pool_remove tr tr' fl fl' t t' free p v A B :
  pool_rep tr fl t free → whole tr' t' → (∃ n, rb t' n) → tcol t' = RB_BLACK →
  elems t = A ++ (p, v) :: B → elems t' = A ++ B →
  chain (heap tr') fl' (p :: free) →
  pool_rep tr' fl' t' (p :: free).
Proof.
  intros [_ _ _ Hreg _ Hpool] Hw Hrb Hc He He' Hch. split; [done|done|done| |done|].
  - rewrite He in Hreg. rewrite He'. unfold vmas in *. rewrite fmap_app, ?fmap_cons in *.
    simpl in Hreg. apply regions_app in Hreg as (HrA & HrB & HAB). apply regions_cons in HrB.
    apply regions_app. split_and!; [done|tauto|]. intros x w Hx Hw'. apply HAB; [done|by right].
  - unfold ptrs in *. rewrite He', fmap_app. rewrite He, fmap_app, fmap_cons in Hpool.
    rewrite <-Hpool. simpl. rewrite <-!app_assoc. simpl. f_equiv. by rewrite Permutation_middle.
Qed.

Lemma wp_update_data tr (k : list (frame vma)) p c d d' l r f (Q : unit → rbst vma → Prop) :
  whole tr (plug k (T p c d l r)) →
  (∀ n, data n = d → f n = set_data d' n) →
  (∀ tr', whole tr' (plug k (T p c d' l r)) →
          untouched tr tr' (plug k (T p c d l r)) → Q tt tr') →
  wp (wr f (Some p)) Q tr.
Proof.
  intros Hw Hf HQ. pose proof (whole_focus tr k L p c d l r Hw) as Hp.
  destruct Hw as (Hroot & Hrep & Hnd). eapply wp_wr; [exact Hp|]. rewrite Hf by done.
  pose proof Hnd as Hnd0. rewrite nodup_plug, nodup_T in Hnd0.
  setoid_rewrite elem_ptrs_T in Hnd0. apply rep_plug in Hrep as [(_ & Hl & Hr) Hctx].
  apply HQ; simpl.
  - split_and!; simpl.
    + by rewrite Hroot, !rptr_plug.
    + apply rep_plug. split; [split_and!|].
      * by rewrite lookup_insert_eq.
      * eapply rep_frame; [|exact Hl]. intros q Hq. apply lookup_insert_ne. naive_solver.
      * eapply rep_frame; [|exact Hr]. intros q Hq. apply lookup_insert_ne. naive_solver.
      * eapply rep_ctx_frame; [|exact Hctx]. intros q Hq. apply lookup_insert_ne. naive_solver.
    + revert Hnd. by rewrite !nodup_plug, !nodup_T; repeat setoid_rewrite elem_ptrs_T.
  - intros q Hq. rewrite elem_ptrs_plug, elem_ptrs_T in Hq. simpl.
    apply lookup_insert_ne. naive_solver.
Qed.

Lemma rb_plug_congr {D} (k : list (frame D)) (u u' : tree D) :
  (∀ n, rb u n → rb u' n) → tcol u = tcol u' →
  (∀ n, rb (plug k u) n → rb (plug k u') n) ∧ tcol (plug k u) = tcol (plug k u').
Proof.
  revert u u'. induction k as [|[sd q cq dq b] k IH]; intros u u' Huu Hcu; simpl; [done|].
  apply IH; unfold fill; simpl; [|by rewrite !tcol_mk].
  intros j. destruct cq; [rewrite !rb_mk_red, Hcu; naive_solver|].
  destruct j; [by intros ?%rb_mk_black0|]. rewrite !rb_mk_black. naive_solver.
Qed.

Lemma regions_set_attrs (A B : list vma) v a :
  regions (A ++ v :: B) → regions (A ++ set_attrs a v :: B).
Proof.
  rewrite !regions_app, !regions_cons. intros (HA & (Hv & HB & HvB) & HAB).
  split_and!; [done| |done|done|].
  - destruct Hv. by split.
  - intros x w Hx [->|Hw]%elem_of_cons; [apply (HAB x v Hx); by left|apply HAB; [done|by right]].
Qed.

(** ** Translation *)

Lemma find_skip {A} (f : A → bool) (l1 l2 : list A) :
  Forall (λ x, f x = false) l1 → List.find f (l1 ++ l2) = List.find f l2.
Proof. induction 1 as [|x l1 Hx Hl IH]; simpl; [done|]. by rewrite Hx. Qed.

Lemma find_none {A} (f : A → bool) (l : list A) :
  Forall (λ x, f x = false) l → List.find f l = None.
Proof. intros H. rewrite <-(app_nil_r l), find_skip by done. done. Qed.

(** The region that covers an address, if any, is the last one that starts at
    or below it. *)
Lemma translate_last (A B : list (Z * vma)) va :
  regions (vmas (A ++ B)) → Forall (below va) A → Forall (above va) B →
  List.find (λ v, (vma_va v <=? va) && (va <? vma_end v)) (vmas (A ++ B)) =
  match last A with
  | Some e => if va <? vma_end e.2 then Some e.2 else None
  | None => None
  end.
Proof.
  intros Hreg HA HB. unfold vmas in *. rewrite fmap_app in *.
  assert (HBf : List.find (λ v, (vma_va v <=? va) && (va <? vma_end v)) B.*2 = None).
  { apply find_none, Forall_fmap. eapply Forall_impl; [exact HB|]. intros e He. unfold above in He.
    simpl. by destruct (Z.leb_spec (vma_va e.2) va); [lia|]. }
  destruct (last A) as [e|] eqn:Hl; [|by apply last_None in Hl as ->].
  apply last_Some in Hl as [A0 ->]. rewrite fmap_app in *. simpl in *. rewrite <-app_assoc in *.
  apply Forall_app in HA as [_ [He _]%Forall_cons]. unfold below in He.
  apply regions_app in Hreg as (HrA & Hre & HAe).
  rewrite find_skip.
  - simpl. rewrite HBf. destruct (Z.leb_spec (vma_va e.2) va); [|lia].
    by destruct (va <? vma_end e.2).
  - apply Forall_forall. intros v Hv. specialize (HAe v e.2 Hv ltac:(by left)).
    unfold before in HAe. destruct (Z.ltb_spec va (vma_end v)); [lia|]. by rewrite andb_false_r.
Qed.

Section vmm.
Context {M : Type} `{!MmuOps M, !MmuLaws M}.
Implicit Types (s : vmm M) (m : M) (t : tree vma) (l : list vma).

(** ** Representation *)

Record vmm_rep s t (free : list Z) : Prop := {
  vr_lock : vmm_lock s = 0;
  vr_pool : pool_rep (vma_tree s) (vma_free_list s) t free;
  vr_mmu : mmu_inv (mmu s);
}.

Definition vmm_abs s l : Prop := ∃ t free, vmm_rep s t free ∧ vmas (elems t) = l.

(** ** Page loops *)

Lemma wp_for_pages (I : Z → M → Prop) size body (Q : unit → M → Prop) m :
  0 ≤ size < 2 ^ 64 → size mod 4096 = 0 →
  I 0 m →
  (∀ i m, 0 ≤ i < size / 4096 → I i m → wp (body (i * 4096)) (λ _, I (i + 1)) m) →
  (∀ m, I (size / 4096) m → Q tt m) →
  wp (for_pages (page_fuel size) size 0 body) Q m.
Proof.
  intros Hsz Hal HI Hbody HQ. pose proof (Z.div_mod size 4096 ltac:(lia)) as Hdm.
  unfold page_fuel, VMM_PAGE_SIZE.
  enough (Hgen : ∀ n i m, 0 ≤ i → i + Z.of_nat n = size / 4096 → I i m →
    wp (for_pages (S n) size (i * 4096) body) Q m).
  { apply (Hgen _ 0); [lia| |done]. rewrite Z2Nat.id; [lia|]. apply Z.div_pos; lia. }
  clear m HI. induction n as [|n IH]; intros i m Hi Hn HI; simpl.
  - destruct (Z.ltb_spec (i * 4096) size); [lia|]. apply wp_ret, HQ.
    by replace (size / 4096) with i by lia.
  - destruct (Z.ltb_spec (i * 4096) size); [|lia].
    apply wp_bind. eapply wp_mono; [apply Hbody; [lia|done]|]. simpl. intros [] m' HI'.
    replace (u64 (i * 4096 + VMM_PAGE_SIZE)) with ((i + 1) * 4096).
    + apply IH; [lia|lia|done].
    + unfold u64, VMM_PAGE_SIZE. rewrite wrap_small; lia.
Qed.

(** The page number of the [i]-th page of a region. *)
Definition page_at (va i : Z) : Z := vpn (u64 (va + i * 4096)).

(** No page number of the region is [p]. *)
Definition outside (va size p : Z) : Prop := ∀ i, 0 ≤ i < size / 4096 → p ≠ page_at va i.

Lemma page_at_inj va size i j :
  va mod 4096 = 0 → 0 ≤ va → va + size < 2 ^ 64 → size ≤ 2 ^ 48 →
  0 ≤ i < size / 4096 → 0 ≤ j < size / 4096 → page_at va i = page_at va j → i = j.
Proof.
  intros Hal Hva Hend Hsz Hi Hj. unfold page_at, vpn, u64.
  pose proof (Z.div_mod size 4096 ltac:(lia)) as Hdm.
  pose proof (Z.mod_pos_bound size 4096 ltac:(lia)).
  rewrite !(wrap_small 64) by lia. change (2 ^ 12) with 4096.
  rewrite !Z.div_add by lia. intros Heq.
  pose proof (Z.mod_pos_bound (va / 4096 + i) (2 ^ 36) ltac:(lia)).
  pose proof (Z.div_mod (va / 4096 + i) (2 ^ 36) ltac:(lia)).
  pose proof (Z.div_mod (va / 4096 + j) (2 ^ 36) ltac:(lia)).
  assert ((va / 4096 + i) / 2 ^ 36 = (va / 4096 + j) / 2 ^ 36 ∨
          (va / 4096 + i) / 2 ^ 36 ≠ (va / 4096 + j) / 2 ^ 36) as [?|?] by lia; nia.
Qed.

Lemma pte_attrs_u64 attrs : is_u64 (pte_attrs_of attrs).
Proof.
  unfold is_u64, pte_attrs_of.
  repeat match goal with |- context [if ?b then _ else _] => destruct b end;
    vm_compute; split; congruence.
Qed.

Lemma u64_range x : is_u64 (u64 x).
Proof. unfold is_u64, u64. apply Z.mod_pos_bound. lia. Qed.

(** The manager leaves the registers and the pages outside a region alone, and
    the tables take at most [k] frames for each page. *)
Definition tables_step (k : nat) (va size : Z) (inside : M → Z → Prop) m m' : Prop :=
  mmu_inv m' ∧ mmu_ttbr1 m' = mmu_ttbr1 m ∧
  (mmu_left m' ≤ mmu_left m ≤ mmu_left m' + k * Z.to_nat (size / 4096))%nat ∧
  (∀ p, outside va size p → mmu_walk m' p = mmu_walk m p) ∧
  (mmu_ttbr1 m ≠ 0 → ∀ i, 0 ≤ i < size / 4096 → inside m' i).

(** A loop over the pages of a region, each iteration establishing [P] of its
    page, keeping the other pages, and [P] depending on its own page and on the
    frames that are left, fewer of them with every page. *)
Lemma wp_region_loop k va size m0 body (P : nat → option Z → Z → Prop) (Q : unit → M → Prop) :
  0 ≤ size < 2 ^ 64 → size mod 4096 = 0 → mmu_inv m0 → mmu_ttbr1 m0 ≠ 0 →
  (∀ f f' w i, (f' ≤ f)%nat → P f w i → P f' w i) →
  (∀ i j, 0 ≤ i < j → j < size / 4096 → page_at va i = page_at va j →
     ∀ f w, P f w j → P f w i) →
  (∀ i m, 0 ≤ i < size / 4096 → mmu_inv m → mmu_ttbr1 m = mmu_ttbr1 m0 →
     (mmu_walk m (page_at va i) = mmu_walk m0 (page_at va i) ∨
      ∃ j, 0 ≤ j < i ∧ page_at va j = page_at va i ∧ P (mmu_left m) (mmu_walk m (page_at va i)) j) →
     wp (body (i * 4096)) (λ _ m', mmu_inv m' ∧ mmu_ttbr1 m' = mmu_ttbr1 m ∧
       (∀ p, p ≠ page_at va i → mmu_walk m' p = mmu_walk m p) ∧
       P (mmu_left m') (mmu_walk m' (page_at va i)) i ∧
       (mmu_left m' ≤ mmu_left m ≤ mmu_left m' + k)%nat) m) →
  (∀ m', tables_step k va size (λ m' i, P (mmu_left m') (mmu_walk m' (page_at va i)) i) m0 m' → Q tt m') →
  wp (for_pages (page_fuel size) size 0 body) Q m0.
Proof.
  intros Hsz Hal Hinv Htt Hmono HP Hbody HQ.
  apply (wp_for_pages (λ i m, mmu_inv m ∧ mmu_ttbr1 m = mmu_ttbr1 m0 ∧
    (∀ p, (∀ j, 0 ≤ j < i → p ≠ page_at va j) → mmu_walk m p = mmu_walk m0 p) ∧
    (∀ j, 0 ≤ j < i → P (mmu_left m) (mmu_walk m (page_at va j)) j) ∧
    (mmu_left m ≤ mmu_left m0 ≤ mmu_left m + k * Z.to_nat i)%nat)); [done|done| | |].
  - split_and!; [done|done|done|lia|lia|lia].
  - intros i m Hi (Hinv' & Htt' & Hout & Hin & Hl1 & Hl2).
    eapply wp_mono; [apply Hbody; [done|done|done|]|].
    + destruct (decide (Exists (λ j, page_at va j = page_at va i) (seqZ 0 i))) as [Hex|Hnex].
      * apply Exists_exists in Hex as (j & Hj%elem_of_seqZ & Heq). right. exists j.
        split_and!; [lia|lia|done|]. rewrite <-Heq. apply Hin. lia.
      * left. apply Hout. intros j Hj Heq. apply Hnex, Exists_exists. exists j.
        rewrite elem_of_seqZ. split; [lia|done].
    + simpl. intros [] m' (Hinv2 & Htt2 & Hout2 & Hin2 & Hl3 & Hl4).
      assert (Hk : Z.to_nat (i + 1) = S (Z.to_nat i)) by lia.
      split_and!; [done|congruence| | |lia|rewrite Hk; lia].
      * intros p Hp. rewrite Hout2; [|apply Hp; lia]. apply Hout. intros j Hj. apply Hp. lia.
      * intros j Hj. destruct (decide (j = i)) as [->|Hne]; [done|].
        destruct (decide (page_at va j = page_at va i)) as [Heq|Hneq].
        { rewrite Heq. apply (HP j i); [lia|lia|done|done]. }
        rewrite Hout2 by done. apply (Hmono (mmu_left m)); [done|]. apply Hin. lia.
  - intros m (Hinv' & Htt' & Hout & Hin & Hl1 & Hl2). apply HQ. by split_and!.
Qed.

(** Cache and TLB maintenance after the loop. *)
Lemma tables_step_same k va size inside m m1 m2 :
  (∀ ma mb i, (∀ p, mmu_walk mb p = mmu_walk ma p) → mmu_left mb = mmu_left ma → inside ma i → inside mb i) →
  tables_step k va size inside m m1 →
  mmu_inv m2 ∧ mmu_ttbr1 m2 = mmu_ttbr1 m1 ∧ (∀ p, mmu_walk m2 p = mmu_walk m1 p) ∧ mmu_left m2 = mmu_left m1 →
  tables_step k va size inside m m2.
Proof.
  intros Hext (H1 & H2 & H5 & H3 & H4) (Hi & Ht & Hw & Hl). split_and!; [done|congruence|lia|lia| |].
  - intros p Hp. by rewrite Hw, H3.
  - intros Htt i Hrange. eapply Hext; [exact Hw|exact Hl|auto].
Qed.

Lemma tables_step_off k va size inside m :
  mmu_inv m → mmu_ttbr1 m = 0 → tables_step k va size inside m m.
Proof. intros Hinv Htt. split_and!; (done || lia). Qed.

Lemma ctrue_ne x : ctrue x = bool_decide (x ≠ 0).
Proof.
  unfold ctrue. symmetry. destruct (Z.eqb_spec x 0) as [H|H].
  - apply bool_decide_false. lia.
  - by apply bool_decide_true.
Qed.

Lemma wp_unmap_pages va size m (Q : unit → M → Prop) :
  mmu_inv m → page_region va size →
  (∀ m', tables_step 0 va size (λ m' i, mmu_walk m' (page_at va i) = None) m m' → Q tt m') →
  wp (unmap_pages va size) Q m.
Proof.
  intros Hinv Hpr HQ. pose proof Hpr as (Hva & Hsz & Hend & Hvaal & Hal). unfold unmap_pages. apply wp_bind, wp_gets. rewrite ctrue_ne.
  destruct (bool_decide_reflect (mmu_ttbr1 m ≠ 0)) as [Htt|Htt]; cbn [when].
  - apply wp_bind. apply (wp_region_loop 0 va size m _ (λ _ w _, w = None)); [lia|done|done|done|done|done| |].
    + intros i m1 Hi Hinv1 Htt1 _. apply wp_bind. rewrite <-Htt1.
      eapply wp_mono; [apply mmu_unmap_law; [done|congruence|apply u64_range]|].
      simpl. intros r m2 (H1 & H2 & H3 & H4 & _ & H5). apply wp_ret. split_and!; [done..|lia|lia].
    + intros m1 Hst. eapply wp_mono; [apply tlb_flush_law; [apply Hst|done]|].
      simpl. intros [] m2 H2. apply HQ. eapply tables_step_same; [|exact Hst|exact H2].
      simpl. intros ma mb i Heq _. by rewrite Heq.
  - apply wp_ret, HQ, tables_step_off; [done|lia].
Qed.

(** The two loops that write entries: stated for regions of at most 2^48
    bytes, above which page numbers repeat. *)
Definition protected_at attrs m0 (va size : Z) m' i : Prop :=
  size ≤ 2 ^ 48 → mmu_walk m' (page_at va i) =
    (λ old, leaf_update old (pte_attrs_of attrs)) <$> mmu_walk m0 (page_at va i).
Definition mapped_at (pa attrs : Z) m0 (va size : Z) m' i : Prop :=
  size ≤ 2 ^ 48 →
  mmu_walk m' (page_at va i) = Some (leaf_map (u64 (pa + i * 4096)) (pte_attrs_of attrs)) ∨
  mmu_walk m' (page_at va i) = mmu_walk m0 (page_at va i) ∧ mmu_left m' = 0%nat.

Lemma wp_protect_pages va size attrs m (Q : unit → M → Prop) :
  mmu_inv m → page_region va size →
  (∀ m', tables_step 0 va size (protected_at attrs m va size) m m' → Q tt m') →
  wp (protect_pages va size attrs) Q m.
Proof.
  intros Hinv Hpr HQ. pose proof Hpr as (Hva & Hsz & Hend & Hvaal & Hal). unfold protect_pages. apply wp_bind, wp_gets. rewrite ctrue_ne.
  destruct (bool_decide_reflect (mmu_ttbr1 m ≠ 0)) as [Htt|Htt]; cbn [when].
  - apply wp_bind. apply (wp_region_loop 0 va size m _ (λ _ w i, size ≤ 2 ^ 48 → w =
      (λ old, leaf_update old (pte_attrs_of attrs)) <$> mmu_walk m (page_at va i)));
      [lia|done|done|done|done| | |].
    + intros i j Hij Hj ->. done.
    + intros i m1 Hi Hinv1 Htt1 Hw. apply wp_bind. rewrite <-Htt1.
      eapply wp_mono; [apply mmu_update_law; [done|congruence|apply u64_range|apply pte_attrs_u64]|].
      simpl. intros r m2 (H1 & H2 & H3 & H4 & _ & H5). apply wp_ret. split_and!; [done|done|done| |lia|lia].
      intros Hlim. fold (page_at va i) in H4. destruct Hw as [Hw|(j & Hj & Heq & _)];
        [by rewrite H4, Hw|]. apply (page_at_inj va size) in Heq; lia.
    + intros m1 Hst. eapply wp_mono; [apply tlb_flush_law; [apply Hst|done]|].
      simpl. intros [] m2 H2. apply HQ. eapply tables_step_same; [|exact Hst|exact H2].
      unfold protected_at. intros ma mb i Heq _. by rewrite Heq.
  - apply wp_ret, HQ, tables_step_off; [done|lia].
Qed.

Lemma wp_map_pages va pa size attrs m (Q : unit → M → Prop) :
  mmu_inv m → page_region va size →
  (∀ m', tables_step 3 va size (mapped_at pa attrs m va size) m m' → Q tt m') →
  wp (map_pages va pa size attrs) Q m.
Proof.
  intros Hinv Hpr HQ. pose proof Hpr as (Hva & Hsz & Hend & Hvaal & Hal). unfold map_pages. apply wp_bind, wp_gets. rewrite ctrue_ne.
  destruct (bool_decide_reflect (mmu_ttbr1 m ≠ 0)) as [Htt|Htt]; cbn [when].
  2:{ apply wp_ret, HQ, tables_step_off; [done|lia]. }
  apply wp_bind. apply (wp_region_loop 3 va size m _ (λ f w i, size ≤ 2 ^ 48 →
      w = Some (leaf_map (u64 (pa + i * 4096)) (pte_attrs_of attrs)) ∨
      w = mmu_walk m (page_at va i) ∧ f = 0%nat)); [lia|done|done|done| | | |].
  - intros f f' w i Hf HP Hlim. destruct (HP Hlim) as [?|[? ->]]; [by left|right]. split; [done|lia].
  - intros i j Hij Hj Heq f w HP Hlim. apply (page_at_inj va size) in Heq; lia.
  - intros i m1 Hi Hinv1 Htt1 Hw. apply wp_bind. rewrite <-Htt1.
    eapply wp_mono; [apply mmu_map_law; [done|congruence|apply u64_range|apply u64_range
      |apply pte_attrs_u64]|].
    simpl. intros r m2 (H1 & H2 & H3 & H4 & H5 & H6). apply wp_ret. split_and!; [done|done|done| |done|done].
    intros Hlim. fold (page_at va i) in H4. destruct H4 as [[_ H4]|(_ & H4 & H7)]; [by left|].
    destruct Hw as [Hw|(j & Hj & Heq & _)]; [right; split; [congruence|done]|].
    apply (page_at_inj va size) in Heq; lia.
  - intros m1 Hst.
    assert (Hext : ∀ m2, mmu_inv m2 ∧ mmu_ttbr1 m2 = mmu_ttbr1 m1 ∧
        (∀ p, mmu_walk m2 p = mmu_walk m1 p) ∧ mmu_left m2 = mmu_left m1 → wp (tlb_flush_range va size) Q m2).
    { intros m2 (Hi2 & Ht2 & Hw2 & Hl2). eapply wp_mono; [by apply tlb_flush_law|].
      simpl. intros [] m3 (Hi3 & Ht3 & Hw3 & Hl3). apply HQ.
      eapply tables_step_same; [|exact Hst|].
      - unfold mapped_at. intros ma mb i Heq ->. by rewrite Heq.
      - split_and!; [done|congruence| |congruence]. intros p. by rewrite Hw3. }
    pose proof Hst as (Hi1 & _). apply wp_bind, wp_when; intros _; [|by apply Hext].
    apply wp_bind. eapply wp_mono; [by apply cache_flush_law|].
    simpl. intros [] m2 (Hi2 & Ht2 & Hw2 & Hl2). eapply wp_mono; [by apply icache_invalidate_law|].
    simpl. intros [] m3 (Hi3 & Ht3 & Hw3 & Hl3). apply Hext.
    split_and!; [done|congruence| |congruence]. intros p. by rewrite Hw3.
Qed.

(** ** Locking *)

Definition locked s : vmm M := set_lock 1 (set_daif (Z.lor (vmm_daif s) DAIF_I) s).

Lemma wp_vmm_lock {A} (body : Z → ST (vmm M) A) (Q : A → vmm M → Prop) s :
  vmm_lock s = 0 → wp (body (vmm_daif s)) Q (locked s) →
  wp (flags ← spinlock_lock_irqsave; body flags) Q s.
Proof. intros Hl HQ. apply wp_bind. apply wp_lock_irqsave; [done|]. exact HQ. Qed.

Lemma wp_unlock_ret flags r (Q : Z → vmm M → Prop) s :
  Q r (set_daif flags (set_lock 0 s)) → wp (unlock_ret flags r) Q s.
Proof. intros HQ. apply wp_bind, wp_unlock_irqrestore. by apply wp_ret. Qed.

Lemma unlock_locked s : vmm_lock s = 0 → set_daif (vmm_daif s) (set_lock 0 (locked s)) = s.
Proof. destruct s; simpl. by intros ->. Qed.

(** Leaving early leaves no trace. *)
Lemma wp_unlock_early r (Q : Z → vmm M → Prop) s :
  vmm_lock s = 0 → Q r s → wp (unlock_ret (vmm_daif s) r) Q (locked s).
Proof. intros Hl HQ. apply wp_unlock_ret. by rewrite unlock_locked. Qed.

(** Searching the tree does not change it. *)
Lemma wp_read_tree {A} (m : ST (rbst vma) A) (Q : A → vmm M → Prop) s :
  wp m (λ a tr, tr = vma_tree s ∧ Q a s) (vma_tree s) → wp (on_tree m) Q s.
Proof.
  intros H. apply wp_zoom. eapply wp_mono; [exact H|]. simpl. intros a tr [-> HQ].
  by destruct s.
Qed.

(** ** Allocation and release of nodes *)

Lemma wp_vma_alloc s t p free (Q : ptr → vmm M → Prop) :
  pool_rep (vma_tree s) (vma_free_list s) t (p :: free) →
  (∀ tr fl n, root tr = root (vma_tree s) → heap tr !! p = Some n →
     (∀ q, q ≠ p → heap tr !! q = heap (vma_tree s) !! q) → chain (heap tr) fl free →
     Q (Some p) (set_tree tr (set_free_list fl s))) →
  wp vma_alloc_node Q s.
Proof.
  intros Hrep HQ. destruct (pr_free _ _ _ _ Hrep) as [Hfl (n & Hn & Hc)].
  destruct (pool_nodup _ _ (pr_pool _ _ _ _ Hrep)) as [[Hp _]%list.NoDup_cons _].
  unfold vma_alloc_node, on_tree. apply wp_bind, wp_gets. rewrite Hfl. simpl.
  apply wp_bind, wp_ret. apply wp_bind, wp_gets. rewrite Hfl.
  apply wp_bind, wp_zoom. eapply wp_rd; [exact Hn|]. simpl.
  apply wp_bind, wp_modify. apply wp_bind, wp_zoom.
  apply wp_bind. eapply wp_wr; [exact Hn|].
  apply wp_bind. eapply wp_wr; [by apply lookup_insert_eq|]. simpl.
  eapply wp_wr; [by apply lookup_insert_eq|]. simpl.
  apply wp_bind, wp_zoom. eapply wp_wr; [by apply lookup_insert_eq|]. simpl.
  apply wp_ret. rewrite !insert_insert_eq.
  eapply (HQ {| heap := _; root := _ |} (left n)); simpl; [done|by apply lookup_insert_eq| |].
  - intros q Hq. by apply lookup_insert_ne.
  - eapply chain_frame; [|exact Hc]. intros q Hq. apply lookup_insert_ne. by intros <-.
Qed.

Lemma wp_vma_free s p n free (Q : unit → vmm M → Prop) :
  heap (vma_tree s) !! p = Some n → p ∉ free →
  chain (heap (vma_tree s)) (vma_free_list s) free →
  (∀ tr, root tr = root (vma_tree s) →
     (∀ q, q ≠ p → heap tr !! q = heap (vma_tree s) !! q) → chain (heap tr) (Some p) (p :: free) →
     Q tt (set_tree tr (set_free_list (Some p) s))) →
  wp (vma_free_node (Some p)) Q s.
Proof.
  intros Hn Hp Hc HQ. unfold vma_free_node, on_tree. simpl.
  apply wp_bind, wp_gets. apply wp_bind, wp_zoom. eapply wp_wr; [exact Hn|].
  apply wp_modify. apply HQ; simpl.
  - done.
  - intros q Hq. by apply lookup_insert_ne.
  - split; [done|]. eexists. split; [by apply lookup_insert_eq|]. simpl.
    eapply chain_frame; [|exact Hc]. intros q Hq. apply lookup_insert_ne. by intros <-.
Qed.

(** ** [vmm_map] *)

(** What every operation leaves behind. *)
Definition op_post s s' (spec : Z * list vma) (r : Z) (tables : M → M → Prop) : Prop :=
  r = spec.1 ∧ vmm_abs s' spec.2 ∧ vmm_daif s' = vmm_daif s ∧
  (r ≠ 0 → s' = s) ∧ (r = 0 → tables (mmu s) (mmu s')).

Lemma op_post_error s l r tables :
  vmm_abs s l → r ≠ 0 → op_post s s (r, l) r tables.
Proof. intros Habs Hr. by split_and!. Qed.

Lemma wp_insert_node s t p free va pa size attrs A B n0 tr s' fl' :
  pool_rep (vma_tree s) (vma_free_list s) t (p :: free) →
  root tr = root (vma_tree s) → heap tr !! p = Some n0 →
  (∀ q, q ≠ p → heap tr !! q = heap (vma_tree s) !! q) →
  vma_ok (Vma va pa size attrs) →
  elems t = A ++ B → Forall (below va) A → Forall (above va) B →
  Forall (λ e, vma_end e.2 ≤ va) A → Forall (λ e, va + size ≤ vma_va e.2) B →
  chain (heap tr) fl' free → vma_tree s' = tr →
  wp (on_tree (wr (set_data (Vma va pa size attrs)) (Some p);;
               wr (set_color RB_RED) (Some p);;
               insert_vma (Some p) va))
    (λ _ s'', ∃ tr' t', s'' = set_tree tr' s' ∧ pool_rep tr' fl' t' free ∧
       vmas (elems t') = vinsert (Vma va pa size attrs) (vmas (elems t))) s'.
Proof.
  intros Hrep Hroot Hn Hout Hok He HA HB HA' HB' Hch Htr.
  destruct (pool_nodup _ _ (pr_pool _ _ _ _ Hrep)) as [[Hpf _]%list.NoDup_cons Hdis].
  assert (Hpt : p ∉ ptrs t) by (intros Hp; apply (Hdis p Hp); by left).
  pose proof (pool_length _ _ (pr_pool _ _ _ _ Hrep)) as Hlen. simpl in Hlen.
  destruct (pr_rb _ _ _ _ Hrep) as [m Hm].
  apply wp_zoom. rewrite Htr. apply wp_bind. eapply wp_wr; [exact Hn|].
  apply wp_bind. eapply wp_wr; [by apply lookup_insert_eq|]. simpl. rewrite insert_insert_eq.
  eapply (wp_insert_vma _ t); [| apply Hrep | exact Hm | apply Hrep | lia | by apply lookup_insert_eq | done |].
  { eapply whole_frame; [| |apply Hrep]; [done|]. simpl. intros q Hq.
    rewrite lookup_insert_ne; [|by intros <-]. apply Hout. by intros ->. }
  simpl. intros tr' t' A1 B1 Hw' He1 HA1 HB1 He' Hrb' Hc' Hout'.
  assert (A1 = A ∧ B1 = B) as [-> ->].
  { rewrite He in He1. clear -He1 HA HB HA1 HB1. revert A1 He1 HA1.
    induction A as [|a A IH]; intros [|a1 A1] He1 HA1; simplify_eq/=.
    - done.
    - exfalso. apply Forall_cons in HB as [H1 _]. apply Forall_cons in HA1 as [H2 _].
      unfold above, below in *. lia.
    - exfalso. apply Forall_cons in HA as [H1 _]. apply Forall_cons in HB1 as [H2 _].
      unfold above, below in *. lia.
    - apply Forall_cons in HA as [_ HA]. apply Forall_cons in HA1 as [_ HA1].
      by destruct (IH HA A1) as [-> ->]. }
  exists tr', t'. split; [done|]. split.
  - eapply pool_insert; [exact Hrep|done|done|done|exact He|exact He'|done|done|done|].
    eapply chain_frame; [|exact Hch]. intros q Hq.
    assert (q ≠ p) by (by intros ->). rewrite Hout'; [by rewrite lookup_insert_ne| |done].
    intros Hqt. apply (Hdis q Hqt). by right.
  - rewrite He', He. unfold vmas. rewrite !fmap_app, fmap_cons. simpl. symmetry.
    apply vinsert_split; apply Forall_fmap; [exact HA|exact HB].
Qed.

Lemma wp_vmm_map s l va pa size attrs :
  vmm_abs s l → (length l < 256)%nat → is_u64 va → is_u64 pa → 0 ≤ size → va + size < 2 ^ 64 →
  wp (vmm_map va pa size attrs)
    (λ r s', op_post s s' (map_spec va pa size attrs l) r
       (λ m m', tables_step 3 va size (mapped_at pa attrs m va size) m m')) s.
Proof.
  intros Habs Hlen Hva Hpa Hsz Hend. pose proof Habs as (t & free & Hrep & Hl).
  unfold vmm_map. apply wp_vmm_lock; [apply Hrep|]. unfold map_spec.
  destruct (Z.eqb_spec size 0) as [->|Hnz].
  { apply wp_unlock_early; [apply Hrep|]. by apply op_post_error. }
  rewrite !misaligned_spec. rewrite <-!negb_andb.
  destruct (aligned va && aligned pa && aligned size) eqn:Hal; simpl negb.
  2:{ apply wp_unlock_early; [apply Hrep|]. by apply op_post_error. }
  apply andb_prop in Hal as [[Hal1 Hal2]%andb_prop Hal3]. rewrite !aligned_spec in *.
  pose proof (vr_pool _ _ _ Hrep) as Hpool. pose proof (pr_whole _ _ _ _ Hpool) as (Hroot & Hrept & _).
  pose proof (pr_regions _ _ _ _ Hpool) as Hreg.
  pose proof (pool_length _ _ (pr_pool _ _ _ _ Hpool)) as Hpl.
  assert (Hnone : (length (elems t) < tree_fuel)%nat) by (unfold tree_fuel; lia).
  unfold is_u64 in *.
  apply wp_bind, wp_gets. change (vma_tree (locked s)) with (vma_tree s). rewrite Hroot.
  apply wp_bind, wp_read_tree. eapply wp_find_le; [exact Hrept|done|done|]. intros A B HAB HA HB.
  split; [done|].
  apply wp_bind, wp_read_tree. eapply wp_overlaps; [exact Hrept|done| |lia|lia|lia|].
  { intros e Hlast%last_Some. destruct Hlast as [A0 ->]. rewrite HAB. set_solver. }
  split; [done|].
  destruct (opt_meets va size (last A)) eqn:Hpred.
  { destruct (last A) as [e|] eqn:Hlast; [|done].
    apply last_Some in Hlast as [A0 ->].
    rewrite (conflict_spec e (elems t)); [|rewrite HAB; set_solver|done|done].
    apply wp_unlock_early; [apply Hrep|]. by apply op_post_error. }
  apply wp_bind, wp_read_tree. eapply wp_find_ge; [exact Hrept|done|done|]. intros A' B' HAB' HA' HB'.
  split; [done|].
  apply wp_bind, wp_read_tree. eapply wp_overlaps; [exact Hrept|done| |lia|lia|lia|].
  { intros e Hhd%head_Some. destruct Hhd as [B0 ->]. rewrite HAB'. set_solver. }
  split; [done|].
  destruct (opt_meets va size (head B')) eqn:Hsucc.
  { destruct (head B') as [e|] eqn:Hhd; [|done].
    apply head_Some in Hhd as [B0 ->].
    rewrite (conflict_spec e (elems t)); [|rewrite HAB'; set_solver|done|done].
    apply wp_unlock_early; [apply Hrep|]. by apply op_post_error. }
  destruct (neighbours_suffice (elems t) A B A' B' va size) as [HAe HBe]; try done; [lia|].
  rewrite <-Hl, HAB, (no_conflict_spec A B) by done. rewrite <-HAB.
  assert (Hfree : free ≠ []).
  { intros ->. rewrite <-Hl in Hlen. unfold vmas in Hlen. rewrite length_fmap in Hlen.
    simpl in Hpl. lia. }
  destruct free as [|p free]; [done|].
  apply wp_bind. eapply wp_vma_alloc; [exact Hpool|]. intros tr fl n Hroot1 Hn Hout Hch.
  simpl is_null. cbv iota. apply wp_bind. eapply wp_mono.
  { eapply (wp_insert_node (locked s) t p free va pa size attrs A B);
      [exact Hpool|exact Hroot1|exact Hn|exact Hout| |done|done|done|done|done|exact Hch|done].
    split; unfold is_u64, vma_end; simpl; lia. }
  simpl. intros [] s2 (tr' & t' & -> & Hpool' & Hvm).
  apply wp_bind, wp_zoom. eapply wp_map_pages; [apply Hrep|by split_and!; try lia|].
  intros m' Hm'. apply wp_unlock_ret. split_and!; simpl; [done| |done|done|done].
  exists t', free. split; [|done]. split; [done|done|apply Hm'].
Qed.

(** ** [vmm_unmap] and [vmm_protect] *)

Lemma wp_size_differs tr t p d size (Q : bool → rbst vma → Prop) :
  whole tr t → (p, d) ∈ elems t → Q (negb (vma_size d =? size)) tr →
  wp (size_differs (Some p) size) Q tr.
Proof.
  intros (_ & Hrep & _) Hin HQ. destruct (rep_elem _ _ _ _ _ Hrep Hin) as (n & Hn & <-).
  apply wp_bind. eapply wp_rd; [exact Hn|]. by apply wp_ret.
Qed.

Lemma focus_elems (k : list (frame vma)) p c d (l r : tree vma) :
  elems (plug k (T p c d l r)) = (lctx k ++ elems l) ++ (p, d) :: elems r ++ rctx k.
Proof. by rewrite elems_remove, app_assoc. Qed.

(** The common front of the two: reject, or focus on the region. *)
Lemma wp_exact_region s l va size {tables} (succeed : Z → ptr → ST (vmm M) Z) (post : list vma) :
  vmm_abs s l →
  (∀ k p c d tl tr free, vmm_rep s (plug k (T p c d tl tr)) free →
     vmas (elems (plug k (T p c d tl tr))) = l → vma_va d = va → vma_size d = size →
     wp (succeed (vmm_daif s) (Some p)) (λ r s', op_post s s' (0, post) r tables) (locked s)) →
  wp (flags ← spinlock_lock_irqsave;
      if size =? 0 then unlock_ret flags (-1)
      else if misaligned va || misaligned size then unlock_ret flags (-2)
      else
        rt ← gets (λ s, root (vma_tree s));
        cur ← on_tree (find_exact tree_fuel rt va);
        bad ← on_tree (size_differs cur size);
        if (bad : bool) then unlock_ret flags (-3) else succeed flags cur)
    (λ r s', op_post s s'
       (if size =? 0 then (-1, l)
        else if negb (aligned va && aligned size) then (-2, l)
        else if existsb (exact va size) l then (0, post) else (-3, l)) r tables) s.
Proof.
  intros Habs Hok. pose proof Habs as (t & free & Hrep & Hl).
  apply wp_vmm_lock; [apply Hrep|].
  destruct (Z.eqb_spec size 0) as [->|Hnz].
  { apply wp_unlock_early; [apply Hrep|]. by apply op_post_error. }
  rewrite !misaligned_spec, <-negb_andb.
  destruct (aligned va && aligned size) eqn:Hal; simpl negb.
  2:{ apply wp_unlock_early; [apply Hrep|]. by apply op_post_error. }
  pose proof (vr_pool _ _ _ Hrep) as Hpool. pose proof (pr_whole _ _ _ _ Hpool) as (Hroot & Hrept & _).
  pose proof (pr_regions _ _ _ _ Hpool) as Hreg.
  pose proof (pool_length _ _ (pr_pool _ _ _ _ Hpool)) as Hpl.
  apply wp_bind, wp_gets. change (vma_tree (locked s)) with (vma_tree s). rewrite Hroot.
  apply wp_bind, wp_read_tree.
  eapply wp_find_exact; [exact Hrept|done|unfold tree_fuel; lia| |].
  - intros k p c d tl tr -> Hd. split; [done|]. apply wp_bind, wp_read_tree.
    eapply (wp_size_differs _ _ p d); [apply Hpool|rewrite focus_elems; set_solver|].
    split; [done|]. rewrite Hl in Hreg.
    rewrite (exact_found l d va size) by (try done; rewrite <-Hl; apply list_elem_of_fmap;
      exists (p, d); rewrite focus_elems; set_solver).
    destruct (Z.eqb_spec (vma_size d) size) as [Hs|Hs]; simpl negb; cbv iota.
    + by eapply Hok.
    + apply wp_unlock_early; [apply Hrep|]. by apply op_post_error.
  - intros Hn. split; [done|]. apply wp_bind, wp_read_tree. apply wp_ret. split; [done|].
    rewrite exact_absent by (by rewrite <-Hl).
    apply wp_unlock_early; [apply Hrep|]. by apply op_post_error.
Qed.

Lemma wp_vmm_unmap s l va size :
  vmm_abs s l →
  wp (vmm_unmap va size)
    (λ r s', op_post s s' (unmap_spec va size l) r
       (tables_step 0 va size (λ m' i, mmu_walk m' (page_at va i) = None))) s.
Proof.
  intros Habs. unfold vmm_unmap, unmap_spec.
  apply (wp_exact_region s l va size (λ flags cur, on_mmu (unmap_pages va size);;
      on_tree (rb_delete rotate tree_fuel cur);; vma_free_node cur;; unlock_ret flags 0)); [done|].
  intros k p c d tl tr free Hrep Hl Hd Hs. pose proof (vr_pool _ _ _ Hrep) as Hpool.
  pose proof (pr_regions _ _ _ _ Hpool) as Hreg. rewrite Hl in Hreg.
  pose proof (pool_length _ _ (pr_pool _ _ _ _ Hpool)) as Hpl.
  pose proof (pool_nodup _ _ (pr_pool _ _ _ _ Hpool)) as [_ Hdis].
  assert (Hin : p ∈ ptrs (plug k (T p c d tl tr))).
  { rewrite elem_ptrs_plug, elem_ptrs_T. auto. }
  assert (Hokd : vma_ok d).
  { eapply regions_ok; [exact Hreg|]. rewrite <-Hl. apply list_elem_of_fmap. exists (p, d).
    rewrite focus_elems. set_solver. }
  destruct Hokd as [Ho1 Ho2 Ho3 Ho4 Ho5 Ho6]. unfold vma_end in Ho3.
  apply wp_bind, wp_zoom. eapply wp_unmap_pages; [apply Hrep|split_and!; lia || congruence|].
  intros m' Hm'. apply wp_bind, wp_zoom. simpl vma_tree.
  destruct (pr_rb _ _ _ _ Hpool) as [n Hn].
  eapply (wp_rb_delete _ rotate_rotates _ _ k p c d tl tr n);
    [apply Hpool|exact Hn|apply Hpool|unfold tree_fuel; lia|].
  intros tr' t' Hw' He' Hrb' Hc' Hu' [np Hnp].
  apply wp_bind. eapply (wp_vma_free _ p np free).
  { exact Hnp. }
  { by apply Hdis. }
  { simpl. eapply chain_frame; [|apply Hpool]. intros q Hq. apply Hu'. intros Hqt. by apply (Hdis q). }
  simpl. intros tr2 Hroot2 Hout2 Hch2. apply wp_unlock_ret. split_and!; simpl; [done| |done|done|done].
  exists t', (p :: free). split; [split; simpl; [done| |apply Hm']|].
  - eapply pool_remove; [exact Hpool| |done|done|apply focus_elems| |exact Hch2].
    + eapply whole_frame; [exact Hroot2| |exact Hw']. intros q Hq. apply Hout2. intros ->.
      destruct (pr_whole _ _ _ _ Hpool) as (_ & _ & Hnd). unfold ptrs in Hq, Hnd.
      rewrite focus_elems in Hnd. apply ptrs_remove in Hnd as [_ Hp]. apply Hp.
      by rewrite He', app_assoc in Hq.
    + by rewrite He', app_assoc.
  - rewrite He', <-Hl, <-Hd, app_assoc. rewrite focus_elems in *. unfold vmas in *.
    rewrite (fmap_app snd), fmap_cons in *. simpl. symmetry. rewrite fmap_app. apply filter_out.
    by rewrite Hl.
Qed.

Lemma wp_vmm_protect s l va size attrs :
  vmm_abs s l →
  wp (vmm_protect va size attrs)
    (λ r s', op_post s s' (protect_spec va size attrs l) r
       (λ m m', tables_step 0 va size (protected_at attrs m va size) m m')) s.
Proof.
  intros Habs. unfold vmm_protect, protect_spec.
  apply (wp_exact_region s l va size (λ flags cur,
    on_tree (wr (λ n, set_data (set_attrs attrs (data n)) n) cur);;
    on_mmu (protect_pages va size attrs);; unlock_ret flags 0)); [done|].
  intros k p c d tl tr free Hrep Hl Hd Hs. pose proof (vr_pool _ _ _ Hrep) as Hpool.
  pose proof Hpool as [Hw Hrb Hc Hreg Hch Hp].
  assert (Hokd : vma_ok d).
  { eapply regions_ok; [exact Hreg|]. apply list_elem_of_fmap. exists (p, d).
    rewrite focus_elems. set_solver. }
  destruct Hokd as [Ho1 Ho2 Ho3 Ho4 Ho5 Ho6]. unfold vma_end in Ho3.
  pose proof (pool_nodup _ _ Hp) as [_ Hdis].
  apply wp_bind, wp_zoom. simpl vma_tree.
  eapply (wp_update_data _ k p c d (set_attrs attrs d)); [exact Hw|by intros n <-|].
  intros tr' Hw' Hu'. apply wp_bind, wp_zoom.
  eapply wp_protect_pages; [apply Hrep|split_and!; lia || congruence|].
  intros m' Hm'. apply wp_unlock_ret. split_and!; simpl; [done| |done|done|done].
  assert (Hptrs : ptrs (plug k (T p c (set_attrs attrs d) tl tr)) = ptrs (plug k (T p c d tl tr))).
  { unfold ptrs. by rewrite !focus_elems, !fmap_app, !fmap_cons. }
  pose proof (rb_plug_congr k (T p c d tl tr) (T p c (set_attrs attrs d) tl tr)
    (λ _ H, H) eq_refl) as Hcongr.
  exists (plug k (T p c (set_attrs attrs d) tl tr)), free.
  split; [split; simpl; [done| |apply Hm']|].
  - split; [done| | | | |by rewrite Hptrs].
    + destruct Hrb as [n Hn]. exists n. by apply Hcongr.
    + by rewrite <-(proj2 Hcongr).
    + rewrite focus_elems in *. unfold vmas in *. rewrite (fmap_app snd), fmap_cons in *.
      simpl in *. by apply regions_set_attrs.
    + eapply chain_frame; [|exact Hch]. intros q Hq. apply Hu'. intros Hqt. by apply (Hdis q).
  - rewrite focus_elems in *. unfold vmas in *. rewrite (fmap_app snd), fmap_cons in *. simpl in *.
    rewrite <-Hl, <-Hd. symmetry. by apply update_one.
Qed.

(** ** Queries *)

Lemma wp_vmm_virt_to_phys s l va :
  vmm_abs s l → is_u64 va →
  wp (vmm_virt_to_phys va true)
    (λ r s', r = (0, Some (translate_spec va l)) ∧ s' = s) s.
Proof.
  intros (t & free & Hrep & Hl) Hva. unfold vmm_virt_to_phys. simpl negb. cbv iota.
  apply wp_vmm_lock; [apply Hrep|].
  pose proof (vr_pool _ _ _ Hrep) as Hpool. pose proof (pr_whole _ _ _ _ Hpool) as (Hroot & Hrept & _).
  pose proof (pr_regions _ _ _ _ Hpool) as Hreg.
  pose proof (pool_length _ _ (pr_pool _ _ _ _ Hpool)) as Hpl.
  apply wp_bind, wp_gets. change (vma_tree (locked s)) with (vma_tree s). rewrite Hroot.
  apply wp_bind, wp_read_tree.
  eapply wp_find_le; [exact Hrept|done|unfold tree_fuel; lia|]. intros A B HAB HA HB.
  split; [done|]. unfold translate_spec. rewrite <-Hl, HAB, translate_last by (by rewrite <-?HAB).
  assert (Hend : ∀ o, wp (match (o : option Z) with
      | Some pa => spinlock_unlock_irqrestore (vmm_daif s);; mret (0, Some pa)
      | None => spinlock_unlock_irqrestore (vmm_daif s);; mret (0, Some va)
      end) (λ r s', r = (0, Some (default va o)) ∧ s' = s) (locked s)).
  { intros o. destruct o; simpl; apply wp_bind, wp_unlock_irqrestore, wp_ret;
      (split; [done|]); by apply unlock_locked, Hrep. }
  apply wp_bind. destruct (last A) as [[p d]|] eqn:Hlast; simpl is_null; cbv iota.
  - apply last_Some in Hlast as [A0 ->].
    assert (Hin : (p, d) ∈ elems t) by (rewrite HAB; set_solver).
    destruct (rep_elem _ _ _ _ _ Hrept Hin) as (n & Hn & <-).
    apply wp_bind, wp_read_tree. eapply wp_rd; [exact Hn|]. split; [done|]. apply wp_ret.
    destruct (regions_elem _ _ Hreg Hin) as [Ho1 Ho2 Ho3 _ _ _]. cbn [snd] in *.
    apply Forall_app in HA as [_ [He _]%Forall_cons]. unfold below in He. cbn [snd] in He.
    unfold vma_end, is_u64 in *.
    assert (u64 (vma_va (data n) + vma_size (data n)) = vma_va (data n) + vma_size (data n)) as ->
      by (apply wrap_small; lia).
    assert (u64 (va - vma_va (data n)) = va - vma_va (data n)) as -> by (apply wrap_small; lia).
    destruct (Z.leb_spec (vma_va (data n)) va); [|lia].
    destruct (va <? vma_va (data n) + vma_size (data n)); apply (Hend (Some _)) || apply (Hend None).
  - apply wp_ret. apply (Hend None).
Qed.

(** [inorder_dump] prints the regions in address order. *)
Lemma wp_inorder_dump fuel s par t :
  rep (heap (vma_tree s)) par t → (length (elems t) < fuel)%nat →
  wp (inorder_dump fuel (rptr t))
    (λ _ s', s' = set_console (console s ++ (dump_line <$> vmas (elems t))) s) s.
Proof.
  revert s par t. induction fuel as [|fuel IH]; intros s par t Hrep Hlen; [lia|].
  destruct t as [|p c d l r]; simpl.
  { apply wp_ret. rewrite app_nil_r. by destruct s. }
  destruct Hrep as (Hp & Hl & Hr). simpl in Hlen. rewrite length_app in Hlen. simpl in Hlen.
  apply wp_bind, wp_read_tree. eapply wp_rd; [exact Hp|]. split; [done|]. simpl.
  apply wp_bind. eapply wp_mono; [eapply IH; [exact Hl|lia]|]. simpl. intros ? s1 ->.
  apply wp_bind, wp_read_tree. eapply wp_rd; [exact Hp|]. split; [done|]. simpl.
  apply wp_bind, wp_modify.
  apply wp_bind, wp_read_tree. eapply wp_rd; [exact Hp|]. split; [done|]. simpl.
  eapply wp_mono; [eapply IH; [exact Hr|lia]|]. simpl. intros ? s2 ->.
  unfold set_console; simpl. f_equal. unfold vmas. rewrite !fmap_app. simpl.
  by rewrite <-!app_assoc.
Qed.

Lemma wp_vmm_dump s l :
  vmm_abs s l →
  wp vmm_dump (λ _ s', s' = set_console (console s ++ (dump_line <$> l)) s) s.
Proof.
  intros (t & free & Hrep & Hl). pose proof (vr_pool _ _ _ Hrep) as Hpool.
  pose proof (pr_whole _ _ _ _ Hpool) as (Hroot & Hrept & _).
  pose proof (pool_length _ _ (pr_pool _ _ _ _ Hpool)) as Hpl.
  apply wp_vmm_lock; [apply Hrep|].
  apply wp_bind, wp_gets. change (vma_tree (locked s)) with (vma_tree s). rewrite Hroot.
  apply wp_bind. eapply wp_mono; [eapply wp_inorder_dump; [exact Hrept|unfold tree_fuel; lia]|].
  simpl. intros ? s' ->. apply wp_unlock_irqrestore. rewrite Hl.
  destruct Hrep as [Hlk _ _]. destruct s; simpl in *. by subst.
Qed.

(** ** [vmm_init] *)

Lemma wp_init_vma_pool s (Q : unit → vmm M → Prop) :
  vma_free_list s = None →
  (∀ i, 0 ≤ i < 256 → is_Some (heap (vma_tree s) !! i)) →
  (∀ tr fl, root tr = root (vma_tree s) → chain (heap tr) fl (rev (seqZ 0 256)) →
     Q tt (set_tree tr (set_free_list fl s))) →
  wp init_vma_pool Q s.
Proof.
  intros Hfl Hdom HQ. unfold init_vma_pool.
  apply (wp_for_each (λ i s', ∃ tr fl, s' = set_tree tr (set_free_list fl s) ∧
    root tr = root (vma_tree s) ∧ (∀ j, 0 ≤ j < 256 → is_Some (heap tr !! j)) ∧
    chain (heap tr) fl (rev (seqZ 0 i)))).
  - exists (vma_tree s), None. split_and!; [|done|done|done]. destruct s; simpl in *. by subst.
  - intros j s' Hj (tr & fl & -> & Hroot & Hd & Hc).
    destruct (Hd j) as [n Hn]; [unfold VMA_POOL_CAP in Hj; lia|].
    apply wp_bind, wp_gets. apply wp_bind, wp_zoom. eapply wp_wr; [exact Hn|].
    apply wp_modify. eexists _, _. split; [reflexivity|]. simpl. split_and!; [done| |].
    + intros i Hi. destruct (decide (i = j)) as [->|Hne];
        [rewrite lookup_insert_eq; by eexists|rewrite lookup_insert_ne by done; auto].
    + rewrite seqZ_app, Z.add_0_l, (seqZ_cons j), (seqZ_nil (Z.succ j)), rev_app_distr by lia.
      simpl. split; [done|].
      eexists. split; [by apply lookup_insert_eq|]. simpl.
      eapply chain_frame; [|exact Hc]. intros q Hq. apply lookup_insert_ne. intros <-.
      apply list_elem_of_In, in_rev, list_elem_of_In, elem_of_seqZ in Hq. lia.
  - intros s' (tr & fl & -> & Hroot & _ & Hc). apply HQ; [done|exact Hc].
Qed.

(** The region manager does not look at the page tables here. *)
Lemma wp_vmm_start s :
  vma_free_list s = None → (∀ i, 0 ≤ i < 256 → is_Some (heap (vma_tree s) !! i)) →
  wp vmm_init (λ r s', r = 0 ∧ (∀ m, mmu_inv m → vmm_abs (set_mmu m s') []) ∧
    mmu s' = mmu s ∧ vmm_daif s' = vmm_daif s) s.
Proof.
  intros Hfl Hdom. unfold vmm_init. apply wp_bind, wp_modify.
  apply wp_bind, wp_zoom, wp_modify. apply wp_bind, wp_init_vma_pool; [done|done|].
  intros tr fl Hroot Hc. apply wp_ret. split_and!; [done| |done|done]. intros m Hinv.
  exists E, (rev (seqZ 0 256)). split; [|done]. split; [done| |done].
  split; simpl; [split_and!; [done|done|apply NoDup_nil_2]|by exists O|done|split; constructor|done|].
  symmetry. apply Permutation_rev.
Qed.

Lemma wp_vmm_init s :
  vma_free_list s = None → (∀ i, 0 ≤ i < 256 → is_Some (heap (vma_tree s) !! i)) →
  mmu_inv (mmu s) →
  wp vmm_init (λ r s', r = 0 ∧ vmm_abs s' [] ∧ mmu s' = mmu s ∧ vmm_daif s' = vmm_daif s) s.
Proof.
  intros Hfl Hdom Hinv. eapply wp_mono; [by apply wp_vmm_start|]. intros r s' (Hr & Ha & Hm & Hd).
  split_and!; [done| |done|done]. rewrite <-Hm in Hinv. specialize (Ha _ Hinv). by destruct s'.
Qed.

End vmm.
