(* ===== verification/Mmu.v ===== *)
(** * Page tables (mm/mmu.c) and TLB/cache maintenance (mm/tlb.c): translation

    State: the page allocator the tables come from, physical memory as the
    code sees it through the identity map (one 64-bit word per 8-byte aligned
    address), the two PGD pointers, the system registers the file writes, and
    the maintenance instructions issued so far, in order. *)
From stdpp Require Import base gmap list option numbers.
From S2P Require Import Prelude Spinlock Pmm MmuIface Vmm.
#[local] Open Scope Z_scope.

Module Mmu.

Inductive maint :=
  | TLBI_VMALLE1IS
  | TLBI_VAAE1IS (x : Z)
  | DC_CIVAC (a : Z)
  | IC_IVAU (a : Z)
  | DSB_ISH
  | DSB_ISHST
  | ISB.

Record mmu := {
  pmm_st : Pmm.pmm;
  mem : Z → Z;
  ttbr0_pgd : Z;
  ttbr1_pgd : Z;
  mair_el1 : Z;
  tcr_el1 : Z;
  ttbr0_el1 : Z;
  ttbr1_el1 : Z;
  sctlr_el1 : Z;
  issued : list maint;
}.

Definition set_pmm (v : Pmm.pmm) (s : mmu) : mmu :=
  {| pmm_st := v; mem := mem s; ttbr0_pgd := ttbr0_pgd s; ttbr1_pgd := ttbr1_pgd s;
     mair_el1 := mair_el1 s; tcr_el1 := tcr_el1 s; ttbr0_el1 := ttbr0_el1 s;
     ttbr1_el1 := ttbr1_el1 s; sctlr_el1 := sctlr_el1 s; issued := issued s |}.
Definition set_mem (v : Z → Z) (s : mmu) : mmu :=
  {| pmm_st := pmm_st s; mem := v; ttbr0_pgd := ttbr0_pgd s; ttbr1_pgd := ttbr1_pgd s;
     mair_el1 := mair_el1 s; tcr_el1 := tcr_el1 s; ttbr0_el1 := ttbr0_el1 s;
     ttbr1_el1 := ttbr1_el1 s; sctlr_el1 := sctlr_el1 s; issued := issued s |}.
Definition set_ttbr0_pgd (v : Z) (s : mmu) : mmu :=
  {| pmm_st := pmm_st s; mem := mem s; ttbr0_pgd := v; ttbr1_pgd := ttbr1_pgd s;
     mair_el1 := mair_el1 s; tcr_el1 := tcr_el1 s; ttbr0_el1 := ttbr0_el1 s;
     ttbr1_el1 := ttbr1_el1 s; sctlr_el1 := sctlr_el1 s; issued := issued s |}.
Definition set_ttbr1_pgd (v : Z) (s : mmu) : mmu :=
  {| pmm_st := pmm_st s; mem := mem s; ttbr0_pgd := ttbr0_pgd s; ttbr1_pgd := v;
     mair_el1 := mair_el1 s; tcr_el1 := tcr_el1 s; ttbr0_el1 := ttbr0_el1 s;
     ttbr1_el1 := ttbr1_el1 s; sctlr_el1 := sctlr_el1 s; issued := issued s |}.
Definition set_sysregs (mair tcr t0 t1 : Z) (s : mmu) : mmu :=
  {| pmm_st := pmm_st s; mem := mem s; ttbr0_pgd := ttbr0_pgd s; ttbr1_pgd := ttbr1_pgd s;
     mair_el1 := mair; tcr_el1 := tcr; ttbr0_el1 := t0;
     ttbr1_el1 := t1; sctlr_el1 := sctlr_el1 s; issued := issued s |}.
Definition set_sctlr (v : Z) (s : mmu) : mmu :=
  {| pmm_st := pmm_st s; mem := mem s; ttbr0_pgd := ttbr0_pgd s; ttbr1_pgd := ttbr1_pgd s;
     mair_el1 := mair_el1 s; tcr_el1 := tcr_el1 s; ttbr0_el1 := ttbr0_el1 s;
     ttbr1_el1 := ttbr1_el1 s; sctlr_el1 := v; issued := issued s |}.
Definition set_issued (v : list maint) (s : mmu) : mmu :=
  {| pmm_st := pmm_st s; mem := mem s; ttbr0_pgd := ttbr0_pgd s; ttbr1_pgd := ttbr1_pgd s;
     mair_el1 := mair_el1 s; tcr_el1 := tcr_el1 s; ttbr0_el1 := ttbr0_el1 s;
     ttbr1_el1 := ttbr1_el1 s; sctlr_el1 := sctlr_el1 s; issued := v |}.

Definition on_pmm {A} (m : ST Pmm.pmm A) : ST mmu A := zoom pmm_st set_pmm m.
Definition issue (i : maint) : ST mmu unit := modify (λ s, set_issued (issued s ++ [i]) s).

(** [t[idx]] and [t[idx] = v] on a table of 64-bit entries. *)
Definition entry (m : Z → Z) (t idx : Z) : Z := m (t + 8 * idx).
Definition read_entry (t idx : Z) : ST mmu Z := gets (λ s, entry (mem s) t idx).
Definition upd (m : Z → Z) (a v : Z) : Z → Z := λ x, if x =? a then v else m x.
Definition write_entry (t idx v : Z) : ST mmu unit :=
  modify (λ s, set_mem (upd (mem s) (t + 8 * idx) v) s).

(** [memset(p, 0, MMU_PAGE_SIZE)] *)
Definition clear_page (p : Z) (m : Z → Z) : Z → Z :=
  λ x, if (p <=? x) && (x <? p + MMU_PAGE_SIZE) then 0 else m x.

Definition alloc_table : ST mmu Z :=
  p ← on_pmm Pmm.pmm_alloc_page;
  when (ctrue p) (modify (λ s, set_mem (clear_page p (mem s)) s));;
  mret p.

Definition pgd_index (va : Z) : Z := Z.land (Z.shiftr va 39) 0x1FF.
Definition pud_index (va : Z) : Z := Z.land (Z.shiftr va 30) 0x1FF.
Definition pmd_index (va : Z) : Z := Z.land (Z.shiftr va 21) 0x1FF.
Definition pte_index (va : Z) : Z := Z.land (Z.shiftr va 12) 0x1FF.

Definition valid (e : Z) : bool := ctrue (Z.land e PTE_VALID).
Definition table_of (e : Z) : Z := Z.land e (u64 (Z.lnot 0xFFF)).

(** The step the source writes out once per level: descend through
    [tbl[idx]], allocating the next table if the entry is not valid; [None] is
    the [return -1] on allocation failure. *)
Definition descend_alloc (tbl idx : Z) : ST mmu (option Z) :=
  e ← read_entry tbl idx;
  ok ← (if negb (valid e) then
          p ← alloc_table;
          if p =? 0 then mret false
          else write_entry tbl idx (Z.lor (Z.lor p PTE_TABLE) PTE_VALID);; mret true
        else mret true);
  if (ok : bool) then
    e ← read_entry tbl idx;
    mret (Some (table_of e))
  else mret None.

Definition mmu_map_page (pgd va pa attrs : Z) : ST mmu Z :=
  pud ← descend_alloc pgd (pgd_index va);
  match pud with
  | None => mret (-1)
  | Some pud =>
      pmd ← descend_alloc pud (pud_index va);
      match pmd with
      | None => mret (-1)
      | Some pmd =>
          pte ← descend_alloc pmd (pmd_index va);
          match pte with
          | None => mret (-1)
          | Some pte =>
              write_entry pte (pte_index va) (leaf_map pa attrs);;
              issue DSB_ISHST;;
              mret 0
          end
      end
  end.

(** Descent without allocation: [None] is [return -1]. *)
Definition descend (tbl idx : Z) : ST mmu (option Z) :=
  e ← read_entry tbl idx;
  if negb (valid e) then mret None else mret (Some (table_of e)).

(** The walk shared by [mmu_unmap_page] and [mmu_update_page_attrs]: the
    address of the last-level table and the index, if the entry is valid. *)
Definition find_leaf (pgd va : Z) : ST mmu (option (Z * Z)) :=
  pud ← descend pgd (pgd_index va);
  match pud with
  | None => mret None
  | Some pud =>
      pmd ← descend pud (pud_index va);
      match pmd with
      | None => mret None
      | Some pmd =>
          pte ← descend pmd (pmd_index va);
          match pte with
          | None => mret None
          | Some pte =>
              e ← read_entry pte (pte_index va);
              if negb (valid e) then mret None else mret (Some (pte, pte_index va))
          end
      end
  end.

Definition mmu_unmap_page (pgd va : Z) : ST mmu Z :=
  leaf ← find_leaf pgd va;
  match leaf with
  | None => mret (-1)
  | Some (pte, idx) =>
      write_entry pte idx 0;;
      issue DSB_ISHST;;
      mret 0
  end.

Definition mmu_update_page_attrs (pgd va attrs : Z) : ST mmu Z :=
  leaf ← find_leaf pgd va;
  match leaf with
  | None => mret (-1)
  | Some (pte, idx) =>
      old ← read_entry pte idx;
      write_entry pte idx (leaf_update old attrs);;
      issue DSB_ISHST;;
      mret 0
  end.

(** [for (pa = lo; pa < hi; pa += MMU_PAGE_SIZE)] mapping [off + pa] to [pa];
    [false] when [mmu_map_page] failed and the loop was left. *)
Fixpoint map_loop (fuel : nat) (pgd off pa hi attrs : Z) : ST mmu bool :=
  match fuel with
  | O => undef
  | S fuel =>
      if pa <? hi then
        r ← mmu_map_page pgd (u64 (off + pa)) pa attrs;
        if r <? 0 then mret false
        else map_loop fuel pgd off (u64 (pa + MMU_PAGE_SIZE)) hi attrs
      else mret true
  end.
Definition loop_fuel (lo hi : Z) : nat := S (Z.to_nat ((hi - lo) / MMU_PAGE_SIZE)).
#[global] Arguments loop_fuel : simpl never.

Definition page_down (x : Z) : Z := Z.land x (u64 (Z.lnot MMU_PAGE_MASK)).
Definition page_up (x : Z) : Z := Z.land (u64 (x + MMU_PAGE_MASK)) (u64 (Z.lnot MMU_PAGE_MASK)).

(** The linker symbols [mmu_init] refers to. *)
Record layout := {
  kernel_start : Z;
  kernel_end : Z;
  stack_bottom : Z;
  stack_top : Z;
}.

Definition init_attrs : Z :=
  Z.lor (Z.lor PTE_PAGE PTE_SH_INNER) (PTE_ATTR_IDX MAIR_IDX_NORMAL).

(** The result says whether the function ran to its end. *)
Definition mmu_init (ly : layout) : ST mmu bool :=
  p0 ← alloc_table;
  modify (set_ttbr0_pgd p0);;
  p1 ← alloc_table;
  modify (set_ttbr1_pgd p1);;
  if negb (ctrue p0) || negb (ctrue p1) then mret false
  else
    let kstart := page_down (kernel_start ly) in
    let kend := page_up (kernel_end ly) in
    let stack_start := page_down (stack_bottom ly) in
    let stack_end := page_up (stack_top ly) in
    map_loop (loop_fuel 0 0x80000000) p0 0 0 0x80000000 init_attrs;;
    let virt_base := Vmm.vmm_kernel_base in
    ok ← map_loop (loop_fuel kstart kend) p1 virt_base kstart kend init_attrs;
    if negb ok then mret false
    else map_loop (loop_fuel stack_start stack_end) p1 virt_base stack_start stack_end init_attrs.

Definition mair_value : Z :=
  Z.lor (Z.lor (Z.shiftl 0x00 (8 * MAIR_IDX_DEVICE)) (Z.shiftl 0x44 (8 * MAIR_IDX_NORMAL_NC)))
        (Z.shiftl 0xFF (8 * MAIR_IDX_NORMAL)).
Definition tcr_value : Z :=
  Z.lor (Z.lor (Z.lor (Z.shiftl 16 0) (Z.shiftl 16 16)) (Z.shiftl 0 14)) (Z.shiftl 2 30).

Definition mmu_enable : ST mmu unit :=
  t0 ← gets ttbr0_pgd;
  t1 ← gets ttbr1_pgd;
  modify (set_sysregs mair_value tcr_value t0 t1);;
  issue ISB;;
  sctlr ← gets sctlr_el1;
  modify (set_sctlr (Z.lor sctlr (Z.lor (Z.lor (Z.shiftl 1 0) (Z.shiftl 1 2)) (Z.shiftl 1 12))));;
  issue ISB.

Definition mmu_get_ttbr0 : ST mmu Z := gets ttbr0_el1.

(** ** mm/tlb.c *)

Definition tlb_flush_all : ST mmu unit :=
  issue DSB_ISHST;; issue TLBI_VMALLE1IS;; issue DSB_ISH;; issue ISB.

Definition tlb_flush_page (va : Z) : ST mmu unit :=
  issue DSB_ISHST;; issue (TLBI_VAAE1IS (Z.shiftr va 12));; issue DSB_ISH;; issue ISB.

(** [for (addr = lo; addr < hi; addr += step) op(addr)] *)
Fixpoint range_loop (fuel : nat) (addr hi step : Z) (op : Z → maint) : ST mmu unit :=
  match fuel with
  | O => undef
  | S fuel =>
      if addr <? hi then issue (op addr);; range_loop fuel (u64 (addr + step)) hi step op
      else mret tt
  end.
Definition range_fuel (lo hi step : Z) : nat := S (S (Z.to_nat ((hi - lo) / step))).
#[global] Arguments range_fuel : simpl never.

Definition tlb_flush_range (va size : Z) : ST mmu unit :=
  let hi := u64 (va + size) in
  range_loop (range_fuel va hi MMU_PAGE_SIZE) va hi MMU_PAGE_SIZE
    (λ a, TLBI_VAAE1IS (Z.shiftr a 12));;
  issue DSB_ISH;; issue ISB.

Definition line_down (va : Z) : Z := Z.land va (u64 (Z.lnot (64 - 1))).

Definition cache_flush_range (va size : Z) : ST mmu unit :=
  let start := line_down va in
  let hi := u64 (va + size) in
  range_loop (range_fuel start hi 64) start hi 64 DC_CIVAC;;
  issue DSB_ISH.

Definition icache_invalidate_range (va size : Z) : ST mmu unit :=
  let start := line_down va in
  let hi := u64 (va + size) in
  range_loop (range_fuel start hi 64) start hi 64 IC_IVAU;;
  issue DSB_ISH;; issue ISB.

(** [mmu_map_region]: the loop variable is the offset. *)
Fixpoint region_loop (fuel : nat) (pgd va_base pa size off attrs : Z) : ST mmu bool :=
  match fuel with
  | O => undef
  | S fuel =>
      if off <? size then
        r ← mmu_map_page pgd (u64 (va_base + pa + off)) (u64 (pa + off)) attrs;
        if r <? 0 then mret false
        else region_loop fuel pgd va_base pa size (u64 (off + MMU_PAGE_SIZE)) attrs
      else mret true
  end.

Definition mmu_map_region (pa size attrs : Z) : ST mmu Z :=
  pgd ← gets ttbr1_pgd;
  if negb (ctrue pgd) then mret (-1)
  else
    let pa_aligned := page_down pa in
    let size_aligned := page_up size in
    let va_base := Vmm.vmm_kernel_base in
    ok ← region_loop (loop_fuel 0 size_aligned) pgd va_base pa_aligned size_aligned 0 attrs;
    if negb ok then mret (-1)
    else tlb_flush_range (u64 (va_base + pa_aligned)) size_aligned;; mret 0.

#[global] Instance mmu_ops : MmuOps mmu := {|
  mmu_ttbr1 := ttbr1_el1;
  MmuIface.mmu_map_page := mmu_map_page;
  MmuIface.mmu_unmap_page := mmu_unmap_page;
  MmuIface.mmu_update_page_attrs := mmu_update_page_attrs;
  MmuIface.cache_flush_range := cache_flush_range;
  MmuIface.icache_invalidate_range := icache_invalidate_range;
  MmuIface.tlb_flush_range := tlb_flush_range;
|}.

End Mmu.
