(* ===== verification/MmuThm.v ===== *)
(** * Page tables: what the walks see

    The tables form a forest threaded through pages of the allocator: an owned
    page is a table with [n] levels below it, a valid entry of a table points
    to a table one level down, and no table has two parents.  Under that
    invariant a write to one leaf slot changes the translation of one page of
    one root, and [mm/mmu.c] implements the interface [MmuLaws]. *)
From stdpp Require Import base gmap list option numbers.
From S2P Require Import Prelude Spinlock Bitmap Pmm MmuIface Vmm Mmu.
#[local] Open Scope Z_scope.
Import Mmu.

(** ** Indices and entries *)

(** The index of page number [v] in a table with [n] levels below it. *)
Definition ix (n : nat) (v : Z) : Z := (v / 2 ^ (9 * Z.of_nat n)) mod 512.

Lemma ix_range n v : 0 ≤ ix n v < 512.
Proof. apply Z.mod_pos_bound. lia. Qed.

Lemma index_ix va (n : nat) sh :
  0 ≤ va → (n ≤ 3)%nat → sh = 12 + 9 * Z.of_nat n →
  Z.land (Z.shiftr va sh) 0x1FF = ix n (vpn va).
Proof.
  intros Hva Hn ->. change 0x1FF with (2 ^ 9 - 1). rewrite land_ones_mod by lia.
  unfold ix, vpn. change 512 with (2 ^ 9). apply Z.bits_inj'. intros j Hj.
  rewrite !testbit_u, Z.shiftr_spec by lia. destruct (Z.ltb_spec j 9); [|done]. simpl.
  rewrite Z.div_pow2_bits, testbit_u, Z.div_pow2_bits by lia.
  destruct (Z.ltb_spec (j + 9 * Z.of_nat n) 36); [|lia]. simpl. f_equal. lia.
Qed.

Lemma ix_inj v w :
  0 ≤ v < 2 ^ 36 → 0 ≤ w < 2 ^ 36 → (∀ n, (n ≤ 3)%nat → ix n v = ix n w) → v = w.
Proof.
  intros Hv Hw Heq. apply Z.bits_inj'. intros j Hj.
  destruct (Z.lt_ge_cases j 36) as [Hlt|Hge]; [|by rewrite !(bits_above 36)].
  specialize (Heq (Z.to_nat (j / 9))). unfold ix in Heq.
  pose proof (Z.div_mod j 9 ltac:(lia)). pose proof (Z.mod_pos_bound j 9 ltac:(lia)).
  assert (0 ≤ j / 9 ≤ 3) by (split; [apply Z.div_pos; lia|lia]).
  rewrite Z2Nat.id in Heq by lia. specialize (Heq ltac:(lia)).
  assert (Hb : ∀ x, Z.testbit ((x / 2 ^ (9 * (j / 9))) mod 2 ^ 9) (j mod 9) = Z.testbit x j).
  { intros x. rewrite testbit_u, Z.div_pow2_bits by lia.
    destruct (Z.ltb_spec (j mod 9) 9); [|lia]. simpl. f_equal. lia. }
  rewrite <-(Hb v), <-(Hb w). by change (2 ^ 9) with 512; rewrite Heq.
Qed.

Lemma vpn_range va : 0 ≤ vpn va < 2 ^ 36.
Proof. apply Z.mod_pos_bound. lia. Qed.

Lemma entry_upd m t i v t' i' :
  t mod 4096 = 0 → t' mod 4096 = 0 → 0 ≤ i < 512 → 0 ≤ i' < 512 →
  entry (upd m (t + 8 * i) v) t' i' =
  if bool_decide (t' = t ∧ i' = i) then v else entry m t' i'.
Proof.
  intros Ht Ht' Hi Hi'. unfold entry, upd. case_bool_decide as Hb.
  - destruct Hb as [-> ->]. by rewrite Z.eqb_refl.
  - destruct (Z.eqb_spec (t' + 8 * i') (t + 8 * i)) as [Heq|]; [|done]. exfalso. apply Hb.
    pose proof (Z.div_mod t 4096 ltac:(lia)). pose proof (Z.div_mod t' 4096 ltac:(lia)).
    assert (t / 4096 = t' / 4096) by lia. lia.
Qed.

Lemma entry_clear m p t i :
  p mod 4096 = 0 → t mod 4096 = 0 → 0 ≤ i < 512 →
  entry (clear_page p m) t i = if bool_decide (t = p) then 0 else entry m t i.
Proof.
  intros Hp Ht Hi. unfold entry, clear_page. change MMU_PAGE_SIZE with 4096.
  pose proof (Z.div_mod t 4096 ltac:(lia)). pose proof (Z.div_mod p 4096 ltac:(lia)).
  case_bool_decide as Hb.
  - subst. destruct (Z.leb_spec p (p + 8 * i)); [|lia].
    destruct (Z.ltb_spec (p + 8 * i) (p + 4096)); [done|lia].
  - destruct (Z.leb_spec p (t + 8 * i)); [|done].
    destruct (Z.ltb_spec (t + 8 * i) (p + 4096)); [|done]. exfalso. apply Hb.
    assert (t / 4096 = p / 4096) by lia. lia.
Qed.

Lemma valid_testbit e : valid e = Z.testbit e 0.
Proof.
  unfold valid, PTE_VALID, ctrue. rewrite land_bit1_eqb by lia. by rewrite negb_involutive.
Qed.

Lemma new_entry p :
  0 ≤ p < 2 ^ 64 → p mod 4096 = 0 →
  valid (Z.lor (Z.lor p PTE_TABLE) PTE_VALID) = true ∧
  table_of (Z.lor (Z.lor p PTE_TABLE) PTE_VALID) = p.
Proof.
  intros Hp Hal. split.
  - rewrite valid_testbit, !Z.lor_spec. apply orb_true_r.
  - unfold table_of, u64. change 0xFFF with (2 ^ 12 - 1).
    rewrite land_lnot_ones by (try (apply lor_range; [lia|apply lor_range; [lia|done|by split]|by split]); lia).
    apply Z.bits_inj'. intros j Hj. rewrite Z.mul_pow2_bits by lia.
    assert (Hlow : j < 12 → Z.testbit p j = false).
    { intros Hlt. pose proof (Z.div_mod p 4096 ltac:(lia)) as Hdm. rewrite Hdm, Hal, Z.add_0_r.
      change 4096 with (2 ^ 12). rewrite Z.mul_comm. apply Z.mul_pow2_bits_low. lia. }
    destruct (Z.lt_ge_cases j 12) as [Hlt|Hge].
    + rewrite Z.testbit_neg_r by lia. by rewrite Hlow.
    + rewrite Z.div_pow2_bits by lia. replace (j - 12 + 12) with j by lia. rewrite !Z.lor_spec.
      unfold PTE_TABLE, PTE_VALID. rewrite !testbit_bit1 by lia.
      destruct (Z.eqb_spec j 1), (Z.eqb_spec j 0); try lia. by rewrite !orb_false_r.
Qed.

(** ** Walks *)

(** The leaf slot a walk from table [t] with [n] levels below it reaches. *)
Fixpoint slot (n : nat) (m : Z → Z) (t v : Z) : option (Z * Z) :=
  match n with
  | O => Some (t, ix 0 v)
  | S n' => if valid (entry m t (ix n v)) then slot n' m (table_of (entry m t (ix n v))) v
            else None
  end.

(** The valid leaf entry of a page number. *)
Definition walk_from (n : nat) (m : Z → Z) (t v : Z) : option Z :=
  match slot n m t v with
  | Some (t', i) => if valid (entry m t' i) then Some (entry m t' i) else None
  | None => None
  end.
Definition walk (m : Z → Z) (root v : Z) : option Z := walk_from 3 m root v.

(** ** The invariant *)

Definition pmm_page (s : Pmm.pmm) (a : Z) : Prop :=
  ∃ p, 0 ≤ p < Pmm.pmm_pages_total s ∧ a = Pmm.pmm_mem_base s + p * 4096 ∧
       Pmm.page_alloc s p = true.

(** [own] maps each table page to the number of levels below it. *)
Record tables_ok (s : mmu) (own : gmap Z nat) : Prop := {
  to_pmm : Pmm.pmm_ok (pmm_st s);
  to_own a n : own !! a = Some n → pmm_page (pmm_st s) a;
  to_edge a n i : own !! a = Some (S n) → 0 ≤ i < 512 → valid (entry (mem s) a i) = true →
    own !! table_of (entry (mem s) a i) = Some n;
  to_inj a a' n i i' : own !! a = Some (S n) → own !! a' = Some (S n) →
    0 ≤ i < 512 → 0 ≤ i' < 512 →
    valid (entry (mem s) a i) = true → valid (entry (mem s) a' i') = true →
    table_of (entry (mem s) a i) = table_of (entry (mem s) a' i') → a = a' ∧ i = i';
}.

Lemma pmm_page_al s a : Pmm.pmm_ok s → pmm_page s a → a mod 4096 = 0 ∧ 0 ≤ a < 2 ^ 64.
Proof.
  intros Hok (p & Hp & -> & _). destruct (Pmm.ok_base _ Hok) as (H0 & Hal & Hs).
  pose proof (Pmm.ok_total_size _ Hok). pose proof (Pmm.ok_range _ Hok).
  split; [|lia]. rewrite Z.mod_add by lia. done.
Qed.

Lemma tables_al s own a n : tables_ok s own → own !! a = Some n → a mod 4096 = 0 ∧ 0 ≤ a < 2 ^ 64.
Proof. intros Hok Ha. eapply pmm_page_al; [apply Hok|by eapply to_own]. Qed.

Lemma slot_owned s own n t v t' i :
  tables_ok s own → own !! t = Some n → slot n (mem s) t v = Some (t', i) →
  own !! t' = Some O ∧ i = ix 0 v.
Proof.
  intros Hok. revert t. induction n as [|n IH]; intros t Ht; simpl; [by intros [= -> <-]|].
  destruct (valid _) eqn:Hv; [|done]. apply IH. eapply to_edge; [done|done|apply ix_range|done].
Qed.

(** A leaf slot belongs to one page number of one root. *)
Lemma slot_inj s own n t t' v v' l :
  tables_ok s own → own !! t = Some n → own !! t' = Some n →
  slot n (mem s) t v = Some l → slot n (mem s) t' v' = Some l →
  t = t' ∧ ∀ j, (j ≤ n)%nat → ix j v = ix j v'.
Proof.
  intros Hok. revert t t'. induction n as [|n IH]; intros t t' Ht Ht'; cbn [slot].
  - intros [= <-] [= -> Heq]. split; [done|]. intros j Hj. replace j with O by lia. done.
  - destruct (valid (entry (mem s) t _)) eqn:Hv; [|done].
    destruct (valid (entry (mem s) t' _)) eqn:Hv'; [|done]. intros Hs Hs'.
    pose proof (ix_range (S n) v) as Hr. pose proof (ix_range (S n) v') as Hr'.
    destruct (IH _ _ (to_edge _ _ Hok _ _ _ Ht Hr Hv)
      (to_edge _ _ Hok _ _ _ Ht' Hr' Hv') Hs Hs') as [Heq Hix].
    destruct (to_inj _ _ Hok _ _ _ _ _ Ht Ht' Hr Hr' Hv Hv' Heq) as [-> Hi].
    split; [done|]. intros j Hj. destruct (decide (j = S n)) as [->|]; [done|]. apply Hix. lia.
Qed.

(** ** Writing a leaf slot *)

Lemma slot_leaf_write s own n t v t0 i0 e :
  tables_ok s own → own !! t = Some n → own !! t0 = Some O → 0 ≤ i0 < 512 →
  slot n (upd (mem s) (t0 + 8 * i0) e) t v = slot n (mem s) t v.
Proof.
  intros Hok Ht Ht0 Hi0. revert t Ht. induction n as [|n IH]; intros t Ht; cbn [slot]; [done|].
  assert (He : entry (upd (mem s) (t0 + 8 * i0) e) t (ix (S n) v) = entry (mem s) t (ix (S n) v)).
  { rewrite entry_upd; [|by eapply tables_al|by eapply tables_al|done|apply ix_range].
    rewrite bool_decide_false; [done|]. intros [-> _]. congruence. }
  rewrite He. destruct (valid _) eqn:Hv; [|done]. apply IH.
  eapply to_edge; [done|done|apply ix_range|done].
Qed.

Lemma leaf_write_ok s own t0 i0 e is' :
  tables_ok s own → own !! t0 = Some O → 0 ≤ i0 < 512 →
  tables_ok (set_issued is' (set_mem (upd (mem s) (t0 + 8 * i0) e) s)) own.
Proof.
  intros Hok Ht0 Hi0.
  assert (He : ∀ a n i, own !! a = Some (S n) → 0 ≤ i < 512 →
    entry (upd (mem s) (t0 + 8 * i0) e) a i = entry (mem s) a i).
  { intros a n i Ha Hi. rewrite entry_upd; [|by eapply tables_al|by eapply tables_al|done|done].
    rewrite bool_decide_false; [done|]. intros [-> _]. congruence. }
  destruct Hok as [Hp Ho Hed Hin]. split; simpl; [done|done| |].
  - intros a n i Ha Hi. rewrite (He _ _ _ Ha Hi). by apply Hed.
  - intros a a' n i i' Ha Ha' Hi Hi'. rewrite (He _ _ _ Ha Hi), (He _ _ _ Ha' Hi'). by apply (Hin a a' n).
Qed.

(** The translation after a leaf write: that page of that root, nothing else. *)
Lemma walk_leaf_write s own root v t0 e root' v' :
  tables_ok s own → own !! root = Some 3%nat → own !! root' = Some 3%nat →
  slot 3 (mem s) root v = Some (t0, ix 0 v) →
  0 ≤ v < 2 ^ 36 → 0 ≤ v' < 2 ^ 36 →
  walk (upd (mem s) (t0 + 8 * ix 0 v) e) root' v' =
  if bool_decide (root' = root ∧ v' = v) then (if valid e then Some e else None)
  else walk (mem s) root' v'.
Proof.
  intros Hok Hr Hr' Hs Hv Hv'. pose proof (slot_owned _ _ _ _ _ _ _ Hok Hr Hs) as [Ht0 _].
  pose proof (ix_range 0 v) as Hi. unfold walk, walk_from.
  rewrite (slot_leaf_write s own); [|done|done|done|done].
  case_bool_decide as Hb.
  - destruct Hb as [-> ->]. rewrite Hs.
    rewrite entry_upd; [|by eapply tables_al|by eapply tables_al|done|done].
    by rewrite bool_decide_true.
  - destruct (slot 3 (mem s) root' v') as [[t' i']|] eqn:Hs'; [|done].
    pose proof (slot_owned _ _ _ _ _ _ _ Hok Hr' Hs') as [Ht' ->].
    rewrite entry_upd; [|by eapply tables_al|by eapply tables_al|done|apply ix_range].
    rewrite bool_decide_false; [done|]. intros [-> Hix]. apply Hb.
    rewrite Hix in Hs'. destruct (slot_inj _ _ _ _ _ _ _ _ Hok Hr' Hr Hs' Hs) as [-> Hall].
    split; [done|]. by apply ix_inj.
Qed.

(** ** Linking a new table *)

(** Pages only get taken. *)
Definition pmm_le (s s' : Pmm.pmm) : Prop :=
  Pmm.pmm_mem_base s' = Pmm.pmm_mem_base s ∧ Pmm.pmm_pages_total s' = Pmm.pmm_pages_total s ∧
  ∀ j, 0 ≤ j → Pmm.page_alloc s j = true → Pmm.page_alloc s' j = true.

(** The operations on tables leave the registers alone and take pages. *)
Definition same_regs (s s' : mmu) : Prop :=
  ttbr0_pgd s' = ttbr0_pgd s ∧ ttbr1_pgd s' = ttbr1_pgd s ∧ mair_el1 s' = mair_el1 s ∧
  tcr_el1 s' = tcr_el1 s ∧ ttbr0_el1 s' = ttbr0_el1 s ∧ ttbr1_el1 s' = ttbr1_el1 s ∧
  sctlr_el1 s' = sctlr_el1 s ∧ pmm_le (pmm_st s) (pmm_st s').

Lemma pmm_le_refl s : pmm_le s s.
Proof. by repeat split. Qed.
Lemma pmm_le_trans s1 s2 s3 : pmm_le s1 s2 → pmm_le s2 s3 → pmm_le s1 s3.
Proof. intros (A1 & B1 & C1) (A2 & B2 & C2). split_and!; [congruence|congruence|auto]. Qed.
Lemma pages_set_le s s' lo hi : Pmm.pages_set s s' lo hi true → pmm_le s s'.
Proof.
  intros []. split_and!; [done|done|]. intros j Hj Hb. rewrite ps_bits by done. by destruct (_ && _).
Qed.

Lemma same_regs_refl s : same_regs s s.
Proof. by repeat split. Qed.
Lemma same_regs_trans s1 s2 s3 : same_regs s1 s2 → same_regs s2 s3 → same_regs s1 s3.
Proof.
  intros (?&?&?&?&?&?&?&Hle1) (?&?&?&?&?&?&?&Hle2).
  split_and!; [congruence..|]. by eapply pmm_le_trans.
Qed.
#[local] Hint Resolve same_regs_refl : core.

(** The allocator cannot supply a page (or hands out page 0, which the caller
    takes for a failure). *)
Definition no_page (s : Pmm.pmm) : Prop :=
  Pmm.pmm_mem_base s = 0 ∨ ∀ p, ¬ Pmm.is_run s (Pmm.pmm_pages_total s) 1 p.

Lemma no_page_mono s s' : pmm_le s s' → no_page s → no_page s'.
Proof.
  intros (Hb & Ht & Hbits) [H0|Hno]; [left; congruence|right]. rewrite Ht.
  intros p (H1 & H2 & H3). apply (Hno p). split_and!; [done|done|]. intros j Hj.
  specialize (Hbits j ltac:(lia)). destruct (Pmm.page_alloc s j); [|done].
  rewrite H3 in Hbits by done. by discriminate Hbits.
Qed.

Lemma pmm_page_mono s s' a : pmm_le s s' → pmm_page s a → pmm_page s' a.
Proof.
  intros (Hb & Ht & Hbits) (i & Hi & -> & Hal). exists i. rewrite Hb, Ht.
  split_and!; [lia|lia|done|]. apply Hbits; [lia|done].
Qed.

(** The tables grow by pages that were free. *)
Definition grows (s : mmu) (own own' : gmap Z nat) : Prop :=
  own ⊆ own' ∧ ∀ a, own !! a = None → is_Some (own' !! a) → ¬ pmm_page (pmm_st s) a.

Lemma grows_refl s own : grows s own own.
Proof. split; [done|]. by intros a -> [? ?]. Qed.
Lemma grows_trans s1 s2 own1 own2 own3 :
  same_regs s1 s2 → grows s1 own1 own2 → grows s2 own2 own3 → grows s1 own1 own3.
Proof.
  intros Hreg [H1 H2] [H3 H4]. split; [by etrans|]. intros a Ha Ha3 Hp.
  destruct (own2 !! a) as [n|] eqn:Ha2; [by apply (H2 a Ha)|].
  apply (H4 a Ha2 Ha3). eapply pmm_page_mono; [|exact Hp]. apply Hreg.
Qed.
#[local] Hint Resolve grows_refl : core.

Lemma wp_alloc_table s own :
  tables_ok s own →
  wp alloc_table (λ p s', same_regs s s' ∧ tables_ok s' own ∧
    (p = 0 ∧ mem s' = mem s ∧ no_page (pmm_st s') ∨
     p ≠ 0 ∧ own !! p = None ∧ pmm_page (pmm_st s') p ∧ mem s' = clear_page p (mem s) ∧
     ¬ pmm_page (pmm_st s) p)) s.
Proof.
  intros Hok. pose proof Hok as [Hp Ho Hed Hin].
  unfold alloc_table, on_pmm. apply wp_bind, wp_zoom.
  eapply wp_mono; [apply (Pmm.wp_pmm_alloc_run _ 1 Hp); lia|].
  simpl. intros a p' [Hp' Hpost]. apply wp_bind.
  assert (Hle : pmm_le (pmm_st s) p').
  { destruct Hpost as [(p & _ & _ & _ & Hps & _)|(_ & -> & _)]; [|apply pmm_le_refl].
    by eapply pages_set_le. }
  assert (Hmono : ∀ b, pmm_page (pmm_st s) b → pmm_page p' b) by (intros b; by apply pmm_page_mono).
  assert (Hok' : tables_ok (set_pmm p' s) own).
  { split; simpl; [done| |done|done]. intros b n Hb. by eapply Hmono, Ho. }
  destruct Hpost as [(p & _ & [Hrun _] & Ha & Hps & _)|(-> & -> & [?|Hno])]; [|lia|].
  - assert (Hfr : own !! a = None).
    { destruct (own !! a) as [n|] eqn:Hn; [|done]. exfalso.
      destruct (Ho _ _ Hn) as (p2 & Hp2 & Ha2 & Hb2). destruct Hrun as (H1 & H2 & H3).
      assert (p2 = p) as -> by lia. rewrite H3 in Hb2; [done|lia]. }
    assert (Hfree : ¬ pmm_page (pmm_st s) a).
    { intros (p2 & Hp2 & Ha2 & Hb2). destruct Hrun as (H1 & H2 & H3).
      assert (p2 = p) as -> by lia. rewrite H3 in Hb2; [done|lia]. }
    assert (Hpg : pmm_page p' a).
    { destruct Hps. destruct Hrun as (H1 & H2 & H3). exists p. rewrite ps_base, ps_total.
      split_and!; [lia|lia|done|]. rewrite ps_bits by lia.
      destruct (Z.leb_spec p p), (Z.ltb_spec p (p + 1)); try lia. done. }
    destruct (Z.eq_dec a 0) as [Ha0|Ha0].
    + rewrite Ha0 in *. simpl. apply wp_ret, wp_ret. split_and!; [done|done|]. left.
      split_and!; [done|done|]. left. simpl. destruct Hps. rewrite ps_base.
      destruct (Pmm.ok_base _ Hp). destruct Hrun. lia.
    + unfold ctrue. destruct (Z.eqb_spec a 0) as [?|_]; [done|]. simpl. apply wp_modify, wp_ret.
      split; [done|]. split; [|right; by split_and!].
      assert (He : ∀ b n i, own !! b = Some n → 0 ≤ i < 512 →
        entry (clear_page a (mem s)) b i = entry (mem s) b i).
      { intros b n i Hb Hi. rewrite entry_clear; [|by eapply pmm_page_al|by eapply tables_al|done].
        rewrite bool_decide_false; [done|]. intros ->. congruence. }
      destruct Hok' as [Hp2 Ho2 _ _]. split; simpl; [done|done| |].
      * intros b n i Hb Hi. rewrite (He _ _ _ Hb Hi). by apply Hed.
      * intros b b' n i i' Hb Hb' Hi Hi'. rewrite (He _ _ _ Hb Hi), (He _ _ _ Hb' Hi').
        by apply (Hin b b' n).
  - apply wp_ret, wp_ret. split_and!; [done|done|]. left. split_and!; [done|done|by right].
Qed.

(** The tables below a root see the same translations after a new, empty table
    has been linked into a slot that was not valid. *)
Definition same_walks (s s' : mmu) (own : gmap Z nat) : Prop :=
  (∀ a n v, own !! a = Some n → walk_from n (mem s') a v = walk_from n (mem s) a v) ∧
  (∀ a n i, own !! a = Some (S n) → 0 ≤ i < 512 → valid (entry (mem s) a i) = true →
     entry (mem s') a i = entry (mem s) a i).

Section link.
Context (s : mmu) (own : gmap Z nat) (t : Z) (k : nat) (idx b : Z).
Context (Hok : tables_ok s own) (Ht : own !! t = Some (S k)) (Hidx : 0 ≤ idx < 512)
        (Hinv : valid (entry (mem s) t idx) = false)
        (Hb : own !! b = None) (Hpage : pmm_page (pmm_st s) b)
        (Hzero : ∀ i, 0 ≤ i < 512 → entry (mem s) b i = 0).
Let e := Z.lor (Z.lor b PTE_TABLE) PTE_VALID.
Let m' := upd (mem s) (t + 8 * idx) e.

Lemma link_b_al : b mod 4096 = 0 ∧ 0 ≤ b < 2 ^ 64.
Proof using Hok Hpage. eapply pmm_page_al; [apply Hok|done]. Qed.

Lemma link_entry a n i :
  own !! a = Some n → 0 ≤ i < 512 →
  entry m' a i = if bool_decide (a = t ∧ i = idx) then e else entry (mem s) a i.
Proof using Hok Ht Hidx. intros Ha Hi. apply entry_upd; [by eapply tables_al|by eapply tables_al|done|done]. Qed.

Lemma link_entry_b i : 0 ≤ i < 512 → entry m' b i = 0.
Proof using Hok Ht Hidx Hb Hpage Hzero.
  intros Hi. unfold m'. rewrite entry_upd; [|by eapply tables_al|apply link_b_al|done|done].
  rewrite bool_decide_false; [by apply Hzero|]. intros [-> _]. congruence.
Qed.

Lemma link_walk_b n v : walk_from n m' b v = None.
Proof using Hok Ht Hidx Hb Hpage Hzero.
  unfold walk_from. destruct n as [|n]; cbn [slot]; by rewrite (link_entry_b _ (ix_range _ _)).
Qed.

Lemma link_walk a n v :
  own !! a = Some n → walk_from n m' a v = walk_from n (mem s) a v.
Proof using Hok Ht Hidx Hinv Hb Hpage Hzero.
  revert a. induction n as [|n IH]; intros a Ha.
  - unfold walk_from. cbn [slot]. rewrite (link_entry _ _ _ Ha) by apply ix_range.
    rewrite bool_decide_false; [done|]. intros [-> _]. congruence.
  - unfold walk_from in *. cbn [slot]. rewrite (link_entry _ _ _ Ha) by apply ix_range.
    case_bool_decide as Hd.
    + destruct Hd as [-> Hi]. rewrite Hi, Hinv. assert (n = k) as -> by congruence.
      destruct link_b_al as [Hal Hr]. destruct (new_entry b Hr Hal) as [Hv Hto].
      fold e in Hv, Hto. rewrite Hv, Hto.
      apply (link_walk_b k v).
    + destruct (valid (entry (mem s) a (ix (S n) v))) eqn:Hv; [|done].
      apply IH. eapply to_edge; [done|done|apply ix_range|done].
Qed.

Lemma link_ok : tables_ok (set_mem m' s) (<[b := k]> own).
Proof using Hok Ht Hidx Hinv Hb Hpage Hzero.
  destruct link_b_al as [Hal Hr]. destruct (new_entry b Hr Hal) as [Hve Hto].
  fold e in Hve, Hto. pose proof Hok as [Hp Ho Hed Hin].
  assert (Hval : ∀ a n i, <[b := k]> own !! a = Some (S n) → 0 ≤ i < 512 →
    valid (entry m' a i) = true →
    own !! a = Some (S n) ∧
    (a = t ∧ i = idx ∧ table_of (entry m' a i) = b ∨
     entry m' a i = entry (mem s) a i)).
  { intros a n i Ha Hi Hv. destruct (decide (a = b)) as [->|Hne].
    - rewrite link_entry_b in Hv by done. done.
    - rewrite lookup_insert_ne in Ha by done. split; [done|].
      rewrite (link_entry _ _ _ Ha Hi) in *. case_bool_decide as Hd; [left|by right].
      destruct Hd as [-> ->]. done. }
  split; simpl.
  - done.
  - intros a n. destruct (decide (a = b)) as [->|]; [done|]. rewrite lookup_insert_ne by done. apply Ho.
  - intros a n i Ha Hi Hv. destruct (Hval a n i Ha Hi Hv) as [Ha' [(-> & -> & ->)|He]].
    + rewrite lookup_insert_eq. congruence.
    + rewrite He in *. rewrite lookup_insert_ne; [by apply Hed|].
      intros Heq. pose proof (Hed _ _ _ Ha' Hi Hv). congruence.
  - intros a a' n i i' Ha Ha' Hi Hi' Hv Hv' Heq.
    destruct (Hval a n i Ha Hi Hv) as [Hao [(-> & -> & He)|He]];
    destruct (Hval a' n i' Ha' Hi' Hv') as [Hao' [(-> & -> & He')|He']]; [done| | |].
    + exfalso. rewrite He, He' in *. pose proof (Hed _ _ _ Hao' Hi' Hv'). congruence.
    + exfalso. rewrite He, He' in *. pose proof (Hed _ _ _ Hao Hi Hv). congruence.
    + rewrite He, He' in *. by apply (Hin a a' n).
Qed.

Lemma link_same_walks : same_walks s (set_mem m' s) own.
Proof using Hok Ht Hidx Hinv Hb Hpage Hzero.
  split; simpl; [apply link_walk|]. intros a n i Ha Hi Hv.
  rewrite (link_entry _ _ _ Ha Hi). rewrite bool_decide_false; [done|]. intros [-> ->]. congruence.
Qed.

Lemma link_new : valid (entry m' t idx) = true ∧ table_of (entry m' t idx) = b.
Proof using Hok Ht Hidx Hpage.
  rewrite (link_entry _ _ _ Ht Hidx), bool_decide_true by done.
  apply new_entry; apply link_b_al.
Qed.
End link.

Lemma same_entries_walks s s' own :
  tables_ok s own →
  (∀ a n i, own !! a = Some n → 0 ≤ i < 512 → entry (mem s') a i = entry (mem s) a i) →
  same_walks s s' own.
Proof.
  intros Hok He. split; [|intros a n i Ha Hi _; by eapply He].
  intros a n. revert a. induction n as [|n IH]; intros a v Ha.
  - unfold walk_from. cbn [slot]. by rewrite (He _ _ _ Ha) by apply ix_range.
  - unfold walk_from in *. cbn [slot]. rewrite (He _ _ _ Ha) by apply ix_range.
    destruct (valid _) eqn:Hv; [|done]. apply IH. eapply to_edge; [done|done|apply ix_range|done].
Qed.

Lemma same_walks_trans s1 s2 s3 own own' :
  own ⊆ own' → same_walks s1 s2 own → same_walks s2 s3 own' → same_walks s1 s3 own.
Proof.
  intros Hsub [H1 H2] [H3 H4]. split.
  - intros a n v Ha. rewrite (H3 a n v), (H1 a n v); [done|done|]. by eapply lookup_weaken.
  - intros a n i Ha Hi Hv. rewrite <-(H2 a n i Ha Hi Hv). apply (H4 a n); [by eapply lookup_weaken|done|].
    by rewrite (H2 a n i).
Qed.

Lemma wp_descend_alloc s own t n idx :
  tables_ok s own → own !! t = Some (S n) → 0 ≤ idx < 512 →
  wp (descend_alloc t idx) (λ r s', ∃ own', tables_ok s' own' ∧ grows s own own' ∧
    same_regs s s' ∧ same_walks s s' own ∧
    match r with
    | Some t' => own' !! t' = Some n ∧ valid (entry (mem s') t idx) = true ∧
                 table_of (entry (mem s') t idx) = t'
    | None => no_page (pmm_st s')
    end) s.
Proof.
  intros Hok Ht Hi. unfold descend_alloc. apply wp_bind, wp_gets.
  destruct (valid (entry (mem s) t idx)) eqn:Hv; simpl negb; cbv iota.
  { apply wp_bind, wp_ret, wp_bind, wp_gets, wp_ret. exists own.
    split_and!; [done|done|done|by apply same_entries_walks|by eapply to_edge|done|done]. }
  apply wp_bind, wp_bind. eapply wp_mono; [by apply wp_alloc_table|].
  simpl. intros b s1 (Hregs & Hok1 & [(-> & Hm & Hno)|(Hb0 & Hb & Hpg & Hm & Hfree)]).
  { simpl. apply wp_ret, wp_ret. exists own. split_and!; [done|done|done| |done].
    apply same_entries_walks; [done|]. by rewrite Hm. }
  destruct (Z.eqb_spec b 0) as [?|_]; [done|].
  assert (Hal : b mod 4096 = 0) by (eapply pmm_page_al; [apply Hok1|done]).
  assert (He : ∀ a j i, own !! a = Some j → 0 ≤ i < 512 → entry (mem s1) a i = entry (mem s) a i).
  { intros a j i Ha Hi'. rewrite Hm, entry_clear; [|done|by eapply tables_al|done].
    rewrite bool_decide_false; [done|]. intros ->. congruence. }
  assert (Hinv : valid (entry (mem s1) t idx) = false) by (by rewrite (He _ _ _ Ht Hi)).
  assert (Hz : ∀ i, 0 ≤ i < 512 → entry (mem s1) b i = 0).
  { intros i Hi'. rewrite Hm, entry_clear by done. by rewrite bool_decide_true. }
  apply wp_bind, wp_modify, wp_ret. cbv iota. apply wp_bind, wp_gets, wp_ret.
  exists (<[b := n]> own). split_and!.
  - by apply link_ok.
  - split; [by apply insert_subseteq|]. intros a Ha [m Ha']. rewrite lookup_insert_Some in Ha'.
    destruct Ha' as [[<- _]|[_ Ha']]; [done|congruence].
  - done.
  - eapply same_walks_trans; [reflexivity|by apply same_entries_walks|].
    by eapply (link_same_walks s1 own t n).
  - simpl. destruct (link_new s1 own t n idx b Hok1 Ht Hi Hpg) as [_ ->]. apply lookup_insert_eq.
  - simpl. by apply (link_new s1 own t n idx b).
  - done.
Qed.

(** ** [mmu_map_page] *)

Lemma indices va :
  0 ≤ va →
  pgd_index va = ix 3 (vpn va) ∧ pud_index va = ix 2 (vpn va) ∧
  pmd_index va = ix 1 (vpn va) ∧ pte_index va = ix 0 (vpn va).
Proof.
  intros Hva. split_and!; apply index_ix; lia.
Qed.

Lemma wp_mmu_map_page s own root va pa attrs :
  tables_ok s own → own !! root = Some 3%nat → is_u64 va → valid (leaf_map pa attrs) = true →
  wp (mmu_map_page root va pa attrs) (λ r s', ∃ own', tables_ok s' own' ∧ grows s own own' ∧
    same_regs s s' ∧
    (r = 0 ∧ (∀ root' v, own !! root' = Some 3%nat → 0 ≤ v < 2 ^ 36 →
        walk (mem s') root' v =
        if bool_decide (root' = root ∧ v = vpn va) then Some (leaf_map pa attrs)
        else walk (mem s) root' v) ∨
     r = -1 ∧ no_page (pmm_st s') ∧
     ∀ root' v, own !! root' = Some 3%nat → walk (mem s') root' v = walk (mem s) root' v)) s.
Proof.
  intros Hok Hr Hva Hleaf. unfold mmu_map_page.
  destruct (indices va) as (-> & -> & -> & ->); [apply Hva|].
  assert (Hfail : ∀ s' own', tables_ok s' own' → grows s own own' → same_regs s s' →
    same_walks s s' own → no_page (pmm_st s') →
    wp (mret (-1)) (λ (r : Z) s', ∃ own', tables_ok s' own' ∧ grows s own own' ∧ same_regs s s' ∧
    (r = 0 ∧ (∀ root' v, own !! root' = Some 3%nat → 0 ≤ v < 2 ^ 36 →
        walk (mem s') root' v =
        if bool_decide (root' = root ∧ v = vpn va) then Some (leaf_map pa attrs)
        else walk (mem s) root' v) ∨
     r = -1 ∧ no_page (pmm_st s') ∧
     ∀ root' v, own !! root' = Some 3%nat → walk (mem s') root' v = walk (mem s) root' v)) s').
  { intros s' own' Hok' Hsub Hreg [Hw _] Hno. apply wp_ret. exists own'.
    split_and!; [done|done|done|]. right. split_and!; [done|done|]. intros root' v Hr'. by apply Hw. }
  apply wp_bind. eapply wp_mono; [apply (wp_descend_alloc s own root 2); [done|done|apply ix_range]|].
  simpl. intros [t1|] s1 (own1 & Hok1 & Hgr1 & Hreg1 & Hw1 & H1); [|by eapply Hfail].
  pose proof Hgr1 as [Hsub1 _].
  destruct H1 as (Ht1 & Hv1 & Hto1).
  apply wp_bind. eapply wp_mono; [apply (wp_descend_alloc s1 own1 t1 1); [done|done|apply ix_range]|].
  simpl. intros r2 s2 (own2 & Hok2 & Hgr2 & Hreg2 & Hw2 & H2). pose proof Hgr2 as [Hsub2 _].
  assert (Hgr02 : grows s own own2) by (by eapply grows_trans). pose proof Hgr02 as [Hsub02 _].
  assert (Hreg02 : same_regs s s2) by (by eapply same_regs_trans).
  assert (Hw02 : same_walks s s2 own) by (by apply (same_walks_trans s s1 s2 own own1)).
  destruct r2 as [t2|]; [|by eapply Hfail]. destruct H2 as (Ht2 & Hv2 & Hto2).
  apply wp_bind. eapply wp_mono; [apply (wp_descend_alloc s2 own2 t2 0); [done|done|apply ix_range]|].
  simpl. intros r3 s3 (own3 & Hok3 & Hgr3 & Hreg3 & Hw3 & H3). pose proof Hgr3 as [Hsub3 _].
  assert (Hgr03 : grows s own own3) by (by eapply grows_trans). pose proof Hgr03 as [Hsub03 _].
  assert (Hreg03 : same_regs s s3) by (by eapply same_regs_trans).
  assert (Hw03 : same_walks s s3 own) by (by apply (same_walks_trans s s2 s3 own own2)).
  destruct r3 as [t3|]; [|by eapply Hfail]. destruct H3 as (Ht3 & Hv3 & Hto3).
  assert (Hr3 : own3 !! root = Some 3%nat) by (by eapply lookup_weaken).
  assert (Hslot : slot 3 (mem s3) root (vpn va) = Some (t3, ix 0 (vpn va))).
  { pose proof (ix_range 3 (vpn va)). pose proof (ix_range 2 (vpn va)).
    assert (He1 : entry (mem s3) root (ix 3 (vpn va)) = entry (mem s1) root (ix 3 (vpn va))).
    { eapply (same_walks_trans s1 s2 s3 own1 own2); [done|done|done| |done|done].
      exact (lookup_weaken own own1 _ _ Hr Hsub1). }
    assert (He2 : entry (mem s3) t1 (ix 2 (vpn va)) = entry (mem s2) t1 (ix 2 (vpn va))).
    { eapply Hw3; [|done|done]. exact (lookup_weaken own1 own2 _ _ Ht1 Hsub2). }
    cbn [slot]. by rewrite He1, Hv1, Hto1, He2, Hv2, Hto2, Hv3, Hto3. }
  apply wp_bind, wp_modify. apply wp_bind, wp_modify. apply wp_ret.
  exists own3. split_and!; [|done|done|].
  - apply leaf_write_ok; [done|done|apply ix_range].
  - left. split; [done|]. intros root' v Hr' Hv. simpl.
    rewrite (walk_leaf_write s3 own3 root (vpn va)); [|done|done|by eapply lookup_weaken|done
      |apply vpn_range|done].
    rewrite Hleaf. case_bool_decide; [done|]. by apply Hw03.
Qed.

(** ** [mmu_unmap_page] and [mmu_update_page_attrs] *)

Lemma wp_descend s t idx (Q : option Z → mmu → Prop) :
  Q (if valid (entry (mem s) t idx) then Some (table_of (entry (mem s) t idx)) else None) s →
  wp (descend t idx) Q s.
Proof.
  intros HQ. apply wp_bind, wp_gets. by destruct (valid _); apply wp_ret.
Qed.

(** The shared walk finds the slot of a valid leaf, or fails. *)
Lemma wp_find_leaf s root va (Q : option (Z * Z) → mmu → Prop) :
  is_u64 va →
  (∀ t e, slot 3 (mem s) root (vpn va) = Some (t, ix 0 (vpn va)) →
     walk (mem s) root (vpn va) = Some e → entry (mem s) t (ix 0 (vpn va)) = e →
     Q (Some (t, ix 0 (vpn va))) s) →
  (walk (mem s) root (vpn va) = None → Q None s) →
  wp (find_leaf root va) Q s.
Proof.
  intros Hva HQ1 HQ2. unfold find_leaf. destruct (indices va) as (-> & -> & -> & ->); [apply Hva|].
  unfold walk, walk_from in *. cbn [slot] in *.
  apply wp_bind, wp_descend.
  destruct (valid (entry (mem s) root (ix 3 (vpn va)))); [|by apply wp_ret, HQ2].
  set (t1 := table_of (entry (mem s) root (ix 3 (vpn va)))) in *. apply wp_bind, wp_descend.
  destruct (valid (entry (mem s) t1 (ix 2 (vpn va)))); [|by apply wp_ret, HQ2].
  set (t2 := table_of (entry (mem s) t1 (ix 2 (vpn va)))) in *. apply wp_bind, wp_descend.
  destruct (valid (entry (mem s) t2 (ix 1 (vpn va)))); [|by apply wp_ret, HQ2].
  set (t3 := table_of (entry (mem s) t2 (ix 1 (vpn va)))) in *. apply wp_bind, wp_gets.
  destruct (valid (entry (mem s) t3 (ix 0 (vpn va)))); [|by apply wp_ret, HQ2].
  by apply wp_ret, (HQ1 _ _ eq_refl eq_refl).
Qed.

(** Overwriting a valid leaf. *)
Lemma leaf_overwrite s own root va t e is' :
  tables_ok s own → own !! root = Some 3%nat → is_u64 va →
  slot 3 (mem s) root (vpn va) = Some (t, ix 0 (vpn va)) →
  let s' := set_issued is' (set_mem (upd (mem s) (t + 8 * ix 0 (vpn va)) e) s) in
  tables_ok s' own ∧
  ∀ root' v, own !! root' = Some 3%nat → 0 ≤ v < 2 ^ 36 →
    walk (mem s') root' v =
    if bool_decide (root' = root ∧ v = vpn va) then (if valid e then Some e else None)
    else walk (mem s) root' v.
Proof.
  intros Hok Hr Hva Hslot s'. split.
  - apply leaf_write_ok; [done| |apply ix_range]. by eapply slot_owned.
  - intros root' v Hr' Hv. apply (walk_leaf_write s own); [done|done|done|done|apply vpn_range|done].
Qed.

Lemma wp_mmu_unmap_page s own root va :
  tables_ok s own → own !! root = Some 3%nat → is_u64 va →
  wp (mmu_unmap_page root va) (λ r s', tables_ok s' own ∧ same_regs s s' ∧
    (r = 0 ∧ is_Some (walk (mem s) root (vpn va)) ∨ r = -1 ∧ walk (mem s) root (vpn va) = None) ∧
    ∀ root' v, own !! root' = Some 3%nat → 0 ≤ v < 2 ^ 36 →
      walk (mem s') root' v =
      if bool_decide (root' = root ∧ v = vpn va) then None else walk (mem s) root' v) s.
Proof.
  intros Hok Hr Hva. unfold mmu_unmap_page. apply wp_bind. apply wp_find_leaf; [done| |].
  - intros t e Hs Hw _. apply wp_bind, wp_modify. apply wp_bind, wp_modify. apply wp_ret.
    destruct (leaf_overwrite s own root va t 0 (issued s ++ [DSB_ISHST]) Hok Hr Hva Hs) as [Hok' Hw'].
    split_and!; [done|done|left; split; [done|by eexists]|]. intros root' v Hr' Hv. by apply Hw'.
  - intros Hn. apply wp_ret. split_and!; [done|done|by right|]. intros root' v Hr' Hv.
    by case_bool_decide as Hb; [destruct Hb as [-> ->]|].
Qed.

Lemma leaf_update_valid old attrs : valid (leaf_update old attrs) = true.
Proof. rewrite valid_testbit. unfold leaf_update. rewrite Z.lor_spec. apply orb_true_r. Qed.
Lemma leaf_map_valid pa attrs : valid (leaf_map pa attrs) = true.
Proof. rewrite valid_testbit. unfold leaf_map. rewrite Z.lor_spec. apply orb_true_r. Qed.

Lemma wp_mmu_update_page_attrs s own root va attrs :
  tables_ok s own → own !! root = Some 3%nat → is_u64 va →
  wp (mmu_update_page_attrs root va attrs) (λ r s', tables_ok s' own ∧ same_regs s s' ∧
    r = match walk (mem s) root (vpn va) with Some _ => 0 | None => -1 end ∧
    ∀ root' v, own !! root' = Some 3%nat → 0 ≤ v < 2 ^ 36 →
      walk (mem s') root' v =
      if bool_decide (root' = root ∧ v = vpn va)
      then (λ old, leaf_update old attrs) <$> walk (mem s) root (vpn va)
      else walk (mem s) root' v) s.
Proof.
  intros Hok Hr Hva. unfold mmu_update_page_attrs. apply wp_bind. apply wp_find_leaf; [done| |].
  - intros t e Hs Hw He. apply wp_bind, wp_gets. rewrite He.
    apply wp_bind, wp_modify. apply wp_bind, wp_modify. apply wp_ret.
    destruct (leaf_overwrite s own root va t (leaf_update e attrs) (issued s ++ [DSB_ISHST])
      Hok Hr Hva Hs) as [Hok' Hw'].
    rewrite Hw. split_and!; [done|done|done|]. intros root' v Hr' Hv.
    rewrite leaf_update_valid in Hw'. by apply Hw'.
  - intros Hn. apply wp_ret. rewrite Hn. split_and!; [done|done|done|]. intros root' v Hr' Hv.
    by case_bool_decide as Hb; [destruct Hb as [-> ->]|].
Qed.

(** ** Maintenance loops *)

(** The addresses a loop from [lo] to [hi] in steps of [step] visits. *)
Definition visited (lo hi step : Z) : list Z :=
  (λ i, lo + i * step) <$> seqZ 0 ((hi - lo + step - 1) / step).

Lemma visited_nil lo hi step : 0 < step → hi ≤ lo → visited lo hi step = [].
Proof.
  intros Hs Hle. unfold visited. rewrite seqZ_nil; [done|].
  apply Z.lt_succ_r, Z.div_lt_upper_bound; lia.
Qed.

Lemma visited_cons lo hi step :
  0 < step → lo < hi → visited lo hi step = lo :: visited (lo + step) hi step.
Proof.
  intros Hs Hlt. unfold visited.
  assert (Hc : (hi - lo + step - 1) / step = 1 + (hi - (lo + step) + step - 1) / step).
  { replace (hi - lo + step - 1) with (1 * step + (hi - (lo + step) + step - 1)) by lia.
    by rewrite Z.div_add_l by lia. }
  assert (0 ≤ (hi - (lo + step) + step - 1) / step) by (apply Z.div_pos; lia).
  rewrite Hc, seqZ_app, (seqZ_cons 0), (seqZ_nil (Z.succ 0)) by lia. simpl. f_equal; [lia|].
  rewrite <-(fmap_add_seqZ 1 0), <-list_fmap_compose. apply list_fmap_ext. intros i x _. simpl. lia.
Qed.

Lemma wp_range_loop fuel s lo hi step op (Q : unit → mmu → Prop) :
  0 ≤ lo → 0 < step → hi + step ≤ 2 ^ 64 → lo ≤ hi + step → (hi - lo) / step + 1 < Z.of_nat fuel →
  (0 < fuel)%nat →
  Q tt (set_issued (issued s ++ (op <$> visited lo hi step)) s) →
  wp (range_loop fuel lo hi step op) Q s.
Proof.
  intros Hlo Hst Hhi Hle Hf Hpos HQ. revert s lo Hlo Hle Hf HQ.
  induction fuel as [|fuel IH]; intros s lo Hlo Hle Hf HQ; [lia|]. simpl.
  destruct (Z.ltb_spec lo hi) as [Hlt|Hge].
  - apply wp_bind, wp_modify. assert (Hu : u64 (lo + step) = lo + step) by (apply wrap_small; lia).
    rewrite Hu.
    assert (Hdiv : (hi - (lo + step)) / step = (hi - lo) / step - 1).
    { replace (hi - lo) with (1 * step + (hi - (lo + step))) by lia. rewrite Z.div_add_l by lia. lia. }
    assert (0 ≤ (hi - lo) / step) by (apply Z.div_pos; lia).
    apply IH; [lia|lia|lia|lia|].
    rewrite visited_cons in HQ by lia. revert HQ. simpl. by rewrite <-app_assoc.
  - apply wp_ret. rewrite visited_nil in HQ by lia. revert HQ. simpl. rewrite app_nil_r.
    by destruct s.
Qed.

Lemma range_fuel_enough lo hi step :
  0 < step → (hi - lo) / step + 1 < Z.of_nat (range_fuel lo hi step) ∧ (0 < range_fuel lo hi step)%nat.
Proof. intros Hs. unfold range_fuel. lia. Qed.

Lemma region_end va size :
  page_region va size → u64 (va + size) = va + size ∧ va + size + 4096 ≤ 2 ^ 64.
Proof.
  intros (H1 & H2 & H3 & H4 & H5). split; [apply wrap_small; lia|].
  pose proof (Z.div_mod va 4096 ltac:(lia)). pose proof (Z.div_mod size 4096 ltac:(lia)). lia.
Qed.

(** One TLB invalidation per page, in order, then the barriers. *)
Lemma wp_tlb_flush_range s va size (Q : unit → mmu → Prop) :
  page_region va size →
  Q tt (set_issued (issued s ++ ((λ a, TLBI_VAAE1IS (Z.shiftr a 12)) <$> visited va (va + size) 4096)
        ++ [DSB_ISH; ISB]) s) →
  wp (tlb_flush_range va size) Q s.
Proof.
  intros Hreg HQ. pose proof (region_end _ _ Hreg) as [He Hl]. pose proof Hreg as (Hva & Hsz & _).
  unfold tlb_flush_range. rewrite He. change MMU_PAGE_SIZE with 4096.
  pose proof (range_fuel_enough va (va + size) 4096 ltac:(lia)) as [Hf1 Hf2].
  apply wp_bind, wp_range_loop; [lia|lia|lia|lia|done|done|].
  apply wp_bind, wp_modify, wp_modify. revert HQ. simpl. by rewrite <-!app_assoc.
Qed.

Lemma line_down_al va : page_region va 0 → line_down va = va.
Proof.
  intros (H1 & _ & H2 & Hal & _). unfold line_down, u64. change (64 - 1) with (2 ^ 6 - 1).
  rewrite land_lnot_ones by lia. change (2 ^ 6) with 64.
  pose proof (Z.div_mod va 4096 ltac:(lia)).
  pose proof (Z.div_mod va 64 ltac:(lia)). pose proof (Z.mod_pos_bound va 64 ltac:(lia)). lia.
Qed.

Lemma wp_line_loop s va size op (Q : unit → mmu → Prop) :
  page_region va size →
  Q tt (set_issued (issued s ++ (op <$> visited va (va + size) 64)) s) →
  wp (range_loop (range_fuel (line_down va) (u64 (va + size)) 64) (line_down va)
        (u64 (va + size)) 64 op) Q s.
Proof.
  intros Hreg HQ. pose proof (region_end _ _ Hreg) as [He Hl]. pose proof Hreg as (Hva & Hsz & H3 & H4 & _).
  rewrite He, line_down_al by (split_and!; lia || done).
  pose proof (range_fuel_enough va (va + size) 64 ltac:(lia)) as [Hf1 Hf2].
  apply wp_range_loop; [lia|lia|lia|lia|done|done|done].
Qed.

(** ** The interface *)

Definition inv (s : mmu) : Prop :=
  ∃ own, tables_ok s own ∧ (ttbr1_el1 s ≠ 0 → own !! ttbr1_el1 s = Some 3%nat).

(** Page numbers have 36 bits; other arguments translate to nothing. *)
Definition walk1 (s : mmu) (v : Z) : option Z :=
  if bool_decide (0 ≤ v < 2 ^ 36) then walk (mem s) (ttbr1_el1 s) v else None.

Lemma inv_issued s is' : inv s → inv (set_issued is' s).
Proof. intros (own & [H1 H2 H3 H4] & Hr). by exists own. Qed.

Lemma walk1_vpn s va : walk1 s (vpn va) = walk (mem s) (ttbr1_el1 s) (vpn va).
Proof. unfold walk1. rewrite bool_decide_true; [done|apply vpn_range]. Qed.

Lemma walk1_other s s' va w :
  ttbr1_el1 s' = ttbr1_el1 s →
  (∀ v, 0 ≤ v < 2 ^ 36 → walk (mem s') (ttbr1_el1 s) v =
     if bool_decide (ttbr1_el1 s = ttbr1_el1 s ∧ v = vpn va) then w
     else walk (mem s) (ttbr1_el1 s) v) →
  (∀ p, p ≠ vpn va → walk1 s' p = walk1 s p) ∧ walk1 s' (vpn va) = w.
Proof.
  intros Ht Hw. split.
  - intros p Hp. unfold walk1. rewrite Ht. case_bool_decide; [|done]. rewrite Hw by done.
    rewrite bool_decide_false; naive_solver.
  - rewrite walk1_vpn, Ht, Hw by apply vpn_range. by rewrite bool_decide_true.
Qed.

(** ** The frames that tables take *)

(** Free frames; the allocator of a memory that starts at 0 has no usable frame,
    since it hands out page 0 first, which its callers take for a failure. *)
Definition frames_of (p : Pmm.pmm) : nat :=
  if Pmm.pmm_mem_base p =? 0 then 0%nat else Z.to_nat (Pmm.pmm_pages_free p).
Definition left_of (s : mmu) : nat := frames_of (pmm_st s).

Lemma no_page_frames p : Pmm.pmm_ok p → no_page p → frames_of p = 0%nat.
Proof.
  intros [_ _ _ _ Ht _ Hf] Hno. unfold frames_of. destruct (Z.eqb_spec (Pmm.pmm_mem_base p) 0) as [|Hb]; [done|].
  destruct Hno as [?|Hno]; [done|]. rewrite Hf. unfold Pmm.free_pages. rewrite countb_none; [done|].
  intros j Hj. apply negb_false_iff, not_false_iff_true. intros Ha. apply (Hno j). split_and!; [lia|lia|].
  intros k Hk. by assert (k = j) as -> by lia.
Qed.

Lemma alloc_post_frames p a p' :
  Pmm.pmm_ok p → Pmm.alloc_post p 1 a p' →
  (a = 0 ∧ frames_of p = 0%nat ∧ frames_of p' = 0%nat) ∨ (a ≠ 0 ∧ frames_of p' = Nat.pred (frames_of p)).
Proof.
  intros Hok [(i & _ & [[Hi _] _] & -> & Hps & Hf)|(-> & -> & [?|Hno])]; [|lia|].
  - pose proof Hok as [_ _ (Hb & _) _ _ _ _]. unfold frames_of. rewrite (Pmm.ps_base _ _ _ _ _ Hps), Hf.
    destruct (Z.eqb_spec (Pmm.pmm_mem_base p) 0) as [->|Hb0]; [|right; lia].
    destruct (Z.eq_dec i 0) as [->|?]; [left|right]; split_and!; try done. lia.
  - left. assert (frames_of p = 0%nat) by (apply no_page_frames; [done|by right]). done.
Qed.

(** A computation that takes at most [k] frames and gives none back. *)
Definition spends {A} (k : nat) (m : ST mmu A) : Prop := ∀ s a s',
  Pmm.pmm_ok (pmm_st s) → m s = Some (a, s') →
  Pmm.pmm_ok (pmm_st s') ∧ (left_of s' ≤ left_of s ≤ left_of s' + k)%nat.

Lemma spends_bind {A B} k1 k2 k (m : ST mmu A) (f : A → ST mmu B) :
  spends k1 m → (∀ a, spends k2 (f a)) → (k1 + k2 ≤ k)%nat → spends k (m ≫= f).
Proof.
  intros Hm Hf Hk s b s' Hs (a & s1 & H1 & H2)%st_bind_inv. destruct (Hm _ _ _ Hs H1) as [Hs1 ?].
  destruct (Hf a _ _ _ Hs1 H2) as [Hs' ?]. split; [done|lia].
Qed.
Lemma spends_ret {A} k (a : A) : spends k (mret a).
Proof. intros s b s' Hs [= _ <-]. split; [done|lia]. Qed.
Lemma spends_gets {A} (f : mmu → A) : spends 0 (gets f).
Proof. intros s b s' Hs [= _ <-]. split; [done|lia]. Qed.
Lemma spends_modify (f : mmu → mmu) : (∀ s, pmm_st (f s) = pmm_st s) → spends 0 (modify f).
Proof. intros Hf s b s' Hs [= _ <-]. unfold left_of. rewrite Hf. split; [done|lia]. Qed.

Lemma spends_alloc_table : spends 1 alloc_table.
Proof.
  apply (spends_bind 1 0); [|intros p; apply (spends_bind 0 0); [|intros _; apply spends_ret|done]|done].
  - intros s p s' Hs H. unfold on_pmm, zoom in H. destruct (Pmm.pmm_alloc_page (pmm_st s)) as [[a q]|] eqn:E; [|done].
    injection H as <- <-. destruct (wp_det _ _ _ _ _ (Pmm.wp_pmm_alloc_run _ 1 Hs ltac:(lia)) E) as [Hq Hpost].
    split; [exact Hq|]. change (frames_of q ≤ frames_of (pmm_st s) ≤ frames_of q + 1)%nat.
    apply alloc_post_frames in Hpost; [lia|done].
  - unfold when. destruct (ctrue p); [by apply spends_modify|apply spends_ret].
Qed.
Lemma spends_descend_alloc tbl idx : spends 1 (descend_alloc tbl idx).
Proof.
  apply (spends_bind 0 1); [apply spends_gets|intros e|done]. apply (spends_bind 1 0); [|intros [|]|done].
  - destruct (negb _); [|apply spends_ret]. apply (spends_bind 1 0); [apply spends_alloc_table|intros p|done].
    destruct (p =? 0); [apply spends_ret|]. apply (spends_bind 0 0); [by apply spends_modify|intros _; apply spends_ret|done].
  - apply (spends_bind 0 0); [apply spends_gets|intros e'; apply spends_ret|done].
  - apply spends_ret.
Qed.
Lemma spends_map_page pgd va pa attrs : spends 3 (mmu_map_page pgd va pa attrs).
Proof.
  apply (spends_bind 1 2); [apply spends_descend_alloc|intros [t2|]; [|apply spends_ret]|done].
  apply (spends_bind 1 1); [apply spends_descend_alloc|intros [t1|]; [|apply spends_ret]|done].
  apply (spends_bind 1 0); [apply spends_descend_alloc|intros [t0|]; [|apply spends_ret]|done].
  apply (spends_bind 0 0); [by apply spends_modify|intros _|done].
  apply (spends_bind 0 0); [by apply spends_modify|intros _; apply spends_ret|done].
Qed.

Lemma spends_find_leaf pgd va : spends 0 (find_leaf pgd va).
Proof.
  assert (Hd : ∀ tbl idx, spends 0 (descend tbl idx)).
  { intros tbl idx. apply (spends_bind 0 0); [apply spends_gets|intros e; destruct (negb _); apply spends_ret|done]. }
  do 3 (apply (spends_bind 0 0); [apply Hd|intros [?|]; [|apply spends_ret]|done]).
  apply (spends_bind 0 0); [apply spends_gets|intros e; destruct (negb _); apply spends_ret|done].
Qed.
Lemma spends_unmap_page pgd va : spends 0 (mmu_unmap_page pgd va).
Proof.
  apply (spends_bind 0 0); [apply spends_find_leaf|intros [[pte idx]|]; [|apply spends_ret]|done].
  do 2 (apply (spends_bind 0 0); [by apply spends_modify|intros _|done]). apply spends_ret.
Qed.
Lemma spends_update_page pgd va attrs : spends 0 (mmu_update_page_attrs pgd va attrs).
Proof.
  apply (spends_bind 0 0); [apply spends_find_leaf|intros [[pte idx]|]; [|apply spends_ret]|done].
  apply (spends_bind 0 0); [apply spends_gets|intros e|done].
  do 2 (apply (spends_bind 0 0); [by apply spends_modify|intros _|done]). apply spends_ret.
Qed.

Lemma wp_spends {A} k (m : ST mmu A) (Q : A → mmu → Prop) s :
  spends k m → Pmm.pmm_ok (pmm_st s) → wp m Q s →
  wp m (λ a s', Q a s' ∧ (left_of s' ≤ left_of s ≤ left_of s' + k)%nat) s.
Proof. intros Hm Hs (a & s' & H & HQ). exists a, s'. split; [done|]. split; [done|]. by destruct (Hm _ _ _ Hs H). Qed.

#[export] Program Instance mmu_laws : MmuLaws mmu := {| mmu_inv := inv; mmu_walk := walk1; mmu_left := left_of |}.
Next Obligation.
  intros s va pa attrs (own & Hok & Hr) Htt Hva Hpa Hat. specialize (Hr Htt). simpl.
  eapply wp_mono; [apply (wp_spends 3); [apply spends_map_page|apply Hok|];
    apply (wp_mmu_map_page s own); [done|done|done|apply leaf_map_valid]|].
  simpl. intros r s' [(own' & Hok' & [Hsub _] & Hreg & Hcase) Hleft].
  pose proof Hreg as (_ & _ & _ & _ & _ & Ht1 & _).
  assert (Hinv : inv s').
  { exists own'. split; [done|]. intros _. rewrite Ht1. by eapply lookup_weaken. }
  destruct Hcase as [[-> Hw]|(-> & Hno & Hw)].
  - destruct (walk1_other s s' va (Some (leaf_map pa attrs)) Ht1) as [H1 H2].
    { intros v Hv. by apply Hw. }
    split_and!; [done|done|done| |apply Hleft..]. by left.
  - assert (Hsame : ∀ p, walk1 s' p = walk1 s p).
    { intros p. unfold walk1. case_bool_decide; [|done]. rewrite Ht1. by apply Hw. }
    split_and!; [done|done|by intros p _| |apply Hleft..]. right. split_and!; [done|done|].
    apply no_page_frames; [apply Hok'|done].
Qed.
Next Obligation.
  intros s va (own & Hok & Hr) Htt Hva. specialize (Hr Htt). simpl.
  eapply wp_mono; [apply (wp_spends 0); [apply spends_unmap_page|apply Hok|]; by apply (wp_mmu_unmap_page s own)|].
  simpl. intros r s' [(Hok' & Hreg & Hres & Hw) Hleft].
  pose proof Hreg as (_ & _ & _ & _ & _ & Ht1 & _).
  destruct (walk1_other s s' va None Ht1) as [H1 H2]; [intros v Hv; by apply Hw|].
  split_and!; [|done|done|done|by rewrite !walk1_vpn|lia].
  exists own. split; [done|]. by rewrite Ht1.
Qed.
Next Obligation.
  intros s va attrs (own & Hok & Hr) Htt Hva Hat. specialize (Hr Htt). simpl.
  eapply wp_mono; [apply (wp_spends 0); [apply spends_update_page|apply Hok|]; by apply (wp_mmu_update_page_attrs s own)|].
  simpl. intros r s' [(Hok' & Hreg & Hres & Hw) Hleft].
  pose proof Hreg as (_ & _ & _ & _ & _ & Ht1 & _).
  destruct (walk1_other s s' va ((λ old, leaf_update old attrs) <$> walk1 s (vpn va)) Ht1) as [H1 H2].
  { intros v Hv. rewrite walk1_vpn. by apply Hw. }
  split_and!; [|done|done|done|by rewrite walk1_vpn|lia].
  exists own. split; [done|]. by rewrite Ht1.
Qed.
Next Obligation.
  intros s va size Hinv Hreg. simpl. unfold cache_flush_range. apply wp_bind, wp_line_loop; [done|].
  apply wp_modify. split_and!; [|done..]. by apply inv_issued, inv_issued.
Qed.
Next Obligation.
  intros s va size Hinv Hreg. simpl. unfold icache_invalidate_range.
  apply wp_bind, wp_line_loop; [done|]. apply wp_bind, wp_modify, wp_modify.
  split_and!; [|done..]. by do 3 apply inv_issued.
Qed.
Next Obligation.
  intros s va size Hinv Hreg. simpl. apply wp_tlb_flush_range; [done|].
  split_and!; [|done..]. by apply inv_issued.
Qed.

(** ** Mapping a range *)

Lemma vpn_step a i : vpn (a + i * 4096) = (a / 4096 + i) mod 2 ^ 36.
Proof. unfold vpn. change (2 ^ 12) with 4096. by rewrite Z.div_add by lia. Qed.

Lemma vpn_u64 x : vpn (u64 x) = vpn x.
Proof.
  unfold vpn, u64. apply Z.bits_inj'. intros j Hj. rewrite !testbit_u by lia.
  destruct (Z.ltb_spec j 36); [|done]. simpl. rewrite !Z.div_pow2_bits, testbit_u by lia.
  by destruct (Z.ltb_spec (j + 12) 64); [|lia].
Qed.

Lemma vpn_inj a i j n :
  0 ≤ i < n → 0 ≤ j < n → n ≤ 2 ^ 36 → vpn (a + i * 4096) = vpn (a + j * 4096) → i = j.
Proof.
  intros Hi Hj Hn. rewrite !vpn_step. set (b := a / 4096). intros Heq.
  pose proof (Z.div_mod (b + i) (2 ^ 36) ltac:(lia)).
  pose proof (Z.div_mod (b + j) (2 ^ 36) ltac:(lia)). nia.
Qed.

(** [s] is [s0] with the pages [a + i * 4096], [i < n], of [root] mapped to the
    leaves [leaf i]; every other translation is as it was. *)
Definition mapped_upto (s0 : mmu) (own : gmap Z nat) (root a : Z) (leaf : Z → Z) (n : Z) (s : mmu) :=
  ∃ own', tables_ok s own' ∧ own ⊆ own' ∧ same_regs s0 s ∧
    (∀ root' v, own !! root' = Some 3%nat → 0 ≤ v < 2 ^ 36 →
       root' ≠ root ∨ (∀ j, 0 ≤ j < n → v ≠ vpn (a + j * 4096)) →
       walk (mem s) root' v = walk (mem s0) root' v) ∧
    (∀ j, 0 ≤ j < n → walk (mem s) root (vpn (a + j * 4096)) = Some (leaf j)).

Lemma mapped_upto_0 s own root a leaf : tables_ok s own → mapped_upto s own root a leaf 0 s.
Proof. intros Hok. exists own. split_and!; [done|done|done|done|lia]. Qed.

Lemma wp_map_next s0 own root a leaf n s va pa attrs (Q : Z → mmu → Prop) :
  mapped_upto s0 own root a leaf n s → own !! root = Some 3%nat →
  0 ≤ n → n < 2 ^ 36 → is_u64 va → vpn va = vpn (a + n * 4096) → leaf n = leaf_map pa attrs →
  (∀ s', mapped_upto s0 own root a leaf (n + 1) s' → Q 0 s') →
  (∀ s', mapped_upto s0 own root a leaf n s' → no_page (pmm_st s') → Q (-1) s') →
  wp (mmu_map_page root va pa attrs) Q s.
Proof.
  intros (own1 & Hok & Hsub & Hreg & Hout & Hin) Hr Hn Hlim Hva Hvp Hleaf HQ1 HQ2.
  assert (Hr1 : own1 !! root = Some 3%nat) by (by eapply lookup_weaken).
  eapply wp_mono; [apply (wp_mmu_map_page s own1); [done|done|done|apply leaf_map_valid]|].
  simpl. intros r s' (own2 & Hok2 & [Hsub2 _] & Hreg2 & [[-> Hw]|(-> & Hno & Hw)]).
  - apply HQ1. exists own2. split_and!; [done|by etrans|by eapply same_regs_trans| |].
    + intros root' v Hr' Hv Hne. rewrite Hw by (done || by eapply lookup_weaken).
      rewrite bool_decide_false.
      * apply Hout; [done|done|]. destruct Hne as [|Hne]; [by left|right].
        intros j Hj. apply Hne. lia.
      * intros [-> ->]. destruct Hne as [|Hne]; [done|]. apply (Hne n); [lia|done].
    + intros j Hj. rewrite Hw by (done || apply vpn_range). rewrite Hvp.
      destruct (decide (j = n)) as [->|Hne].
      * rewrite bool_decide_true by done. by rewrite Hleaf.
      * rewrite bool_decide_false; [apply Hin; lia|].
        intros [_ Heq]. apply (vpn_inj a j n (n + 1)) in Heq; lia.
  - apply HQ2; [|done]. exists own2. split_and!; [done|by etrans|by eapply same_regs_trans| |].
    + intros root' v Hr' Hv Hne. rewrite Hw by (by eapply lookup_weaken). by apply Hout.
    + intros j Hj. rewrite Hw by done. by apply Hin.
Qed.

(** The loop of [mmu_init] over physical addresses. *)
Lemma wp_map_loop fuel s0 own root off lo hi attrs i s :
  own !! root = Some 3%nat → 0 ≤ lo → lo mod 4096 = 0 → hi mod 4096 = 0 → hi < 2 ^ 48 →
  0 ≤ i → lo + i * 4096 ≤ Z.max lo hi → (hi - lo) / 4096 - i < Z.of_nat fuel → (0 < fuel)%nat →
  mapped_upto s0 own root (off + lo) (λ j, leaf_map (lo + j * 4096) attrs) i s →
  wp (map_loop fuel root off (lo + i * 4096) hi attrs) (λ ok s', ∃ n,
    mapped_upto s0 own root (off + lo) (λ j, leaf_map (lo + j * 4096) attrs) n s' ∧
    0 ≤ n ∧ lo + n * 4096 ≤ Z.max lo hi ∧
    if (ok : bool) then hi ≤ lo + n * 4096 else no_page (pmm_st s')) s.
Proof.
  intros Hr Hlo Hal Hal' Hhi. revert i s. induction fuel as [|fuel IH]; intros i s Hi Hle Hf Hp Hm; [lia|].
  pose proof (Z.div_mod lo 4096 ltac:(lia)). pose proof (Z.div_mod hi 4096 ltac:(lia)).
  assert (Hdiv : (hi - lo) / 4096 = hi / 4096 - lo / 4096).
  { replace (hi - lo) with ((hi / 4096 - lo / 4096) * 4096) by lia. by rewrite Z.div_mul by lia. }
  cbn [map_loop]. destruct (Z.ltb_spec (lo + i * 4096) hi) as [Hlt|Hge].
  - apply wp_bind. eapply wp_map_next; [exact Hm|done|lia|lia|apply Z.mod_pos_bound; lia| |done| |].
    + rewrite vpn_u64. f_equal. lia.
    + intros s' Hm'. simpl. change MMU_PAGE_SIZE with 4096.
      assert (u64 (lo + i * 4096 + 4096) = lo + (i + 1) * 4096) as ->.
      { unfold u64. rewrite wrap_small; lia. }
      apply IH; [lia|lia|lia|lia|done].
    + intros s' Hm' Hno. simpl. apply wp_ret. exists i. split_and!; [done|lia|lia|done].
  - apply wp_ret. exists i. split_and!; [done|lia|lia|done].
Qed.

(** The loop of [mmu_map_region] over offsets. *)
Lemma wp_mmu_region_loop fuel s0 own root base pa size attrs i s :
  own !! root = Some 3%nat → 0 ≤ pa → pa + size < 2 ^ 64 → size mod 4096 = 0 → 0 ≤ size ≤ 2 ^ 48 →
  0 ≤ i ≤ size / 4096 → size / 4096 - i < Z.of_nat fuel →
  mapped_upto s0 own root (base + pa) (λ j, leaf_map (pa + j * 4096) attrs) i s →
  wp (region_loop fuel root base pa size (i * 4096) attrs) (λ ok s', ∃ n,
    mapped_upto s0 own root (base + pa) (λ j, leaf_map (pa + j * 4096) attrs) n s' ∧
    0 ≤ n ≤ size / 4096 ∧
    if (ok : bool) then n = size / 4096 else no_page (pmm_st s')) s.
Proof.
  intros Hr Hpa Hend Hal Hsz. revert i s. induction fuel as [|fuel IH]; intros i s Hi Hf Hm; [lia|].
  pose proof (Z.div_mod size 4096 ltac:(lia)). cbn [region_loop].
  destruct (Z.ltb_spec (i * 4096) size) as [Hlt|Hge].
  - apply wp_bind. assert (u64 (pa + i * 4096) = pa + i * 4096) as -> by (apply wrap_small; lia).
    eapply wp_map_next; [exact Hm|done|lia|lia|apply Z.mod_pos_bound; lia| |done| |].
    + by rewrite vpn_u64.
    + intros s' Hm'. simpl. change MMU_PAGE_SIZE with 4096.
      assert (u64 (i * 4096 + 4096) = (i + 1) * 4096) as -> by (unfold u64; rewrite wrap_small; lia).
      apply IH; [lia|lia|done].
    + intros s' Hm' Hno. simpl. apply wp_ret. exists i. split_and!; [done|lia|lia|done].
  - apply wp_ret. exists i. split_and!; [done|lia|lia|lia].
Qed.

(** ** [mmu_init] *)

(** A cleared page becomes an empty root. *)
Lemma root_ok s own b n :
  tables_ok s own → own !! b = None → pmm_page (pmm_st s) b →
  (∀ i, 0 ≤ i < 512 → entry (mem s) b i = 0) → tables_ok s (<[b := n]> own).
Proof.
  intros [Hp Ho Hed Hin] Hb Hpg Hz.
  assert (Hval : ∀ a k i, <[b := n]> own !! a = Some (S k) → 0 ≤ i < 512 →
    valid (entry (mem s) a i) = true → own !! a = Some (S k)).
  { intros a k i Ha Hi Hv. destruct (decide (a = b)) as [->|Hne].
    - rewrite Hz in Hv by done. done.
    - by rewrite lookup_insert_ne in Ha. }
  split; [done| | |].
  - intros a k. destruct (decide (a = b)) as [->|]; [done|]. rewrite lookup_insert_ne by done. apply Ho.
  - intros a k i Ha Hi Hv. pose proof (Hval a k i Ha Hi Hv) as Ha'.
    pose proof (Hed a k i Ha' Hi Hv) as He. rewrite lookup_insert_ne; [done|]. congruence.
  - intros a a' k i i' Ha Ha' Hi Hi' Hv Hv'. apply (Hin a a' k); try done.
    + by apply (Hval a k i).
    + by apply (Hval a' k i').
Qed.

Lemma page_down_spec x : 0 ≤ x < 2 ^ 64 → page_down x = x / 4096 * 4096.
Proof.
  intros Hx. unfold page_down, u64. change MMU_PAGE_MASK with (2 ^ 12 - 1).
  by rewrite land_lnot_ones by lia.
Qed.
Lemma page_up_spec x : 0 ≤ x → x + 4095 < 2 ^ 64 → page_up x = (x + 4095) / 4096 * 4096.
Proof.
  intros Hx Hlt. unfold page_up. change MMU_PAGE_MASK with 4095.
  assert (u64 (x + 4095) = x + 4095) as -> by (apply wrap_small; lia).
  change 4095 with (2 ^ 12 - 1) at 2. unfold u64. rewrite land_lnot_ones by lia. done.
Qed.

(** The physical pages of [[lo, hi)] appear at [off + pa] under [root]. *)
Definition mapped_range (m : Z → Z) (root off lo hi attrs : Z) : Prop :=
  ∀ pa, lo ≤ pa < hi → pa mod 4096 = 0 → walk m root (vpn (off + pa)) = Some (leaf_map pa attrs).

Lemma mapped_upto_range s0 own root off lo hi attrs n s :
  lo mod 4096 = 0 → hi ≤ lo + n * 4096 →
  mapped_upto s0 own root (off + lo) (λ j, leaf_map (lo + j * 4096) attrs) n s →
  mapped_range (mem s) root off lo hi attrs.
Proof.
  intros Hal Hn (own' & _ & _ & _ & _ & Hin) pa Hpa Hpal.
  pose proof (Z.div_mod lo 4096 ltac:(lia)). pose proof (Z.div_mod pa 4096 ltac:(lia)).
  specialize (Hin (pa / 4096 - lo / 4096) ltac:(lia)).
  replace (off + lo + (pa / 4096 - lo / 4096) * 4096) with (off + pa) in Hin by lia.
  by replace (lo + (pa / 4096 - lo / 4096) * 4096) with pa in Hin by lia.
Qed.

(** Mapping a second range with the same offset and attributes keeps the first. *)
Lemma mapped_range_keep s0 own root off lo hi lo' n attrs s :
  own !! root = Some 3%nat → lo' mod 4096 = 0 →
  (∀ pa, lo ≤ pa < hi → 0 ≤ pa < 2 ^ 48) → 0 ≤ lo' → lo' + n * 4096 ≤ 2 ^ 48 →
  mapped_range (mem s0) root off lo hi attrs →
  mapped_upto s0 own root (off + lo') (λ j, leaf_map (lo' + j * 4096) attrs) n s →
  mapped_range (mem s) root off lo hi attrs.
Proof.
  intros Hr Hal Hlim Hlo' Hn Hm (own' & _ & _ & _ & Hout & Hin) pa Hpa Hpal.
  specialize (Hlim pa Hpa).
  pose proof (Z.div_mod lo' 4096 ltac:(lia)) as Hd1. pose proof (Z.div_mod pa 4096 ltac:(lia)) as Hd2.
  destruct (decide (lo' ≤ pa < lo' + n * 4096)) as [Hi|Ho].
  - specialize (Hin (pa / 4096 - lo' / 4096) ltac:(lia)).
    replace (off + lo' + (pa / 4096 - lo' / 4096) * 4096) with (off + pa) in Hin by lia.
    by replace (lo' + (pa / 4096 - lo' / 4096) * 4096) with pa in Hin by lia.
  - rewrite Hout; [by apply Hm|done|apply vpn_range|]. right. intros j Hj Heq.
    replace (off + pa) with (off + (pa / 4096) * 4096) in Heq by lia.
    replace (off + lo' + j * 4096) with (off + (lo' / 4096 + j) * 4096) in Heq by lia.
    apply (vpn_inj off _ _ (2 ^ 36)) in Heq; lia.
Qed.

Lemma mapped_range_other s0 own root root' off' lo hi attrs a leaf n s :
  mapped_range (mem s0) root' off' lo hi attrs → own !! root' = Some 3%nat → root' ≠ root →
  mapped_upto s0 own root a leaf n s → mapped_range (mem s) root' off' lo hi attrs.
Proof.
  intros Hm Hr' Hne (own' & _ & _ & _ & Hout & _) pa Hpa Hal.
  rewrite Hout; [by apply Hm|done|apply vpn_range|by left].
Qed.

Record layout_ok (ly : layout) : Prop := {
  ly_k : 0 ≤ kernel_start ly ∧ 0 ≤ kernel_end ly ∧ kernel_end ly + 4096 < 2 ^ 48;
  ly_ks : kernel_start ly < 2 ^ 48;
  ly_s : 0 ≤ stack_bottom ly ∧ 0 ≤ stack_top ly ∧ stack_top ly + 4096 < 2 ^ 48;
  ly_ss : stack_bottom ly < 2 ^ 48;
}.

(** Allocating a root. *)
Lemma wp_alloc_root s own :
  tables_ok s own →
  wp alloc_table (λ p s', same_regs s s' ∧
    (p = 0 ∧ tables_ok s' own ∧ no_page (pmm_st s') ∨
     p ≠ 0 ∧ own !! p = None ∧ tables_ok s' (<[p := 3%nat]> own))) s.
Proof.
  intros Hok. eapply wp_mono; [by apply wp_alloc_table|].
  simpl. intros p s' (Hreg & Hok' & [(-> & _ & Hno)|(Hp & Hn & Hpg & Hm & _)]); (split; [done|]); [by left|right].
  split_and!; [done|done|]. apply root_ok; [done|done|done|]. intros i Hi.
  assert (p mod 4096 = 0) by (eapply pmm_page_al; [apply Hok'|done]).
  by rewrite Hm, entry_clear, bool_decide_true by done.
Qed.

(** What [mmu_init] has set up when it runs to its end. *)
Definition init_post (ly : layout) (s' : mmu) : Prop :=
  ttbr0_pgd s' ≠ 0 ∧ ttbr1_pgd s' ≠ 0 ∧ ttbr0_pgd s' ≠ ttbr1_pgd s' ∧
  (∃ own, tables_ok s' own ∧ own !! ttbr0_pgd s' = Some 3%nat ∧ own !! ttbr1_pgd s' = Some 3%nat) ∧
  mapped_range (mem s') (ttbr1_pgd s') Vmm.vmm_kernel_base
    (page_down (kernel_start ly)) (page_up (kernel_end ly)) init_attrs ∧
  mapped_range (mem s') (ttbr1_pgd s') Vmm.vmm_kernel_base
    (page_down (stack_bottom ly)) (page_up (stack_top ly)) init_attrs ∧
  ∃ n, 0 ≤ n ∧ mapped_range (mem s') (ttbr0_pgd s') 0 0 (n * 4096) init_attrs ∧
       (n * 4096 = 0x80000000 ∨ no_page (pmm_st s')).

(** The two higher-half loops. *)
Lemma wp_range_map s0 own root lo hi attrs :
  tables_ok s0 own → own !! root = Some 3%nat → 0 ≤ lo < 2 ^ 48 → lo mod 4096 = 0 →
  hi mod 4096 = 0 → hi < 2 ^ 48 → ∀ off,
  wp (map_loop (loop_fuel lo hi) root off lo hi attrs) (λ ok s', ∃ n own',
    mapped_upto s0 own root (off + lo) (λ j, leaf_map (lo + j * 4096) attrs) n s' ∧
    0 ≤ n ∧ lo + n * 4096 ≤ 2 ^ 48 ∧ tables_ok s' own' ∧ own ⊆ own' ∧ same_regs s0 s' ∧
    lo + n * 4096 ≤ Z.max lo hi ∧
    if (ok : bool) then hi ≤ lo + n * 4096 else no_page (pmm_st s')) s0.
Proof.
  intros Hok Hr Hlo Hal Hal' Hhi off.
  eapply wp_mono.
  { rewrite <-(Z.add_0_r lo) at 2. change (lo + 0) with (lo + 0 * 4096).
    apply (wp_map_loop _ s0 own); try done; try lia.
    - unfold loop_fuel. change MMU_PAGE_SIZE with 4096. lia.
    - unfold loop_fuel. lia.
    - by apply mapped_upto_0. }
  simpl. intros ok s' (n & Hm & Hn & Hle & Hres). pose proof Hm as (own' & Hok' & Hsub & Hreg & _).
  exists n, own'. split_and!; try done. lia.
Qed.

(** However it ends, the tables are in order. *)
Definition root_installed (s' : mmu) : Prop :=
  ∃ own, tables_ok s' own ∧ (ttbr1_pgd s' ≠ 0 → own !! ttbr1_pgd s' = Some 3%nat).

Lemma wp_mmu_init ly s :
  Pmm.pmm_ok (pmm_st s) → layout_ok ly →
  wp (mmu_init ly) (λ ok s', (if (ok : bool) then init_post ly s' else no_page (pmm_st s')) ∧ root_installed s' ∧
    pmm_le (pmm_st s) (pmm_st s')) s.
Proof.
  intros Hp [(Hk1 & Hk2 & Hk3) Hks (Hs1 & Hs2 & Hs3) Hss]. unfold mmu_init.
  assert (Hok0 : tables_ok s ∅) by (by split).
  apply wp_bind. eapply wp_mono; [by apply wp_alloc_root|]. cbv beta. intros p0 s1 (Hreg1 & Hc0).
  apply wp_bind, wp_modify.
  assert (Hok1 : ∃ own1, tables_ok (set_ttbr0_pgd p0 s1) own1 ∧ (p0 ≠ 0 → own1 !! p0 = Some 3%nat) ∧
    (p0 = 0 → no_page (pmm_st (set_ttbr0_pgd p0 s1)))).
  { destruct Hc0 as [(-> & [A B C D] & Hno)|(H0 & _ & [A B C D])]; eexists; (split; [by split|]); [done|].
    split; [|done]. intros _. apply lookup_insert_eq. }
  clear Hc0. destruct Hok1 as (own1 & Hok1 & Hp0 & Hn0).
  apply wp_bind. eapply wp_mono; [by apply wp_alloc_root|]. cbv beta. intros p1 s2 (Hreg2 & Hc1).
  apply wp_bind, wp_modify. unfold ctrue.
  assert (Hle2 : pmm_le (pmm_st s) (pmm_st s2)) by (eapply pmm_le_trans; [apply Hreg1|apply Hreg2]).
  assert (Hri : root_installed (set_ttbr1_pgd p1 s2)).
  { destruct Hc1 as [(-> & [A B C D] & _)|(H1 & _ & [A B C D])]; eexists; (split; [by split|]); [done|].
    intros _. apply lookup_insert_eq. }
  destruct (Z.eqb_spec p0 0) as [E0|H0]; cbn [negb orb].
  { apply wp_ret. split_and!; [|done|done]. eapply no_page_mono; [apply Hreg2|by apply Hn0]. }
  destruct (Z.eqb_spec p1 0) as [?|H1]; cbn [negb orb].
  { apply wp_ret. split_and!; [|done|done]. by destruct Hc1 as [(_ & _ & ?)|[? _]]. }
  specialize (Hp0 H0). destruct Hc1 as [[? _]|(_ & Hnew & Hok2)]; [done|]. clear Hri Hn0.
  assert (Hne : p0 ≠ p1) by congruence.
  set (own2 := <[p1 := 3%nat]> own1) in *.
  assert (Hr0 : own2 !! p0 = Some 3%nat) by (unfold own2; by rewrite lookup_insert_ne).
  assert (Hr1 : own2 !! p1 = Some 3%nat) by (apply lookup_insert_eq).
  assert (Hok2' : tables_ok (set_ttbr1_pgd p1 s2) own2) by (destruct Hok2; by split).
  set (sA := set_ttbr1_pgd p1 s2) in *.
  assert (HleA : pmm_le (pmm_st s) (pmm_st sA)) by done.
  assert (HpA : ttbr0_pgd sA = p0 ∧ ttbr1_pgd sA = p1) by (split; [apply Hreg2|done]).
  clearbody sA own2. set (p := pmm_st s) in *. clearbody p. clear s s1 s2 Hp Hok0 Hok1 Hok2 Hreg1 Hreg2 Hle2 Hnew own1 Hp0.
  pose proof (Z.mod_mul (kernel_start ly / 4096) 4096 ltac:(lia)) as Ek1.
  pose proof (Z.mod_mul ((kernel_end ly + 4095) / 4096) 4096 ltac:(lia)) as Ek2.
  pose proof (Z.mod_mul (stack_bottom ly / 4096) 4096 ltac:(lia)) as Es1.
  pose proof (Z.mod_mul ((stack_top ly + 4095) / 4096) 4096 ltac:(lia)) as Es2.
  assert (Hdn : ∀ x, x - 4096 < x / 4096 * 4096 ≤ x).
  { intros x. pose proof (Z.div_mod x 4096 ltac:(lia)). pose proof (Z.mod_pos_bound x 4096 ltac:(lia)). lia. }
  assert (Hdp : ∀ x, 0 ≤ x → 0 ≤ x / 4096 * 4096).
  { intros x Hx. pose proof (Z.div_pos x 4096 Hx ltac:(lia)). lia. }
  pose proof (Hdn (kernel_start ly)). pose proof (Hdn (kernel_end ly + 4095)).
  pose proof (Hdn (stack_bottom ly)). pose proof (Hdn (stack_top ly + 4095)).
  pose proof (Hdp _ Hk1). pose proof (Hdp _ Hs1).
  rewrite !page_down_spec, !page_up_spec by lia.
  apply wp_bind. eapply wp_mono; [apply (wp_range_map sA own2); done || lia|].
  cbv beta. intros ok0 sB (n0 & ownB & HmB & Hn0 & Hlim0 & HokB & HsubB & HregB & Hmax0 & Hres0).
  assert (HrB0 : ownB !! p0 = Some 3%nat) by (by eapply lookup_weaken).
  assert (HrB1 : ownB !! p1 = Some 3%nat) by (by eapply lookup_weaken).
  assert (HidB : mapped_range (mem sB) p0 0 0 (n0 * 4096) init_attrs)
    by (apply (mapped_upto_range sA own2 p0 0 0 (n0 * 4096) init_attrs n0); done || lia).
  apply wp_bind. eapply wp_mono; [apply (wp_range_map sB ownB); done || lia|].
  cbv beta. intros ok1 sC (n1 & ownC & HmC & Hn1 & Hlim1 & HokC & HsubC & HregC & Hmax1 & Hres1).
  assert (HrC1 : ownC !! p1 = Some 3%nat) by (by eapply lookup_weaken).
  destruct ok1; cbn [negb].
  2:{ apply wp_ret. split; [exact Hres1|]. split.
      2:{ eapply pmm_le_trans; [exact HleA|]. eapply pmm_le_trans; [apply HregB|apply HregC]. }
      exists ownC. split; [done|]. intros _.
      assert (ttbr1_pgd sC = ttbr1_pgd sA) as -> by (transitivity (ttbr1_pgd sB); [apply HregC|apply HregB]).
      by rewrite (proj2 HpA). }
  assert (HrC0 : ownC !! p0 = Some 3%nat) by (by eapply lookup_weaken).
  eapply wp_mono; [apply (wp_range_map sC ownC); done || lia|].
  cbv beta. intros ok2 sD (n2 & ownD & HmD & Hn2 & Hlim2 & HokD & HsubD & HregD & Hmax2 & Hres2).
  pose proof (same_regs_trans _ _ _ HregB (same_regs_trans _ _ _ HregC HregD)) as HregAD.
  pose proof HregAD as (E0 & E1 & _). destruct HpA as [EA0 EA1].
  split; [|split; [exists ownD; split; [done|]; intros _; rewrite E1, EA1; by eapply lookup_weaken|
    eapply pmm_le_trans; [exact HleA|apply HregAD]]]. destruct ok2; [|exact Hres2].
  unfold init_post. rewrite E0, E1, EA0, EA1. rewrite !page_down_spec, !page_up_spec by lia.
  split_and!; [done|done|done| | | |].
  - exists ownD. split_and!; [done|by eapply lookup_weaken|by eapply lookup_weaken].
  - eapply (mapped_range_keep sC ownC p1 _ _ _ _ n2); [exact HrC1|exact Es1|intros pa Hpa; lia|lia|lia| |exact HmD].
    eapply mapped_upto_range; [exact Ek1|exact Hres1|exact HmC].
  - eapply mapped_upto_range; [exact Es1|exact Hres2|exact HmD].
  - exists n0. split_and!; [done| |].
    + eapply (mapped_range_other sC ownC p1 p0); [|done|done|exact HmD].
      eapply (mapped_range_other sB ownB p1 p0); [|done|done|exact HmC]. exact HidB.
    + destruct ok0; [left; lia|right]. eapply no_page_mono; [|exact Hres0].
      eapply pmm_le_trans; [apply HregC|apply HregD].
Qed.

(** ** Theorems *)

(** An empty root in the first page of a 64-page allocator: the instance the
    witnesses use. *)
Definition demo_root : Z := 1073741824.
Definition demo_bitmap : gmap Z Z :=
  <[0 := 1]> (foldr (λ i m, <[i := 0]> m) (bm_fill 131072 255) (seqZ 1 7)).
Definition demo_pmm : Pmm.pmm := {|
  Pmm.pmm_lock := 0; Pmm.pmm_daif := 0; Pmm.pmm_bitmap := demo_bitmap;
  Pmm.pmm_mem_base := demo_root; Pmm.pmm_mem_size := 262144;
  Pmm.pmm_pages_total := 64; Pmm.pmm_pages_free := 63 |}.
Definition demo_mmu : mmu := {|
  pmm_st := demo_pmm; mem := λ _, 0; ttbr0_pgd := 0; ttbr1_pgd := demo_root;
  mair_el1 := 0; tcr_el1 := 0; ttbr0_el1 := 0; ttbr1_el1 := demo_root;
  sctlr_el1 := 0; issued := [] |}.

Lemma demo_pmm_ok : Pmm.pmm_ok demo_pmm.
Proof.
  split; [|reflexivity|by split|by split|by split|by vm_compute|by vm_compute].
  change (Pmm.pmm_bitmap demo_pmm) with demo_bitmap. unfold demo_bitmap.
  cbn [foldr seqZ seq fmap list_fmap Z.to_nat Pos.to_nat Pos.iter_op Nat.add]. do 8 (apply bm_ok_insert; [|lia|lia]). apply bm_fill_ok. lia.
Qed.

Lemma demo_tables : tables_ok demo_mmu {[demo_root := 3%nat]}.
Proof.
  split; [apply demo_pmm_ok| |done|done].
  intros a n [<- <-]%lookup_singleton_Some. exists 0. split_and!; [done|done|done|by vm_compute].
Qed.

Lemma demo_own : ({[demo_root := 3%nat]} : gmap Z nat) !! demo_root = Some 3%nat.
Proof. by rewrite lookup_singleton_eq. Qed.

(** C26: [mmu_map_page] on well-formed tables always returns.  On 0 the page of
    [va] under that root translates to the leaf built from [pa] and [attrs],
    and every other page of every root keeps its translation; on -1 the
    allocator had no page left and no translation changed.  The tables stay
    well-formed, new ones occupy pages that were free, and the system registers
    are untouched. *)
Theorem mmu_map_page_correct s own root va pa attrs :
  tables_ok s own → own !! root = Some 3%nat → is_u64 va →
  ∃ r s' own', mmu_map_page root va pa attrs s = Some (r, s') ∧
    tables_ok s' own' ∧ grows s own own' ∧ same_regs s s' ∧
    (r = 0 ∧ (∀ root' v, own !! root' = Some 3%nat → 0 ≤ v < 2 ^ 36 →
        walk (mem s') root' v =
        if bool_decide (root' = root ∧ v = vpn va) then Some (leaf_map pa attrs)
        else walk (mem s) root' v) ∨
     r = -1 ∧ no_page (pmm_st s') ∧
     ∀ root' v, own !! root' = Some 3%nat → walk (mem s') root' v = walk (mem s) root' v).
Proof.
  intros Hok Hr Hva.
  destruct (wp_mmu_map_page s own root va pa attrs Hok Hr Hva (leaf_map_valid _ _))
    as (r & s' & Hrun & own' & H). by exists r, s', own'.
Qed.

Lemma mmu_map_page_correct_witness :
  ∃ r s', mmu_map_page demo_root Vmm.vmm_kernel_base 0x40001000 init_attrs demo_mmu = Some (r, s') ∧
    (r = 0 ∧ walk (mem s') demo_root (vpn Vmm.vmm_kernel_base) = Some (leaf_map 0x40001000 init_attrs)
     ∨ r = -1).
Proof.
  destruct (mmu_map_page_correct demo_mmu {[demo_root := 3%nat]} demo_root Vmm.vmm_kernel_base
    0x40001000 init_attrs demo_tables demo_own ltac:(by split))
    as (r & s' & own' & Hrun & _ & _ & _ & Hc).
  exists r, s'. split; [exact Hrun|]. destruct Hc as [[-> Hw]|[-> _]]; [left|right; reflexivity].
  split; [reflexivity|]. rewrite Hw; [|apply demo_own|apply vpn_range].
  rewrite bool_decide_true; [reflexivity|split; reflexivity].
Defined.

(** [mmu_unmap_page] on well-formed tables always returns: 0 if the page was
    mapped, -1 if it was not; either way the page has no translation
    afterwards, and all other pages of all roots keep theirs. *)
Theorem mmu_unmap_page_correct s own root va :
  tables_ok s own → own !! root = Some 3%nat → is_u64 va →
  ∃ r s', mmu_unmap_page root va s = Some (r, s') ∧ tables_ok s' own ∧ same_regs s s' ∧
    (r = 0 ∧ is_Some (walk (mem s) root (vpn va)) ∨ r = -1 ∧ walk (mem s) root (vpn va) = None) ∧
    ∀ root' v, own !! root' = Some 3%nat → 0 ≤ v < 2 ^ 36 →
      walk (mem s') root' v =
      if bool_decide (root' = root ∧ v = vpn va) then None else walk (mem s) root' v.
Proof.
  intros Hok Hr Hva. destruct (wp_mmu_unmap_page s own root va Hok Hr Hva) as (r & s' & H).
  by exists r, s'.
Qed.

Lemma mmu_unmap_page_correct_witness :
  ∃ s', mmu_unmap_page demo_root 0x1000 demo_mmu = Some (-1, s').
Proof.
  destruct (mmu_unmap_page_correct demo_mmu {[demo_root := 3%nat]} demo_root 0x1000
    demo_tables demo_own ltac:(by split)) as (r & s' & Hrun & _ & _ & [[_ [e He]]|[-> _]] & _).
  - exfalso. vm_compute in He. discriminate He.
  - by exists s'.
Defined.

(** C27: [mmu_init] always returns; when it runs to its end, both roots are
    distinct well-formed tables, every page of the kernel image and of the boot
    stack is mapped at its higher-half address under TTBR1, and TTBR0 maps
    the first pages one to one, all 2 GiB of them unless the allocator ran
    out.  Otherwise the allocator has no page left. *)
Theorem mmu_init_correct ly s :
  Pmm.pmm_ok (pmm_st s) → layout_ok ly →
  ∃ ok s', mmu_init ly s = Some (ok, s') ∧ if (ok : bool) then init_post ly s' else no_page (pmm_st s').
Proof. intros Hp Hly. destruct (wp_mmu_init ly s Hp Hly) as (ok & s' & E & H & _). by exists ok, s'. Qed.

Definition demo_layout : layout :=
  {| kernel_start := 0x40080000; kernel_end := 0x40090123;
     stack_bottom := 0x40091000; stack_top := 0x40095000 |}.

Lemma mmu_init_correct_witness :
  ∃ ok s', mmu_init demo_layout demo_mmu = Some (ok, s') ∧
    if (ok : bool) then init_post demo_layout s' else no_page (pmm_st s').
Proof.
  apply (mmu_init_correct demo_layout demo_mmu demo_pmm_ok). split; by repeat split.
Defined.

(** What [mmu_map_region] leaves. *)
Definition region_mapped (s : mmu) (own : gmap Z nat) (pa size attrs r : Z) (s' : mmu) (n : Z) : Prop :=
  mapped_upto s own (ttbr1_pgd s) (Vmm.vmm_kernel_base + page_down pa)
    (λ j, leaf_map (page_down pa + j * 4096) attrs) n s' ∧
  (r = 0 ∧ n = page_up size / 4096 ∧
     (∃ l, issued s' = l ++ ((λ a, TLBI_VAAE1IS (Z.shiftr a 12)) <$>
        visited (Vmm.vmm_kernel_base + page_down pa)
                (Vmm.vmm_kernel_base + page_down pa + page_up size) 4096) ++ [DSB_ISH; ISB]) ∨
   r = -1 ∧ no_page (pmm_st s')).

Lemma wp_mmu_map_region s own pa size attrs :
  tables_ok s own → ttbr1_pgd s ≠ 0 → own !! ttbr1_pgd s = Some 3%nat →
  0 ≤ pa → 0 ≤ size → Vmm.vmm_kernel_base + pa + size + 4096 < 2 ^ 64 →
  wp (mmu_map_region pa size attrs) (λ r s', ∃ n, region_mapped s own pa size attrs r s' n) s.
Proof.
  intros Hok Hnz Hr Hpa Hsz Hend.
  assert (Hbase : Vmm.vmm_kernel_base mod 4096 = 0 ∧ 0 ≤ Vmm.vmm_kernel_base ∧
    2 ^ 64 - 2 ^ 48 ≤ Vmm.vmm_kernel_base) by (by vm_compute).
  destruct Hbase as (Hb1 & Hb2 & Hb3). unfold region_mapped. set (base := Vmm.vmm_kernel_base) in *.
  pose proof (Z.div_mod pa 4096 ltac:(lia)). pose proof (Z.mod_pos_bound pa 4096 ltac:(lia)).
  pose proof (Z.div_mod (size + 4095) 4096 ltac:(lia)).
  pose proof (Z.mod_pos_bound (size + 4095) 4096 ltac:(lia)).
  pose proof (Z.div_pos pa 4096 ltac:(lia) ltac:(lia)).
  pose proof (Z.div_pos (size + 4095) 4096 ltac:(lia) ltac:(lia)).
  unfold mmu_map_region. apply wp_bind, wp_gets. unfold ctrue.
  destruct (Z.eqb_spec (ttbr1_pgd s) 0) as [?|_]; [done|]. cbn [negb]. fold base.
  rewrite page_down_spec, page_up_spec by lia.
  set (pd := pa / 4096 * 4096) in *. set (su := (size + 4095) / 4096 * 4096) in *.
  assert (Hsu : su mod 4096 = 0) by (apply Z.mod_mul; lia).
  assert (Hpd : pd mod 4096 = 0) by (apply Z.mod_mul; lia).
  assert (Hbp : (base + pd) mod 4096 = 0) by (rewrite Z.add_mod, Hb1, Hpd by lia; done).
  apply wp_bind. eapply wp_mono.
  { change 0 with (0 * 4096) at 2. apply (wp_mmu_region_loop _ s own); try done; try lia.
    - split; [lia|]. apply Z.div_pos; lia.
    - unfold loop_fuel. rewrite !Z.sub_0_r. change MMU_PAGE_SIZE with 4096. lia.
    - by apply mapped_upto_0. }
  cbv beta. intros ok s1 (n & Hm & Hn & Hres). destruct ok; cbn [negb].
  - apply wp_bind. assert (u64 (base + pd) = base + pd) as -> by (apply wrap_small; lia).
    apply wp_tlb_flush_range; [split_and!; done || lia|]. apply wp_ret. exists n. split.
    + destruct Hm as (own' & [A B C D] & Hsub & Hreg & Hout & Hin). by exists own'.
    + left. split_and!; [done|done|]. by exists (issued s1).
  - apply wp_ret. exists n. split; [done|]. by right.
Qed.

(** [mmu_map_region] with the kernel tables installed either maps every page
    of the (page-rounded) physical range at its higher-half address, issues one
    TLB invalidation per page followed by the barriers, and returns 0, or
    returns -1 because the allocator is exhausted; other translations and other
    roots are unchanged. *)
Theorem mmu_map_region_correct s own pa size attrs :
  tables_ok s own → ttbr1_pgd s ≠ 0 → own !! ttbr1_pgd s = Some 3%nat →
  0 ≤ pa → 0 ≤ size → Vmm.vmm_kernel_base + pa + size + 4096 < 2 ^ 64 →
  ∃ r s' n, mmu_map_region pa size attrs s = Some (r, s') ∧ region_mapped s own pa size attrs r s' n.
Proof.
  intros Hok Hnz Hr Hpa Hsz Hend.
  destruct (wp_mmu_map_region s own pa size attrs Hok Hnz Hr Hpa Hsz Hend) as (r & s' & Hrun & n & H).
  by exists r, s', n.
Qed.

Lemma mmu_map_region_correct_witness :
  ∃ r s', mmu_map_region 0x9000000 0x1001 init_attrs demo_mmu = Some (r, s') ∧
    (r = 0 ∨ r = -1).
Proof.
  destruct (mmu_map_region_correct demo_mmu {[demo_root := 3%nat]} 0x9000000 0x1001 init_attrs)
    as (r & s' & n & Hrun & _ & Hc); [apply demo_tables|discriminate|apply demo_own|lia|lia|by vm_compute|].
  exists r, s'. split; [exact Hrun|]. destruct Hc as [[-> _]|[-> _]]; [left|right]; reflexivity.
Defined.

(** [tlb_flush_range] over a page-aligned region issues exactly one
    TLB invalidation per page, by page number and in ascending order, followed
    by the two barriers; it terminates and changes nothing else. *)
Theorem tlb_flush_range_covers s va size :
  page_region va size →
  tlb_flush_range va size s =
  Some (tt, set_issued (issued s ++
    ((λ i, TLBI_VAAE1IS (va / 4096 + i)) <$> seqZ 0 (size / 4096)) ++ [DSB_ISH; ISB]) s).
Proof.
  intros Hreg. pose proof Hreg as (H1 & H2 & H3 & H4 & H5).
  destruct (wp_tlb_flush_range s va size (λ _ s', s' = set_issued (issued s ++
    ((λ i, TLBI_VAAE1IS (va / 4096 + i)) <$> seqZ 0 (size / 4096)) ++ [DSB_ISH; ISB]) s) Hreg)
    as (u & s' & Hrun & ->); [|by destruct u].
  do 2 f_equal. f_equal. unfold visited. rewrite <-list_fmap_compose.
  replace (va + size - va + 4096 - 1) with (size + 4095) by lia.
  assert (Hd : (size + 4095) / 4096 = size / 4096).
  { pose proof (Z.div_mod size 4096 ltac:(lia)). symmetry. apply (Z.div_unique _ _ _ 4095); [left|]; lia. }
  rewrite Hd. apply list_fmap_ext. intros i x _. simpl. f_equal.
  rewrite Z.shiftr_div_pow2 by lia. change (2 ^ 12) with 4096. by rewrite Z.div_add by lia.
Qed.

Lemma tlb_flush_range_covers_witness :
  page_region 0x1000 0x2000 ∧
  tlb_flush_range 0x1000 0x2000 demo_mmu =
  Some (tt, set_issued [TLBI_VAAE1IS 1; TLBI_VAAE1IS 2; DSB_ISH; ISB] demo_mmu).
Proof.
  assert (Hr : page_region 0x1000 0x2000) by (split; [|split; [|split; [|split]]]; reflexivity || lia).
  split; [exact Hr|]. apply (tlb_flush_range_covers demo_mmu 0x1000 0x2000 Hr).
Defined.

(** [mmu_update_page_attrs] cannot lift an execute-never restriction: the
    address bits it keeps include bits 53 and 54 of the old entry, so a page
    mapped with PXN or UXN keeps them whatever attributes are asked for. *)
Theorem mmu_update_keeps_xn s own root va attrs old b :
  tables_ok s own → own !! root = Some 3%nat → is_u64 va → b = 53 ∨ b = 54 →
  walk (mem s) root (vpn va) = Some old → Z.testbit old b = true →
  ∃ s' new, mmu_update_page_attrs root va attrs s = Some (0, s') ∧
    walk (mem s') root (vpn va) = Some new ∧ Z.testbit new b = true.
Proof.
  intros Hok Hr Hva Hb Hw Hbit.
  destruct (wp_mmu_update_page_attrs s own root va attrs Hok Hr Hva)
    as (r & s' & Hrun & _ & _ & Hres & Hall). rewrite Hw in Hres. subst r.
  exists s', (leaf_update old attrs). split_and!; [done| |].
  - rewrite Hall by (done || apply vpn_range). by rewrite bool_decide_true, Hw by done.
  - unfold leaf_update. rewrite !Z.lor_spec, Z.land_spec, Hbit. unfold u64.
    rewrite testbit_u by lia. change 4095 with (2 ^ 12 - 1).
    replace (2 ^ 12 - 1) with (Z.ones 12) by (by vm_compute).
    rewrite Z.lnot_spec, Z.ones_spec_high by lia. destruct (Z.ltb_spec b 64); [done|lia].
Qed.

(** The demo tables with one page mapped execute-never. *)
Lemma demo_mapped :
  ∃ s own, tables_ok s own ∧ own !! demo_root = Some 3%nat ∧
    walk (mem s) demo_root (vpn 0x1000) = Some (leaf_map 0x40001000 (Z.lor init_attrs (2 ^ 54))).
Proof.
  destruct (wp_mmu_map_page demo_mmu {[demo_root := 3%nat]} demo_root 0x1000 0x40001000
    (Z.lor init_attrs (2 ^ 54)) demo_tables demo_own ltac:(by split) (leaf_map_valid _ _))
    as (r & s' & Hrun & own' & Hok & [Hsub _] & _ & Hc).
  assert (Hr : r = 0).
  { assert (Hf : fst <$> mmu_map_page demo_root 0x1000 0x40001000 (Z.lor init_attrs (2 ^ 54)) demo_mmu
      = Some 0) by (vm_compute; reflexivity). rewrite Hrun in Hf. by injection Hf. }
  destruct Hc as [[_ Hw]|[? _]]; [|lia]. exists s', own'.
  split; [exact Hok|]. split; [eapply lookup_weaken; [apply demo_own|exact Hsub]|].
  rewrite Hw; [|apply demo_own|apply vpn_range].
  rewrite bool_decide_true; [reflexivity|split; reflexivity].
Qed.

Lemma mmu_update_keeps_xn_witness :
  ∃ s s' new, mmu_update_page_attrs demo_root 0x1000 init_attrs s = Some (0, s') ∧
    walk (mem s') demo_root (vpn 0x1000) = Some new ∧ Z.testbit new 54 = true ∧
    Z.testbit init_attrs 54 = false.
Proof.
  destruct demo_mapped as (s & own & Hok & Hr & Hw).
  destruct (mmu_update_keeps_xn s own demo_root 0x1000 init_attrs _ 54 Hok Hr ltac:(by split)
    ltac:(by right) Hw ltac:(reflexivity)) as (s' & new & H1 & H2 & H3).
  exists s, s', new. split; [exact H1|]. split; [exact H2|]. split; [exact H3|reflexivity].
Defined.
