(* ===== verification/VmmClaims.v ===== *)
(** * The virtual memory manager: theorems

    Refinement of the region list by [vmm_map], [vmm_unmap], [vmm_protect],
    [vmm_virt_to_phys] and [vmm_dump], for any page tables that satisfy the
    interface, and the two cases in which the manager leaves its contract.  The
    witnesses run it on the page tables of [Mmu]. *)
From stdpp Require Import base gmap list option numbers sorting.
From S2P Require Import Prelude Spinlock RBHeap RBTree RBInsert RBDelete.
From S2P Require Import Pmm MmuIface Vmm VmmTree VmmThm Mmu MmuThm.
#[local] Open Scope Z_scope.
Import Vmm.

(** ** A boot state *)

Definition zero_node : node vma := Node None None None RB_RED (Vma 0 0 0 0).
Definition bss_pool : gmap Z (node vma) :=
  list_to_map ((λ i, (i, zero_node)) <$> seqZ 0 256).
Definition bss (m : Mmu.mmu) : vmm Mmu.mmu := {|
  vmm_lock := 0; vmm_daif := 0; vma_tree := {| heap := bss_pool; root := None |};
  vma_free_list := None; initialized := false; console := []; mmu := m |}.

Lemma bss_pool_dom i : 0 ≤ i < 256 → is_Some (bss_pool !! i).
Proof.
  intros Hi. exists zero_node. unfold bss_pool. apply elem_of_list_to_map_1.
  - rewrite <-list_fmap_compose. apply NoDup_fmap_2; [by intros x y|apply NoDup_seqZ].
  - apply list_elem_of_fmap. exists i. split; [done|]. apply elem_of_seqZ. lia.
Qed.

Lemma demo_inv : mmu_inv demo_mmu.
Proof. exists {[demo_root := 3%nat]}. split; [apply demo_tables|]. intros _. apply demo_own. Qed.

Lemma demo_boot : ∃ s : vmm Mmu.mmu, vmm_abs s [] ∧ mmu s = demo_mmu.
Proof.
  destruct (wp_vmm_init (bss demo_mmu)) as (r & s & _ & _ & Habs & Hm & _);
    [done|apply bss_pool_dom|apply demo_inv|]. by exists s.
Qed.

Section claims.
Context {M : Type} `{!MmuOps M, !MmuLaws M}.
Implicit Types (s : vmm M) (l : list vma).

(** [vmm_init] on a zeroed pool returns 0 and establishes the
    representation of the empty set of regions. *)
Theorem vmm_init_correct s :
  vma_free_list s = None → (∀ i, 0 ≤ i < 256 → is_Some (heap (vma_tree s) !! i)) →
  mmu_inv (mmu s) →
  ∃ s', vmm_init s = Some (0, s') ∧ vmm_abs s' [] ∧ mmu s' = mmu s ∧ vmm_daif s' = vmm_daif s.
Proof.
  intros H1 H2 H3. destruct (wp_vmm_init s H1 H2 H3) as (r & s' & Hrun & -> & H). by exists s'.
Qed.

(** C18: [vmm_map] refines insertion into a set of disjoint regions.  With room
    in the pool and a region that ends below the top of the address space it
    returns -1 for an empty region, -2 for a misaligned argument, -3 exactly
    when some region meets the new one (checking the two neighbours suffices),
    and 0 otherwise; on an error the state is unchanged, on success the region
    list gains the region at its place, the page tables change only inside the
    region and take at most three frames for each page of it, and with the upper
    tables installed each page of the region (of at most 2^48 bytes) maps to its
    frame with the requested attributes; a page is left as it was only when not
    a single free frame is left.  Without upper tables (TTBR1 is 0) only the region
    is recorded. *)
Theorem vmm_map_correct s l va pa size attrs :
  vmm_abs s l → (length l < 256)%nat → is_u64 va → is_u64 pa → 0 ≤ size → va + size < 2 ^ 64 →
  ∃ r s', vmm_map va pa size attrs s = Some (r, s') ∧
    (r, (map_spec va pa size attrs l).2) = map_spec va pa size attrs l ∧
    vmm_abs s' (map_spec va pa size attrs l).2 ∧ vmm_daif s' = vmm_daif s ∧
    (r ≠ 0 → s' = s) ∧
    (r = 0 → tables_step 3 va size (mapped_at pa attrs (mmu s) va size) (mmu s) (mmu s')).
Proof.
  intros H1 H2 H3 H4 H5 H6.
  destruct (wp_vmm_map s l va pa size attrs H1 H2 H3 H4 H5 H6) as (r & s' & Hrun & -> & H).
  eexists _, s'. split; [exact Hrun|]. split; [|exact H]. by destruct (map_spec va pa size attrs l).
Qed.

(** C19: [vmm_unmap] refines removal: -1 and -2 for bad arguments, -3 unless a
    region starts at [va] and has exactly [size] bytes, and then 0: that region
    is gone, every other one is kept, and no page of it translates any more. *)
Theorem vmm_unmap_correct s l va size :
  vmm_abs s l →
  ∃ r s', vmm_unmap va size s = Some (r, s') ∧
    (r, (unmap_spec va size l).2) = unmap_spec va size l ∧
    vmm_abs s' (unmap_spec va size l).2 ∧ vmm_daif s' = vmm_daif s ∧
    (r ≠ 0 → s' = s) ∧
    (r = 0 → tables_step 0 va size (λ m' i, mmu_walk m' (page_at va i) = None) (mmu s) (mmu s')).
Proof.
  intros H1. destruct (wp_vmm_unmap s l va size H1) as (r & s' & Hrun & -> & H).
  eexists _, s'. split; [exact Hrun|]. split; [|exact H]. by destruct (unmap_spec va size l).
Qed.

(** [vmm_protect] refines the attribute update of one region, with the same
    error codes; each mapped page of the region gets its entry rewritten with
    the new attributes, and no other page changes. *)
Theorem vmm_protect_correct s l va size attrs :
  vmm_abs s l →
  ∃ r s', vmm_protect va size attrs s = Some (r, s') ∧
    (r, (protect_spec va size attrs l).2) = protect_spec va size attrs l ∧
    vmm_abs s' (protect_spec va size attrs l).2 ∧ vmm_daif s' = vmm_daif s ∧
    (r ≠ 0 → s' = s) ∧
    (r = 0 → tables_step 0 va size (protected_at attrs (mmu s) va size) (mmu s) (mmu s')).
Proof.
  intros H1. destruct (wp_vmm_protect s l va size attrs H1) as (r & s' & Hrun & -> & H).
  eexists _, s'. split; [exact Hrun|]. split; [|exact H]. by destruct (protect_spec va size attrs l).
Qed.

(** C28: [vmm_virt_to_phys] with a non-null result pointer returns 0, leaves the
    state as it was, and stores the translation through the region that covers
    the address, found in the tree, or the address itself when no region does. *)
Theorem vmm_virt_to_phys_correct s l va :
  vmm_abs s l → is_u64 va →
  vmm_virt_to_phys va true s = Some ((0, Some (translate_spec va l)), s).
Proof.
  intros H1 H2. destruct (wp_vmm_virt_to_phys s l va H1 H2) as (r & s' & Hrun & -> & ->). done.
Qed.

(** [vmm_dump] prints every region once, in ascending address order. *)
Theorem vmm_dump_sorted s l :
  vmm_abs s l →
  vmm_dump s = Some (tt, set_console (console s ++ (dump_line <$> l)) s) ∧
  StronglySorted before l.
Proof.
  intros H1. split.
  - destruct (wp_vmm_dump s l H1) as ([] & s' & Hrun & ->). done.
  - destruct H1 as (t & free & Hrep & <-). apply (pr_regions _ _ _ _ (vr_pool _ _ _ Hrep)).
Qed.

(** ** Sequences of calls *)

Inductive vmm_op :=
  | OMap (va pa size attrs : Z)
  | OUnmap (va size : Z)
  | OProtect (va size attrs : Z).

Definition run_op (o : vmm_op) : ST (vmm M) Z :=
  match o with
  | OMap va pa size attrs => vmm_map va pa size attrs
  | OUnmap va size => vmm_unmap va size
  | OProtect va size attrs => vmm_protect va size attrs
  end.
Definition spec_op (o : vmm_op) : list vma → Z * list vma :=
  match o with
  | OMap va pa size attrs => map_spec va pa size attrs
  | OUnmap va size => unmap_spec va size
  | OProtect va size attrs => protect_spec va size attrs
  end.
Definition op_args (o : vmm_op) (l : list vma) : Prop :=
  match o with
  | OMap va pa size attrs =>
      (length l < 256)%nat ∧ is_u64 va ∧ is_u64 pa ∧ 0 ≤ size ∧ va + size < 2 ^ 64
  | _ => True
  end.

Fixpoint run_ops (os : list vmm_op) : ST (vmm M) (list Z) :=
  match os with
  | [] => mret []
  | o :: os => r ← run_op o; rs ← run_ops os; mret (r :: rs)
  end.
Fixpoint spec_ops (os : list vmm_op) (l : list vma) : list Z * list vma :=
  match os with
  | [] => ([], l)
  | o :: os => let '(r, l) := spec_op o l in let '(rs, l) := spec_ops os l in (r :: rs, l)
  end.
Fixpoint ops_args (os : list vmm_op) (l : list vma) : Prop :=
  match os with
  | [] => True
  | o :: os => op_args o l ∧ ops_args os (spec_op o l).2
  end.

Lemma wp_vmm_run_op o s l :
  vmm_abs s l → op_args o l →
  wp (run_op o) (λ r s', r = (spec_op o l).1 ∧ vmm_abs s' (spec_op o l).2) s.
Proof.
  intros Habs Hargs. destruct o as [va pa size attrs|va size|va size attrs]; simpl in *.
  - destruct Hargs as (H1 & H2 & H3 & H4 & H5).
    eapply wp_mono; [by apply wp_vmm_map|]. intros r s' (-> & H & _). done.
  - eapply wp_mono; [by apply wp_vmm_unmap|]. intros r s' (-> & H & _). done.
  - eapply wp_mono; [by apply wp_vmm_protect|]. intros r s' (-> & H & _). done.
Qed.

Lemma wp_run_ops os s l :
  vmm_abs s l → ops_args os l →
  wp (run_ops os) (λ rs s', rs = (spec_ops os l).1 ∧ vmm_abs s' (spec_ops os l).2) s.
Proof.
  revert s l. induction os as [|o os IH]; intros s l Habs Hargs; simpl; [by apply wp_ret|].
  destruct Hargs as [Ho Hos]. apply wp_bind. eapply wp_mono; [by apply wp_vmm_run_op|].
  simpl. intros r s1 [-> Habs1]. apply wp_bind. eapply wp_mono; [by apply IH|].
  simpl. intros rs s2 [-> Habs2]. apply wp_ret.
  destruct (spec_op o l) as [r l1]; simpl in *. by destruct (spec_ops os l1).
Qed.

Lemma abs_regions s l : vmm_abs s l → regions l.
Proof. intros (t & free & Hrep & <-). apply (pr_regions _ _ _ _ (vr_pool _ _ _ Hrep)). Qed.

(** C13: any sequence of map, unmap and protect calls returns the codes of the
    list specification, call by call, and the regions tracked afterwards are
    sorted, page-aligned, non-empty and pairwise disjoint. *)
Theorem vmm_trace_refines os s l :
  vmm_abs s l → ops_args os l →
  ∃ s', run_ops os s = Some ((spec_ops os l).1, s') ∧
    vmm_abs s' (spec_ops os l).2 ∧ regions (spec_ops os l).2.
Proof.
  intros Habs Hargs. destruct (wp_run_ops os s l Habs Hargs) as (rs & s' & Hrun & -> & Habs').
  exists s'. split_and!; [done|done|by eapply abs_regions].
Qed.

Lemma vinsert_filter v l :
  regions l → (∀ w, w ∈ l → vma_va w ≠ vma_va v) →
  filter (λ w, vma_va w ≠ vma_va v) (vinsert v l) = l.
Proof.
  intros _. induction l as [|w l IH]; intros Hne; simpl.
  - rewrite filter_cons_False by naive_solver. done.
  - assert (Hw : vma_va w ≠ vma_va v) by (apply Hne; by left).
    assert (Hl : filter (λ w, vma_va w ≠ vma_va v) l = l).
    { apply filter_other, Forall_forall. intros x Hx. apply Hne. by right. }
    destruct (vma_va v <? vma_va w).
    + rewrite filter_cons_False, filter_cons_True by naive_solver. by rewrite Hl.
    + rewrite filter_cons_True by done. rewrite IH; [done|]. intros x Hx. apply Hne. by right.
Qed.

Lemma vinsert_elem v l : v ∈ vinsert v l.
Proof.
  induction l as [|w l IH]; simpl; [by left|].
  destruct (vma_va v <? vma_va w); [by left|by right].
Qed.

(** Mapping and then unmapping a region gives back the region list, returns
    0 both times, and leaves no page of the region translated. *)
Theorem vmm_map_unmap s l va pa size attrs :
  vmm_abs s l → (length l < 256)%nat → is_u64 va → is_u64 pa → 0 < size → va + size < 2 ^ 64 →
  (map_spec va pa size attrs l).1 = 0 →
  ∃ s1 s2, vmm_map va pa size attrs s = Some (0, s1) ∧ vmm_unmap va size s1 = Some (0, s2) ∧
    vmm_abs s2 l ∧
    (mmu_ttbr1 (mmu s1) ≠ 0 → ∀ i, 0 ≤ i < size / 4096 → mmu_walk (mmu s2) (page_at va i) = None).
Proof.
  intros Habs Hlen Hva Hpa Hsz Hend Hok. pose proof (abs_regions s l Habs) as Hreg.
  destruct (wp_vmm_map s l va pa size attrs Habs Hlen Hva Hpa ltac:(lia) Hend)
    as (r & s1 & Hrun1 & -> & Habs1 & _). rewrite Hok in Hrun1.
  pose proof (abs_regions _ _ Habs1) as Hreg1.
  destruct (wp_vmm_unmap s1 _ va size Habs1) as (r2 & s2 & Hrun2 & -> & Habs2 & _ & _ & Ht).
  revert Hok Hrun2 Habs2 Ht Hreg1. unfold map_spec, unmap_spec.
  destruct (Z.eqb_spec size 0) as [?|_]; [lia|].
  destruct (aligned va && aligned pa && aligned size) eqn:Hal; simpl; [|done].
  destruct (existsb (meets va size) l) eqn:Hex; simpl; [done|]. intros _.
  apply andb_prop in Hal as [[-> _]%andb_prop ->]. simpl.
  set (v := Vma va pa size attrs). intros Hrun2 Habs2 Ht Hreg1.
  assert (Hne : ∀ w, w ∈ l → vma_va w ≠ vma_va v).
  { intros w Hw Heq. apply not_true_iff_false in Hex. apply Hex, existsb_exists. exists w.
    split; [by apply list_elem_of_In|]. pose proof (regions_ok _ _ Hreg Hw) as [_ Hs _ _ _ _].
    apply meets_spec. unfold vma_end. simpl in Heq. lia. }
  rewrite (exact_found (vinsert v l) v va size) in * by (done || apply vinsert_elem).
  simpl in *. rewrite Z.eqb_refl in *. simpl in *. exists s1, s2. split_and!; [done|done| |].
  - by rewrite <-(vinsert_filter v l Hreg Hne).
  - intros Htt i Hi. by apply Ht.
Qed.

End claims.

(** ** Leaving the contract *)

Section exhausted.
Context {M : Type} `{!MmuOps M, !MmuLaws M}.
Implicit Types (s : vmm M).

Lemma pool_dom s t free i :
  vmm_rep s t free → 0 ≤ i < 256 → is_Some (heap (vma_tree s) !! i).
Proof.
  intros Hrep Hi. pose proof (vr_pool _ _ _ Hrep) as [(_ & Hr & _) _ _ _ Hf Hp].
  assert (Hin : i ∈ ptrs t ++ free) by (rewrite Hp; apply elem_of_seqZ; lia).
  apply elem_of_app in Hin as [Hin|Hin].
  - apply list_elem_of_fmap in Hin as ([p d] & -> & Hin).
    destruct (rep_elem _ _ _ _ _ Hr Hin) as (n & Hn & _). by exists n.
  - clear Hrep Hp Hi. revert Hf Hin. generalize (vma_free_list s). induction free as [|x free IH]; intros p.
    + by intros _ ?%elem_of_nil.
    + intros [-> (n & Hn & Hc)] [->|Hin]%elem_of_cons; [by exists n|by eapply IH].
Qed.

(** Once all 256 nodes are in use, [vma_alloc_node] does not report
    exhaustion: its [initialized] flag is still clear after [vmm_init], so it
    threads the whole pool onto the free list again and hands out node 255,
    which is in the tree. *)
Theorem vma_alloc_exhausted s t :
  vmm_rep s t [] → initialized s = false →
  ∃ s', vma_alloc_node s = Some (Some 255, s') ∧ 255 ∈ ptrs t.
Proof.
  intros Hrep Hini. pose proof (vr_pool _ _ _ Hrep) as Hpool.
  assert (Hin : 255 ∈ ptrs t).
  { pose proof (pr_pool _ _ _ _ Hpool) as Hp. rewrite app_nil_r in Hp. rewrite Hp.
    apply elem_of_seqZ. lia. }
  enough (Hwp : wp vma_alloc_node (λ p _, p = Some 255) s).
  { destruct Hwp as (p & s' & Hrun & ->). by exists s'. }
  pose proof (pr_free _ _ _ _ Hpool) as Hfl. simpl in Hfl.
  unfold vma_alloc_node. apply wp_bind, wp_gets. rewrite Hfl. simpl is_null. cbv iota.
  apply wp_bind, wp_bind, wp_gets. rewrite Hini. cbn [negb when].
  apply wp_bind, wp_bind, wp_init_vma_pool; [done|intros i Hi; by eapply pool_dom|].
  intros tr fl _ Hc. destruct (rev (seqZ 0 256)) as [|p free] eqn:Hrev; [by vm_compute in Hrev|].
  assert (p = 255) as -> by (vm_compute in Hrev; congruence). clear Hrev.
  destruct Hc as [-> (n & Hn & _)].
  apply wp_modify, wp_bind, wp_gets. simpl. apply wp_ret. apply wp_bind, wp_gets. simpl.
  unfold on_tree. apply wp_bind, wp_zoom. eapply wp_rd; [exact Hn|].
  apply wp_bind, wp_modify. apply wp_bind, wp_zoom. simpl.
  apply wp_bind. eapply wp_wr; [exact Hn|].
  apply wp_bind. eapply wp_wr; [by apply lookup_insert_eq|].
  eapply wp_wr; [by apply lookup_insert_eq|].
  apply wp_bind, wp_zoom. eapply wp_wr; [by apply lookup_insert_eq|]. by apply wp_ret.
Qed.
End exhausted.

(** The page tables before [mmu_enable]: TTBR1 is 0 and only the tree is kept. *)
Definition demo_off : Mmu.mmu := {|
  Mmu.pmm_st := demo_pmm; Mmu.mem := λ _, 0; Mmu.ttbr0_pgd := 0; Mmu.ttbr1_pgd := 0;
  Mmu.mair_el1 := 0; Mmu.tcr_el1 := 0; Mmu.ttbr0_el1 := 0; Mmu.ttbr1_el1 := 0;
  Mmu.sctlr_el1 := 0; Mmu.issued := [] |}.

(** The overlap test wraps at the top of the address space: a region whose
    end is 2^64 overlaps nothing, so the last page can be mapped twice, to two
    frames, and both calls return 0. *)
Theorem vmm_map_top_twice :
  fst <$> (r0 ← vmm_init; r1 ← vmm_map 0xFFFFFFFFFFFFF000 0x1000 0x1000 VMM_ATTR_R;
           r2 ← vmm_map 0xFFFFFFFFFFFFF000 0x2000 0x1000 VMM_ATTR_R;
           mret [r0; r1; r2]) (bss demo_off) = Some [0; 0; 0].
Proof. vm_compute. reflexivity. Qed.

(** ** Witnesses *)

Definition demo_vma : vma := Vma 0xFFFFFF8000000000 0x40001000 0x2000 3.

Lemma demo_one : ∃ s : vmm Mmu.mmu, vmm_abs s [demo_vma].
Proof.
  destruct demo_boot as (s & Habs & _).
  destruct (wp_vmm_map s [] 0xFFFFFF8000000000 0x40001000 0x2000 3 Habs)
    as (r & s' & _ & _ & Habs' & _); [simpl; lia|by split|by split|lia|by vm_compute|].
  by exists s'.
Qed.

Lemma vmm_init_correct_witness :
  ∃ s', vmm_init (bss demo_mmu) = Some (0, s') ∧ vmm_abs s' [].
Proof.
  destruct (vmm_init_correct (bss demo_mmu)) as (s' & H1 & H2 & _);
    [reflexivity|apply bss_pool_dom|apply demo_inv|]. exists s'. split; [exact H1|exact H2].
Defined.

Lemma vmm_map_correct_witness :
  ∃ s s' : vmm Mmu.mmu, vmm_abs s [] ∧
    vmm_map 0xFFFFFF8000000000 0x40001000 0x2000 3 s = Some (0, s') ∧ vmm_abs s' [demo_vma].
Proof.
  destruct demo_boot as (s & Habs & _).
  destruct (vmm_map_correct s [] 0xFFFFFF8000000000 0x40001000 0x2000 3 Habs)
    as (r & s' & Hrun & Hr & Habs' & _);
    [simpl; lia|split; [lia|reflexivity]|split; [lia|reflexivity]|lia|reflexivity|].
  exists s, s'. split; [exact Habs|]. injection Hr as ->. split; [exact Hrun|exact Habs'].
Defined.

Lemma vmm_unmap_correct_witness :
  ∃ s s' : vmm Mmu.mmu, vmm_abs s [demo_vma] ∧
    vmm_unmap 0xFFFFFF8000000000 0x2000 s = Some (0, s') ∧ vmm_abs s' [].
Proof.
  destruct demo_one as (s & Habs).
  destruct (vmm_unmap_correct s _ 0xFFFFFF8000000000 0x2000 Habs) as (r & s' & Hrun & Hr & Habs' & _).
  exists s, s'. split; [exact Habs|]. injection Hr as ->. split; [exact Hrun|exact Habs'].
Defined.

Lemma vmm_protect_correct_witness :
  ∃ s s' : vmm Mmu.mmu, vmm_abs s [demo_vma] ∧
    vmm_protect 0xFFFFFF8000000000 0x2000 1 s = Some (0, s') ∧
    vmm_abs s' [set_attrs 1 demo_vma].
Proof.
  destruct demo_one as (s & Habs).
  destruct (vmm_protect_correct s _ 0xFFFFFF8000000000 0x2000 1 Habs) as (r & s' & Hrun & Hr & Habs' & _).
  exists s, s'. split; [exact Habs|]. injection Hr as ->. split; [exact Hrun|exact Habs'].
Defined.

Lemma vmm_virt_to_phys_correct_witness :
  ∃ s : vmm Mmu.mmu, vmm_abs s [demo_vma] ∧
    vmm_virt_to_phys 0xFFFFFF8000001234 true s = Some ((0, Some 0x40002234), s).
Proof.
  destruct demo_one as (s & Habs). exists s. split; [exact Habs|].
  apply (vmm_virt_to_phys_correct s [demo_vma] 0xFFFFFF8000001234 Habs).
  split; [lia|reflexivity].
Defined.

Lemma vmm_dump_sorted_witness :
  ∃ s : vmm Mmu.mmu, vmm_abs s [demo_vma] ∧
    vmm_dump s = Some (tt, set_console (console s ++ [dump_line demo_vma]) s).
Proof.
  destruct demo_one as (s & Habs). exists s. split; [exact Habs|].
  apply (vmm_dump_sorted s [demo_vma] Habs).
Defined.

Lemma vmm_trace_refines_witness :
  ∃ s s' : vmm Mmu.mmu,
    run_ops [OMap 0x3000 0x1000 0x2000 1; OMap 0x4000 0 0x1000 1; OUnmap 0x3000 0x2000] s =
      Some ([0; -3; 0], s') ∧ vmm_abs s' [].
Proof.
  destruct demo_boot as (s & Habs & _).
  destruct (vmm_trace_refines
    [OMap 0x3000 0x1000 0x2000 1; OMap 0x4000 0 0x1000 1; OUnmap 0x3000 0x2000] s [] Habs)
    as (s' & Hrun & Habs' & _).
  - simpl. unfold is_u64. repeat split; lia.
  - exists s, s'. split; [exact Hrun|exact Habs'].
Defined.

Lemma vmm_map_unmap_witness :
  ∃ s s1 s2 : vmm Mmu.mmu, vmm_abs s [] ∧
    vmm_map 0xFFFFFF8000000000 0x40001000 0x2000 3 s = Some (0, s1) ∧
    vmm_unmap 0xFFFFFF8000000000 0x2000 s1 = Some (0, s2) ∧ vmm_abs s2 [].
Proof.
  destruct demo_boot as (s & Habs & _).
  destruct (vmm_map_unmap s [] 0xFFFFFF8000000000 0x40001000 0x2000 3 Habs)
    as (s1 & s2 & H1 & H2 & H3 & _);
    [simpl; lia|split; [lia|reflexivity]|split; [lia|reflexivity]|lia|reflexivity|reflexivity|].
  exists s, s1, s2. split; [exact Habs|]. split; [exact H1|]. split; [exact H2|exact H3].
Defined.

(** A full pool: 256 one-page regions. *)
Definition op_argsb (o : vmm_op) (l : list vma) : bool :=
  match o with
  | OMap va pa size attrs =>
      (length l <? 256)%nat && (0 <=? va) && (0 <=? pa) && (pa <? 2 ^ 64) && (0 <=? size) &&
      (va + size <? 2 ^ 64)
  | _ => true
  end.
Fixpoint ops_argsb (os : list vmm_op) (l : list vma) : bool :=
  match os with
  | [] => true
  | o :: os => op_argsb o l && ops_argsb os (spec_op o l).2
  end.

Lemma ops_argsb_sound os l : ops_argsb os l = true → ops_args os l.
Proof.
  revert l. induction os as [|o os IH]; intros l; simpl; [done|].
  intros [Ho Hos]%andb_prop. split; [|by apply IH].
  destruct o as [va pa size attrs| |]; [|done|done]. unfold op_argsb in Ho.
  rewrite !andb_true_iff, Nat.ltb_lt, !Z.leb_le, !Z.ltb_lt in Ho. unfold op_args, is_u64. lia.
Qed.

Definition fill_pool : list vmm_op := (λ i, OMap (i * 4096) 0 4096 1) <$> seqZ 0 256.

Lemma full_pool :
  ∃ (s : vmm Mmu.mmu) t, vmm_rep s t [] ∧ initialized s = false.
Proof.
  destruct (wp_vmm_init (bss demo_off)) as (r & s0 & Hrun0 & _ & Habs & _);
    [done|apply bss_pool_dom|exists ∅; split; [by split; [apply demo_pmm_ok|..]|done]|].
  assert (Hargs : ops_args fill_pool []) by (apply ops_argsb_sound; vm_compute; reflexivity).
  destruct (wp_run_ops fill_pool s0 [] Habs Hargs) as (rs & s & Hrun & _ & t & free & Hrep & Hl).
  assert (Hini : (λ x, initialized x.2) <$> (vmm_init;; run_ops fill_pool) (bss demo_off) = Some false)
    by (vm_compute; reflexivity).
  unfold mbind, st_bind in Hini. rewrite Hrun0, Hrun in Hini. injection Hini as Hini.
  assert (Hlen : length (spec_ops fill_pool []).2 = 256%nat) by (vm_compute; reflexivity).
  pose proof (pool_length _ _ (pr_pool _ _ _ _ (vr_pool _ _ _ Hrep))) as Hpl.
  rewrite <-Hl in Hlen. unfold vmas in Hlen. rewrite length_fmap in Hlen.
  destruct free as [|x free]; [|simpl in Hpl; lia]. exists s, t. split; [exact Hrep|exact Hini].
Qed.

Lemma vma_alloc_exhausted_witness :
  ∃ (s s' : vmm Mmu.mmu) t, vmm_rep s t [] ∧ vma_alloc_node s = Some (Some 255, s') ∧ 255 ∈ ptrs t.
Proof.
  destruct full_pool as (s & t & Hrep & Hini).
  destruct (vma_alloc_exhausted s t Hrep Hini) as (s' & H1 & H2).
  exists s, s', t. split; [exact Hrep|]. split; [exact H1|exact H2].
Defined.
