(* ===== verification/TaskDef.v ===== *)
(** * Tasks (include/kernel/sched/task.h)

    The task structure and the store of task structures: the scheduler, the
    task list and the run queue share the structures by pointer, so the model
    keeps them in one map from task pointers to contents. *)
From stdpp Require Import base gmap list option numbers.
From S2P Require Import Prelude.
#[local] Open Scope Z_scope.

Definition TASK_RUNNING : Z := 0.
Definition TASK_READY : Z := 1.
Definition TASK_BLOCKED : Z := 2.
Definition TASK_ZOMBIE : Z := 3.
Definition KERNEL_STACK_SIZE : Z := 16384.

(** [cpu_context_t]: the 34 words x0..x30, sp, pc, pstate, in order. *)
Definition cpu_context : Type := list Z.
Definition ctx_zero : cpu_context := repeat 0 34.
Definition ctx_get (i : nat) (c : cpu_context) : Z := default 0 (c !! i).
Definition ctx_set (i : nat) (v : Z) (c : cpu_context) : cpu_context := <[i := v]> c.
Definition X19 : nat := 19.
Definition X20 : nat := 20.
Definition X21 : nat := 21.
Definition X22 : nat := 22.
Definition X23 : nat := 23.
Definition X29 : nat := 29.
Definition X30 : nat := 30.
Definition SP : nat := 31.
Definition PC : nat := 32.
Definition PSTATE : nat := 33.

Record task := {
  pid : Z;
  state : Z;
  priority : Z;
  time_slice : Z;
  vruntime : Z;
  context : cpu_context;
  kernel_stack : Z;
  pgd : Z;
  next : option Z;
  prev : option Z;
}.

Definition set_pid (v : Z) (t : task) : task :=
  {| pid := v; state := state t; priority := priority t; time_slice := time_slice t;
     vruntime := vruntime t; context := context t; kernel_stack := kernel_stack t;
     pgd := pgd t; next := next t; prev := prev t |}.
Definition set_state (v : Z) (t : task) : task :=
  {| pid := pid t; state := v; priority := priority t; time_slice := time_slice t;
     vruntime := vruntime t; context := context t; kernel_stack := kernel_stack t;
     pgd := pgd t; next := next t; prev := prev t |}.
Definition set_priority (v : Z) (t : task) : task :=
  {| pid := pid t; state := state t; priority := v; time_slice := time_slice t;
     vruntime := vruntime t; context := context t; kernel_stack := kernel_stack t;
     pgd := pgd t; next := next t; prev := prev t |}.
Definition set_time_slice (v : Z) (t : task) : task :=
  {| pid := pid t; state := state t; priority := priority t; time_slice := v;
     vruntime := vruntime t; context := context t; kernel_stack := kernel_stack t;
     pgd := pgd t; next := next t; prev := prev t |}.
Definition set_vruntime (v : Z) (t : task) : task :=
  {| pid := pid t; state := state t; priority := priority t; time_slice := time_slice t;
     vruntime := v; context := context t; kernel_stack := kernel_stack t;
     pgd := pgd t; next := next t; prev := prev t |}.
Definition set_context (v : cpu_context) (t : task) : task :=
  {| pid := pid t; state := state t; priority := priority t; time_slice := time_slice t;
     vruntime := vruntime t; context := v; kernel_stack := kernel_stack t;
     pgd := pgd t; next := next t; prev := prev t |}.
Definition set_kernel_stack (v : Z) (t : task) : task :=
  {| pid := pid t; state := state t; priority := priority t; time_slice := time_slice t;
     vruntime := vruntime t; context := context t; kernel_stack := v;
     pgd := pgd t; next := next t; prev := prev t |}.
Definition set_pgd (v : Z) (t : task) : task :=
  {| pid := pid t; state := state t; priority := priority t; time_slice := time_slice t;
     vruntime := vruntime t; context := context t; kernel_stack := kernel_stack t;
     pgd := v; next := next t; prev := prev t |}.
Definition set_next (v : option Z) (t : task) : task :=
  {| pid := pid t; state := state t; priority := priority t; time_slice := time_slice t;
     vruntime := vruntime t; context := context t; kernel_stack := kernel_stack t;
     pgd := pgd t; next := v; prev := prev t |}.
Definition set_prev (v : option Z) (t : task) : task :=
  {| pid := pid t; state := state t; priority := priority t; time_slice := time_slice t;
     vruntime := vruntime t; context := context t; kernel_stack := kernel_stack t;
     pgd := pgd t; next := next t; prev := v |}.

(** [memset(task, 0, sizeof(task_t))] *)
Definition task_zero : task :=
  {| pid := 0; state := 0; priority := 0; time_slice := 0; vruntime := 0;
     context := ctx_zero; kernel_stack := 0; pgd := 0; next := None; prev := None |}.

(** A state that holds the task structures; the laws are those of a record
    field. *)
Class HasTasks (S : Type) := {
  tasks : S → gmap Z task;
  set_tasks : gmap Z task → S → S;
}.

Section ops.
Context {S : Type} `{!HasTasks S}.

(** [t->f] and [t->f = v] *)
Definition load_task (p : option Z) : ST S task := λ s,
  match p with
  | Some a => match tasks s !! a with Some t => Some (t, s) | None => None end
  | None => None
  end.
Definition trd {A} (f : task → A) (p : option Z) : ST S A := t ← load_task p; mret (f t).
Definition twr (f : task → task) (p : option Z) : ST S unit :=
  t ← load_task p; a ← deref p; modify (λ s, set_tasks (<[a := f t]> (tasks s)) s).

Lemma wp_trd {A} (f : task → A) s a t (Q : A → S → Prop) :
  tasks s !! a = Some t → Q (f t) s → wp (trd f (Some a)) Q s.
Proof. intros Ha HQ. exists (f t), s. unfold trd, load_task, mbind, st_bind. by rewrite Ha. Qed.

Lemma wp_twr (f : task → task) s a t (Q : unit → S → Prop) :
  tasks s !! a = Some t → Q tt (set_tasks (<[a := f t]> (tasks s)) s) → wp (twr f (Some a)) Q s.
Proof.
  intros Ha HQ. eexists tt, _. split; [|exact HQ].
  unfold twr, load_task, mbind, st_bind. by rewrite Ha.
Qed.
End ops.
