(* ===== verification/Eevdf.v ===== *)
(** * The EEVDF run queue (kernel/sched/eevdf.c): translation

    State: the run queue (tree root, leftmost node, minimum vruntime, total
    weight, length), the static pool of 64 tree nodes with its allocation
    bitmap, and the task structures.  The tree stores task pointers; the key
    of a node is the [vruntime] of its task, read through the pointer. *)
From stdpp Require Import base gmap list option numbers.
From S2P Require Import Prelude RBHeap TaskDef.
#[local] Open Scope Z_scope.

Module Eevdf.

Definition EEVDF_MIN_GRANULARITY : Z := 750000.
Definition EEVDF_TARGET_LATENCY : Z := 6000000.
Definition EEVDF_NICE_0_LOAD : Z := 1024.
Definition EEVDF_MIN_NICE : Z := -20.
Definition EEVDF_MAX_NICE : Z := 19.
Definition EEVDF_TIME_SLICE_NS : Z := 4 * 1000000.
Definition EEVDF_MAX_TIME_SLICE_NS : Z := 100 * 1000000.

Definition eevdf_nice_to_weight : list Z :=
  [ 88761; 71755; 56483; 46273; 36291; 29154; 23254; 18705; 14949; 11916;
    9548;  7620;  6100;  4904;  3906;  3121;  2501;  1991;  1586;  1277;
    1024;  820;   655;   526;   423;   335;   272;   215;   172;   137;
    110;   87;    70;    56;    45;    36;    29;    23;    18;    15 ].
(** [2 ^ 32] over the weight, to within one; nothing reads it. *)
Definition eevdf_nice_to_wmult : list Z :=
  [ 48388;     59856;     76040;     92818;     118348;    147320;    184698;    229616;
    287308;    360437;    449829;    563644;    704093;    875809;    1099582;   1376151;
    1717300;   2157191;   2708050;   3363326;   4194304;   5237765;   6557202;   8165337;
    10153587;  12820798;  15790321;  19976592;  24970740;  31350126;  39045157;  49367440;
    61356676;  76695844;  95443717;  119304647; 148102320; 186737708; 238609294; 286331153 ].

(** A tree node's payload is the [task] pointer. *)
Record eevdf := {
  rq : rbst (option Z);
  leftmost : ptr;
  min_vruntime : Z;
  load_weight : Z;
  nr_running : Z;
  node_bitmap : list Z;
  etasks : gmap Z task;
}.

Definition set_rq (v : rbst (option Z)) (s : eevdf) : eevdf :=
  {| rq := v; leftmost := leftmost s; min_vruntime := min_vruntime s;
     load_weight := load_weight s; nr_running := nr_running s;
     node_bitmap := node_bitmap s; etasks := etasks s |}.
Definition set_leftmost (v : ptr) (s : eevdf) : eevdf :=
  {| rq := rq s; leftmost := v; min_vruntime := min_vruntime s;
     load_weight := load_weight s; nr_running := nr_running s;
     node_bitmap := node_bitmap s; etasks := etasks s |}.
Definition set_min_vruntime (v : Z) (s : eevdf) : eevdf :=
  {| rq := rq s; leftmost := leftmost s; min_vruntime := v;
     load_weight := load_weight s; nr_running := nr_running s;
     node_bitmap := node_bitmap s; etasks := etasks s |}.
Definition set_load_weight (v : Z) (s : eevdf) : eevdf :=
  {| rq := rq s; leftmost := leftmost s; min_vruntime := min_vruntime s;
     load_weight := v; nr_running := nr_running s;
     node_bitmap := node_bitmap s; etasks := etasks s |}.
Definition set_nr_running (v : Z) (s : eevdf) : eevdf :=
  {| rq := rq s; leftmost := leftmost s; min_vruntime := min_vruntime s;
     load_weight := load_weight s; nr_running := v;
     node_bitmap := node_bitmap s; etasks := etasks s |}.
Definition set_node_bitmap (v : list Z) (s : eevdf) : eevdf :=
  {| rq := rq s; leftmost := leftmost s; min_vruntime := min_vruntime s;
     load_weight := load_weight s; nr_running := nr_running s;
     node_bitmap := v; etasks := etasks s |}.
Definition set_etasks (v : gmap Z task) (s : eevdf) : eevdf :=
  {| rq := rq s; leftmost := leftmost s; min_vruntime := min_vruntime s;
     load_weight := load_weight s; nr_running := nr_running s;
     node_bitmap := node_bitmap s; etasks := v |}.

#[export] Instance eevdf_has_tasks : HasTasks eevdf :=
  {| tasks := etasks; set_tasks := set_etasks |}.

Definition on_rq {A} (m : ST (rbst (option Z)) A) : ST eevdf A := zoom rq set_rq m.

(** The tree has at most 64 nodes, so 200 iterations are more than any of its
    loops takes. *)
Definition rq_fuel : nat := 200.
#[global] Arguments rq_fuel : simpl never.

(** ** The node pool *)

Definition bit_of (i : Z) : Z := u64 (Z.shiftl 1 (i mod 64)).

Definition alloc_node : ST eevdf ptr :=
  r ← for_ret 64 0 (λ i,
    bm ← gets node_bitmap;
    w ← deref (bm !! Z.to_nat (i / 64));
    if Z.land w (bit_of i) =? 0 then
      modify (set_node_bitmap (<[Z.to_nat (i / 64) := Z.lor w (bit_of i)]> bm));;
      mret (Some (Some i))
    else mret None);
  mret (match r with Some p => p | None => None end).

(** [idx = node - node_pool]: every node pointer of the model is an index. *)
Definition free_node (node : ptr) : ST eevdf unit :=
  match node with
  | None => mret tt
  | Some idx =>
      if (idx <? 0) || (64 <=? idx) then mret tt
      else
        bm ← gets node_bitmap;
        w ← deref (bm !! Z.to_nat (idx / 64));
        modify (set_node_bitmap (<[Z.to_nat (idx / 64) :=
          Z.land w (u64 (Z.lnot (bit_of idx)))]> bm))
  end.

(** ** Tree surgery *)

Section tree.
Context {D : Type}.

(** As in mm/vmm.c, but [rotate_right] tests the parent's right link first. *)
Definition replace_child_r (u v : ptr) : ST (rbst D) unit :=
  up ← rd parent u;
  if is_null up then modify (set_root v)
  else
    upr ← rd right up;
    if ptr_eqb u upr then wr (set_right v) up else wr (set_left v) up.

Definition rotate_right (y : ptr) : ST (rbst D) unit :=
  x ← rd left y;
  xr ← rd right x;
  wr (set_left xr) y;;
  xr ← rd right x;
  link_parent xr y;;
  yp ← rd parent y;
  wr (set_parent yp) x;;
  replace_child_r y x;;
  wr (set_right y) x;;
  wr (set_parent x) y.

Definition rotate (sd : side) : ptr → ST (rbst D) unit :=
  match sd with L => rotate_left | R => rotate_right end.

(** [z->parent] and [z->parent->parent] are named [p] and [g], as in
    mm/vmm.c, whose loop this is; they are read again after the rotation. *)
Definition insert_fixup (fuel : nat) (z : ptr) : ST (rbst D) unit :=
  RBHeap.insert_fixup rotate fuel z.

Fixpoint rb_first_loop (fuel : nat) (root : ptr) : ST (rbst D) ptr :=
  match fuel with
  | O => undef
  | S fuel =>
      l ← rd left root;
      if is_null l then mret root else rb_first_loop fuel l
  end.
Definition rb_first (root : ptr) : ST (rbst D) ptr :=
  if is_null root then mret None else rb_first_loop rq_fuel root.

(** [w && (!w->near || black) && (!w->far || black)] *)
Definition both_black (sd : side) (w : ptr) : ST (rbst D) bool :=
  if is_null w then mret false
  else
    wn ← rd (child sd) w;
    nb ← is_black wn;
    if (nb : bool) then wf ← rd (child (opp sd)) w; is_black wf else mret false.

(** [w && (!w->far || black)] *)
Definition far_black (sd : side) (w : ptr) : ST (rbst D) bool :=
  if is_null w then mret false
  else wf ← rd (child (opp sd)) w; is_black wf.

(** One iteration of [delete_fixup] for an [x] that is the [sd] child of
    [parent]; the result is the new [x] and [parent]. *)
Definition delete_fixup_side (sd : side) (par : ptr) : ST (rbst D) (ptr * ptr) :=
  w ← rd (child (opp sd)) par;
  wred ← is_red w;
  w ← (if (wred : bool) then
         wr (set_color RB_BLACK) w;;
         wr (set_color RB_RED) par;;
         rotate sd par;;
         rd (child (opp sd)) par
       else mret w);
  bb ← both_black sd w;
  if (bb : bool) then
    wr_if (set_color RB_RED) w;;
    pp ← rd parent par;
    mret (par, pp)
  else
    fb ← far_black sd w;
    w ← (if (fb : bool) then
           wn ← rd (child sd) w;
           wr_if (set_color RB_BLACK) wn;;
           wr (set_color RB_RED) w;;
           rotate (opp sd) w;;
           rd (child (opp sd)) par
         else mret w);
    when (negb (is_null w)) (
      pc ← rd ncolor par;
      wr (set_color pc) w;;
      wr (set_color RB_BLACK) par;;
      wf ← rd (child (opp sd)) w;
      wr_if (set_color RB_BLACK) wf);;
    rotate sd par;;
    x ← gets root;
    mret (x, par).

Fixpoint delete_fixup (fuel : nat) (x par : ptr) : ST (rbst D) unit :=
  match fuel with
  | O => undef
  | S fuel =>
      r ← gets root;
      xb ← is_black x;
      if negb (ptr_eqb x r) && (xb : bool) then
        pl ← rd left par;
        next ← (if ptr_eqb x pl then delete_fixup_side L par else delete_fixup_side R par);
        let '(x, par) := next in
        delete_fixup fuel x par
      else wr_if (set_color RB_BLACK) x
  end.

Fixpoint leftmost_of (fuel : nat) (y : ptr) : ST (rbst D) ptr :=
  match fuel with
  | O => undef
  | S fuel => l ← rd left y; if is_null l then mret y else leftmost_of fuel l
  end.

(** The unlinking part of [eevdf_dequeue]: [x], [x_parent] and [y_color]. *)
Definition unlink (node : ptr) : ST (rbst D) (ptr * ptr * color) :=
  y_color ← rd ncolor node;
  nl ← rd left node;
  nr ← rd right node;
  if is_null nl then
    x_parent ← rd parent node;
    replace_child node nr;;
    np ← rd parent node;
    link_parent nr np;;
    mret (nr, x_parent, y_color)
  else if is_null nr then
    x_parent ← rd parent node;
    replace_child node nl;;
    np ← rd parent node;
    wr (set_parent np) nl;;
    mret (nl, x_parent, y_color)
  else
    y ← leftmost_of rq_fuel nr;
    y_color ← rd ncolor y;
    x ← rd right y;
    yp ← rd parent y;
    x_parent ← (if ptr_eqb yp node then mret y
                else
                  link_parent x yp;;
                  wr (set_left x) yp;;
                  nr ← rd right node;
                  wr (set_right nr) y;;
                  yr ← rd right y;
                  wr (set_parent y) yr;;
                  rd parent y);
    replace_child node y;;
    np ← rd parent node;
    wr (set_parent np) y;;
    nc ← rd ncolor node;
    wr (set_color nc) y;;
    nl ← rd left node;
    wr (set_left nl) y;;
    yl ← rd left y;
    wr (set_parent y) yl;;
    mret (x, x_parent, y_color).

(** The successor of a leftmost node without right child: climb while coming
    from the right. *)
Fixpoint climb (fuel : nat) (current par : ptr) : ST (rbst D) ptr :=
  match fuel with
  | O => undef
  | S fuel =>
      if is_null par then mret par
      else
        pr ← rd right par;
        if ptr_eqb current pr then
          pp ← rd parent par;
          climb fuel par pp
        else mret par
  end.
End tree.

(** ** Operations *)

Definition weight_of (prio : Z) : option Z :=
  if prio + 20 <? 0 then None else eevdf_nice_to_weight !! Z.to_nat (prio + 20).

Definition eevdf_init : ST eevdf unit := modify (λ s,
  {| rq := {| heap := (λ _, Node None None None RB_BLACK None) <$> heap (rq s); root := None |};
     leftmost := None; min_vruntime := 0; load_weight := 0; nr_running := 0;
     node_bitmap := [0; 0]; etasks := etasks s |}).

Inductive link := LRoot | LChild (sd : side) (p : ptr).
Definition read_link (k : link) : ST (rbst (option Z)) ptr :=
  match k with LRoot => gets root | LChild sd p => rd (child sd) p end.
Definition write_link (k : link) (v : ptr) : ST (rbst (option Z)) unit :=
  match k with LRoot => modify (set_root v) | LChild sd p => wr (set_child sd v) p end.

Fixpoint find_link (fuel : nat) (task : ptr) (k : link) (par : ptr) (leftm : bool)
    : ST eevdf (link * ptr * bool) :=
  match fuel with
  | O => undef
  | S fuel =>
      cur ← on_rq (read_link k);
      if is_null cur then mret (k, par, leftm)
      else
        v ← trd vruntime task;
        pt ← on_rq (rd data cur);
        pv ← trd vruntime pt;
        if v <? pv then find_link fuel task (LChild L cur) cur leftm
        else find_link fuel task (LChild R cur) cur false
  end.

Definition eevdf_enqueue (task : ptr) : ST eevdf unit :=
  skip ← (if is_null task then mret true
          else st ← trd state task; mret (negb (st =? TASK_READY)));
  if (skip : bool) then mret tt
  else
    v ← trd vruntime task;
    mv ← gets min_vruntime;
    when (v <? mv) (twr (set_vruntime mv) task);;
    node ← alloc_node;
    if is_null node then mret tt
    else
      on_rq (wr (set_data task) node;;
             wr (set_parent None) node;;
             wr (set_right None) node;;
             wr (set_left None) node;;
             wr (set_color RB_RED) node);;
      lk ← find_link rq_fuel task LRoot None true;
      let '(k, par, leftm) := lk in
      when leftm (modify (set_leftmost node));;
      on_rq (wr (set_parent par) node;;
             write_link k node;;
             insert_fixup rq_fuel node);;
      prio ← trd priority task;
      weight ← deref (weight_of prio);
      modify (λ s, set_load_weight (u32 (load_weight s + weight)) s);;
      modify (λ s, set_nr_running (u32 (nr_running s + 1)) s).

(** The scan of the pool for the node of a task. *)
Definition find_node (task : ptr) : ST eevdf ptr :=
  r ← for_ret 64 0 (λ i,
    bm ← gets node_bitmap;
    w ← deref (bm !! Z.to_nat (i / 64));
    if negb (Z.land w (bit_of i) =? 0) then
      t ← on_rq (rd data (Some i));
      if ptr_eqb t task then mret (Some (Some i)) else mret None
    else mret None);
  mret (match r with Some p => p | None => None end).

Definition eevdf_dequeue (task : ptr) : ST eevdf unit :=
  if is_null task then mret tt
  else
    node ← find_node task;
    if is_null node then mret tt
    else
      lm ← gets leftmost;
      when (ptr_eqb lm node) (
        nr ← on_rq (rd right node);
        lm' ← (if negb (is_null nr) then on_rq (rb_first nr)
               else p ← on_rq (rd parent node); on_rq (climb rq_fuel node p));
        modify (set_leftmost lm'));;
      on_rq (
        u ← unlink node;
        let '(x, x_parent, y_color) := u in
        when (bool_decide (y_color = RB_BLACK)) (delete_fixup rq_fuel x x_parent));;
      prio ← trd priority task;
      weight ← deref (weight_of prio);
      modify (λ s, if weight <=? load_weight s
                   then set_load_weight (load_weight s - weight) s
                   else set_load_weight 0 s);;
      modify (λ s, if 0 <? nr_running s then set_nr_running (nr_running s - 1) s else s);;
      free_node node.

Definition eevdf_pick_next : ST eevdf ptr :=
  lm ← gets leftmost;
  if is_null lm then mret None else on_rq (rd data lm).

(** [x ? x : d] on the total weight. *)
Definition load_or_default (s : eevdf) : Z :=
  if ctrue (load_weight s) then load_weight s else EEVDF_NICE_0_LOAD.

Definition eevdf_update_curr (task : ptr) (now : Z) : ST eevdf unit :=
  if is_null task then mret tt
  else
    c ← trd context task;
    let delta := u64 (now - ctx_get X23 c) in
    if delta =? 0 then mret tt
    else
      twr (λ t, set_context (ctx_set X23 now (context t)) t) task;;
      lw ← gets load_or_default;
      let delta_fair := u64 (delta * EEVDF_NICE_0_LOAD) / lw in
      twr (λ t, set_vruntime (u64 (vruntime t + delta_fair)) t) task;;
      lm ← gets leftmost;
      v ← (if negb (is_null lm) then t ← on_rq (rd data lm); trd vruntime t
           else trd vruntime task);
      modify (set_min_vruntime v).

(** [EEVDF_TARGET_LATENCY * weight]: an [int] times a [uint32_t], hence
    computed modulo 2^32. *)
Definition eevdf_calc_slice (task : ptr) : ST eevdf Z :=
  nr ← gets nr_running;
  if nr =? 0 then mret EEVDF_TIME_SLICE_NS
  else
    prio ← trd priority task;
    weight ← deref (weight_of prio);
    lw ← gets load_or_default;
    let slice := u32 (EEVDF_TARGET_LATENCY * weight) / lw in
    let slice := if slice <? EEVDF_MIN_GRANULARITY then EEVDF_MIN_GRANULARITY else slice in
    let slice := if EEVDF_MAX_TIME_SLICE_NS <? slice then EEVDF_MAX_TIME_SLICE_NS else slice in
    mret slice.

Definition clamp_nice (nice : Z) : Z :=
  let nice := if nice <? EEVDF_MIN_NICE then EEVDF_MIN_NICE else nice in
  if EEVDF_MAX_NICE <? nice then EEVDF_MAX_NICE else nice.

Definition eevdf_set_nice (task : ptr) (nice : Z) : ST eevdf unit :=
  if is_null task then mret tt
  else twr (set_priority (clamp_nice nice)) task.

Definition eevdf_is_queued (task : ptr) : ST eevdf bool :=
  if is_null task then mret false
  else n ← find_node task; mret (negb (is_null n)).

End Eevdf.
