(* ===== verification/EevdfTree.v ===== *)
(** * The EEVDF run queue: tree surgery

    The tree code of kernel/sched/eevdf.c against the theory of [RBTree]: its
    rotations, its deletion fix-up, and the unlinking of [eevdf_dequeue]. *)
From stdpp Require Import base gmap list option numbers.
From S2P Require Import Prelude RBHeap RBTree RBInsert RBDelete TaskDef Eevdf.
#[local] Open Scope Z_scope.
Import Eevdf.

Section tree.
Context {D : Type}.
Implicit Types (s : rbst D) (t u l x : tree D) (k : list (frame D)).

Lemma wp_replace_child_r : replaces (D := D) replace_child_r.
Proof.
  intros s k x v n Q Hx Hpar Hctx Hroot Hnd Hxk HQ. unfold replace_child_r.
  apply wp_bind. eapply wp_rd; [exact Hx|]. rewrite Hpar.
  destruct k as [|f k]; simpl in *; [apply wp_modify; by apply HQ|].
  destruct Hctx as (Hf & Hsib & Hup).
  apply nodup_cptrs in Hnd as (_ & _ & Hfs & Hfk & Hsk). rewrite elem_cptrs in Hxk.
  apply wp_bind. eapply wp_rd; [exact Hf|].
  assert (Hback : ∀ g, g (mknode (fside f) (Some x) (rptr (fsib f)) (cpar k) (fcol f) (fdata f))
      = mknode (fside f) v (rptr (fsib f)) (cpar k) (fcol f) (fdata f) →
    wp (wr g (Some (fptr f))) Q s).
  { intros g Hg. eapply wp_wr; [exact Hf|]. rewrite Hg. apply HQ; simpl.
    - split_and!; [by rewrite lookup_insert_eq| |].
      + eapply rep_frame; [|exact Hsib]. intros q Hq. apply lookup_insert_ne. by intros <-.
      + eapply rep_ctx_frame; [|exact Hup]. intros q Hq. apply lookup_insert_ne. by intros <-.
    - done.
    - intros q Hq. rewrite elem_cptrs in Hq. apply lookup_insert_ne. naive_solver. }
  unfold ptr_eqb. destruct (fside f); simpl in *.
  - rewrite bool_decide_false; [by apply Hback|]. intros Heq.
    apply Hxk. right. left. by apply rptr_in.
  - rewrite bool_decide_true by done. by apply Hback.
Qed.

Lemma eevdf_rotates : rotates (D := D) rotate.
Proof.
  intros [] s k x cx dx a y cy dy b e Q.
  - apply (rotate_rotates L).
  - apply (wp_rotate_with replace_child_r R). apply wp_replace_child_r.
Qed.

(** ** [delete_fixup] *)

(** The last case: the sibling's far child is red. *)
Lemma wp_far sd s k xp c d x w dw wn f df fn ff n (Q : ptr * ptr → rbst D → Prop) :
  let wt := mk sd w RB_BLACK dw wn (mk sd f RB_RED df fn ff) in
  let t := plug k (mk sd xp c d x wt) in
  whole s t → rb x n → rb wn n → rb fn n → rb ff n →
  rbc (Frame sd xp c d wt :: k) (S n) →
  (∀ s', fixed t s s' → Q (root s', Some xp) s') →
  wp (when (negb (is_null (Some w))) (
        pc ← rd ncolor (Some xp);
        wr (set_color pc) (Some w);;
        wr (set_color RB_BLACK) (Some xp);;
        wf ← rd (child (opp sd)) (Some w);
        wr_if (set_color RB_BLACK) wf);;
      rotate sd (Some xp);;
      rt ← gets root;
      mret (rt, Some xp)) Q s.
Proof.
  intros wt t Hw Hx Hwn Hfn Hff Hk HQ.
  pose proof (wp_delete_fixup_far rotate eevdf_rotates sd s k xp c d x w dw wn f df fn ff n
    (λ rt s', fixed t s s' ∧ rt = root s') Hw Hx Hwn Hfn Hff Hk) as (r & s' & Hrun & Hf & ->).
  { intros s' Hf. done. }
  exists (root s', Some xp), s'. split; [|by apply HQ]. revert Hrun.
  unfold delete_fixup_far, rd_or, wr_if. simpl. unfold mbind, st_bind, gets.
  destruct (rd ncolor (Some xp) s) as [[pc s0]|]; [|done].
  destruct (wr _ _ s0) as [[[] s1]|]; [|done].
  destruct (wr _ _ s1) as [[[] s2]|]; [|done].
  destruct (rd _ _ s2) as [[wf s3]|]; [|done].
  destruct (when _ _ s3) as [[[] s4]|]; [|done].
  destruct (rotate sd (Some xp) s4) as [[[] s5]|]; [|done]. by intros [= <- <-].
Qed.

Lemma wp_both_black sd s k xp c d x w cw dw wn wf (Q : bool → rbst D → Prop) :
  whole s (plug k (mk sd xp c d x (mk sd w cw dw wn wf))) →
  Q (bool_decide (tcol wn = RB_BLACK) && bool_decide (tcol wf = RB_BLACK)) s →
  wp (both_black sd (Some w)) Q s.
Proof.
  intros Hw HQ.
  assert (Hrw : rep (heap s) (Some w) wn ∧ rep (heap s) (Some w) wf).
  { destruct Hw as (_ & Hrep & _). apply rep_plug in Hrep as [Hrep _]. rewrite !rep_mk in Hrep. tauto. }
  unfold both_black. simpl. apply wp_bind. eapply wp_rd; [by eapply whole_focus_sib|].
  rewrite child_mknode. apply wp_bind. eapply wp_is_black; [apply Hrw|].
  destruct (bool_decide (tcol wn = RB_BLACK)); [|by apply wp_ret].
  apply wp_bind. eapply wp_rd; [by eapply whole_focus_sib|]. rewrite child_opp_mknode.
  eapply wp_is_black; [apply Hrw|]. done.
Qed.

Lemma wp_far_black sd s k xp c d x w cw dw wn wf (Q : bool → rbst D → Prop) :
  whole s (plug k (mk sd xp c d x (mk sd w cw dw wn wf))) →
  Q (bool_decide (tcol wf = RB_BLACK)) s →
  wp (far_black sd (Some w)) Q s.
Proof.
  intros Hw HQ.
  assert (Hrw : rep (heap s) (Some w) wf).
  { destruct Hw as (_ & Hrep & _). apply rep_plug in Hrep as [Hrep _]. rewrite !rep_mk in Hrep. tauto. }
  unfold far_black. simpl. apply wp_bind. eapply wp_rd; [by eapply whole_focus_sib|].
  rewrite child_opp_mknode. by eapply wp_is_black.
Qed.

(** The part of an iteration after the sibling is black. *)
Definition black_part (sd : side) (par w : ptr) : ST (rbst D) (ptr * ptr) :=
  bb ← both_black sd w;
  if (bb : bool) then
    wr_if (set_color RB_RED) w;;
    pp ← rd parent par;
    mret (par, pp)
  else
    fb ← far_black sd w;
    w ← (if (fb : bool) then
           wn ← rd (child sd) w;
           wr_if (set_color RB_BLACK) wn;;
           wr (set_color RB_RED) w;;
           rotate (opp sd) w;;
           rd (child (opp sd)) par
         else mret w);
    when (negb (is_null w)) (
      pc ← rd ncolor par;
      wr (set_color pc) w;;
      wr (set_color RB_BLACK) par;;
      wf ← rd (child (opp sd)) w;
      wr_if (set_color RB_BLACK) wf);;
    rotate sd par;;
    rt ← gets root;
    mret (rt, par).

Lemma wp_black_part sd s k xp c d x w dw wn wf n (Q : ptr * ptr → rbst D → Prop) :
  let wt := mk sd w RB_BLACK dw wn wf in
  let t := plug k (mk sd xp c d x wt) in
  whole s t → rb x n → rbc (Frame sd xp c d wt :: k) (S n) →
  (∀ s' x', whole s' (plug k x') → rptr x' = Some xp → tcol x' = c → elems (plug k x') = elems t →
    short k x' (if c then n else S n) → untouched s s' t → Q (Some xp, cpar k) s') →
  (∀ s', fixed t s s' → Q (root s', Some xp) s') →
  wp (black_part sd (Some xp) (Some w)) Q s.
Proof.
  intros wt t Hw Hx Hk HQ1 HQ2. unfold black_part.
  pose proof Hk as [Hrbw Hk']. simpl in Hrbw. apply rb_mk_black in Hrbw as [Hrn Hrf].
  apply wp_bind. eapply wp_both_black; [exact Hw|].
  destruct (bool_decide_reflect (tcol wn = RB_BLACK)) as [Hnb|Hnr];
  destruct (bool_decide_reflect (tcol wf = RB_BLACK)) as [Hfb|Hfr]; simpl.
  - (* both nephews black: recolour and move up *)
    apply wp_bind. unfold wr_if; simpl. eapply wp_recolor_sib; [exact Hw|]. intros s1 Hw1 Hu1.
    apply wp_bind. eapply wp_rd; [by apply (whole_focus s1 k sd xp)|].
    rewrite parent_mknode. apply wp_ret. eapply (HQ1 s1); [exact Hw1|apply rptr_mk
      |apply tcol_mk|unfold t, wt; solve_elems| |done].
    destruct c; simpl in *; split; [tauto| |done|].
    + right. split; [apply tcol_mk|]. destruct sd; simpl; tauto.
    + left. split; [apply tcol_mk|]. rewrite rb_mk_black, rb_mk_red. tauto.
  - apply wp_bind. eapply wp_far_black; [exact Hw|]. rewrite bool_decide_false by done.
    apply tcol_not_black in Hfr. destruct (red_node sd wf Hfr) as (f & df & fn & ff & ->).
    apply rb_mk_red in Hrf as (Hfn & Hff & _).
    apply wp_bind, wp_ret. by eapply wp_far.
  - (* only the near nephew is red *)
    apply wp_bind. eapply wp_far_black; [exact Hw|]. rewrite bool_decide_true by done.
    apply tcol_not_black in Hnr. destruct (red_node sd wn Hnr) as (a & da & an & af & ->).
    apply rb_mk_red in Hrn as (Han & Haf & Hanc & Hafc).
    apply wp_bind, wp_bind. eapply wp_rd; [by eapply whole_focus_sib|].
    rewrite child_mknode, rptr_mk. unfold wr_if; simpl.
    apply wp_bind. eapply wp_recolor_near; [exact Hw|]. intros s1 Hw1 Hu1.
    apply wp_bind. eapply wp_recolor_sib; [exact Hw1|]. intros s2 Hw2 Hu2.
    apply wp_bind. apply (eevdf_rotates (opp sd) s2 (Frame (opp sd) xp c d x :: k)
      w RB_RED dw wf a RB_BLACK da af an).
    { simpl. unfold fill; simpl. by rewrite !mk_opp. }
    intros s3 Hw3 Hu3. simpl in Hw3, Hu3. unfold fill in Hw3, Hu3; simpl in Hw3, Hu3.
    rewrite !mk_opp in Hw3, Hu3.
    eapply wp_rd; [by apply (whole_focus s3 k sd xp)|]. rewrite child_opp_mknode, rptr_mk.
    eapply wp_far; [exact Hw3|exact Hx|exact Han|exact Haf|exact Hrf| |].
    { destruct c; simpl in *; rewrite ?rb_mk_black, ?rb_mk_red, ?tcol_mk in *; tauto. }
    intros s4 Hf4. apply HQ2.
    eapply (fixed_trans t _ s s3 s4); [| |exact Hf4]; [|unfold t, wt; solve_elems].
    eapply untouched_trans; [exact Hu1|eapply untouched_trans; [exact Hu2|exact Hu3|]|];
      unfold t, wt; solve_elems.
  - apply wp_bind. eapply wp_far_black; [exact Hw|]. rewrite bool_decide_false by done.
    apply tcol_not_black in Hfr. destruct (red_node sd wf Hfr) as (f & df & fn & ff & ->).
    apply rb_mk_red in Hrf as (Hfn & Hff & _).
    apply wp_bind, wp_ret. by eapply wp_far.
Qed.

Lemma wp_side sd s k xp c d x w n (Q : ptr * ptr → rbst D → Prop) :
  let t := plug k (mk sd xp c d x w) in
  whole s t → rb x n → rbc (Frame sd xp c d w :: k) (S n) →
  (∀ s' k' x' n', whole s' (plug k' x') → elems (plug k' x') = elems t →
    short k' x' n' → (length k' ≤ length k)%nat ∨ tcol x' = RB_RED →
    untouched s s' t → Q (rptr x', cpar k') s') →
  (∀ s', fixed t s s' → Q (root s', Some xp) s') →
  wp (delete_fixup_side sd (Some xp)) Q s.
Proof.
  intros t Hw Hx Hk HQ1 HQ2. unfold delete_fixup_side.
  apply wp_bind. eapply wp_rd; [by apply (whole_focus s k sd xp)|]. rewrite child_opp_mknode.
  assert (Hrw : rep (heap s) (Some xp) w).
  { destruct Hw as (_ & Hrep & _). apply rep_plug in Hrep as [Hrep _]. rewrite rep_mk in Hrep. tauto. }
  apply wp_bind. eapply wp_is_red; [exact Hrw|]. clear Hrw.
  pose proof Hk as [Hrbw Hk']. simpl in Hrbw.
  destruct (bool_decide_reflect (tcol w = RB_RED)) as [Hr|Hb].
  - (* rotate the red sibling up *)
    destruct c; simpl in Hk'; [destruct Hk' as (Hwc & _); congruence|].
    destruct (red_node sd w Hr) as (p & dw & wn & wf & ->). rewrite rptr_mk.
    apply rb_mk_red in Hrbw as (Hwn & Hwf & Hwnc & Hwfc).
    destruct (black_node sd wn n Hwn Hwnc) as (a & da & an & af & -> & Han & Haf).
    apply wp_bind, wp_bind. eapply wp_recolor_sib; [exact Hw|]. intros s1 Hw1 Hu1.
    apply wp_bind. apply (wp_recolor s1 k sd xp RB_BLACK RB_RED d _ _ _ Hw1). intros s2 Hw2 Hu2.
    apply wp_bind. eapply eevdf_rotates; [exact Hw2|]. intros s3 Hw3 Hu3.
    eapply wp_rd; [by apply (whole_focus s3 (Frame sd p RB_BLACK dw wf :: k) sd xp)|].
    rewrite child_opp_mknode, rptr_mk.
    assert (Hu : untouched s s3 t).
    { eapply untouched_trans; [exact Hu1|eapply untouched_trans; [exact Hu2|exact Hu3|]|];
        unfold t; solve_elems. }
    apply (wp_black_part sd s3 (Frame sd p RB_BLACK dw wf :: k) xp RB_RED d x a da an af n);
      [exact Hw3|exact Hx|simpl; rewrite rb_mk_black, tcol_mk; done| |].
    + intros s' x' Hw' Hp' Hc' He' Hs' Hu'. rewrite <-Hp'. apply (HQ1 _ _ _ n); [done| |done|by right|].
      * rewrite He'. unfold t; solve_elems.
      * eapply untouched_trans; [exact Hu|exact Hu'|]. unfold t; solve_elems.
    + intros s' Hf'. apply HQ2. eapply fixed_trans; [exact Hu| |exact Hf']. unfold t; solve_elems.
  - assert (Hwc : tcol w = RB_BLACK) by (by destruct (tcol w)).
    destruct (black_node sd w n Hrbw Hwc) as (p & dw & wn & wf & -> & Hwn & Hwf). rewrite rptr_mk.
    apply wp_bind, wp_ret.
    apply (wp_black_part sd s k xp c d x p dw wn wf n); [exact Hw|exact Hx|exact Hk| |exact HQ2].
    intros s' x' Hw' Hp' Hc' He' Hs' Hu'. rewrite <-Hp'. by eapply HQ1; [| | |left|].
Qed.

(** The loop; setting [x] to the root ends it one iteration later. *)
Lemma wp_rq_delete_fixup fuel s k x n :
  whole s (plug k x) → short k x n →
  (length k + 1 < fuel)%nat ∨ tcol x = RB_RED ∧ (0 < fuel)%nat →
  wp (delete_fixup fuel (rptr x) (cpar k)) (λ _ s', fixed (plug k x) s s') s.
Proof.
  revert s k x n. induction fuel as [|fuel IH]; intros s k x n Hw Hs Hfuel; [lia|].
  simpl. apply wp_bind, wp_gets.
  pose proof Hw as (Hroot & Hrep & Hnd). apply rep_plug in Hrep as [Hrx Hrk].
  apply wp_bind. eapply wp_is_black; [exact Hrx|]. destruct Hs as [Hk Hx].
  destruct (decide (k = [] ∨ tcol x = RB_RED)) as [Hexit|Hgo].
  - assert (Hcond : negb (ptr_eqb (rptr x) (root s)) && bool_decide (tcol x = RB_BLACK) = false).
    { destruct Hexit as [->| ->]; [|by rewrite andb_false_r].
      rewrite Hroot. simpl. unfold ptr_eqb. by rewrite bool_decide_true. }
    rewrite Hcond. by eapply wp_short_exit.
  - assert (k ≠ [] ∧ tcol x ≠ RB_RED) as [Hne Hxc] by tauto. clear Hgo.
    destruct Hx as [[Hc Hx]|[? _]]; [|done]. destruct Hfuel as [Hfuel|[? _]]; [|done].
    destruct k as [|[sd p c d w] k]; [done|]. simpl in Hfuel.
    pose proof Hk as [Hrw _]. simpl in Hrw.
    rewrite (not_root _ _ _ _ Hw), bool_decide_true by done. simpl.
    destruct (short_side s k x sd p c d w n Hw Hrw) as (nd & Hnd' & Hside).
    apply wp_bind. eapply wp_rd; [exact Hnd'|]. rewrite Hside. apply wp_bind.
    assert (Hit : wp (delete_fixup_side sd (Some p)) (λ next s', wp
      (let '(x', par) := next in delete_fixup fuel x' par)
      (λ _ s', fixed (plug k (mk sd p c d x w)) s s') s') s).
    { apply (wp_side sd s k p c d x w n); [exact Hw|done|done| |].
      - intros s1 k1 x1 n1 Hw1 He1 Hs1 Hlen Hu1.
        eapply wp_mono; [apply (IH _ _ _ n1); [done|done|]|].
        + destruct Hlen; [left; lia|right; split; [done|lia]].
        + intros ? s2 Hf2. by eapply fixed_trans.
      - intros s1 (t1 & Hw1 & He1 & (m & Hm) & Hc1 & Hu1). cbv beta iota.
        destruct fuel as [|fuel]; [lia|]. simpl. apply wp_bind, wp_gets.
        pose proof Hw1 as (-> & Hrep1 & _).
        apply wp_bind. eapply wp_is_black; [exact Hrep1|].
        unfold ptr_eqb. rewrite bool_decide_true by done. simpl.
        pose proof Hw1 as (<- & _ & _).
        eapply wp_black_root_noop; [exact Hw1|exact Hm|done|].
        intros s2 Hf2. by eapply fixed_trans. }
    destruct sd; exact Hit.
Qed.

(** ** Unlinking *)

Lemma wp_leftmost_of fuel s par t (Q : ptr → rbst D → Prop) :
  rep (heap s) par t → t ≠ E → (length (elems t) ≤ fuel)%nat →
  (∀ kr y cy dy yr, t = plug kr (T y cy dy E yr) → lctx kr = [] → Q (Some y) s) →
  wp (leftmost_of fuel (rptr t)) Q s.
Proof.
  revert par t Q. induction fuel as [|fuel IH]; intros par t Q Hrep Hne Hlen HQ.
  { destruct t; [done|]. simpl in Hlen. rewrite length_app in Hlen. simpl in Hlen. lia. }
  destruct t as [|p c d l r]; [done|]. destruct Hrep as (Hp & Hl & Hr). simpl.
  apply wp_bind. eapply wp_rd; [exact Hp|]. simpl.
  assert (Hll : (length (elems l) ≤ fuel)%nat).
  { simpl in Hlen. rewrite length_app in Hlen. simpl in Hlen. lia. }
  destruct l as [|pl cl dl ll rl]; simpl; [by apply wp_ret, (HQ [] p c d r)|].
  change (Some pl) with (rptr (T pl cl dl ll rl)). set (l := T pl cl dl ll rl) in *.
  apply (IH (Some p)); [done|done|done|].
  intros kr y cy dy yr Heq Hlc. apply (HQ (kr ++ [Frame L p c d r]) y cy dy yr).
  - by rewrite plug_app, <-Heq.
  - by rewrite lctx_app, Hlc.
Qed.

(** [y], a left child without left child, is replaced by its right subtree. *)
Lemma wp_cut_left s k f y cy dy yr (Q : unit → rbst D → Prop) :
  fside f = L → whole s (plug (f :: k) (T y cy dy E yr)) →
  NoDup (ptrs (plug (f :: k) yr)) →
  (∀ s', whole s' (plug (f :: k) yr) → untouched s s' (plug (f :: k) yr) → Q tt s') →
  wp (link_parent (rptr yr) (Some (fptr f));; wr (set_left (rptr yr)) (Some (fptr f))) Q s.
Proof.
  intros Hf (Hroot & Hrep & _) Hnd HQ. rewrite rptr_plug in Hroot.
  apply rep_plug in Hrep as [(_ & _ & Hyr) Hctx]. simpl in Hctx, Hroot.
  destruct Hctx as (Hfp & Hsib & Hup). rewrite Hf in Hfp.
  pose proof Hnd as (Hndy & Hndk & Hd)%nodup_plug.
  apply nodup_cptrs in Hndk as (_ & _ & Hfs & Hfk & Hsk). setoid_rewrite elem_cptrs in Hd.
  apply wp_bind. eapply (wp_link_parent _ yr (Some y)); [done|done|].
  intros s1 Hyr1 Hroot1 Hout1.
  eapply wp_wr; [rewrite Hout1 by naive_solver; exact Hfp|]. apply HQ.
  - split_and!; simpl; [rewrite Hroot1, Hroot, rptr_plug; unfold fill; by rewrite rptr_mk| |done].
    apply (rep_plug _ (f :: k)). simpl. split_and!.
    + eapply rep_frame; [|exact Hyr1]. intros q Hq. apply lookup_insert_ne. naive_solver.
    + rewrite lookup_insert_eq, Hf. done.
    + eapply rep_frame; [|exact Hsib]. intros q Hq.
      rewrite lookup_insert_ne, Hout1 by naive_solver. done.
    + eapply rep_ctx_frame; [|exact Hup]. intros q Hq.
      rewrite lookup_insert_ne, Hout1 by naive_solver. done.
  - intros q Hq. rewrite elem_ptrs_plug, elem_cptrs in Hq. simpl.
    rewrite lookup_insert_ne, Hout1 by naive_solver. done.
Qed.

(** [transplant] followed by more code, as the source writes it out. *)
Lemma wp_transplant_seq {A} s z y (rest : ST (rbst D) A) (Q : A → rbst D → Prop) :
  wp (transplant (Some z) (Some y)) (λ _, wp rest Q) s →
  wp (replace_child (Some z) (Some y);;
      np ← rd parent (Some z);
      wr (set_parent np) (Some y);;
      rest) Q s.
Proof.
  unfold wp, transplant, mbind, st_bind. intros (u & s1 & Hrun & a & s2 & Hrest & HQ).
  exists a, s2. split; [|done].
  destruct (replace_child _ _ s) as [[[] sa]|]; [|done].
  destruct (rd parent _ sa) as [[np sb]|]; [|done]. unfold link_parent in Hrun. simpl in Hrun.
  destruct (wr (set_parent np) _ sb) as [[[] sc]|]; [|done]. by injection Hrun as _ ->.
Qed.

Lemma wp_attach_left_seq {A} s k y c d r l par (rest : ST (rbst D) A) (Q : A → rbst D → Prop) :
  l ≠ E → whole s (plug k (T y c d E r)) → rep (heap s) par l →
  NoDup (ptrs (plug k (T y c d l r))) →
  (∀ s', whole s' (plug k (T y c d l r)) → untouched s s' (plug k (T y c d l r)) → wp rest Q s') →
  wp (wr (set_left (rptr l)) (Some y);;
      yl ← rd left (Some y);
      wr (set_parent (Some y)) yl;;
      rest) Q s.
Proof.
  intros Hl Hw Hrep Hnd HQ.
  destruct (wp_attach_left s k y c d r l par (λ _ s', wp rest Q s') Hw Hrep Hnd HQ)
    as (u & s1 & Hrun & a & s2 & Hrest & HQ').
  exists a, s2. split; [|done]. pose proof (whole_focus s k L y c d E r Hw) as Hy.
  destruct l as [|pl cl dl ll lr]; [done|]. revert Hrun.
  unfold wr, store, rd, load, link_parent, when, mbind, st_bind, deref, modify, mret, st_ret.
  rewrite Hy. simpl. rewrite lookup_insert_eq. simpl.
  unfold wr, store, load, mbind, st_bind, deref, modify. simpl.
  destruct (_ !! pl) as [npl|]; [|done]. intros [= _ <-]. exact Hrest.
Qed.

(** The successor takes the place, colour and left subtree of the node. *)
Lemma wp_splice_e s k z cz dz zr y cy dy l r par parl v (Q : ptr * ptr * color → rbst D → Prop) :
  l ≠ E →
  heap s !! z = Some (Node (rptr l) zr (cpar k) cz dz) →
  rep_ctx (heap s) (Some z) k → root s = croot (Some z) k →
  rep (heap s) parl l → rep (heap s) par (T y cy dy E r) →
  NoDup (ptrs (plug k (T y cy dy l r))) → z ∉ ptrs (plug k (T y cy dy l r)) →
  (∀ s', whole s' (plug k (T y cz dy l r)) → untouched s s' (plug k (T y cz dy l r)) → Q v s') →
  wp (replace_child (Some z) (Some y);;
      np ← rd parent (Some z);
      wr (set_parent np) (Some y);;
      nc ← rd ncolor (Some z);
      wr (set_color nc) (Some y);;
      nl ← rd left (Some z);
      wr (set_left nl) (Some y);;
      yl ← rd left (Some y);
      wr (set_parent (Some y)) yl;;
      mret v) Q s.
Proof.
  intros Hl0 Hz Hctx Hroot Hl Hy Hnd Hzn HQ.
  assert (Hsub : ∀ c q, q ∉ ptrs (plug k (T y cy dy l r)) → q ∉ ptrs (plug k (T y c dy E r))).
  { intros c q. rewrite !elem_ptrs_plug, !elem_ptrs_T, ptrs_E. set_solver. }
  assert (Hnd' : NoDup (ptrs (plug k (T y cy dy E r)))).
  { revert Hnd. rewrite !nodup_plug, !nodup_T. setoid_rewrite elem_ptrs_T. rewrite ptrs_E.
    pose proof (NoDup_nil_2 (A:=Z)). set_solver. }
  assert (Hcol : ptrs (plug k (T y cy dy l r)) = ptrs (plug k (T y cz dy l r)))
    by (unfold ptrs; by rewrite !elems_plug).
  apply wp_transplant_seq. change (Some y) with (rptr (T y cy dy E r)) at 1.
  eapply wp_transplant; [exact Hz|done|done|done|exact Hy|done|by apply Hsub|].
  intros s1 Hw1 Hu1.
  assert (Hz1 : heap s1 !! z = heap s !! z) by (by apply Hu1, Hsub).
  apply wp_bind. eapply wp_rd; [rewrite Hz1; exact Hz|]. simpl.
  apply wp_bind. apply (wp_recolor s1 k L y cy cz dy E r _ Hw1). intros s2 Hw2 Hu2.
  assert (Hz2 : heap s2 !! z = heap s !! z).
  { rewrite <-Hz1. apply Hu2. by apply (Hsub cy). }
  apply wp_bind. eapply wp_rd; [rewrite Hz2; exact Hz|]. simpl.
  eapply wp_attach_left_seq; [done|exact Hw2| |by rewrite <-Hcol|].
  { assert (Hfr : ∀ c q, q ∈ ptrs l → q ∉ ptrs (plug k (T y c dy E r))).
    { intros c q Hq. rewrite elem_ptrs_plug, elem_ptrs_T, ptrs_E.
      apply nodup_plug in Hnd as (Hnd1 & _ & Hd). pose proof (Hd q) as Hdq.
      rewrite elem_ptrs_T in Hdq. apply nodup_T in Hnd1. set_solver. }
    eapply rep_frame; [|exact Hl]. intros q Hq. rewrite Hu2, Hu1 by (by apply Hfr). done. }
  intros s3 Hw3 Hu3. apply wp_ret, HQ; [done|]. intros q Hq.
  rewrite Hu3 by done. rewrite <-Hcol in Hq. rewrite Hu2, Hu1 by (by apply Hsub). done.
Qed.

(** One child at most: the source's text is [transplant]. *)
Lemma wp_unlink_one_seq s z v c (Q : ptr * ptr * color → rbst D → Prop) :
  wp (xp ← rd parent (Some z); transplant (Some z) v;; mret (v, xp, c)) Q s →
  wp (x_parent ← rd parent (Some z);
      replace_child (Some z) v;;
      np ← rd parent (Some z);
      link_parent v np;;
      mret (v, x_parent, c)) Q s.
Proof.
  unfold wp, transplant, mbind, st_bind. intros (a & s' & Hrun & HQ). exists a, s'. split; [|done].
  revert Hrun. destruct (rd parent _ s) as [[xp s0]|]; [|done].
  destruct (replace_child _ _ s0) as [[[] s1]|]; [|done].
  destruct (rd parent _ s1) as [[np s2]|]; [|done].
  by destruct (link_parent _ _ s2) as [[[] s3]|].
Qed.

(** Two children: what precedes the splice. *)
Section succ.
Context (k : list (frame D)) (z : Z) (cz : color) (dz : D) (l : tree D)
        (kr : list (frame D)) (y : Z) (cy : color) (dy : D) (yr : tree D).
Let t := plug k (T z cz dz l (plug kr (T y cy dy E yr))).
Let kz := kr ++ Frame R z cz dz l :: k.

Lemma wp_detach_e s (Q : ptr → rbst D → Prop) :
  whole s t → lctx kr = [] →
  (∀ par s', detached k z cz dz l kr y cy dy yr par s' → untouched s s' t →
     Q (cpar (kr ++ Frame R y cz dy l :: k)) s') →
  wp (if ptr_eqb (cpar kz) (Some z) then mret (Some y)
      else
        link_parent (rptr yr) (cpar kz);;
        wr (set_left (rptr yr)) (cpar kz);;
        nr ← rd right (Some z);
        wr (set_right nr) (Some y);;
        yr' ← rd right (Some y);
        wr (set_parent (Some y)) yr';;
        rd parent (Some y)) Q s.
Proof using t kz.
  intros Hw Hlc HQ. unfold kz. rewrite (succ_parent k z cz dz l kr y cy dy yr s Hw).
  destruct (bool_decide_reflect (kr = [])) as [Hkr|Hkr].
  - apply wp_ret. assert (Hcp : cpar (kr ++ Frame R y cz dy l :: k) = Some y) by (by rewrite Hkr).
    rewrite <-Hcp. apply (HQ (Some z)); [|done]. clear HQ Hcp.
    destruct Hw as (Hroot & Hrep & _). unfold detached, t in *. clear t kz. subst kr. simpl in *.
    apply rep_plug in Hrep as [(Hz & Hl & Hy) Hctx]. rewrite rptr_plug in Hroot.
    exists (Some y). split_and!; [done|done|done|done|apply Hy..].
  - pose proof (succ_whole k z cz dz l kr y cy dy yr s Hw) as Hw'.
    destruct (succ_nodup k z cz dz l kr y cy dy yr s Hw) as (Hnd1 & Hyn & Hsub).
    assert (Hkz : ∃ f kk, kr ++ Frame R z cz dz l :: k = f :: kk ∧ fside f = L ∧
      cpar (kr ++ Frame R y cz dy l :: k) = Some (fptr f)).
    { destruct kr as [|f kr']; [done|]. eexists f, _. split; [reflexivity|]. simpl in Hlc.
      destruct (fside f); [done|]. by destruct (lctx kr'), (elems (fsib f)). }
    destruct Hkz as (f & kk & Hkz & Hf & Hcp). rewrite Hkz in *. rewrite Hcp in HQ. simpl cpar.
    enough (Hen : wp (link_parent (rptr yr) (Some (fptr f));; wr (set_left (rptr yr)) (Some (fptr f)))
      (λ _ s1, wp (nr ← rd right (Some z);
        wr (set_right nr) (Some y);;
        yr' ← rd right (Some y);
        wr (set_parent (Some y)) yr';;
        rd parent (Some y)) Q s1) s).
    { destruct Hen as (u & s1 & Hrun & a & s2 & Hrun2 & HQ2). exists a, s2. split; [|done].
      revert Hrun. unfold mbind, st_bind in *.
      destruct (link_parent _ _ s) as [[[] sa]|]; [|done].
      destruct (wr _ _ sa) as [[[] sb]|]; [|done]. by intros [= _ ->]. }
    eapply wp_cut_left; [done|exact Hw'|done|]. intros s1 Hw1 Hu1.
    destruct (wp_hang_rest k z cz dz l kr y cy dy yr s s1 (λ _ s',
      detached k z cz dz l kr y cy dy yr (Some (fptr f)) s' ∧ untouched s s' t))
      as (u & s' & Hrun & Hd & Hu); [done|by rewrite Hkz|by rewrite Hkz| |].
    { intros s' Hd Hu. rewrite Hkz in Hd. done. }
    assert (Hy' : rd parent (Some y) s' = Some (Some (fptr f), s')).
    { destruct Hd as (zr & _ & _ & _ & _ & Hy & _). unfold rd, load, mbind, st_bind. by rewrite Hy. }
    exists (Some (fptr f)), s'. split; [|by eapply HQ]. revert Hrun. unfold mbind, st_bind.
    destruct (rd right (Some z) s1) as [[nr s2]|] eqn:Hnr; [|done].
    destruct (wr (set_right nr) (Some y) s2) as [[[] s3]|] eqn:Hs3; [|done].
    destruct (rd right (Some y) s3) as [[yr' s4]|] eqn:Hyr'; [|done].
    assert (Hnn : is_null yr' = false).
    { rewrite <-Hkz, succ_ctx in Hw1.
      pose proof (whole_focus s1 k L z cz dz l (plug kr yr) Hw1) as Hz1.
      unfold rd, load, mbind, st_bind in Hnr. rewrite Hz1 in Hnr. injection Hnr as <- <-.
      unfold wr, load, store, mbind, st_bind, deref, modify in Hs3.
      destruct (heap s1 !! y) as [ny|]; [|done]. injection Hs3 as <-.
      unfold rd, load, mbind, st_bind in Hyr'. simpl in Hyr'. rewrite lookup_insert_eq in Hyr'.
      injection Hyr' as <- _. simpl. destruct (plug kr yr) eqn:Hpl; [|done]. exfalso. revert Hpl.
      destruct kr as [|g kr']; [done|]. apply (plug_nonempty kr').
      unfold fill. by destruct (fside g). }
    unfold link_parent. rewrite Hnn. simpl.
    destruct (wr (set_parent (Some y)) yr' s4) as [[[] s5]|]; [|done]. intros [= _ ->]. exact Hy'.
Qed.
End succ.

Lemma wp_unlink fuel s k z cz dz l r m (Q : ptr * ptr * color → rbst D → Prop) :
  let t := plug k (T z cz dz l r) in
  whole s t → rb t m → tcol t = RB_BLACK → (length (elems t) ≤ fuel)%nat → (fuel ≤ rq_fuel)%nat →
  (∀ s' k' x c, unlinked z (lctx k ++ elems l ++ elems r ++ rctx k) t fuel s s' k' x c →
     Q (rptr x, cpar k', c) s') →
  wp (unlink (Some z)) Q s.
Proof.
  intros t Hw Hrb Hc Hfuel Hf2 HQ. pose proof (whole_focus s k L z cz dz l r Hw) as Hz.
  unfold unlink. do 3 (apply wp_bind; eapply wp_rd; [exact Hz|]; simpl).
  destruct l as [|pl cl dl ll rl]; simpl.
  { apply (wp_unlink_one_seq s z (rptr r)).
    apply (wp_unlink_one L s k z cz dz r m fuel); [done|done|done|done|done|].
    intros s1 H1. by eapply HQ. }
  destruct r as [|pr cr dr lr rr]; simpl.
  { apply (wp_unlink_one_seq s z (rptr (T pl cl dl ll rl))).
    apply (wp_unlink_one R s k z cz dz (T pl cl dl ll rl) m fuel); [done|done|done|done|done|].
    intros s1 H1. by eapply HQ. }
  set (l := T pl cl dl ll rl) in *. set (r := T pr cr dr lr rr) in *.
  apply wp_bind. change (Some pr) with (rptr r).
  pose proof Hw as (_ & Hrep & _). apply rep_plug in Hrep as [(_ & _ & Hr) _].
  apply (wp_leftmost_of rq_fuel s (Some z) r); [exact Hr|done| |].
  { unfold t in Hfuel. rewrite elems_remove, !length_app in Hfuel. cbn [length] in Hfuel.
    rewrite length_app in Hfuel. lia. }
  intros kr y cy dy yr Heq Hlc. unfold t in *. clear t. clearbody r. subst r.
  set (kz := kr ++ Frame R z cz dz l :: k).
  pose proof (whole_focus s kz L y cy dy E yr (succ_whole k z cz dz l kr y cy dy yr s Hw)) as Hy.
  simpl in Hy. do 3 (apply wp_bind; eapply wp_rd; [exact Hy|]; simpl).
  apply wp_bind. eapply (wp_detach_e k z cz dz l kr y cy dy yr s); [done|done|].
  intros par s1 (zr & Hz1 & Hctx & Hroot & Hl & Hyt) Hu1.
  pose proof (succ_elems k l kr y cy dy yr Hlc) as Hel.
  pose proof Hw as (_ & _ & Hnd). unfold ptrs in Hnd. rewrite elems_remove, app_assoc in Hnd.
  apply ptrs_remove in Hnd as [Hnd Hzn]. rewrite <-app_assoc, <-Hel in Hnd, Hzn.
  eapply (wp_splice_e s1 k z cz dz zr y cy dy l (plug kr yr)); [unfold l; discriminate|exact Hz1|exact Hctx|exact Hroot|exact Hl|exact Hyt|exact Hnd|exact Hzn|].
  intros s2 Hw2 Hu2. apply HQ. split.
  - by rewrite plug_app.
  - rewrite plug_app, <-Hel. simpl. unfold fill. by rewrite !elems_plug.
  - rewrite <-succ_ctx in Hrb, Hc.
    destruct (rb_plug_inv kz _ m Hrb Hc) as (n & Hn & Hk & _ & _).
    eapply (unlink_vacated L); [exact Hn|]. by eapply rbc_swap.
  - rewrite <-succ_ctx, elems_plug, !length_app in Hfuel. simpl in Hfuel.
    pose proof (length_ctx kz). unfold kz in *. rewrite length_app in *. simpl in *. lia.
  - intros q Hq. rewrite Hu2; [by apply Hu1|]. contradict Hq.
    rewrite elem_ptrs_plug, elem_ptrs_T, elem_ptrs_plug in Hq.
    rewrite !elem_ptrs_plug, !elem_ptrs_T, elem_ptrs_plug, elem_ptrs_T. tauto.
  - rewrite Hu2; [by eexists|]. unfold ptrs in *. by rewrite !elems_plug in *.
Qed.

(** ** The leftmost node *)

Lemma wp_rb_first_loop fuel s par t (Q : ptr → rbst D → Prop) :
  rep (heap s) par t → t ≠ E → (length (elems t) ≤ fuel)%nat →
  Q (fst <$> head (elems t)) s → wp (rb_first_loop fuel (rptr t)) Q s.
Proof.
  revert par t Q. induction fuel as [|fuel IH]; intros par t Q Hrep Hne Hlen HQ.
  { destruct t; [done|]. simpl in Hlen. rewrite length_app in Hlen. simpl in Hlen. lia. }
  destruct t as [|p c d l r]; [done|]. destruct Hrep as (Hp & Hl & Hr). simpl.
  apply wp_bind. eapply wp_rd; [exact Hp|]. simpl.
  assert (Hll : (length (elems l) ≤ fuel)%nat).
  { simpl in Hlen. rewrite length_app in Hlen. simpl in Hlen. lia. }
  destruct (rptr l) as [pl|] eqn:Hpl; simpl.
  - rewrite <-Hpl. apply (IH (Some p)); [done|by intros ->|done|]. revert HQ. simpl.
    destruct l as [|pl' cl dl ll rl]; [done|]. simpl. by destruct (elems ll).
  - apply wp_ret. by destruct l.
Qed.

Lemma wp_rb_first s par t (Q : ptr → rbst D → Prop) :
  rep (heap s) par t → (length (elems t) ≤ rq_fuel)%nat →
  Q (fst <$> head (elems t)) s → wp (rb_first (rptr t)) Q s.
Proof.
  intros Hrep Hlen HQ. unfold rb_first. destruct (is_null (rptr t)) eqn:Hn.
  - destruct t; [|done]. by apply wp_ret.
  - eapply wp_rb_first_loop; [exact Hrep|by intros ->|done|done].
Qed.

(** The node after a leftmost node without right child is its parent. *)
Lemma wp_climb s k z c d (Q : ptr → rbst D → Prop) :
  whole s (plug k (T z c d E E)) → lctx k = [] →
  Q (fst <$> head (rctx k)) s → wp (climb rq_fuel (Some z) (cpar k)) Q s.
Proof.
  intros Hw Hlc HQ. change rq_fuel with (S 199). set (n := 199%nat). clearbody n. simpl.
  destruct k as [|f k]; simpl; [by apply wp_ret|]. simpl in *.
  destruct (fside f) eqn:Hf; [|by destruct (lctx k), (elems (fsib f))].
  pose proof Hw as (_ & Hrep & Hnd). apply rep_plug in Hrep as [Hrep _].
  unfold fill in *. rewrite Hf in *. destruct Hrep as (Hp & _ & _). simpl in Hp.
  apply wp_bind. eapply wp_rd; [exact Hp|]. simpl.
  assert (Hne : ptr_eqb (Some z) (rptr (fsib f)) = false).
  { apply bool_decide_eq_false. intros Heq. apply nodup_plug in Hnd as (Hnd & _).
    apply nodup_T in Hnd as (_ & _ & _ & _ & Hd). apply (Hd z); [apply elem_ptrs_T; by left|].
    destruct (fsib f); [done|]. simpl in Heq. injection Heq as <-. apply elem_ptrs_T. by left. }
  rewrite Hne. apply wp_ret. done.
Qed.

(** ** Removal: unlinking and rebalancing *)

Definition removed (z : Z) (els : list (Z * D)) (t : tree D) (s s' : rbst D) : Prop :=
  ∃ t', whole s' t' ∧ elems t' = els ∧ (∃ n, rb t' n) ∧ tcol t' = RB_BLACK ∧
        untouched s s' t ∧ is_Some (heap s' !! z).

Lemma wp_remove s k z cz dz l r m (Q : unit → rbst D → Prop) :
  let t := plug k (T z cz dz l r) in
  whole s t → rb t m → tcol t = RB_BLACK → (length (elems t) + 2 ≤ rq_fuel)%nat →
  (∀ s', removed z (lctx k ++ elems l ++ elems r ++ rctx k) t s s' → Q tt s') →
  wp (u ← unlink (Some z);
      let '(x, x_parent, y_color) := u in
      when (bool_decide (y_color = RB_BLACK)) (delete_fixup rq_fuel x x_parent)) Q s.
Proof.
  intros t Hw Hrb Hc Hfuel HQ. apply wp_bind.
  apply (wp_unlink (length (elems t)) s k z cz dz l r m); [done|done|done|done|lia|].
  intros s1 k1 x c [Hw1 He1 Hv1 Hf1 Hu1 Hz1]. destruct c; cbn [when bool_decide decide].
  - destruct Hv1 as (n & Hn & Hnc). apply wp_ret, HQ. exists (plug k1 x). by eauto 10.
  - destruct Hv1 as (n & Hn). eapply wp_mono; [apply (wp_rq_delete_fixup rq_fuel s1 k1 x n)|];
      [done|done|left; lia|].
    simpl. intros [] s2 (t2 & Hw2 & He2 & Hrb2 & Hc2 & Hu2). apply HQ. exists t2.
    assert (Hsub : ∀ q, q ∈ ptrs (plug k1 x) → q ∈ ptrs t ∧ q ≠ z).
    { destruct Hw as (_ & _ & Hnd). unfold t, ptrs in *. rewrite elems_remove in *.
      rewrite app_assoc in Hnd, He1. pose proof (ptrs_remove _ _ _ _ Hnd) as [_ Hzn].
      rewrite He1. intros q Hq. split; [|by intros ->].
      rewrite !fmap_app in *. set_solver. }
    split_and!; [done|congruence|done|done| |].
    + intros q Hq. rewrite Hu2; [by apply Hu1|]. intros Hq'. by apply Hq, Hsub.
    + rewrite Hu2; [done|]. intros Hq'. by apply Hsub in Hq' as [_ []].
Qed.

End tree.

(** ** Hanging a fresh red leaf *)

Definition link_at (lnk : link) (k : list (frame (option Z))) : Prop :=
  match k with
  | [] => lnk = LRoot
  | f :: _ => lnk = LChild (fside f) (Some (fptr f))
  end.

Lemma wp_rq_read_link s lnk k t (Q : ptr → rbst (option Z) → Prop) :
  whole s (plug k t) → link_at lnk k → Q (rptr t) s → wp (read_link lnk) Q s.
Proof.
  intros Hw Hl HQ. destruct k as [|[sd p c d b] k]; simpl in Hl; subst lnk; simpl.
  - apply wp_gets. by destruct Hw as (-> & _ & _).
  - eapply wp_rd; [by apply (whole_focus s k sd p c d t b)|]. by rewrite child_mknode.
Qed.

Lemma wp_rq_write_link s k lnk hole v (Q : unit → rbst (option Z) → Prop) :
  rep_ctx (heap s) hole k → root s = croot hole k → NoDup (cptrs k) → link_at lnk k →
  (∀ s', rep_ctx (heap s') v k → root s' = croot v k →
         (∀ q, q ∉ cptrs k → heap s' !! q = heap s !! q) → Q tt s') →
  wp (write_link lnk v) Q s.
Proof.
  intros Hctx Hroot Hnd Hl HQ. destruct k as [|[sd p c d b] k]; simpl in Hl; subst lnk; simpl.
  - apply wp_modify. by apply HQ.
  - destruct Hctx as (Hp & Hb & Hk). simpl in Hp, Hb, Hk, Hroot.
    apply nodup_cptrs in Hnd as (_ & _ & Hpb & Hpk & _). simpl in Hpb, Hpk.
    eapply wp_wr; [exact Hp|]. rewrite set_child_mknode. apply HQ; simpl.
    + split_and!; [by rewrite lookup_insert_eq| |].
      * eapply rep_frame; [|exact Hb]. intros q Hq. apply lookup_insert_ne. by intros <-.
      * eapply rep_ctx_frame; [|exact Hk]. intros q Hq. apply lookup_insert_ne. by intros <-.
    + done.
    + intros q Hq. rewrite elem_cptrs in Hq. simpl in Hq. apply lookup_insert_ne. naive_solver.
Qed.

(** The node already holds its data, no children and the colour red. *)
Lemma wp_rq_hang s k lnk p d par0 m (Q : unit → rbst (option Z) → Prop) :
  whole s (plug k E) → link_at lnk k → rb (plug k E) m → tcol (plug k E) = RB_BLACK →
  heap s !! p = Some (Node None None par0 RB_RED d) → p ∉ cptrs k →
  (length k + 1 < rq_fuel)%nat →
  (∀ s' t', whole s' t' → elems t' = lctx k ++ (p, d) :: rctx k → (∃ n, rb t' n) →
     tcol t' = RB_BLACK → (∀ q, q ∉ cptrs k → q ≠ p → heap s' !! q = heap s !! q) → Q tt s') →
  wp (wr (set_parent (cpar k)) (Some p);;
      write_link lnk (Some p);;
      insert_fixup rq_fuel (Some p)) Q s.
Proof.
  intros (Hroot & Hrep & Hnd) Hl Hrb Hc Hp Hpk Hfuel HQ. apply rep_plug in Hrep as [_ Hctx].
  rewrite rptr_plug in Hroot. apply nodup_plug in Hnd as (_ & Hnd & _).
  apply wp_bind. eapply wp_wr; [exact Hp|]. simpl.
  apply wp_bind. eapply wp_rq_write_link; [|exact Hroot|done|exact Hl|].
  { simpl. eapply rep_ctx_frame; [|exact Hctx]. intros q Hq. apply lookup_insert_ne. by intros <-. }
  intros s1 Hctx1 Hroot1 Hout1. simpl in Hout1.
  destruct (rb_plug_inv k E m Hrb Hc) as (j & Hj & Hk & _ & _). simpl in Hj. subst j.
  unfold insert_fixup.
  eapply wp_mono; [apply (RBInsert.wp_insert_fixup _ eevdf_rotates rq_fuel s1 k p d E E 0)|].
  2-4: done.
  - split_and!; simpl.
    + by rewrite Hroot1, rptr_plug.
    + apply rep_plug. split; [|done]. split; [|done]. simpl. by rewrite Hout1, lookup_insert_eq.
    + apply nodup_plug. split_and!; [|done|].
      * unfold ptrs; simpl. apply NoDup_singleton.
      * intros q Hq. unfold ptrs in Hq; simpl in Hq. by apply list_elem_of_singleton in Hq as ->.
  - simpl. intros [] s2 (t2 & Hw2 & He2 & Hrb2 & Hc2 & Hu2).
    apply (HQ s2 t2); [done|by rewrite He2, elems_plug|done|done|].
    intros q Hq Hqp. rewrite Hu2.
    + by rewrite Hout1, lookup_insert_ne.
    + rewrite elem_ptrs_plug, elem_ptrs_T, ptrs_E. set_solver.
Qed.
