(* ===== verification/EevdfThm.v ===== *)
(** * The EEVDF run queue: correctness

    The run queue represents a list of distinct tasks in the order of their
    virtual run times; enqueueing inserts behind the tasks of equal key,
    dequeueing removes, and the task picked next is the head. *)
From stdpp Require Import base gmap list option numbers sorting.
From S2P Require Import Prelude RBHeap RBTree RBInsert RBDelete TaskDef Eevdf EevdfTree.
#[local] Open Scope Z_scope.
Import Eevdf.

Lemma rq_fuel_val : rq_fuel = 200%nat.
Proof. reflexivity. Qed.
#[local] Opaque rq_fuel.

(** ** What the run queue represents *)

(** Key and weight of a task. *)
Definition vr (ts : gmap Z task) (a : Z) : Z :=
  match ts !! a with Some t => vruntime t | None => 0 end.
Definition wt (ts : gmap Z task) (a : Z) : Z :=
  match ts !! a with Some t => default 0 (weight_of (priority t)) | None => 0 end.
Definition total_weight (ts : gmap Z task) (q : list Z) : Z :=
  foldr (λ a acc, wt ts a + acc) 0 q.

Definition task_ok (ts : gmap Z task) (a : Z) : Prop :=
  match ts !! a with Some t => EEVDF_MIN_NICE ≤ priority t ≤ EEVDF_MAX_NICE | None => False end.

(** In the order of virtual run times. *)
Definition ordered (ts : gmap Z task) : list Z → Prop :=
  StronglySorted (λ a b, vr ts a ≤ vr ts b).

(** Bit [i] of the allocation bitmap tells whether node [i] is in the tree. *)
Definition pool_ok (bm : list Z) (h : gmap Z (node (option Z))) (used : list Z) : Prop :=
  ∃ w w', bm = [w; w'] ∧ 0 ≤ w < 2 ^ 64 ∧
    (∀ i, 0 ≤ i < 64 → Z.testbit w i = bool_decide (i ∈ used)) ∧
    (∀ i, i ∈ used → 0 ≤ i < 64) ∧ (∀ i, 0 ≤ i < 64 → is_Some (h !! i)).

Record rq_rep (s : eevdf) (t : tree (option Z)) (q : list Z) : Prop := {
  rr_whole : whole (rq s) t;
  rr_rb : ∃ m, rb t m;
  rr_black : tcol t = RB_BLACK;
  rr_data : (elems t).*2 = Some <$> q;
  rr_tasks : Forall (task_ok (etasks s)) q;
  rr_nodup : NoDup q;
  rr_sorted : ordered (etasks s) q;
  rr_leftmost : leftmost s = fst <$> head (elems t);
  rr_pool : pool_ok (node_bitmap s) (heap (rq s)) (ptrs t);
  rr_nr : nr_running s = Z.of_nat (length q);
  rr_load : load_weight s = total_weight (etasks s) q;
}.

(** ** The node pool *)

Lemma bit_of_small i : 0 ≤ i < 64 → bit_of i = Z.shiftl 1 i.
Proof.
  intros Hi. unfold bit_of. rewrite Z.mod_small by lia.
  apply wrap_small, bit1_range. lia.
Qed.

Lemma word0 i : 0 ≤ i < 64 → Z.to_nat (i / 64) = 0%nat.
Proof. intros Hi. by rewrite Z.div_small. Qed.

Lemma rq_pool_length bm h used : pool_ok bm h used → NoDup used → (length used ≤ 64)%nat.
Proof.
  intros (w & w' & _ & _ & _ & Hin & _) Hnd.
  assert (Hs : used ⊆+ seqZ 0 64).
  { apply NoDup_submseteq; [done|]. intros i Hi%Hin. apply elem_of_seqZ. lia. }
  apply submseteq_length in Hs. by rewrite length_seqZ in Hs.
Qed.

Lemma pool_full used : (∀ i, 0 ≤ i < 64 → i ∈ used) → (64 ≤ length used)%nat.
Proof.
  intros Hall. assert (Hs : seqZ 0 64 ⊆+ used).
  { apply NoDup_submseteq; [apply NoDup_seqZ|]. intros i Hi%elem_of_seqZ. apply Hall. lia. }
  apply submseteq_length in Hs. by rewrite length_seqZ in Hs.
Qed.

Lemma wp_alloc_node s used (Q : ptr → eevdf → Prop) :
  pool_ok (node_bitmap s) (heap (rq s)) used →
  (∀ i bm, 0 ≤ i < 64 → i ∉ used → pool_ok bm (heap (rq s)) (i :: used) →
     Q (Some i) (set_node_bitmap bm s)) →
  ((64 ≤ length used)%nat → Q None s) →
  wp alloc_node Q s.
Proof.
  intros (w & w' & Hbm & Hw & Hbit & Hin & Hheap) HQ HQn. unfold alloc_node. apply wp_bind.
  eapply (wp_for_ret (λ i s', s' = s ∧ ∀ j, 0 ≤ j < i → j ∈ used)); [split; [done|lia]| |].
  - intros i s' Hi [-> Hprev]. apply wp_bind, wp_gets. apply wp_bind.
    eapply wp_deref; [rewrite Hbm, word0 by lia; reflexivity|].
    rewrite bit_of_small, land_bit1_eqb, Hbit by lia.
    destruct (bool_decide_reflect (i ∈ used)) as [Hu|Hu]; simpl.
    + apply wp_ret. split; [done|]. intros j Hj.
      destruct (decide (j = i)) as [->|]; [done|]. apply Hprev. lia.
    + apply wp_bind, wp_modify, wp_ret, wp_ret. rewrite word0, Hbm by lia. simpl.
      assert (Hlor : 0 ≤ Z.lor w (Z.shiftl 1 i) < 2 ^ 64)
        by (apply lor_range; [lia|lia|apply bit1_range; lia]).
      apply HQ; [lia|done|]. exists (Z.lor w (Z.shiftl 1 i)), w'.
      split; [done|]. split; [exact Hlor|]. split_and!.
      * intros j Hj. rewrite Z.lor_spec, testbit_bit1, Hbit by lia.
        destruct (Z.eqb_spec j i) as [->|]; case_bool_decide; case_bool_decide; set_solver.
      * intros j [->|Hj]%elem_of_cons; [lia|auto].
      * done.
  - intros s' [-> Hall]. apply wp_ret, HQn, pool_full. intros i Hi. apply Hall. lia.
Qed.

Lemma wp_free_node s i used (Q : unit → eevdf → Prop) :
  0 ≤ i < 64 → pool_ok (node_bitmap s) (heap (rq s)) (i :: used) → i ∉ used →
  (∀ bm, pool_ok bm (heap (rq s)) used → Q tt (set_node_bitmap bm s)) →
  wp (free_node (Some i)) Q s.
Proof.
  intros Hi (w & w' & Hbm & Hw & Hbit & Hin & Hheap) Hni HQ. unfold free_node.
  destruct (Z.ltb_spec i 0); [lia|]. destruct (Z.leb_spec 64 i); [lia|]. simpl.
  apply wp_bind, wp_gets. apply wp_bind.
  eapply wp_deref; [rewrite Hbm, word0 by lia; reflexivity|].
  apply wp_modify. rewrite Hbm, word0 by lia. simpl. apply HQ.
  assert (Hm : 0 ≤ u64 (Z.lnot (bit_of i)) < 2 ^ 64) by (apply Z.mod_pos_bound; lia).
  assert (Hland : 0 ≤ Z.land w (u64 (Z.lnot (bit_of i))) < 2 ^ 64) by (apply land_range; lia).
  eexists _, w'. split; [done|]. split; [exact Hland|]. split_and!; [| |done].
  - intros j Hj. rewrite Z.land_spec, Hbit by lia. unfold u64.
    rewrite testbit_u, Z.lnot_spec, bit_of_small, testbit_bit1 by lia.
    destruct (Z.ltb_spec j 64); [|lia]. simpl.
    destruct (Z.eqb_spec j i) as [->|]; simpl; case_bool_decide; try case_bool_decide; set_solver.
  - intros j Hj. apply Hin. set_solver.
Qed.

(** The scan for a task's node finds it exactly when the task is queued. *)
Lemma wp_find_node s t q a (Q : ptr → eevdf → Prop) :
  rq_rep s t q →
  (∀ p, (p, Some a) ∈ elems t → Q (Some p) s) → (a ∉ q → Q None s) →
  wp (find_node (Some a)) Q s.
Proof.
  intros Hr HQ HQn. destruct (rr_pool _ _ _ Hr) as (w & w' & Hbm & Hw & Hbit & Hin & Hheap).
  pose proof (rr_whole _ _ _ Hr) as Hwh. unfold find_node. apply wp_bind.
  assert (Hdata : ∀ p d, (p, d) ∈ elems t → ∃ n, heap (rq s) !! p = Some n ∧ data n = d).
  { destruct Hwh as (_ & Hrep & _). revert Hrep. generalize (None : ptr). clear.
    induction t as [|p c d l IHl r IHr]; intros par Hrep p' d'; simpl; [by intros ?%elem_of_nil|].
    destruct Hrep as (Hp & Hl & Hr). intros [He|[[= -> ->]|He]%elem_of_cons]%elem_of_app;
      [by eapply IHl|by eexists|by eapply IHr]. }
  eapply (wp_for_ret (λ i s', s' = s ∧ ∀ j, 0 ≤ j < i → (j, Some a) ∉ elems t)); [split; [done|lia]| |].
  - intros i s' Hi [-> Hprev]. apply wp_bind, wp_gets. apply wp_bind.
    eapply wp_deref; [rewrite Hbm, word0 by lia; reflexivity|].
    rewrite bit_of_small, land_bit1_eqb, Hbit, negb_involutive by lia.
    assert (Hnext : (i, Some a) ∉ elems t → s = s ∧ ∀ j, 0 ≤ j < i + 1 → (j, Some a) ∉ elems t).
    { intros Hno. split; [done|]. intros j Hj. destruct (decide (j = i)) as [->|]; [done|].
      apply Hprev. lia. }
    destruct (bool_decide_reflect (i ∈ ptrs t)) as [Hu|Hu]; simpl.
    + apply list_elem_of_fmap in Hu as ([p d] & -> & Hpd). simpl in *.
      destruct (Hdata _ _ Hpd) as (n & Hn & Hd).
      apply wp_bind, wp_zoom. eapply wp_rd; [exact Hn|]. rewrite Hd. simpl.
      replace (set_rq (rq s) s) with s by (by destruct s).
      unfold ptr_eqb. destruct (bool_decide_reflect (d = Some a)) as [->|Hne].
      * apply wp_ret, wp_ret. by apply HQ.
      * apply wp_ret, Hnext. intros Hpa. apply Hne.
        destruct (Hdata _ _ Hpa) as (n' & Hn' & Hd'). congruence.
    + apply wp_ret, Hnext. contradict Hu. apply list_elem_of_fmap. by exists (i, Some a).
  - intros s' [-> Hall]. apply wp_ret, HQn. intros Ha.
    assert (Hd : Some a ∈ (elems t).*2).
    { rewrite (rr_data _ _ _ Hr). apply list_elem_of_fmap. by exists a. }
    apply list_elem_of_fmap in Hd as ([p d] & Heq & Hpd). simpl in Heq. subst d.
    apply (Hall p); [|done]. apply Hin, list_elem_of_fmap. by exists (p, Some a).
Qed.

(** ** Enqueue *)

Section order.
Context (ts : gmap Z task).

(** Behind the tasks whose virtual run time is not larger. *)
Fixpoint rq_insert (a : Z) (q : list Z) : list Z :=
  match q with
  | [] => [a]
  | b :: q' => if vr ts a <? vr ts b then a :: b :: q' else b :: rq_insert a q'
  end.

Lemma rq_insert_split a A B :
  Forall (λ b, vr ts b ≤ vr ts a) A → Forall (λ b, vr ts a < vr ts b) B →
  rq_insert a (A ++ B) = A ++ a :: B.
Proof.
  intros HA HB. induction HA as [|b A Hb HA IH]; simpl.
  - destruct HB as [|b B Hb HB]; simpl; [done|]. by destruct (Z.ltb_spec (vr ts a) (vr ts b)); [|lia].
  - destruct (Z.ltb_spec (vr ts a) (vr ts b)); [lia|]. by rewrite IH.
Qed.

Lemma ordered_insert a A B :
  ordered ts (A ++ B) → Forall (λ b, vr ts b ≤ vr ts a) A → Forall (λ b, vr ts a < vr ts b) B →
  ordered ts (A ++ a :: B).
Proof.
  unfold ordered. rewrite !StronglySorted_app, StronglySorted_cons.
  rewrite !Forall_forall. intros (H & HA & HB) Hle Hlt. split_and!; try done.
  - intros x1 x2 Hx1 [->|Hx2]%elem_of_cons; auto.
  - intros x Hx. specialize (Hlt x Hx). lia.
Qed.

Lemma ordered_remove a A B : ordered ts (A ++ a :: B) → ordered ts (A ++ B).
Proof.
  unfold ordered. rewrite !StronglySorted_app, StronglySorted_cons.
  intros (H & HA & _ & HB). split_and!; try done. intros x1 x2 Hx1 Hx2.
  apply H; [done|]. apply elem_of_cons. by right.
Qed.

(** The descent of [eevdf_enqueue]. *)
Lemma wp_rq_find_link fuel s k t lnk a tk qa qt qb (Q : link * ptr * bool → eevdf → Prop) :
  whole (rq s) (plug k t) → link_at lnk k → etasks s = ts → ts !! a = Some tk →
  (lctx k).*2 = Some <$> qa → (elems t).*2 = Some <$> qt → (rctx k).*2 = Some <$> qb →
  Forall (task_ok ts) qt → ordered ts qt →
  Forall (λ b, vr ts b ≤ vr ts a) qa → Forall (λ b, vr ts a < vr ts b) qb →
  (length (elems t) < fuel)%nat →
  (∀ k' lnk' qa' qb', plug k t = plug k' E → link_at lnk' k' → qa ++ qt ++ qb = qa' ++ qb' →
     (lctx k').*2 = Some <$> qa' → (rctx k').*2 = Some <$> qb' →
     Forall (λ b, vr ts b ≤ vr ts a) qa' → Forall (λ b, vr ts a < vr ts b) qb' →
     Q (lnk', cpar k', bool_decide (qa' = [])) s) →
  wp (find_link fuel (Some a) lnk (cpar k) (bool_decide (qa = []))) Q s.
Proof.
  intros Hw Hl Hts Ha. revert k t lnk qa qt qb Hw Hl. induction fuel as [|fuel IH];
    intros k t lnk qa qt qb Hw Hl Hqa Hqt Hqb Hok Hord Hle Hlt Hlen HQ; [lia|]. simpl.
  assert (Hsame : set_rq (rq s) s = s) by (by destruct s).
  apply wp_bind, wp_zoom. eapply wp_rq_read_link; [exact Hw|done|]. rewrite Hsame.
  destruct t as [|p c d l r]; simpl.
  { apply wp_ret. symmetry in Hqt. apply fmap_nil_inv in Hqt. subst qt. by apply (HQ k lnk qa qb). }
  apply wp_bind. eapply wp_trd; [simpl; by rewrite Hts|].
  apply wp_bind, wp_zoom. eapply wp_rd; [by apply (whole_focus (rq s) k L p c d l r)|].
  simpl. rewrite Hsame. simpl in Hqt. rewrite fmap_app in Hqt. symmetry in Hqt.
  apply fmap_app_inv in Hqt as (ql & qr & Hql & Hqr & ->). destruct qr as [|b qr]; [done|].
  simpl in Hqr. injection Hqr as -> Hqr.
  apply Forall_app in Hok as [Hokl [Hb Hokr]%Forall_cons].
  unfold ordered in Hord. apply StronglySorted_app in Hord as (Hlr & Hordl & Hordr).
  apply StronglySorted_cons in Hordr as [Hbr Hordr].
  unfold task_ok in Hb. destruct (ts !! b) as [tb|] eqn:Htb; [|done].
  apply wp_bind. eapply wp_trd; [simpl; by rewrite Hts|].
  assert (Hva : vruntime tk = vr ts a) by (unfold vr; by rewrite Ha).
  assert (Hvb : vruntime tb = vr ts b) by (unfold vr; by rewrite Htb).
  rewrite Hva, Hvb. simpl in Hlen. rewrite length_app in Hlen. simpl in Hlen.
  destruct (Z.ltb_spec (vr ts a) (vr ts b)) as [Hab|Hab].
  - apply (IH (Frame L p c (Some b) r :: k) l (LChild L (Some p)) qa ql (b :: qr ++ qb)); try done.
    + simpl. by rewrite app_nil_r.
    + simpl. f_equal. rewrite !fmap_app. by f_equal.
    + apply Forall_cons. split; [done|]. apply Forall_app. split; [|done].
      eapply Forall_impl; [exact Hbr|]. simpl. intros x Hx. lia.
    + lia.
    + intros k' lnk' qa' qb' H1 H2 H3. apply HQ; [done|done|]. rewrite <-H3. by rewrite <-!app_assoc.
  - replace false with (bool_decide (qa ++ ql ++ [b] = [])) at 1
      by (apply bool_decide_eq_false; by destruct qa, ql).
    apply (IH (Frame R p c (Some b) l :: k) r (LChild R (Some p)) (qa ++ ql ++ [b]) qr qb); try done.
    + simpl. rewrite !fmap_app. by repeat f_equal.
    + apply Forall_app. split; [done|]. apply Forall_app. split; [|by repeat constructor].
      apply Forall_forall. intros x Hx. etrans; [|exact Hab]. apply Hlr; [done|]. by left.
    + lia.
    + intros k' lnk' qa' qb' H1 H2 H3. apply HQ; [done|done|]. rewrite <-H3.
      by rewrite <-!app_assoc.
Qed.
End order.

(** ** Facts shared by the operations *)

Lemma weight_of_nice p :
  EEVDF_MIN_NICE ≤ p ≤ EEVDF_MAX_NICE → ∃ w, weight_of p = Some w ∧ 15 ≤ w ≤ 88761.
Proof.
  unfold EEVDF_MIN_NICE, EEVDF_MAX_NICE, weight_of. intros Hp.
  destruct (Z.ltb_spec (p + 20) 0); [lia|].
  destruct (lookup_lt_is_Some_2 eevdf_nice_to_weight (Z.to_nat (p + 20))) as [w Hw]; [simpl; lia|].
  exists w. split; [done|].
  assert (Hall : Forall (λ w, 15 ≤ w ≤ 88761) eevdf_nice_to_weight) by (repeat constructor; lia).
  by apply (Forall_lookup_1 _ _ _ _ Hall Hw).
Qed.

Lemma wt_range ts a : task_ok ts a → 15 ≤ wt ts a ≤ 88761.
Proof.
  unfold task_ok, wt. destruct (ts !! a) as [tk|]; [|done].
  intros (w & -> & Hw)%weight_of_nice. done.
Qed.

Lemma total_weight_app ts A B : total_weight ts (A ++ B) = total_weight ts A + total_weight ts B.
Proof. induction A as [|a A IH]; simpl; [done|]. unfold total_weight in *. lia. Qed.

Lemma total_weight_range ts q :
  Forall (task_ok ts) q →
  15 * Z.of_nat (length q) ≤ total_weight ts q ≤ 88761 * Z.of_nat (length q).
Proof.
  induction 1 as [|a q Ha Hq IH]; [simpl; lia|].
  apply wt_range in Ha. unfold total_weight in *. cbn [foldr length]. lia.
Qed.

(** Only the queued tasks' structures matter. *)
Lemma vr_frame ts a tk b : b ≠ a → vr (<[a := tk]> ts) b = vr ts b.
Proof. intros Hne. unfold vr. by rewrite lookup_insert_ne. Qed.

Lemma ordered_frame ts ts' q :
  (∀ b, b ∈ q → vr ts' b = vr ts b) → ordered ts q → ordered ts' q.
Proof.
  intros Hv Hs. unfold ordered in *. induction Hs as [|b q Hs IH Hb]; [constructor|].
  constructor; [apply IH; set_solver|]. rewrite Forall_forall in *. intros x Hx.
  rewrite !Hv by set_solver. by apply Hb.
Qed.

Lemma total_weight_frame ts ts' q :
  (∀ b, b ∈ q → wt ts' b = wt ts b) → total_weight ts' q = total_weight ts q.
Proof.
  induction q as [|b q IH]; intros Hw; [done|]. unfold total_weight in *. cbn [foldr].
  rewrite Hw, IH by set_solver. done.
Qed.

Lemma tasks_frame ts a tk q :
  a ∉ q → Forall (task_ok ts) q → ordered ts q →
  Forall (task_ok (<[a := tk]> ts)) q ∧ ordered (<[a := tk]> ts) q ∧
  total_weight (<[a := tk]> ts) q = total_weight ts q.
Proof.
  intros Ha Hok Hord. split_and!.
  - rewrite Forall_forall in *. intros b Hb. unfold task_ok. rewrite lookup_insert_ne by (by intros ->).
    by apply Hok.
  - eapply ordered_frame; [|exact Hord]. intros b Hb. apply vr_frame. by intros ->.
  - apply total_weight_frame. intros b Hb. unfold wt. rewrite lookup_insert_ne by (by intros ->). done.
Qed.

Lemma rq_rep_tasks s t q a tk :
  rq_rep s t q → a ∉ q → rq_rep (set_etasks (<[a := tk]> (etasks s)) s) t q.
Proof.
  intros [Hwh Hrb Hbl Hda Htk Hnd Hso Hlm Hpo Hnr Hlo] Ha.
  destruct (tasks_frame _ a tk q Ha Htk Hso) as (H1 & H2 & H3).
  split; simpl; [done..|]. congruence.
Qed.

Lemma rq_rep_length s t q : rq_rep s t q → length (elems t) = length q ∧ (length q ≤ 64)%nat.
Proof.
  intros Hr. assert (Hlen : length (elems t) = length q).
  { rewrite <-(length_fmap snd (elems t)), (rr_data _ _ _ Hr). apply length_fmap. }
  split; [done|]. rewrite <-Hlen, <-(length_fmap fst (elems t)).
  eapply rq_pool_length; [apply (rr_pool _ _ _ Hr)|]. apply (rr_whole _ _ _ Hr).
Qed.

(** Every node of the tree is a node of the pool. *)
Lemma rep_dom (h : gmap Z (node (option Z))) par t p :
  rep h par t → p ∈ ptrs t → is_Some (h !! p).
Proof.
  revert par. induction t as [|p' c d l IHl r IHr]; intros par Hrep; [by intros ?%elem_of_nil|].
  destruct Hrep as (Hp & Hl & Hr). rewrite elem_ptrs_T. intros [->|[He|He]]; [by eexists|..]; eauto.
Qed.

Lemma whole_outside (s : rbst (option Z)) t p n :
  whole s t → p ∉ ptrs t → whole {| heap := <[p := n]> (heap s); root := root s |} t.
Proof.
  intros (Hroot & Hrep & Hnd) Hp. split_and!; simpl; [done| |done].
  eapply rep_frame; [|exact Hrep]. intros q Hq. apply lookup_insert_ne. by intros <-.
Qed.

(** ** Enqueue *)

(** A queued task: where the tree part of [eevdf_enqueue] arrives. *)
Definition placed (a : Z) (q : list Z) (s s' : eevdf) : Prop :=
  (∃ t', rq_rep s' t' (if (length q <? 64)%nat then rq_insert (etasks s) a q else q)) ∧
  etasks s' = etasks s ∧ min_vruntime s' = min_vruntime s.

(** Rebuilding the representation after the insertion of node [i]. *)
Lemma placed_rep s t q a tk w k qa qb i bm rq' t' :
  rq_rep s t q → etasks s !! a = Some tk → weight_of (priority tk) = Some w →
  EEVDF_MIN_NICE ≤ priority tk ≤ EEVDF_MAX_NICE → a ∉ q → (length q < 64)%nat →
  t = plug k E → q = qa ++ qb → (lctx k).*2 = Some <$> qa → (rctx k).*2 = Some <$> qb →
  Forall (λ b, vr (etasks s) b ≤ vr (etasks s) a) qa →
  Forall (λ b, vr (etasks s) a < vr (etasks s) b) qb →
  whole rq' t' → elems t' = lctx k ++ (i, Some a) :: rctx k → (∃ n, rb t' n) →
  tcol t' = RB_BLACK → pool_ok bm (heap rq') (i :: ptrs t) →
  rq_rep {| rq := rq'; leftmost := if bool_decide (qa = []) then Some i else leftmost s;
            min_vruntime := min_vruntime s; load_weight := u32 (load_weight s + w);
            nr_running := u32 (nr_running s + 1); node_bitmap := bm; etasks := etasks s |}
         t' (rq_insert (etasks s) a q).
Proof.
  intros Hr Hta Hw Hnice Ha Hlen -> -> Hla Hrb Hle Hlt Hwh' Hel' Hrb' Hc' Hpool.
  destruct Hr as [Hwh Hrbt Hbl Hda Htk Hnd Hso Hlm Hpo Hnr Hlo].
  rewrite rq_insert_split by done.
  assert (Hok : Forall (task_ok (etasks s)) (qa ++ a :: qb)).
  { apply Forall_app in Htk as [H1 H2]. apply Forall_app. split; [done|]. constructor; [|done].
    unfold task_ok. by rewrite Hta. }
  pose proof (total_weight_range _ _ Hok) as Hrange.
  assert (Hwt : total_weight (etasks s) (qa ++ a :: qb) = load_weight s + w).
  { rewrite Hlo, !total_weight_app. unfold total_weight at 2. cbn [foldr].
    fold (total_weight (etasks s) qb). unfold wt. rewrite Hta, Hw. simpl. lia. }
  rewrite !length_app in *. cbn [length] in *. split; simpl; try done.
  - by rewrite Hel', !fmap_app, Hla, fmap_cons, Hrb.
  - rewrite list.NoDup_app, list.NoDup_cons in *. set_solver.
  - by apply ordered_insert.
  - rewrite Hel'. case_bool_decide as Hq.
    + subst qa. symmetry in Hla. by destruct (lctx k).
    + rewrite Hlm, elems_plug. simpl. destruct (lctx k); [by destruct qa|done].
  - destruct Hpool as (v & v' & H1 & H2 & H3 & H4 & H5). exists v, v'.
    assert (Hmem : ∀ j, j ∈ ptrs t' ↔ j ∈ i :: ptrs (plug k E)).
    { intros j. unfold ptrs. rewrite Hel', elems_plug. simpl. rewrite !fmap_app, fmap_cons.
      set_solver. }
    split; [done|]. split; [exact H2|]. split_and!; [|set_solver|done].
    intros j Hj. rewrite H3 by done. apply bool_decide_ext. by rewrite Hmem.
  - rewrite length_app, Hnr. cbn [length]. unfold u32. rewrite (wrap_small 32) by lia. lia.
  - rewrite Hwt. apply (wrap_small 32). lia.
Qed.

Lemma wp_place s t q a tk :
  rq_rep s t q → etasks s !! a = Some tk →
  EEVDF_MIN_NICE ≤ priority tk ≤ EEVDF_MAX_NICE → a ∉ q →
  wp (node ← alloc_node;
      if is_null node then mret tt
      else
        on_rq (wr (set_data (Some a)) node;;
               wr (set_parent None) node;;
               wr (set_right None) node;;
               wr (set_left None) node;;
               wr (set_color RB_RED) node);;
        lk ← find_link rq_fuel (Some a) LRoot None true;
        let '(k, par, leftm) := lk in
        when leftm (modify (set_leftmost node));;
        on_rq (wr (set_parent par) node;;
               write_link k node;;
               insert_fixup rq_fuel node);;
        prio ← trd priority (Some a);
        weight ← deref (weight_of prio);
        modify (λ s, set_load_weight (u32 (load_weight s + weight)) s);;
        modify (λ s, set_nr_running (u32 (nr_running s + 1)) s)) (λ _, placed a q s) s.
Proof.
  intros Hr Hta Hnice Ha. destruct (rq_rep_length s t q Hr) as [Hlen Hlen64].
  pose proof (rr_whole _ _ _ Hr) as Hwh.
  apply wp_bind. eapply wp_alloc_node; [exact (rr_pool _ _ _ Hr)| |].
  2:{ intros Hfull. apply wp_ret. unfold ptrs in Hfull. rewrite length_fmap, Hlen in Hfull.
      split; [|done]. destruct (Nat.ltb_spec (length q) 64); [lia|]. by exists t. }
  intros i bm Hi Hfresh Hpool. simpl.
  assert (Hlt : (length q < 64)%nat).
  { pose proof (rq_pool_length _ _ _ Hpool) as Hp. cbn [length] in Hp. unfold ptrs in Hp.
    rewrite length_fmap, Hlen in Hp. apply Hp. apply list.NoDup_cons. split; [done|apply Hwh]. }
  destruct Hpool as (v & v' & Hp1 & Hp2 & Hp3 & Hp4 & Hp5).
  destruct (Hp5 i Hi) as [n Hn].
  apply wp_bind, wp_zoom. apply wp_bind. eapply wp_wr; [exact Hn|]. simpl.
  do 3 (apply wp_bind; eapply wp_wr; [by apply lookup_insert_eq|]; simpl).
  eapply wp_wr; [by apply lookup_insert_eq|]. simpl. rewrite !insert_insert_eq.
  set (nd := Node None None None RB_RED (Some a)).
  set (r1 := {| heap := <[i := nd]> (heap (rq s)); root := root (rq s) |}).
  assert (Hw1 : whole r1 t) by (by apply whole_outside).
  apply wp_bind. change true with (bool_decide (([] : list Z) = [])).
  eapply (wp_rq_find_link (etasks s) rq_fuel _ [] t LRoot a tk [] q []).
  { exact Hw1. } { done. } { done. } { done. } { done. } { apply (rr_data _ _ _ Hr). } { done. }
  { apply (rr_tasks _ _ _ Hr). } { apply (rr_sorted _ _ _ Hr). } { done. } { done. }
  { rewrite Hlen. rewrite rq_fuel_val. lia. }
  intros k lnk qa qb Hk Hl Hq Hla Hrb Hle Hgt. simpl in Hk. rewrite app_nil_r in Hq. simpl in Hq.
  destruct (rr_rb _ _ _ Hr) as [m Hm]. pose proof (rr_black _ _ _ Hr) as Hbl.
  destruct (weight_of_nice _ Hnice) as (w & Hw & _).
  assert (Hik : i ∉ cptrs k) by (rewrite Hk, elem_ptrs_plug in Hfresh; tauto).
  assert (Hfuelk : (length k + 1 < rq_fuel)%nat).
  { pose proof (length_ctx k) as Hlk. rewrite Hk, elems_plug, !length_app in Hlen.
    simpl in Hlen. rewrite rq_fuel_val. lia. }
  apply wp_bind. eapply (wp_mono _ (λ _ s1, s1 = set_leftmost
    (if bool_decide (qa = []) then Some i else leftmost s) (set_rq r1 (set_node_bitmap bm s)))).
  { case_bool_decide; simpl; [by apply wp_modify|]. by apply wp_ret. }
  intros [] s1 ->. apply wp_bind, wp_zoom. simpl.
  rewrite Hk in Hw1, Hm, Hbl.
  eapply (wp_rq_hang r1 k lnk i (Some a) None m); [done|done|done|done|by apply lookup_insert_eq|done|done|].
  intros r2 t2 Hw2 He2 Hrb2 Hc2 Hout2. simpl.
  apply wp_bind. eapply wp_trd; [exact Hta|]. apply wp_bind. eapply wp_deref; [exact Hw|].
  apply wp_bind, wp_modify, wp_modify. split; [|done].
  destruct (Nat.ltb_spec (length q) 64); [|lia]. exists t2.
  eapply (placed_rep s t q a tk w k qa qb i bm r2 t2); try done.
  exists v, v'. split; [done|]. split; [exact Hp2|]. split_and!; [done|done|].
  intros j Hj. destruct (decide (j = i)) as [->|Hji].
  { assert (Hin : i ∈ ptrs t2) by (unfold ptrs; rewrite He2, fmap_app, fmap_cons; set_solver).
    destruct Hw2 as (_ & Hrep2 & _). by eapply rep_dom. }
  destruct (decide (j ∈ cptrs k)) as [Hjk|Hjk].
  - assert (Hin : j ∈ ptrs t2).
    { unfold ptrs, cptrs in *. rewrite He2, fmap_app, fmap_cons. set_solver. }
    destruct Hw2 as (_ & Hrep2 & _). by eapply rep_dom.
  - rewrite Hout2 by done. simpl. rewrite lookup_insert_ne by done. by apply Hp5.
Qed.

(** ** The abstract run queue *)

Record queue := Queue { q_list : list Z; q_tasks : gmap Z task; q_min : Z }.

Definition represents (s : eevdf) (A : queue) : Prop :=
  (∃ t, rq_rep s t (q_list A)) ∧ etasks s = q_tasks A ∧ min_vruntime s = q_min A.

(** Only ready tasks are queued; their virtual run time is raised to the
    queue's minimum first; the pool holds 64 nodes. *)
Definition enqueue_spec (a : Z) (A : queue) : queue :=
  match q_tasks A !! a with
  | Some tk =>
      if state tk =? TASK_READY then
        let ts := <[a := set_vruntime (Z.max (vruntime tk) (q_min A)) tk]> (q_tasks A) in
        Queue (if (length (q_list A) <? 64)%nat then rq_insert ts a (q_list A) else q_list A)
              ts (q_min A)
      else A
  | None => A
  end.

Definition dequeue_spec (a : Z) (A : queue) : queue :=
  Queue (filter (λ b, b ≠ a) (q_list A)) (q_tasks A) (q_min A).

Lemma set_vruntime_id tk : set_vruntime (vruntime tk) tk = tk.
Proof. by destruct tk. Qed.

Lemma wp_enqueue s A a tk :
  represents s A → q_tasks A !! a = Some tk →
  EEVDF_MIN_NICE ≤ priority tk ≤ EEVDF_MAX_NICE → a ∉ q_list A →
  wp (eevdf_enqueue (Some a)) (λ _ s', represents s' (enqueue_spec a A)) s.
Proof.
  destruct A as [q ts mv]. intros ([t Hr] & Hts & Hmv) Hta Hnice Ha. simpl in *. subst ts mv.
  unfold eevdf_enqueue, enqueue_spec. simpl. rewrite Hta.
  apply wp_bind, wp_bind. eapply wp_trd; [exact Hta|]. apply wp_ret.
  destruct (Z.eqb_spec (state tk) TASK_READY) as [Hst|Hst]; cbn [negb].
  2:{ apply wp_ret. by split; [exists t|]. }
  apply wp_bind. eapply wp_trd; [exact Hta|]. apply wp_bind, wp_gets.
  set (tk' := set_vruntime (Z.max (vruntime tk) (min_vruntime s)) tk).
  apply wp_bind. eapply (wp_mono _ (λ _ s1, s1 = set_etasks (<[a := tk']> (etasks s)) s)).
  { unfold tk'. destruct (Z.ltb_spec (vruntime tk) (min_vruntime s)); simpl.
    - eapply wp_twr; [exact Hta|]. by rewrite Z.max_r by lia.
    - apply wp_ret. rewrite Z.max_l, set_vruntime_id, insert_id by (done || lia). by destruct s. }
  intros [] s1 ->. eapply wp_mono; [eapply (wp_place _ t q a tk')|].
  - by apply rq_rep_tasks.
  - simpl. by rewrite lookup_insert_eq.
  - done.
  - done.
  - simpl. intros ? s2 (Hrep & Hts & Hmv). by split_and!.
Qed.

(** ** Dequeue *)

Lemma tree_focus (t : tree (option Z)) p d :
  (p, d) ∈ elems t → ∃ k c l r, t = plug k (T p c d l r).
Proof.
  induction t as [|p' c d' l IHl r IHr]; simpl; [by intros ?%elem_of_nil|].
  intros [He|[[= -> ->]|He]%elem_of_cons]%elem_of_app.
  - destruct (IHl He) as (k & c1 & l1 & r1 & ->). exists (k ++ [Frame L p' c d' r]), c1, l1, r1.
    by rewrite plug_app.
  - by exists [], c, l, r.
  - destruct (IHr He) as (k & c1 & l1 & r1 & ->). exists (k ++ [Frame R p' c d' l]), c1, l1, r1.
    by rewrite plug_app.
Qed.

(** The leftmost link when node [p] leaves. *)
Lemma wp_next_leftmost s k p c d l r :
  whole (rq s) (plug k (T p c d l r)) → (length (elems (plug k (T p c d l r))) ≤ 64)%nat →
  leftmost s = fst <$> head (elems (plug k (T p c d l r))) →
  wp (when (ptr_eqb (leftmost s) (Some p)) (
        nr ← on_rq (rd right (Some p));
        lm' ← (if negb (is_null nr) then on_rq (rb_first nr)
               else p' ← on_rq (rd parent (Some p)); on_rq (climb rq_fuel (Some p) p'));
        modify (set_leftmost lm')))
     (λ _ s', s' = set_leftmost (fst <$> head (lctx k ++ elems l ++ elems r ++ rctx k)) s) s.
Proof.
  intros Hw Hlen Hlm. rewrite elems_remove in Hlm, Hlen.
  assert (Hsame : set_rq (rq s) s = s) by (by destruct s).
  pose proof Hw as (_ & Hrep & Hnd). unfold ptrs in Hnd. rewrite elems_remove in Hnd.
  unfold ptr_eqb. case_bool_decide as Hp; simpl.
  - assert (Hnil : lctx k = [] ∧ elems l = []).
    { rewrite Hp in Hlm. rewrite app_assoc in Hlm, Hnd.
      destruct (lctx k) as [|e A] eqn:HA; [destruct (elems l) as [|e B] eqn:HB; [done|]|]; exfalso;
        simpl in Hlm, Hnd; injection Hlm as ->; apply list.NoDup_cons in Hnd as [Hnd _];
        apply Hnd; rewrite fmap_app, fmap_cons; set_solver. }
    destruct Hnil as [Hk Hl]. destruct l as [|? ? ? l1 l2]; [|simpl in Hl; by destruct (elems l1)].
    pose proof (whole_focus (rq s) k L p c d E r Hw) as Hn.
    apply wp_bind, wp_zoom. eapply wp_rd; [exact Hn|]. simpl. rewrite Hsame, Hk. simpl.
    apply wp_bind. destruct (is_null (rptr r)) eqn:Hnull; simpl.
    + destruct r; [|done]. apply wp_bind, wp_zoom. eapply wp_rd; [exact Hn|]. simpl.
      rewrite Hsame. apply wp_zoom. eapply wp_climb; [exact Hw|done|]. rewrite Hsame.
      by apply wp_modify.
    + apply rep_plug in Hrep as [(_ & _ & Hr) _].
      apply wp_zoom. eapply wp_rb_first; [exact Hr| |].
      { rewrite !length_app in Hlen. cbn [length] in Hlen. rewrite length_app in Hlen.
        rewrite rq_fuel_val. lia. }
      rewrite Hsame. apply wp_modify. destruct r as [|? ? ? r1 r2]; [done|]. simpl.
      by destruct (elems r1).
  - apply wp_ret. rewrite Hlm in Hp. destruct (lctx k) as [|e A]; simpl in *.
    + destruct (elems l) as [|e B]; simpl in *; [done|]. rewrite <-Hlm. by destruct s.
    + rewrite <-Hlm. by destruct s.
Qed.

Lemma filter_id (a : Z) A : Forall (λ b, b ≠ a) A → filter (λ b, b ≠ a) A = A.
Proof. induction 1 as [|b A Hb HA IH]; [done|]. by rewrite filter_cons_True, IH. Qed.

Lemma filter_split (a : Z) A B :
  NoDup (A ++ a :: B) → filter (λ b, b ≠ a) (A ++ a :: B) = A ++ B.
Proof.
  rewrite list.NoDup_app, list.NoDup_cons. intros (_ & HA & Ha & _).
  rewrite filter_app, filter_cons_False by naive_solver.
  f_equal; apply filter_id; apply Forall_forall; intros x Hx ->; [|done].
  eapply HA; [exact Hx|]. by left.
Qed.

Lemma removed_rep s k p c a l r qa qb w t' rq' bm :
  rq_rep s (plug k (T p c (Some a) l r)) (qa ++ a :: qb) →
  (lctx k ++ elems l).*2 = Some <$> qa → (elems r ++ rctx k).*2 = Some <$> qb →
  wt (etasks s) a = w → whole rq' t' → elems t' = lctx k ++ elems l ++ elems r ++ rctx k →
  (∃ n, rb t' n) → tcol t' = RB_BLACK → pool_ok bm (heap rq') (ptrs t') →
  rq_rep {| rq := rq'; leftmost := fst <$> head (lctx k ++ elems l ++ elems r ++ rctx k);
            min_vruntime := min_vruntime s; load_weight := load_weight s - w;
            nr_running := nr_running s - 1; node_bitmap := bm; etasks := etasks s |}
         t' (qa ++ qb).
Proof.
  intros Hr Hqa Hqb Hw Hwh' He' Hrb' Hc' Hpool.
  destruct Hr as [Hwh Hrbt Hbl Hda Htk Hnd Hso Hlm Hpo Hnr Hlo]. split; simpl; try done.
  - by rewrite He', app_assoc, fmap_app, Hqa, Hqb, fmap_app.
  - apply Forall_app in Htk as [H1 [_ H2]%Forall_cons]. by apply Forall_app.
  - rewrite list.NoDup_app, list.NoDup_cons in *. set_solver.
  - by eapply ordered_remove.
  - by rewrite He'.
  - rewrite Hnr, !length_app. cbn [length]. lia.
  - rewrite Hlo, !total_weight_app. unfold total_weight at 2. cbn [foldr].
    fold (total_weight (etasks s) qb). rewrite Hw. lia.
Qed.

Lemma wp_dequeue s A a :
  represents s A → wp (eevdf_dequeue (Some a)) (λ _ s', represents s' (dequeue_spec a A)) s.
Proof.
  destruct A as [q ts mv]. intros ([t Hr] & Hts & Hmv). simpl in *. subst ts mv.
  destruct (rq_rep_length s t q Hr) as [Hlen Hlen64].
  unfold eevdf_dequeue, dequeue_spec. simpl. apply wp_bind.
  eapply wp_find_node; [exact Hr| |].
  2:{ intros Ha. apply wp_ret. split; [|done]. exists t. simpl.
      rewrite filter_id; [done|]. apply Forall_forall. by intros b Hb ->. }
  intros p Hp. simpl. destruct (tree_focus _ _ _ Hp) as (k & c & l & r & ->).
  pose proof (rr_whole _ _ _ Hr) as Hwh. pose proof (rr_data _ _ _ Hr) as Hda.
  destruct (rr_rb _ _ _ Hr) as [m Hm]. pose proof (rr_black _ _ _ Hr) as Hbl.
  assert (Hq : ∃ qa qb, q = qa ++ a :: qb ∧ (lctx k ++ elems l).*2 = Some <$> qa ∧
    (elems r ++ rctx k).*2 = Some <$> qb).
  { rewrite elems_remove, app_assoc, fmap_app, fmap_cons in Hda. symmetry in Hda.
    apply fmap_app_inv in Hda as (qa & [|b qb] & Hqa & Hqb & ->); [done|].
    simpl in Hqb. injection Hqb as -> Hqb. by exists qa, qb. }
  destruct Hq as (qa & qb & -> & Hqa & Hqb).
  pose proof (rr_tasks _ _ _ Hr) as Htk.
  pose proof Htk as [_ [Hok _]%Forall_cons]%Forall_app.
  pose proof (wt_range _ _ Hok) as Hwr.
  unfold task_ok in Hok. destruct (etasks s !! a) as [tk|] eqn:Hta; [|done].
  destruct (weight_of_nice _ Hok) as (w & Hw & _).
  assert (Hwt : wt (etasks s) a = w) by (unfold wt; by rewrite Hta, Hw).
  assert (Hload : w ≤ load_weight s).
  { rewrite (rr_load _ _ _ Hr), total_weight_app. unfold total_weight at 2. cbn [foldr].
    fold (total_weight (etasks s) qb). rewrite Hwt. apply Forall_app in Htk as [H1 [_ H2]%Forall_cons].
    apply total_weight_range in H1, H2. lia. }
  assert (Hnr1 : 0 < nr_running s).
  { rewrite (rr_nr _ _ _ Hr), length_app. cbn [length]. lia. }
  pose proof (wp_next_leftmost s k p c (Some a) l r Hwh ltac:(lia) (rr_leftmost _ _ _ Hr))
    as Hlm.
  apply wp_bind, wp_gets. apply wp_bind. eapply wp_mono; [exact Hlm|]. simpl. intros [] s1 ->.
  apply wp_bind, wp_zoom. simpl.
  eapply (wp_remove (rq s) k p c (Some a) l r m); [done|done|done|rewrite rq_fuel_val; lia|].
  intros rq1 (t1 & Hw1 & He1 & Hrb1 & Hc1 & Hu1 & Hz1).
  apply wp_bind. eapply wp_trd; [exact Hta|]. apply wp_bind. eapply wp_deref; [exact Hw|].
  apply wp_bind, wp_modify. simpl. destruct (Z.leb_spec w (load_weight s)); [|lia].
  apply wp_bind, wp_modify. simpl. destruct (Z.ltb_spec 0 (nr_running s)); [|lia].
  destruct (rr_pool _ _ _ Hr) as (v & v' & Hp1 & Hp2 & Hp3 & Hp4 & Hp5).
  assert (Hpt : p ∈ ptrs (plug k (T p c (Some a) l r))).
  { apply list_elem_of_fmap. by exists (p, Some a). }
  destruct Hwh as (_ & _ & Hnd). unfold ptrs in Hnd. rewrite elems_remove, app_assoc in Hnd.
  apply ptrs_remove in Hnd as [_ Hpn]. rewrite <-app_assoc, <-He1 in Hpn.
  assert (Hmem : ∀ j, j ∈ ptrs (plug k (T p c (Some a) l r)) ↔ j ∈ p :: ptrs t1).
  { intros j. unfold ptrs. rewrite He1, elems_remove, !fmap_app, fmap_cons, fmap_app. set_solver. }
  eapply (wp_free_node _ p (ptrs t1)); [by apply Hp4| |done|].
  { simpl. exists v, v'. split; [done|]. split; [exact Hp2|]. split_and!.
    - intros j Hj. rewrite Hp3 by done. by apply bool_decide_ext.
    - intros j Hj. by apply Hp4, Hmem.
    - intros j Hj. destruct (decide (j ∈ ptrs (plug k (T p c (Some a) l r)))) as [Hj'|Hj'].
      + apply Hmem, elem_of_cons in Hj' as [->|Hj']; [done|].
        destruct Hw1 as (_ & Hrep1 & _). by eapply rep_dom.
      + rewrite Hu1 by done. by apply Hp5. }
  intros bm Hbm. simpl. split; [|done]. exists t1. simpl. rewrite filter_split by apply Hr.
  by apply (removed_rep s k p c a l r qa qb w t1 rq1 bm).
Qed.
