(* ===== verification/EevdfClaims.v ===== *)
(** * The EEVDF run queue: the properties

    The operations of kernel/sched/eevdf.c implement a list of tasks ordered by
    virtual run time, one by one and in any sequence. *)
From stdpp Require Import base gmap list option numbers sorting.
From S2P Require Import Prelude RBHeap RBTree TaskDef Eevdf EevdfTree EevdfThm.
#[local] Open Scope Z_scope.
Import Eevdf.

(** ** Helper lemmas *)

Definition pool_present (s : eevdf) : Prop := ∀ i, 0 ≤ i < 64 → is_Some (heap (rq s) !! i).

Lemma rep_empty s :
  root (rq s) = None → leftmost s = None → load_weight s = 0 → nr_running s = 0 →
  node_bitmap s = [0; 0] → pool_present s →
  represents s (Queue [] (etasks s) (min_vruntime s)).
Proof.
  intros Hroot Hlm Hlw Hnr Hbm Hp. split; [|done]. exists E. split; simpl; try done.
  - split_and!; simpl; [done|done|constructor].
  - by exists 0%nat.
  - constructor.
  - constructor.
  - exists 0, 0. split; [done|]. split; [lia|]. split_and!; [|by intros ? ?%elem_of_nil|done].
    intros i Hi. by rewrite Z.bits_0.
Qed.

Lemma wp_init s :
  pool_present s →
  wp eevdf_init (λ _ s', represents s' (Queue [] (etasks s) 0)) s.
Proof.
  intros Hp. apply wp_modify. apply rep_empty; try reflexivity.
  intros i Hi. simpl. rewrite lookup_fmap. destruct (Hp i Hi) as [n ->]. by eexists.
Qed.

Lemma wp_pick s A :
  represents s A → wp eevdf_pick_next (λ r s', r = head (q_list A) ∧ s' = s) s.
Proof.
  destruct A as [q ts mv]. intros ([t Hr] & _ & _). simpl in *.
  unfold eevdf_pick_next. apply wp_bind, wp_gets. rewrite (rr_leftmost _ _ _ Hr).
  pose proof (rr_data _ _ _ Hr) as Hda.
  destruct (elems t) as [|[p d] els] eqn:He; simpl in *.
  - symmetry in Hda. apply fmap_nil_inv in Hda as ->. by apply wp_ret.
  - destruct q as [|a q]; [done|]. injection Hda as -> Hda.
    destruct (tree_focus t p (Some a)) as (k & c & l & r & ->); [rewrite He; set_solver|].
    pose proof (whole_focus _ k L p c _ l r (rr_whole _ _ _ Hr)) as Hp.
    apply wp_zoom. eapply wp_rd; [exact Hp|]. split; [done|]. by destruct s.
Qed.

Lemma head_least ts q a b : ordered ts q → head q = Some a → b ∈ q → vr ts a ≤ vr ts b.
Proof.
  unfold ordered. destruct q as [|x q]; [done|]. intros Hs [= ->] Hb.
  apply StronglySorted_cons in Hs as [Hs _]. apply elem_of_cons in Hb as [->|Hb]; [done|].
  rewrite Forall_forall in Hs. by apply Hs.
Qed.

Lemma rq_insert_perm ts a q : rq_insert ts a q ≡ₚ a :: q.
Proof.
  induction q as [|b q IH]; simpl; [done|]. destruct (_ <? _); [done|].
  rewrite IH. constructor.
Qed.

(** ** Sequences of operations *)

Inductive rq_op := OpEnqueue (a : Z) | OpDequeue (a : Z) | OpPick | OpQueued (a : Z).
Inductive rq_out := OutUnit | OutTask (p : ptr) | OutBool (b : bool).

Definition exec_op (o : rq_op) : ST eevdf rq_out :=
  match o with
  | OpEnqueue a => eevdf_enqueue (Some a);; mret OutUnit
  | OpDequeue a => eevdf_dequeue (Some a);; mret OutUnit
  | OpPick => p ← eevdf_pick_next; mret (OutTask p)
  | OpQueued a => b ← eevdf_is_queued (Some a); mret (OutBool b)
  end.
Fixpoint exec_ops (ops : list rq_op) : ST eevdf (list rq_out) :=
  match ops with
  | [] => mret []
  | o :: ops => r ← exec_op o; rs ← exec_ops ops; mret (r :: rs)
  end.

(** The same on the abstract queue; [None] when a task is queued twice, does
    not exist or has a nice value outside the table. *)
Definition spec_op (o : rq_op) (A : queue) : option (rq_out * queue) :=
  match o with
  | OpEnqueue a =>
      tk ← q_tasks A !! a;
      guard (EEVDF_MIN_NICE ≤ priority tk ≤ EEVDF_MAX_NICE ∧ a ∉ q_list A);;
      mret (OutUnit, enqueue_spec a A)
  | OpDequeue a => mret (OutUnit, dequeue_spec a A)
  | OpPick => mret (OutTask (head (q_list A)), A)
  | OpQueued a => mret (OutBool (bool_decide (a ∈ q_list A)), A)
  end.
Fixpoint spec_ops (ops : list rq_op) (A : queue) : option (list rq_out * queue) :=
  match ops with
  | [] => mret ([], A)
  | o :: ops =>
      r ← spec_op o A;
      rs ← spec_ops ops r.2;
      mret (r.1 :: rs.1, rs.2)
  end.

Lemma wp_is_queued s A a :
  represents s A →
  wp (eevdf_is_queued (Some a)) (λ b s', b = bool_decide (a ∈ q_list A) ∧ s' = s) s.
Proof.
  destruct A as [q ts mv]. intros ([t Hr] & _ & _). simpl in *. unfold eevdf_is_queued. simpl.
  apply wp_bind. eapply wp_find_node; [exact Hr| |].
  - intros p Hp. apply wp_ret. split; [|done]. simpl. symmetry. apply bool_decide_eq_true.
    assert (Hd : Some a ∈ (elems t).*2) by (apply list_elem_of_fmap; by exists (p, Some a)).
    rewrite (rr_data _ _ _ Hr) in Hd. by apply list_elem_of_fmap in Hd as (b & [= ->] & Hb).
  - intros Ha. apply wp_ret. split; [|done]. simpl. symmetry. by apply bool_decide_eq_false.
Qed.

Lemma wp_exec_op s A o r A' :
  represents s A → spec_op o A = Some (r, A') →
  wp (exec_op o) (λ r' s', r' = r ∧ represents s' A') s.
Proof.
  intros Hr Ho. destruct o as [a|a| |a]; simpl in *.
  - apply bind_Some in Ho as (tk & Hta & Ho). case_guard as Hg; [|done].
    destruct Hg as [Hnice Ha]. injection Ho as <- <-.
    apply wp_bind. eapply wp_mono; [by eapply wp_enqueue|]. intros [] s' H. by apply wp_ret.
  - injection Ho as <- <-. apply wp_bind. eapply wp_mono; [by eapply wp_dequeue|].
    intros [] s' H. by apply wp_ret.
  - injection Ho as <- <-. apply wp_bind. eapply wp_mono; [by eapply wp_pick|].
    intros p s' [-> ->]. by apply wp_ret.
  - injection Ho as <- <-. apply wp_bind. eapply wp_mono; [by eapply wp_is_queued|].
    intros p s' [-> ->]. by apply wp_ret.
Qed.

Lemma wp_exec_ops s A ops rs A' :
  represents s A → spec_ops ops A = Some (rs, A') →
  wp (exec_ops ops) (λ rs' s', rs' = rs ∧ represents s' A') s.
Proof.
  revert s A rs. induction ops as [|o ops IH]; intros s A rs Hr Ho; simpl in *.
  { injection Ho as <- <-. by apply wp_ret. }
  apply bind_Some in Ho as ([r A1] & H1 & ([rs1 A2] & H2 & Ho)%bind_Some). injection Ho as <- <-.
  apply wp_bind. eapply wp_mono; [by eapply wp_exec_op|]. intros ? s1 [-> Hr1].
  apply wp_bind. eapply wp_mono; [by eapply IH|]. intros ? s2 [-> Hr2]. by apply wp_ret.
Qed.

(** ** Accounting *)

(** The charge of [eevdf_update_curr] to a running task. *)
Definition update_spec (a now : Z) (A : queue) : queue :=
  match q_tasks A !! a with
  | Some tk =>
      let delta := u64 (now - ctx_get X23 (context tk)) in
      if delta =? 0 then A
      else
        let w := total_weight (q_tasks A) (q_list A) in
        let lw := if w =? 0 then EEVDF_NICE_0_LOAD else w in
        let v := u64 (vruntime tk + u64 (delta * EEVDF_NICE_0_LOAD) / lw) in
        let tk' := set_vruntime v (set_context (ctx_set X23 now (context tk)) tk) in
        Queue (q_list A) (<[a := tk']> (q_tasks A))
              (match head (q_list A) with Some b => vr (q_tasks A) b | None => v end)
  | None => A
  end.

Lemma wp_update s A a now tk :
  represents s A → q_tasks A !! a = Some tk → a ∉ q_list A →
  wp (eevdf_update_curr (Some a) now) (λ _ s', represents s' (update_spec a now A)) s.
Proof.
  destruct A as [q ts mv]. intros ([t Hr] & Hts & Hmv) Hta Ha. simpl in *. subst ts mv.
  unfold eevdf_update_curr, update_spec. simpl. rewrite Hta.
  apply wp_bind. eapply wp_trd; [exact Hta|].
  destruct (u64 (now - ctx_get X23 (context tk)) =? 0).
  { apply wp_ret. split; [by exists t|done]. }
  set (tk1 := set_context (ctx_set X23 now (context tk)) tk).
  apply wp_bind. eapply wp_twr; [exact Hta|]. simpl. fold tk1.
  apply wp_bind, wp_gets. unfold load_or_default. simpl. rewrite (rr_load _ _ _ Hr).
  set (w := total_weight (etasks s) q).
  replace (if ctrue w then w else EEVDF_NICE_0_LOAD)
    with (if w =? 0 then EEVDF_NICE_0_LOAD else w) by (unfold ctrue; by destruct (w =? 0)).
  set (lw := if w =? 0 then EEVDF_NICE_0_LOAD else w).
  apply wp_bind. eapply wp_twr; [simpl; by rewrite lookup_insert_eq|]. simpl.
  rewrite insert_insert_eq.
  set (v := u64 (vruntime tk + _ / lw)). set (tk2 := set_vruntime v tk1).
  set (s1 := set_etasks (<[a := tk2]> (etasks s)) s).
  change (set_etasks _ (set_etasks _ s)) with s1.
  assert (Hr1 : rq_rep s1 t q) by (by apply rq_rep_tasks).
  apply wp_bind, wp_gets. pose proof (rr_leftmost _ _ _ Hr1) as Hlm.
  rewrite Hlm. apply wp_bind. pose proof (rr_data _ _ _ Hr1) as Hda.
  assert (Hdone : ∀ m, represents (set_min_vruntime m s1) (Queue q (etasks s1) m)).
  { intros m. split; [|done]. exists t. by destruct Hr1; split. }
  destruct (elems t) as [|[p d] els] eqn:He; simpl in *.
  - symmetry in Hda. apply fmap_nil_inv in Hda. subst q. simpl.
    eapply wp_trd; [simpl; by rewrite lookup_insert_eq|]. simpl. apply wp_modify, Hdone.
  - destruct q as [|b q]; [done|]. injection Hda as -> Hda.
    destruct (tree_focus t p (Some b)) as (k & c & l & r & ->); [rewrite He; set_solver|].
    pose proof (whole_focus _ k L p c _ l r (rr_whole _ _ _ Hr1)) as Hp.
    apply wp_bind, wp_zoom. eapply wp_rd; [exact Hp|]. simpl.
    replace (set_rq (rq s) s1) with s1 by (by destruct s).
    pose proof (rr_tasks _ _ _ Hr) as [Hb _]%Forall_cons. unfold task_ok in Hb.
    destruct (etasks s !! b) as [tb|] eqn:Htb; [|done].
    eapply wp_trd; [simpl; rewrite lookup_insert_ne; [exact Htb|set_solver]|].
    apply wp_modify. unfold vr. simpl. rewrite Htb. apply Hdone.
Qed.

(** The task store after a change of nice value. *)
Definition set_nice_spec (a nice : Z) (A : queue) : queue :=
  match q_tasks A !! a with
  | Some tk => Queue (q_list A) (<[a := set_priority (Z.max (-20) (Z.min 19 nice)) tk]> (q_tasks A)) (q_min A)
  | None => A
  end.

Lemma clamp_nice_eq n : clamp_nice n = Z.max (-20) (Z.min 19 n).
Proof.
  unfold clamp_nice, EEVDF_MIN_NICE, EEVDF_MAX_NICE. destruct (Z.ltb_spec n (-20)); simpl; [lia|].
  destruct (Z.ltb_spec 19 n); lia.
Qed.

Lemma slice_value s A a tk w :
  represents s A → q_tasks A !! a = Some tk → weight_of (priority tk) = Some w →
  q_list A ≠ [] →
  wp (eevdf_calc_slice (Some a)) (λ v s', s' = s ∧
    v = Z.min EEVDF_MAX_TIME_SLICE_NS (Z.max EEVDF_MIN_GRANULARITY
          (u32 (EEVDF_TARGET_LATENCY * w) / total_weight (q_tasks A) (q_list A)))) s.
Proof.
  destruct A as [q ts mv]. intros ([t Hr] & Hts & Hmv) Hta Hw Hq. simpl in *. subst ts mv.
  unfold eevdf_calc_slice. apply wp_bind, wp_gets. rewrite (rr_nr _ _ _ Hr).
  pose proof (total_weight_range _ _ (rr_tasks _ _ _ Hr)) as Hrange.
  destruct (Z.eqb_spec (Z.of_nat (length q)) 0) as [H0|H0]; [by destruct q|].
  apply wp_bind. eapply wp_trd; [exact Hta|]. apply wp_bind. eapply wp_deref; [exact Hw|].
  apply wp_bind, wp_gets. unfold load_or_default. rewrite (rr_load _ _ _ Hr). unfold ctrue.
  destruct (Z.eqb_spec (total_weight (etasks s) q) 0); [lia|]. cbn [negb].
  apply wp_ret. split; [done|]. set (x := u32 _ / _). cbv beta zeta.
  unfold EEVDF_MAX_TIME_SLICE_NS, EEVDF_MIN_GRANULARITY.
  destruct (Z.ltb_spec x 750000); destruct (Z.ltb_spec (100 * 1000000) x);
    try destruct (Z.ltb_spec (100 * 1000000) 750000); lia.
Qed.

(** ** A concrete run queue *)

Definition demo_task (v nice : Z) : task :=
  set_state TASK_READY (set_priority nice (set_vruntime v task_zero)).
Definition demo_nodes : gmap Z (node (option Z)) :=
  list_to_map ((λ i, (i, Node None None None RB_BLACK None)) <$> seqZ 0 64).
#[local] Arguments demo_nodes : simpl never.
Definition demo_rq : eevdf :=
  {| rq := {| heap := demo_nodes; root := None |};
     leftmost := None; min_vruntime := 0; load_weight := 0; nr_running := 0;
     node_bitmap := [0; 0];
     etasks := {[ 100 := demo_task 700 0; 101 := demo_task 500 5; 102 := demo_task 900 (-3) ]} |}.
Definition demo_queue : queue := Queue [] (etasks demo_rq) 0.

Lemma demo_pool : pool_present demo_rq.
Proof.
  intros i Hi. exists (Node None None None RB_BLACK None).
  change (heap (rq demo_rq)) with demo_nodes. unfold demo_nodes. apply elem_of_list_to_map_1.
  - rewrite <-list_fmap_compose. rewrite (list_fmap_ext _ id) by done.
    rewrite list_fmap_id. apply NoDup_seqZ.
  - apply list_elem_of_fmap. exists i. split; [reflexivity|]. apply elem_of_seqZ. lia.
Qed.

Lemma demo_represents : represents demo_rq demo_queue.
Proof. apply (rep_empty demo_rq); first [reflexivity|exact demo_pool]. Qed.

Definition demo_queue2 : queue := enqueue_spec 101 (enqueue_spec 100 demo_queue).
Lemma demo_two : ∃ s, represents s demo_queue2.
Proof.
  destruct (wp_exec_ops demo_rq demo_queue [OpEnqueue 100; OpEnqueue 101] [OutUnit; OutUnit] demo_queue2
    demo_represents) as (? & s & _ & _ & Hs); [vm_compute; reflexivity|]. by exists s.
Qed.

(** ** The properties *)

(** On a run queue that represents an ordered list of tasks, [eevdf_enqueue]
    of a task that is not queued returns and implements the abstract
    insertion: a task that is not ready changes nothing; otherwise its virtual
    run time is raised to the queue's minimum and, unless all 64 nodes are in
    use, it enters the list behind the tasks whose virtual run time is not
    larger.  The representation carries the red-black tree, the leftmost link,
    the node bitmap, the task count and the weight sum. *)
Theorem eevdf_enqueue_correct s A a tk :
  represents s A → q_tasks A !! a = Some tk →
  EEVDF_MIN_NICE ≤ priority tk ≤ EEVDF_MAX_NICE → a ∉ q_list A →
  wp (eevdf_enqueue (Some a)) (λ _ s', represents s' (enqueue_spec a A)) s.
Proof. apply wp_enqueue. Qed.
Lemma eevdf_enqueue_correct_witness :
  q_list (enqueue_spec 100 demo_queue) = [100] ∧
  wp (eevdf_enqueue (Some 100)) (λ _ s', represents s' (enqueue_spec 100 demo_queue)) demo_rq.
Proof.
  split; [vm_compute; reflexivity|].
  apply (eevdf_enqueue_correct demo_rq demo_queue 100 (demo_task 700 0)).
  - exact demo_represents.
  - vm_compute. reflexivity.
  - unfold EEVDF_MIN_NICE, EEVDF_MAX_NICE. simpl. lia.
  - apply not_elem_of_nil.
Defined.

(** On a run queue that represents an ordered list of tasks,
    [eevdf_dequeue] returns and removes the task from the list: the node is
    unlinked and the tree rebalanced, the leftmost link, the count and the
    weight sum are adjusted and the node goes back to the pool; a task that is
    not queued changes nothing. *)
Theorem eevdf_dequeue_correct s A a :
  represents s A → wp (eevdf_dequeue (Some a)) (λ _ s', represents s' (dequeue_spec a A)) s.
Proof. apply wp_dequeue. Qed.
Lemma eevdf_dequeue_correct_witness :
  q_list demo_queue2 = [101; 100] ∧ q_list (dequeue_spec 101 demo_queue2) = [100] ∧
  ∃ s, wp (eevdf_dequeue (Some 101)) (λ _ s', represents s' (dequeue_spec 101 demo_queue2)) s.
Proof.
  split; [vm_compute; reflexivity|]. split; [vm_compute; reflexivity|].
  destruct demo_two as [s Hs]. exists s. exact (eevdf_dequeue_correct s demo_queue2 101 Hs).
Defined.

(** [eevdf_pick_next] returns a queued task of least virtual run time, null
    exactly when no task is queued, and changes nothing. *)
Theorem eevdf_pick_least s A :
  represents s A →
  wp eevdf_pick_next (λ r s', s' = s ∧
    match r with
    | Some a => a ∈ q_list A ∧ ∀ b, b ∈ q_list A → vr (q_tasks A) a ≤ vr (q_tasks A) b
    | None => q_list A = []
    end) s.
Proof.
  intros Hr. eapply wp_mono; [by apply wp_pick|]. simpl. intros r s' [-> ->]. split; [done|].
  destruct Hr as ([t Ht] & Hts & _). pose proof (rr_sorted _ _ _ Ht) as Hord. rewrite Hts in Hord.
  destruct (head (q_list A)) as [a|] eqn:Hh; [|by destruct (q_list A)].
  split; [|by intros b Hb; eapply head_least]. destruct (q_list A); [done|]. injection Hh as ->. by left.
Qed.
Lemma eevdf_pick_least_witness :
  ∃ s, wp eevdf_pick_next (λ r s', s' = s ∧
    match r with
    | Some a => a ∈ q_list demo_queue2 ∧
                ∀ b, b ∈ q_list demo_queue2 → vr (q_tasks demo_queue2) a ≤ vr (q_tasks demo_queue2) b
    | None => q_list demo_queue2 = []
    end) s.
Proof. destruct demo_two as [s Hs]. exists s. exact (eevdf_pick_least s demo_queue2 Hs). Defined.

(** The two tables: weights fall by a fifth to a quarter from each nice value to
    the next, and the multipliers are their inverses to within one. *)
Lemma eevdf_tables :
  length eevdf_nice_to_weight = 40%nat ∧
  (∀ i w v, eevdf_nice_to_weight !! i = Some w → eevdf_nice_to_weight !! S i = Some v → 119 * v ≤ 100 * w ≤ 130 * v) ∧
  Forall2 (λ w m, Z.abs (m * w - 2 ^ 32) < w) eevdf_nice_to_weight eevdf_nice_to_wmult.
Proof.
  split; [done|]. split; [|apply (bool_decide_unpack _); vm_compute; exact I]. intros i w v Hw Hv.
  assert (H : forallb (λ '(w, v), (119 * v <=? 100 * w) && (100 * w <=? 130 * v)) (zip eevdf_nice_to_weight (tail eevdf_nice_to_weight)) = true)
    by (vm_compute; reflexivity).
  rewrite forallb_forall in H. specialize (H (w, v)).
  assert (Hin : In (w, v) (zip eevdf_nice_to_weight (tail eevdf_nice_to_weight))).
  { apply list_elem_of_In, list_elem_of_lookup. exists i. apply lookup_zip_with_Some. exists w, v. by rewrite lookup_tail. }
  apply H in Hin. apply andb_true_iff in Hin as [H1 H2]. lia.
Qed.

(** C14: after [eevdf_init], every sequence of enqueue, dequeue, pick and
    membership operations in which no task is queued twice runs to the end and
    gives the answers of the abstract ordered list. *)
Theorem eevdf_trace_refines s ops rs A :
  pool_present s → spec_ops ops (Queue [] (etasks s) 0) = Some (rs, A) →
  wp (eevdf_init;; exec_ops ops) (λ rs' s', rs' = rs ∧ represents s' A) s.
Proof.
  intros Hp Hops. apply wp_bind. eapply wp_mono; [by apply wp_init|]. intros [] s1 Hs1.
  by eapply wp_exec_ops.
Qed.
Definition demo_ops : list rq_op :=
  [OpEnqueue 100; OpEnqueue 102; OpEnqueue 101; OpPick; OpDequeue 101; OpPick; OpQueued 101;
   OpDequeue 100; OpPick].
Definition demo_outs : list rq_out :=
  [OutUnit; OutUnit; OutUnit; OutTask (Some 101); OutUnit; OutTask (Some 100); OutBool false;
   OutUnit; OutTask (Some 102)].
Lemma eevdf_trace_refines_witness :
  ∃ A, wp (eevdf_init;; exec_ops demo_ops) (λ rs' s', rs' = demo_outs ∧ represents s' A) demo_rq.
Proof.
  eexists. refine (eevdf_trace_refines demo_rq demo_ops demo_outs _ demo_pool _).
  vm_compute. reflexivity.
Defined.

(** [eevdf_update_curr] of a task that is not queued charges it for the time
    since the last update, scaled by 1024 over the total weight (1024 when no
    task is queued), and moves the queue's minimum to the leftmost task's
    virtual run time, or to the task's own when the queue is empty; the queue
    itself is not affected. *)
Theorem eevdf_update_curr_correct s A a now tk :
  represents s A → q_tasks A !! a = Some tk → a ∉ q_list A →
  wp (eevdf_update_curr (Some a) now) (λ _ s', represents s' (update_spec a now A)) s.
Proof. apply wp_update. Qed.
Lemma eevdf_update_curr_correct_witness :
  q_min (update_spec 102 4000 demo_queue2) = 500 ∧
  vr (q_tasks (update_spec 102 4000 demo_queue2)) 102 = 900 + 4000 * 1024 / 1359 ∧
  ∃ s, wp (eevdf_update_curr (Some 102) 4000) (λ _ s', represents s' (update_spec 102 4000 demo_queue2)) s.
Proof.
  split; [vm_compute; reflexivity|]. split; [vm_compute; reflexivity|].
  destruct demo_two as [s Hs]. exists s.
  apply (eevdf_update_curr_correct s demo_queue2 102 4000 (demo_task 900 (-3)) Hs).
  - vm_compute. reflexivity.
  - replace (q_list demo_queue2) with [101; 100] by (vm_compute; reflexivity).
    rewrite !elem_of_cons, elem_of_nil. lia.
Defined.

(** With tasks queued, [eevdf_calc_slice] returns the share of the target
    latency that the task's weight has in the total weight -- the product taken
    modulo 2^32 -- clamped to the interval from the minimum granularity to the
    maximum slice, and changes nothing. *)
Theorem eevdf_calc_slice_clamped s A a tk w :
  represents s A → q_tasks A !! a = Some tk → weight_of (priority tk) = Some w →
  q_list A ≠ [] →
  wp (eevdf_calc_slice (Some a)) (λ v s', s' = s ∧
    EEVDF_MIN_GRANULARITY ≤ v ≤ EEVDF_MAX_TIME_SLICE_NS ∧
    v = Z.min EEVDF_MAX_TIME_SLICE_NS (Z.max EEVDF_MIN_GRANULARITY
          (u32 (EEVDF_TARGET_LATENCY * w) / total_weight (q_tasks A) (q_list A)))) s.
Proof.
  intros Hr Hta Hw Hq. eapply wp_mono; [by eapply slice_value|]. simpl. intros v s' [-> ->].
  split; [done|]. split; [|done]. unfold EEVDF_MIN_GRANULARITY, EEVDF_MAX_TIME_SLICE_NS. lia.
Qed.
Lemma eevdf_calc_slice_clamped_witness :
  ∃ s, wp (eevdf_calc_slice (Some 100)) (λ v s', s' = s ∧
    EEVDF_MIN_GRANULARITY ≤ v ≤ EEVDF_MAX_TIME_SLICE_NS ∧
    v = Z.min EEVDF_MAX_TIME_SLICE_NS (Z.max EEVDF_MIN_GRANULARITY
          (u32 (EEVDF_TARGET_LATENCY * 1024) / total_weight (q_tasks demo_queue2) (q_list demo_queue2)))) s.
Proof.
  destruct demo_two as [s Hs]. exists s.
  apply (eevdf_calc_slice_clamped s demo_queue2 100 (demo_task 700 0) 1024 Hs).
  - vm_compute. reflexivity.
  - vm_compute. reflexivity.
  - replace (q_list demo_queue2) with [101; 100] by (vm_compute; reflexivity). discriminate.
Defined.

(** The product wraps already for a single task of default priority, whose
    share is the whole latency: whenever it is the only queued task, its slice
    is 1805696 ns and not the target latency of 6000000 ns. *)
Theorem eevdf_slice_truncated s A a tk :
  represents s A → q_list A = [a] → q_tasks A !! a = Some tk → priority tk = 0 →
  wp (eevdf_calc_slice (Some a)) (λ v _, v = 1805696 ∧ v ≠ EEVDF_TARGET_LATENCY) s.
Proof.
  intros Hr Hq Hta Hp. eapply wp_mono; [eapply (slice_value s A a tk 1024); [done|done| |]|].
  - by rewrite Hp.
  - by rewrite Hq.
  - simpl. intros v s' [_ ->]. rewrite Hq. unfold total_weight. simpl. unfold wt. rewrite Hta, Hp.
    done.
Qed.
Lemma eevdf_slice_truncated_witness :
  ∃ s, wp (eevdf_calc_slice (Some 100)) (λ v _, v = 1805696 ∧ v ≠ EEVDF_TARGET_LATENCY) s.
Proof.
  destruct (wp_enqueue demo_rq demo_queue 100 (demo_task 700 0) demo_represents)
    as ([] & s & _ & Hs); [vm_compute; reflexivity|vm_compute; split; discriminate|apply not_elem_of_nil|].
  exists s. apply (eevdf_slice_truncated s (enqueue_spec 100 demo_queue) 100 (demo_task 700 0) Hs).
  - vm_compute. reflexivity.
  - vm_compute. reflexivity.
  - reflexivity.
Defined.

(** [eevdf_set_nice] does not look whether the task is queued: raising the
    nice value of a queued task from 0 to 5 and dequeueing it leaves a weight
    of 689 in an empty queue, which every later charge and slice divides by. *)
Theorem eevdf_set_nice_queued :
  (λ r, (nr_running r.2, load_weight r.2)) <$>
    (eevdf_enqueue (Some 100);; eevdf_set_nice (Some 100) 5;; eevdf_dequeue (Some 100)) demo_rq
  = Some (0, 689).
Proof. vm_compute. reflexivity. Qed.
