(* ===== verification/Sched.v ===== *)
(** * Scheduler and task life cycle (kernel/sched/sched.c, kernel/sched/task.c):
      translation

    State: the run queue with the task structures, the current task, the head
    of the task list and the pid allocator.  The clock readings of [get_ns] are
    arguments; the register switch at the end of [schedule] is its result. *)
From stdpp Require Import base gmap list option numbers.
From S2P Require Import Prelude Panic RBHeap Pid TaskDef Eevdf.
#[local] Open Scope Z_scope.
#[local] Open Scope panic_scope.

Module Sched.
Import Pid Eevdf.

Record sched := {
  eev : eevdf;
  current_task : ptr;
  task_list : ptr;
  pids : pid_state;
}.
Definition set_eev (v : eevdf) (s : sched) : sched :=
  {| eev := v; current_task := current_task s; task_list := task_list s; pids := pids s |}.
Definition set_current_task (v : ptr) (s : sched) : sched :=
  {| eev := eev s; current_task := v; task_list := task_list s; pids := pids s |}.
Definition set_task_list (v : ptr) (s : sched) : sched :=
  {| eev := eev s; current_task := current_task s; task_list := v; pids := pids s |}.
Definition set_pids (v : pid_state) (s : sched) : sched :=
  {| eev := eev s; current_task := current_task s; task_list := task_list s; pids := v |}.

#[export] Instance sched_has_tasks : HasTasks sched :=
  {| tasks s := etasks (eev s); set_tasks ts s := set_eev (set_etasks ts (eev s)) s |}.

Definition on_eev {A} (m : ST eevdf A) : ST sched A := zoom eev set_eev m.
Definition on_pids {A} (m : ST pid_state A) : ST sched A := zoom pids set_pids m.

Abbreviation PST A := (PS sched A).

(** ** The task list *)

Fixpoint find_loop (fuel : nat) (pid0 : Z) (p : ptr) : ST sched ptr :=
  match fuel with
  | O => undef
  | S fuel =>
      if is_null p then mret None
      else
        x ← trd pid p;
        if x =? pid0 then mret p
        else n ← trd next p; find_loop fuel pid0 n
  end.
(** The list is no longer than the number of task structures. *)
Definition task_find_by_pid (pid0 : Z) : ST sched ptr :=
  fuel ← gets (λ s, S (size (tasks s)));
  p ← gets task_list;
  find_loop fuel pid0 p.

(** ** schedule *)

(** How [schedule] ends: it returns to its caller, switches from the registers
    of one task to those of another, or jumps to a task without saving. *)
Inductive action := Stay | SwitchTo (prev next : ptr) | JumpTo (next : ptr).

(** Charging the running task and queueing it again, unless it is idle. *)
Definition requeue (prev : ptr) (now : Z) : PST unit :=
  on_eev (eevdf_update_curr prev now);;
  twr (set_state TASK_READY) prev;;
  p ← trd pid prev;
  if negb (p =? 0) then
    on_eev (eevdf_enqueue prev);;
    q ← on_eev (eevdf_is_queued prev);
    require q
  else pret tt.

Definition put_back (prev : ptr) (now : Z) : PST unit :=
  if is_null prev then pret tt
  else
    st ← trd state prev;
    (if st =? TASK_RUNNING then requeue prev now else pret tt);!
    st ← trd state prev;
    if st =? TASK_ZOMBIE then
      q ← on_eev (eevdf_is_queued prev); require (negb q)
    else pret tt.

(** Removing the chosen task from the queue and making it the current one. *)
Definition dispatch (next : ptr) (now : Z) : PST unit :=
  p ← trd pid next;
  (if negb (p =? 0) then
     on_eev (eevdf_dequeue next);;
     q ← on_eev (eevdf_is_queued next);
     require (negb q)
   else pret tt);!
  twr (set_state TASK_RUNNING) next;;
  q ← on_eev (eevdf_is_queued next);
  require (negb q);!
  twr (λ t, set_context (ctx_set X23 now (context t)) t) next;;
  sl ← on_eev (eevdf_calc_slice next);
  twr (set_time_slice sl) next;;
  modify (set_current_task next);;
  pret tt.

Definition schedule (now : Z) : PST action :=
  prev ← gets current_task;
  put_back prev now;!
  next ← on_eev eevdf_pick_next;
  next ←! (if is_null next then
             n ← task_find_by_pid 0;
             if is_null n then panic else pret n
           else pret next);
  if ptr_eqb next prev && negb (is_null prev) then
    st ← trd state prev;
    (if st =? TASK_READY then
       twr (set_state TASK_RUNNING) prev;;
       on_eev (eevdf_dequeue prev);;
       q ← on_eev (eevdf_is_queued prev);
       require (negb q)
     else pret tt);!
    pret Stay
  else
    dispatch next now;!
    pret (if is_null prev then JumpTo next else SwitchTo prev next).

(** ** schedule_preempt

    [regs] is the frame of the interrupted task; the result is its contents on
    return.  [now] and [now'] are the two readings of the clock. *)
Definition schedule_preempt (regs : cpu_context) (now now' : Z) : PST cpu_context :=
  prev ← gets current_task;
  if is_null prev then pret regs
  else
    st ← trd state prev;
    (if st =? TASK_RUNNING then
       twr (set_context regs) prev;;
       requeue prev now
     else if st =? TASK_ZOMBIE then
       q ← on_eev (eevdf_is_queued prev); require (negb q)
     else pret tt);!
    next ← on_eev eevdf_pick_next;
    next ←! (if is_null next then
               st ← trd state prev;
               if st =? TASK_READY then pret prev
               else
                 n ← task_find_by_pid 0;
                 if is_null n then panic else pret n
             else pret next);
    if ptr_eqb next prev then
      st ← trd state prev;
      (if st =? TASK_READY then
         on_eev (eevdf_dequeue prev);;
         q ← on_eev (eevdf_is_queued prev);
         require (negb q);!
         twr (set_state TASK_RUNNING) prev;;
         q ← on_eev (eevdf_is_queued prev);
         require (negb q)
       else pret tt);!
      pret regs
    else
      dispatch next now';!
      c ← trd context next;
      pret c.

(** ** Leaving *)

(** [task_exit]; control returns only when there is no current task. *)
Definition task_exit (now : Z) : PST action :=
  cur ← gets current_task;
  if is_null cur then pret Stay
  else
    twr (set_state TASK_ZOMBIE) cur;;
    p ← trd pid cur;
    on_pids (pid_free p);;
    modify (set_current_task None);;
    schedule now.

(** [p->next->prev = p->prev] and the like, guarded. *)
Definition unlink_task (task : ptr) : ST sched unit :=
  tp ← trd prev task;
  tn ← trd next task;
  when (negb (is_null tp)) (twr (set_next tn) tp);;
  tn ← trd next task;
  when (negb (is_null tn)) (tp ← trd prev task; twr (set_prev tp) tn);;
  tl ← gets task_list;
  when (ptr_eqb task tl) (tn ← trd next task; modify (set_task_list tn)).

(** [task_kill] returns a value, or gives up the CPU when it kills the current
    task. *)
Inductive kill_result := KRet (v : Z) | KGone (a : action).
Definition task_kill (task : ptr) (now : Z) : PST kill_result :=
  if is_null task then pret (KRet (-1))
  else
    p ← trd pid task;
    if p =? 0 then pret (KRet (-1))
    else
      st ← trd state task;
      if st =? TASK_ZOMBIE then pret (KRet 0)
      else
        when (st =? TASK_READY) (on_eev (eevdf_dequeue task));;
        twr (set_state TASK_ZOMBIE) task;;
        p ← trd pid task;
        on_pids (pid_free p);;
        unlink_task task;;
        cur ← gets current_task;
        if ptr_eqb task cur then
          modify (set_current_task None);;
          a ←! schedule now;
          pret (KGone a)
        else pret (KRet 0).

(** kernel/syscall.c: [sys_kill] *)
Definition sys_kill (pid0 now : Z) : PST kill_result :=
  task ← task_find_by_pid pid0;
  if is_null task then pret (KRet (-1)) else task_kill task now.

End Sched.
