(* ===== verification/SchedThm.v ===== *)
(** * Scheduler: invariant and proofs

    The scheduler keeps: a task other than the idle task is ready exactly when
    it is queued, at most one task is running and it is the current one, and
    the task list leads to the idle task.  From such a state neither
    [schedule] nor [schedule_preempt] reaches a panic. *)
From stdpp Require Import base gmap list option numbers sorting.
From S2P Require Import Prelude Panic RBHeap RBTree Pid TaskDef Eevdf EevdfTree EevdfThm EevdfClaims Sched.
#[local] Open Scope Z_scope.
Import Pid Eevdf Sched.

(** ** What the scheduler relies on in the task structures *)

(** The fields the scheduler's invariant speaks about. *)
Definition meta (t : task) : Z * Z * Z * option Z * option Z := (pid t, state t, priority t, next t, prev t).
Definition same_meta (ts ts' : gmap Z task) : Prop := ∀ b, meta <$> ts !! b = meta <$> ts' !! b.

#[export] Instance same_meta_equiv : Equivalence same_meta.
Proof.
  split; [by intros ts b|by intros ts ts' H b|]. intros ts1 ts2 ts3 H1 H2 b. by rewrite H1, H2.
Qed.

Lemma same_meta_insert ts a tk tk' :
  ts !! a = Some tk → meta tk' = meta tk → same_meta ts (<[a := tk']> ts).
Proof.
  intros Ha Hm b. destruct (decide (b = a)) as [->|].
  - rewrite lookup_insert_eq, Ha. simpl. by rewrite Hm.
  - by rewrite lookup_insert_ne.
Qed.

Lemma same_meta_lookup ts ts' a tk' :
  same_meta ts ts' → ts' !! a = Some tk' → ∃ tk, ts !! a = Some tk ∧ meta tk = meta tk'.
Proof.
  intros H Ha. specialize (H a). rewrite Ha in H. destruct (ts !! a) as [tk|]; [|done].
  exists tk. split; [done|]. simpl in H. congruence.
Qed.

(** The task list, from its head along the [next] links, with the [prev] links
    pointing back; [pp] precedes the head. *)
Fixpoint linked (ts : gmap Z task) (pp p : ptr) (l : list Z) : Prop :=
  match l with
  | [] => p = None
  | a :: l => p = Some a ∧ ∃ tk, ts !! a = Some tk ∧ prev tk = pp ∧ linked ts (Some a) (next tk) l
  end.
Fixpoint first_pid (ts : gmap Z task) (pid0 : Z) (l : list Z) : option Z :=
  match l with
  | [] => None
  | a :: l => if default (-1) (pid <$> ts !! a) =? pid0 then Some a else first_pid ts pid0 l
  end.

Definition has_idle (ts : gmap Z task) (tl : ptr) : Prop :=
  ∃ l, linked ts None tl l ∧ NoDup l ∧ is_Some (first_pid ts 0 l).

Definition links (t : task) : Z * option Z * option Z := (pid t, next t, prev t).

Lemma linked_frame ts ts' pp p l :
  (∀ b, b ∈ l → links <$> ts !! b = links <$> ts' !! b) → linked ts pp p l → linked ts' pp p l.
Proof.
  revert pp p. induction l as [|a l IH]; intros pp p H; simpl; [done|].
  intros (-> & tk & Ha & <- & Hl). split; [done|]. pose proof (H a ltac:(by left)) as Hla. rewrite Ha in Hla.
  destruct (ts' !! a) as [tk'|]; [|done]. exists tk'. injection Hla as _ En Ep.
  rewrite <-En, <-Ep. split_and!; [done|done|]. apply IH; [intros b Hb; apply H; by right|done].
Qed.

Lemma first_pid_frame ts ts' n l :
  (∀ b, links <$> ts !! b = links <$> ts' !! b) → first_pid ts n l = first_pid ts' n l.
Proof.
  intros H. induction l as [|a l IH]; simpl; [done|].
  assert (Hp : pid <$> ts !! a = pid <$> ts' !! a).
  { specialize (H a). destruct (ts !! a), (ts' !! a); simpl in *; unfold links in *; congruence. }
  rewrite Hp. by destruct (_ =? _).
Qed.

Lemma has_idle_frame ts ts' tl :
  (∀ b, links <$> ts !! b = links <$> ts' !! b) → has_idle ts tl → has_idle ts' tl.
Proof.
  intros H (l & Hl & Hnd & Hi). exists l. split_and!; [by eapply linked_frame; [|exact Hl]|done|].
  by rewrite <-(first_pid_frame ts ts').
Qed.

Lemma same_meta_links ts ts' b : same_meta ts ts' → links <$> ts !! b = links <$> ts' !! b.
Proof.
  intros H. specialize (H b). destruct (ts !! b), (ts' !! b); simpl in *; try done.
  unfold meta, links in *. congruence.
Qed.

(** ** The invariant *)

Definition nice_ok (t : task) : Prop := EEVDF_MIN_NICE ≤ priority t ≤ EEVDF_MAX_NICE.

Record tasks_ok (ts : gmap Z task) (q : list Z) (tl : ptr) (running : option Z) : Prop := {
  to_nice : ∀ a tk, ts !! a = Some tk → nice_ok tk;
  to_ready : ∀ a tk, ts !! a = Some tk → (a ∈ q ↔ state tk = TASK_READY ∧ pid tk ≠ 0);
  to_running : ∀ a tk, ts !! a = Some tk → state tk = TASK_RUNNING → running = Some a;
  to_idle : has_idle ts tl;
}.

Definition sched_inv (s : sched) (A : queue) : Prop :=
  represents (eev s) A ∧ tasks_ok (q_tasks A) (q_list A) (task_list s) (current_task s) ∧
  match current_task s with
  | Some c => ∃ tk, q_tasks A !! c = Some tk ∧ state tk ≠ TASK_READY
  | None => True
  end.

Lemma tasks_ok_meta ts ts' q tl r :
  same_meta ts ts' → tasks_ok ts q tl r → tasks_ok ts' q tl r.
Proof.
  intros Hm [Hn Hr Hu Hi]. split.
  - intros a tk' Ha. destruct (same_meta_lookup _ _ _ _ Hm Ha) as (tk & Ha0 & Heq).
    specialize (Hn a tk Ha0). unfold nice_ok, meta in *. congruence.
  - intros a tk' Ha. destruct (same_meta_lookup _ _ _ _ Hm Ha) as (tk & Ha0 & Heq).
    rewrite (Hr a tk Ha0). unfold meta in Heq. by injection Heq as -> -> _ _ _.
  - intros a tk' Ha Hst. destruct (same_meta_lookup _ _ _ _ Hm Ha) as (tk & Ha0 & Heq).
    apply (Hu a tk Ha0). unfold meta in Heq. congruence.
  - eapply has_idle_frame; [|exact Hi]. intros b. by apply same_meta_links.
Qed.

(** One task changes its state, and the queue follows. *)
Lemma tasks_ok_state ts q q' tl r r' a tk v :
  tasks_ok ts q tl r → ts !! a = Some tk →
  (∀ b, b ≠ a → (b ∈ q' ↔ b ∈ q)) → (a ∈ q' ↔ v = TASK_READY ∧ pid tk ≠ 0) →
  (∀ b, r = Some b → b ≠ a → r' = Some b) → (v = TASK_RUNNING → r' = Some a) →
  tasks_ok (<[a := set_state v tk]> ts) q' tl r'.
Proof.
  intros [Hn Hr Hu Hi] Ha Hq Hqa Hrr Hra.
  assert (Hcase : ∀ b tk', <[a := set_state v tk]> ts !! b = Some tk' →
    b = a ∧ tk' = set_state v tk ∨ b ≠ a ∧ ts !! b = Some tk').
  { intros b tk'. destruct (decide (b = a)) as [->|Hne].
    - rewrite lookup_insert_eq. intros [= <-]. by left.
    - rewrite lookup_insert_ne by done. by right. }
  split.
  - intros b tk' [[-> ->]|[_ Hb]]%Hcase; [apply (Hn a tk Ha)|by eapply Hn].
  - intros b tk' [[-> ->]|[Hne Hb]]%Hcase; [done|]. rewrite Hq by done. by apply Hr.
  - intros b tk' [[-> ->]|[Hne Hb]]%Hcase Hst; [by apply Hra|]. eapply Hrr; [|done]. by eapply Hu.
  - eapply has_idle_frame; [|exact Hi]. intros b. destruct (decide (b = a)) as [->|Hne].
    + by rewrite lookup_insert_eq, Ha.
    + by rewrite lookup_insert_ne.
Qed.

(** ** The task list search *)

Lemma linked_size ts pp p l : linked ts pp p l → NoDup l → (length l ≤ size ts)%nat.
Proof.
  intros Hl Hnd. rewrite <-size_dom, <-(size_list_to_set (C := gset Z) l) by done.
  apply subseteq_size. intros a Ha. apply elem_of_list_to_set in Ha.
  revert pp p Hl. clear Hnd. induction l as [|b l IH]; intros pp p; [by apply elem_of_nil in Ha|].
  intros (_ & tk & Hb & _ & Hl). apply elem_of_cons in Ha as [->|Ha]; [by apply elem_of_dom_2 in Hb|].
  by eapply IH.
Qed.

Lemma wp_find_loop fuel s pid0 pp p l (Q : ptr → sched → Prop) :
  linked (tasks s) pp p l → (length l < fuel)%nat → Q (first_pid (tasks s) pid0 l) s →
  wp (find_loop fuel pid0 p) Q s.
Proof.
  revert pp p l. induction fuel as [|fuel IH]; intros pp p l Hl Hlen HQ; [lia|]. simpl.
  destruct l as [|a l]; simpl in *.
  { subst p. by apply wp_ret. }
  destruct Hl as (-> & tk & Ha & _ & Hl). simpl. apply wp_bind. eapply wp_trd; [exact Ha|].
  rewrite Ha in HQ. simpl in HQ. destruct (pid tk =? pid0); [by apply wp_ret|].
  apply wp_bind. eapply wp_trd; [exact Ha|]. eapply IH; [exact Hl|lia|done].
Qed.

Lemma wp_find s pid0 l (Q : ptr → sched → Prop) :
  linked (tasks s) None (task_list s) l → NoDup l → Q (first_pid (tasks s) pid0 l) s →
  wp (task_find_by_pid pid0) Q s.
Proof.
  intros Hl Hnd HQ. apply wp_bind, wp_gets, wp_bind, wp_gets.
  eapply wp_find_loop; [exact Hl| |done]. pose proof (linked_size _ _ _ _ Hl Hnd). lia.
Qed.

Lemma first_pid_found ts n pp p l a :
  n ≠ -1 → linked ts pp p l → first_pid ts n l = Some a → ∃ tk, ts !! a = Some tk ∧ pid tk = n.
Proof.
  intros Hn. revert pp p. induction l as [|b l IH]; intros pp p; simpl; [done|].
  intros (_ & tk & Hb & _ & Hl). rewrite Hb. simpl. destruct (Z.eqb_spec (pid tk) n).
  - intros [= ->]. by exists tk.
  - by eapply IH.
Qed.

(** ** Run queue operations under the invariant *)

Definition with_task (a : Z) (tk : task) (A : queue) : queue :=
  Queue (q_list A) (<[a := tk]> (q_tasks A)) (q_min A).

Lemma rep_update e A a tk tk' :
  represents e A → q_tasks A !! a = Some tk →
  vruntime tk' = vruntime tk → priority tk' = priority tk →
  represents (set_etasks (<[a := tk']> (etasks e)) e) (with_task a tk' A).
Proof.
  destruct A as [q ts mv]. intros ([t [Hwh Hrb Hbl Hda Htk Hnd Hso Hlm Hpo Hnr Hlo]] & Hts & Hmv) Ha Hv Hp.
  simpl in *. subst ts mv. split; [|done]. exists t.
  assert (Hvr : ∀ b, vr (<[a := tk']> (etasks e)) b = vr (etasks e) b).
  { intros b. unfold vr. destruct (decide (b = a)) as [->|]; [by rewrite lookup_insert_eq, Ha|].
    by rewrite lookup_insert_ne. }
  assert (Hwt : ∀ b, wt (<[a := tk']> (etasks e)) b = wt (etasks e) b).
  { intros b. unfold wt. destruct (decide (b = a)) as [->|]; [by rewrite lookup_insert_eq, Ha, Hp|].
    by rewrite lookup_insert_ne. }
  split; simpl; try done.
  - eapply Forall_impl; [exact Htk|]. intros b. unfold task_ok.
    destruct (decide (b = a)) as [->|]; [by rewrite lookup_insert_eq, Ha, Hp|].
    by rewrite lookup_insert_ne.
  - eapply ordered_frame; [|exact Hso]. intros b _. apply Hvr.
  - rewrite Hlo. symmetry. apply total_weight_frame. intros b _. apply Hwt.
Qed.

(** The run queue part of a state: what the steps of the scheduler act on. *)
Definition holds (s0 s : sched) (A : queue) : Prop :=
  represents (eev s) A ∧ task_list s = task_list s0 ∧ current_task s = current_task s0 ∧
  pids s = pids s0.

Lemma holds_lookup s0 s A a : holds s0 s A → tasks s !! a = q_tasks A !! a.
Proof. intros ((_ & H & _) & _). simpl. by rewrite H. Qed.

Lemma wp_task_write f s0 s A a tk (Q : unit → sched → Prop) :
  holds s0 s A → q_tasks A !! a = Some tk →
  vruntime (f tk) = vruntime tk → priority (f tk) = priority tk →
  (∀ s', holds s0 s' (with_task a (f tk) A) → Q tt s') →
  wp (twr f (Some a)) Q s.
Proof.
  intros Hh Ha Hv Hp HQ. eapply wp_twr; [by rewrite (holds_lookup s0 s A)|]. apply HQ.
  destruct Hh as (Hr & Hl & Hc & Hpd). split_and!; try done. simpl.
  by apply (rep_update (eev s) A a tk).
Qed.

Lemma wp_task_read {B} (f : task → B) s0 s A a tk (Q : B → sched → Prop) :
  holds s0 s A → q_tasks A !! a = Some tk → Q (f tk) s → wp (trd f (Some a)) Q s.
Proof. intros Hh Ha HQ. eapply wp_trd; [|exact HQ]. by rewrite (holds_lookup s0 s A). Qed.

(** A specified run queue operation, seen from the scheduler. *)
Lemma wp_on_eev {B} (m : ST eevdf B) s0 s A (P : B → queue → Prop) (Q : B → sched → Prop) :
  holds s0 s A → wp m (λ b e, ∃ A', represents e A' ∧ P b A') (eev s) →
  (∀ b A' s', holds s0 s' A' → P b A' → Q b s') → wp (on_eev m) Q s.
Proof.
  intros (Hr & Hl & Hc & Hpd) Hm HQ. apply wp_zoom. eapply wp_mono; [exact Hm|].
  intros b e (A' & HA' & HP). eapply HQ; [|exact HP]. by split_and!.
Qed.

Lemma wp_queued_eev s0 s A a (Q : bool → sched → Prop) :
  holds s0 s A → Q (bool_decide (a ∈ q_list A)) s → wp (on_eev (eevdf_is_queued (Some a))) Q s.
Proof.
  intros Hh HQ. apply wp_zoom. eapply wp_mono; [apply (wp_is_queued _ A a), Hh|].
  simpl. intros b e [-> ->]. by destruct s.
Qed.

Lemma wp_dequeue_eev s0 s A a (Q : unit → sched → Prop) :
  holds s0 s A → (∀ s', holds s0 s' (dequeue_spec a A) → Q tt s') →
  wp (on_eev (eevdf_dequeue (Some a))) Q s.
Proof.
  intros Hh HQ. eapply (wp_on_eev _ s0 s A (λ _ A', A' = dequeue_spec a A)); [done| |].
  - eapply wp_mono; [apply (wp_dequeue _ A a), Hh|].
    simpl. intros [] e He. by exists (dequeue_spec a A).
  - intros [] A' s' Hs' ->. by apply HQ.
Qed.

Lemma wp_slice_eev s0 s A a tk (Q : Z → sched → Prop) :
  holds s0 s A → q_tasks A !! a = Some tk → nice_ok tk → (∀ v, Q v s) →
  wp (on_eev (eevdf_calc_slice (Some a))) Q s.
Proof.
  intros Hh Ha Hn HQ. pose proof Hh as (Hr & _). apply wp_zoom.
  assert (Hs : set_eev (eev s) s = s) by (by destruct s).
  destruct (decide (q_list A = [])) as [Hq|Hq].
  - destruct Hr as ([t Ht] & _). unfold eevdf_calc_slice. apply wp_bind, wp_gets.
    rewrite (rr_nr _ _ _ Ht), Hq. apply wp_ret. by rewrite Hs.
  - destruct (weight_of_nice _ Hn) as (w & Hw & _).
    eapply wp_mono; [by apply (slice_value (eev s) A a tk w)|]. simpl.
    intros v e [-> _]. by rewrite Hs.
Qed.

(** ** Queueing the running task *)

(** Between the two halves of a scheduling decision nothing is running. *)
Definition idle_state (s0 s : sched) (A : queue) : Prop :=
  holds s0 s A ∧ tasks_ok (q_tasks A) (q_list A) (task_list s0) None.

Lemma update_spec_shape a now A :
  q_list (update_spec a now A) = q_list A ∧ same_meta (q_tasks A) (q_tasks (update_spec a now A)) ∧
  (∀ b, b ≠ a → q_tasks (update_spec a now A) !! b = q_tasks A !! b).
Proof.
  unfold update_spec. destruct (q_tasks A !! a) as [tk|] eqn:Ha; [|done].
  destruct (_ =? 0); [done|]. simpl. split_and!; [done|by eapply same_meta_insert|].
  intros b Hb. by rewrite lookup_insert_ne.
Qed.

Lemma enqueue_spec_shape a A tk :
  q_tasks A !! a = Some tk → state tk = TASK_READY → (length (q_list A) < 64)%nat →
  q_list (enqueue_spec a A) ≡ₚ a :: q_list A ∧ same_meta (q_tasks A) (q_tasks (enqueue_spec a A)) ∧
  (∀ b, b ≠ a → q_tasks (enqueue_spec a A) !! b = q_tasks A !! b).
Proof.
  intros Ha Hst Hlen. unfold enqueue_spec. rewrite Ha, Hst. simpl.
  destruct (Nat.ltb_spec (length (q_list A)) 64); [|lia].
  split_and!; [apply rq_insert_perm|by eapply same_meta_insert|].
  intros b Hb. by rewrite lookup_insert_ne.
Qed.

Lemma wp_requeue s0 s A c tk now (Q : unit → sched → Prop) :
  holds s0 s A → tasks_ok (q_tasks A) (q_list A) (task_list s0) (Some c) →
  q_tasks A !! c = Some tk → state tk = TASK_RUNNING →
  (pid tk ≠ 0 → (length (q_list A) < 64)%nat) →
  (∀ s' A' tk', idle_state s0 s' A' → q_tasks A' !! c = Some tk' → links tk' = links tk →
     state tk' = TASK_READY →
     q_list A' ≡ₚ (if pid tk =? 0 then [] else [c]) ++ q_list A →
     (∀ b, b ≠ c → q_tasks A' !! b = q_tasks A !! b) → Q tt s') →
  pwp (requeue (Some c) now) Q s.
Proof.
  intros Hh Hok Hc Hst Hroom HQ. unfold requeue.
  assert (Hcq : c ∉ q_list A).
  { rewrite (to_ready _ _ _ _ Hok c tk Hc), Hst. by intros [? _]. }
  destruct (update_spec_shape c now A) as (Hq1 & Hm1 & Hf1). set (A1 := update_spec c now A) in *.
  apply pwp_lift. eapply (wp_on_eev _ s0 s A (λ _ A', A' = A1)); [done| |].
  { eapply wp_mono; [eapply (wp_update (eev s) A c now tk); [apply Hh|done|done]|].
    simpl. intros [] e He. by exists A1. }
  intros [] A1' s1 Hh1 ->. cbv beta.
  assert (Hc1 : ∃ tk1, q_tasks A1 !! c = Some tk1 ∧ meta tk1 = meta tk).
  { symmetry in Hm1. destruct (same_meta_lookup _ _ _ _ Hm1 Hc) as (x & ? & ?). by exists x. }
  destruct Hc1 as (tk1 & Hc1 & Hmeta). unfold meta in Hmeta.
  injection Hmeta as Hpid1 Hst1 Hpr1 Hnx1 Hpv1.
  apply pwp_lift. eapply (wp_task_write _ s0 s1 A1 c tk1); [done|done|done|done|].
  intros s2 Hh2. set (tk2 := set_state TASK_READY tk1) in *. set (A2 := with_task c tk2 A1) in *.
  assert (Hc2 : q_tasks A2 !! c = Some tk2) by apply lookup_insert_eq.
  assert (Hq2 : q_list A2 = q_list A) by exact Hq1.
  assert (Hf2 : ∀ b, b ≠ c → q_tasks A2 !! b = q_tasks A !! b).
  { intros b Hb. rewrite <-Hf1 by done. by apply lookup_insert_ne. }
  apply pwp_lift. eapply (wp_task_read _ s0 s2 A2 c tk2); [done|done|]. cbv beta.
  change (pid tk2) with (pid tk1). rewrite Hpid1.
  assert (Hok2 : ∀ q', q' ≡ₚ (if pid tk =? 0 then [] else [c]) ++ q_list A →
    tasks_ok (q_tasks A2) q' (task_list s0) None).
  { intros q' Hq'. eapply (tasks_ok_state (q_tasks A1) (q_list A)); [|exact Hc1|..].
    - by eapply tasks_ok_meta.
    - intros b Hb. rewrite Hq'. destruct (pid tk =? 0); set_solver.
    - rewrite Hq', Hpid1. destruct (Z.eqb_spec (pid tk) 0); set_solver.
    - intros b [= <-]. done.
    - done. }
  destruct (Z.eqb_spec (pid tk) 0) as [Hp0|Hp0]; simpl.
  - apply pwp_ret. apply (HQ s2 A2 tk2); [|done|unfold links, tk2; simpl; congruence|done|by rewrite Hq2|done].
    split; [done|]. apply Hok2. by rewrite Hq2.
  - assert (Hlen2 : (length (q_list A2) < 64)%nat) by (rewrite Hq2; auto).
    destruct (enqueue_spec_shape c A2 tk2 Hc2) as (Hq3 & Hm3 & Hf3); [done|done|].
    set (A3 := enqueue_spec c A2) in *. rewrite Hq2 in Hq3.
    apply pwp_lift. eapply (wp_on_eev _ s0 s2 A2 (λ _ A', A' = A3)); [done| |].
    { eapply wp_mono; [eapply (wp_enqueue (eev s2) A2 c tk2); [apply Hh2|done| |]|].
      - change (nice_ok tk2). eapply (to_nice _ _ _ _ (Hok2 _ ltac:(reflexivity))). exact Hc2.
      - by rewrite Hq2.
      - simpl. intros [] e He. by exists A3. }
    intros [] A3' s3 Hh3 ->. cbv beta. apply pwp_lift. eapply wp_queued_eev; [exact Hh3|].
    apply pwp_require; [apply bool_decide_eq_true; rewrite Hq3; set_solver|].
    pose proof Hm3 as Hm3'. symmetry in Hm3'.
    destruct (same_meta_lookup _ _ _ _ Hm3' Hc2) as (tk3 & Hc3 & Hmeta3).
    unfold meta in Hmeta3. injection Hmeta3 as Hpid3 Hst3 _ Hnx3 Hpv3.
    apply (HQ s3 A3 tk3); [|done|unfold links, tk2 in *; simpl in *; congruence|done|done|].
    + split; [done|]. eapply tasks_ok_meta; [exact Hm3|]. apply Hok2. by rewrite Hq3.
    + intros b Hb. rewrite Hf3 by done. by apply Hf2.
Qed.

(** ** Making a task the running one *)

Lemma vr_with_task a tk tk' A b :
  q_tasks A !! a = Some tk → vruntime tk' = vruntime tk →
  vr (q_tasks (with_task a tk' A)) b = vr (q_tasks A) b.
Proof.
  intros Ha Hv. unfold vr. simpl. destruct (decide (b = a)) as [->|].
  - by rewrite lookup_insert_eq, Ha.
  - by rewrite lookup_insert_ne.
Qed.

(** The chosen task runs, out of the queue, everything else unchanged. *)
Record dispatched (s0 : sched) (A : queue) (n : Z) (tk : task) (s' : sched) (A' : queue)
    (tk' : task) : Prop := {
  dp_inv : sched_inv s' A';
  dp_current : current_task s' = Some n;
  dp_queue : q_list A' = filter (λ b, b ≠ n) (q_list A);
  dp_vr : ∀ b, vr (q_tasks A') b = vr (q_tasks A) b;
  dp_task : q_tasks A' !! n = Some tk';
  dp_state : state tk' = TASK_RUNNING;
  dp_links : links tk' = links tk;
  dp_others : ∀ b, b ≠ n → q_tasks A' !! b = q_tasks A !! b;
  dp_list : task_list s' = task_list s0;
  dp_pids : pids s' = pids s0;
}.

(** The end of both ways to keep or change the running task. *)
Lemma dispatched_intro s0 s A A' n tk tk' :
  tasks_ok (q_tasks A) (q_list A) (task_list s0) None → q_tasks A !! n = Some tk →
  holds s0 s A' → q_list A' = filter (λ b, b ≠ n) (q_list A) →
  q_tasks A' = <[n := tk']> (q_tasks A) → vruntime tk' = vruntime tk →
  meta tk' = meta (set_state TASK_RUNNING tk) →
  dispatched s0 A n tk (set_current_task (Some n) s) A' tk'.
Proof.
  intros Hok Hn (Hr & Hl & Hc & Hp) Hq' Hts Hv Hm.
  assert (Htk' : q_tasks A' !! n = Some tk') by (rewrite Hts; apply lookup_insert_eq).
  assert (Hok' : tasks_ok (q_tasks A') (q_list A') (task_list s0) (Some n)).
  { apply (tasks_ok_meta (<[n := set_state TASK_RUNNING tk]> (q_tasks A))).
    - rewrite Hts. rewrite <-(insert_insert_eq (q_tasks A) n tk' (set_state TASK_RUNNING tk)).
      eapply same_meta_insert; [apply lookup_insert_eq|done].
    - eapply (tasks_ok_state (q_tasks A) (q_list A)); [exact Hok|exact Hn|..].
      + intros b Hb. rewrite Hq', list_elem_of_filter. tauto.
      + rewrite Hq', list_elem_of_filter. split; [tauto|by intros [? _]].
      + done.
      + done. }
  unfold meta in Hm. injection Hm as Hpid Hst Hpr Hnx Hpv.
  split; simpl; try done.
  - split_and!; [done| |].
    + simpl. by rewrite Hl.
    + exists tk'. split; [done|]. by rewrite Hst.
  - intros b. unfold vr. rewrite Hts. destruct (decide (b = n)) as [->|].
    + by rewrite lookup_insert_eq, Hn.
    + by rewrite lookup_insert_ne.
  - unfold links. simpl in *. congruence.
  - intros b Hb. rewrite Hts. by apply lookup_insert_ne.
Qed.

Lemma filter_absent (n : Z) (q : list Z) : n ∉ q → filter (λ b, b ≠ n) q = q.
Proof. intros Hn. apply filter_id, Forall_forall. by intros b Hb ->. Qed.

Lemma not_in_filter (n : Z) (q : list Z) : n ∉ filter (λ b, b ≠ n) q.
Proof. rewrite list_elem_of_filter. tauto. Qed.

Lemma wp_dispatch s0 s A n tk now (Q : unit → sched → Prop) :
  idle_state s0 s A → q_tasks A !! n = Some tk →
  (∀ s' A' tk', dispatched s0 A n tk s' A' tk' → context tk' = ctx_set X23 now (context tk) → Q tt s') →
  pwp (dispatch (Some n) now) Q s.
Proof.
  intros Hid Hn HQ. pose proof Hid as [Hh Hok]. unfold dispatch.
  apply pwp_lift. eapply (wp_task_read _ s0 s A n tk); [done|done|]. cbv beta.
  set (A1 := dequeue_spec n A).
  assert (Hout : n ∉ q_list A1) by apply not_in_filter.
  apply pwp_bind. eapply (pwp_mono _ (λ _ s1, holds s0 s1 A1)).
  { destruct (Z.eqb_spec (pid tk) 0) as [Hp|Hp]; simpl.
    - apply pwp_ret. unfold A1, dequeue_spec. rewrite filter_absent; [by destruct A|].
      rewrite (to_ready _ _ _ _ Hok n tk Hn). by intros [_ ?].
    - apply pwp_lift. eapply wp_dequeue_eev; [exact Hh|]. intros s1 Hh1.
      apply pwp_lift. eapply wp_queued_eev; [exact Hh1|].
      apply pwp_require; [|done]. by rewrite bool_decide_eq_false_2. }
  intros [] s1 Hh1. apply pwp_lift.
  assert (Hn1 : q_tasks A1 !! n = Some tk) by done.
  eapply (wp_task_write _ s0 s1 A1 n tk); [done|done|done|done|]. intros s2 Hh2.
  set (tk2 := set_state TASK_RUNNING tk) in *. set (A2 := with_task n tk2 A1) in *.
  assert (Hn2 : q_tasks A2 !! n = Some tk2) by apply lookup_insert_eq.
  apply pwp_lift. eapply wp_queued_eev; [exact Hh2|]. apply pwp_bind.
  apply pwp_require; [by rewrite bool_decide_eq_false_2|].
  apply pwp_lift. eapply (wp_task_write _ s0 s2 A2 n tk2); [done|done|done|done|]. intros s3 Hh3.
  set (tk3 := set_context (ctx_set X23 now (context tk2)) tk2) in *.
  set (A3 := with_task n tk3 A2) in *.
  assert (Hn3 : q_tasks A3 !! n = Some tk3) by apply lookup_insert_eq.
  apply pwp_lift. eapply (wp_slice_eev s0 s3 A3 n tk3); [done|done|by apply (to_nice _ _ _ _ Hok n tk)|].
  intros sl. apply pwp_lift. eapply (wp_task_write _ s0 s3 A3 n tk3); [done|done|done|done|].
  intros s4 Hh4. set (tk4 := set_time_slice sl tk3) in *. set (A4 := with_task n tk4 A3) in *.
  apply pwp_lift, wp_modify, pwp_ret.
  apply (HQ _ A4 tk4); [|done]. apply (dispatched_intro s0 s4 A A4 n tk tk4); [done|done|done|done| |done|done].
  unfold A4, A3, A2, with_task. simpl. by rewrite !insert_insert_eq.
Qed.

(** ** Scheduling decisions *)

(** The tasks that compete for the CPU: the running task, unless it is the idle
    task, and the queued ones. *)
Definition contender (s : sched) (ts : gmap Z task) : list Z :=
  match current_task s with
  | Some c =>
      match ts !! c with
      | Some tk => if (state tk =? TASK_RUNNING) && negb (pid tk =? 0) then [c] else []
      | None => []
      end
  | None => []
  end.
Definition runnable (s : sched) (A : queue) : list Z := contender s (q_tasks A) ++ q_list A.

(** A node of the pool is needed to queue the running task. *)
Definition room (s : sched) (A : queue) : Prop :=
  contender s (q_tasks A) ≠ [] → (length (q_list A) < 64)%nat.

(** The least virtual run time wins; the idle task runs when nobody competes. *)
Definition chosen (cand : list Z) (ts : gmap Z task) (n : Z) : Prop :=
  match cand with
  | [] => ∃ tn, ts !! n = Some tn ∧ pid tn = 0
  | _ => n ∈ cand ∧ ∀ b, b ∈ cand → vr ts n ≤ vr ts b
  end.

Record decided (s : sched) (A : queue) (s' : sched) (A' : queue) (n : Z) : Prop := {
  dc_inv : sched_inv s' A';
  dc_current : current_task s' = Some n;
  dc_chosen : chosen (runnable s A) (q_tasks A') n;
  dc_queue : q_list A' ≡ₚ filter (λ b, b ≠ n) (runnable s A);
  dc_running : ∃ tn, q_tasks A' !! n = Some tn ∧
    (state tn = TASK_RUNNING ∨ A' = A ∧ current_task s = Some n);
  dc_others : ∀ b, b ≠ n → current_task s ≠ Some b → q_tasks A' !! b = q_tasks A !! b;
  dc_links : ∀ b, links <$> q_tasks A' !! b = links <$> q_tasks A !! b;
  dc_list : task_list s' = task_list s;
  dc_pids : pids s' = pids s;
}.

(** After the running task is queued again: nothing runs, and the queue holds
    the contenders. *)
Record released (s : sched) (A : queue) (s1 : sched) (A1 : queue) : Prop := {
  rl_idle : idle_state s s1 A1;
  rl_queue : q_list A1 ≡ₚ runnable s A;
  rl_current : ∀ c, current_task s = Some c → ∃ tk1, q_tasks A1 !! c = Some tk1 ∧
    (state tk1 = TASK_READY ∨ state tk1 ≠ TASK_READY ∧ A1 = A ∧ s1 = s);
  rl_others : ∀ b, current_task s ≠ Some b → q_tasks A1 !! b = q_tasks A !! b;
  rl_links : ∀ b, links <$> q_tasks A1 !! b = links <$> q_tasks A !! b;
}.

Lemma released_same s A :
  sched_inv s A → contender s (q_tasks A) = [] →
  (∀ c tk, current_task s = Some c → q_tasks A !! c = Some tk → state tk ≠ TASK_RUNNING) →
  released s A s A.
Proof.
  intros (Hr & Hok & Hcur) Hct Hnr. split; [|unfold runnable; by rewrite Hct| |done|done].
  - split; [by split_and!|]. destruct Hok as [H1 H2 H3 H4]. split; try done.
    intros a tk Ha Hst. specialize (H3 a tk Ha Hst). by destruct (Hnr a tk H3 Ha).
  - intros c Hc. rewrite Hc in Hcur. destruct Hcur as (tk & Htk & Hst). exists tk. auto.
Qed.

Definition best (A1 : queue) (n : Z) (tn : task) : Prop :=
  q_list A1 = [] ∧ pid tn = 0 ∨ head (q_list A1) = Some n.

Lemma best_chosen s A e A1 A' n tn tn' :
  represents e A1 → q_list A1 ≡ₚ runnable s A → best A1 n tn →
  (∀ b, vr (q_tasks A') b = vr (q_tasks A1) b) → q_tasks A' !! n = Some tn' → pid tn' = pid tn →
  chosen (runnable s A) (q_tasks A') n.
Proof.
  intros ([t Ht] & Hts & _) Hq Hb Hvr Hn Hpid. destruct (runnable s A) as [|x l] eqn:Hrun; simpl.
  - apply Permutation_nil_r in Hq. destruct Hb as [[_ Hp]|Hb]; [|by rewrite Hq in Hb].
    exists tn'. split; [done|congruence].
  - destruct Hb as [[Hb _]|Hb]; [rewrite Hb in Hq; by apply Permutation_nil_cons in Hq|].
    pose proof (rr_sorted _ _ _ Ht) as Hord. rewrite Hts in Hord. split.
    + rewrite <-Hq. destruct (q_list A1); [done|]. injection Hb as ->. by left.
    + intros b Hin. rewrite !Hvr. rewrite <-Hq in Hin. by eapply head_least.
Qed.

Lemma decided_dispatched s A s1 A1 n tn s' A' tk' :
  released s A s1 A1 → best A1 n tn → q_tasks A1 !! n = Some tn →
  dispatched s A1 n tn s' A' tk' → decided s A s' A' n.
Proof.
  intros [[(Hr & _) _] Hq _ Hoth Hpd] Hb Htn []. split; try done.
  - eapply best_chosen; [done..|]. unfold links in dp_links0. congruence.
  - by rewrite dp_queue0, Hq.
  - exists tk'. auto.
  - intros b Hb1 Hb2. rewrite dp_others0 by done. by apply Hoth.
  - intros b. rewrite <-Hpd. destruct (decide (b = n)) as [->|]; [|by rewrite dp_others0].
    rewrite dp_task0, Htn. simpl. congruence.
Qed.

(** Staying with a task that is not ready: nothing has changed. *)
Lemma decided_same s A n tn :
  sched_inv s A → released s A s A → best A n tn → q_tasks A !! n = Some tn →
  current_task s = Some n → state tn ≠ TASK_READY → decided s A s A n.
Proof.
  intros Hinv [Hid Hq _ _ _] Hb Hn Hcur Hst. split; try done.
  - eapply best_chosen; [apply Hid|exact Hq|exact Hb|done|exact Hn|done].
  - rewrite <-Hq, filter_absent; [done|]. destruct Hid as [_ Hok].
    rewrite (to_ready _ _ _ _ Hok n tn Hn). by intros [? _].
  - exists tn. auto.
Qed.

(** ** schedule and schedule_preempt *)

Lemma contender_current s ts c tk :
  current_task s = Some c → ts !! c = Some tk →
  contender s ts = if (state tk =? TASK_RUNNING) && negb (pid tk =? 0) then [c] else [].
Proof. intros Hc Ht. unfold contender. by rewrite Hc, Ht. Qed.

Lemma holds_refl s A : sched_inv s A → holds s s A.
Proof. intros (Hr & _). by split_and!. Qed.

(** The running task is queued again, whatever its saved context. *)
Lemma wp_requeue_current f s A c tk now (Q : unit → sched → Prop) :
  (∀ t, vruntime (f t) = vruntime t ∧ meta (f t) = meta t) →
  sched_inv s A → room s A → current_task s = Some c → q_tasks A !! c = Some tk →
  state tk = TASK_RUNNING →
  (∀ s1 A1, released s A s1 A1 → Q tt s1) →
  pwp (twr f (Some c);; requeue (Some c) now) Q s.
Proof.
  intros Hf Hinv Hroom Hc Htk Hst HQ. pose proof Hinv as (Hr & Hok & _).
  destruct (Hf tk) as [Hfv Hfm]. pose proof Hfm as Hfm0. unfold meta in Hfm0.
  injection Hfm0 as Hfpid Hfst Hfpr Hfnx Hfpv.
  apply pwp_lift. eapply (wp_task_write f s s A c tk); [by apply holds_refl|done|done|done|].
  intros s0 Hh0. set (A0 := with_task c (f tk) A) in *.
  assert (Hc0 : q_tasks A0 !! c = Some (f tk)) by apply lookup_insert_eq.
  eapply (wp_requeue s s0 A0 c (f tk)); [done| |done|by rewrite Hfst| |].
  - eapply (tasks_ok_meta (q_tasks A)); [by eapply same_meta_insert|]. by rewrite <-Hc.
  - rewrite Hfpid. intros Hp. apply Hroom. rewrite (contender_current s _ c tk Hc Htk), Hst.
    by destruct (Z.eqb_spec (pid tk) 0).
  - rewrite Hfpid. intros s1 A1 tk1 Hid Hc1 Hp1 Hst1 Hq1 Hoth. apply (HQ s1 A1). split; [done| | | |].
    + rewrite Hq1. unfold runnable. rewrite (contender_current s _ c tk Hc Htk), Hst. simpl.
      by destruct (pid tk =? 0).
    + rewrite Hc. intros ? [= <-]. exists tk1. auto.
    + rewrite Hc. intros b Hb. rewrite Hoth by congruence. simpl.
      apply lookup_insert_ne. congruence.
    + intros b. destruct (decide (b = c)) as [->|Hb].
      * rewrite Hc1, Htk. simpl. unfold links in *. congruence.
      * rewrite Hoth by done. simpl. by rewrite lookup_insert_ne.
Qed.

Lemma wp_pick_eev s0 s A (Q : ptr → sched → Prop) :
  holds s0 s A → Q (head (q_list A)) s → wp (on_eev eevdf_pick_next) Q s.
Proof.
  intros (Hr & _) HQ. apply wp_zoom. eapply wp_mono; [by apply (wp_pick (eev s) A)|].
  simpl. intros r e [-> ->]. by destruct s.
Qed.

Lemma wp_idle s0 s A (Q : ptr → sched → Prop) :
  idle_state s0 s A →
  (∀ i tk, q_tasks A !! i = Some tk → pid tk = 0 → Q (Some i) s) →
  wp (task_find_by_pid 0) Q s.
Proof.
  intros [((_ & Hts & _) & Hl & _) Hok] HQ. destruct (to_idle _ _ _ _ Hok) as (l & Hli & Hnd & [i Hi]).
  assert (Htasks : tasks s = q_tasks A) by exact Hts.
  eapply (wp_find s 0 l); rewrite ?Htasks, ?Hl; [done|done|]. rewrite Hi.
  destruct (first_pid_found (q_tasks A) 0 None (task_list s0) l i) as (tk & Htk & Hp); [done|done|done|].
  by eapply HQ.
Qed.

Lemma head_task s0 s A n :
  holds s0 s A → head (q_list A) = Some n → ∃ tk, q_tasks A !! n = Some tk.
Proof.
  intros (([t Ht] & Hts & _) & _) Hn. pose proof (rr_tasks _ _ _ Ht) as Hok. rewrite Hts in Hok.
  destruct (q_list A) as [|x q]; [done|]. injection Hn as ->. apply Forall_cons in Hok as [Hx _].
  unfold task_ok in Hx. destruct (q_tasks A !! n) as [tk|]; [by exists tk|done].
Qed.

(** Keeping a ready task on the CPU. *)
Lemma dispatched_stay s s1 A1 s3 n tk :
  idle_state s s1 A1 → q_tasks A1 !! n = Some tk → current_task s = Some n →
  holds s s3 (dequeue_spec n (with_task n (set_state TASK_RUNNING tk) A1)) →
  dispatched s A1 n tk s3 (dequeue_spec n (with_task n (set_state TASK_RUNNING tk) A1))
    (set_state TASK_RUNNING tk).
Proof.
  intros [_ Hok] Hn Hc Hh3.
  assert (Hs3 : set_current_task (Some n) s3 = s3).
  { destruct Hh3 as (_ & _ & Hc3 & _). rewrite Hc in Hc3. destruct s3. simpl in *. by rewrite Hc3. }
  rewrite <-Hs3 at 1. by apply dispatched_intro.
Qed.

Lemma wp_put_back s A now (Q : unit → sched → Prop) :
  sched_inv s A → room s A → (∀ s1 A1, released s A s1 A1 → Q tt s1) →
  pwp (put_back (current_task s) now) Q s.
Proof.
  intros Hinv Hroom HQ. unfold put_back. destruct (current_task s) as [c|] eqn:Hc; simpl.
  2:{ apply pwp_ret. apply (HQ s A). apply released_same; [done| |].
      - unfold contender. by rewrite Hc.
      - by rewrite Hc. }
  pose proof Hinv as (_ & Hok & Hcur). rewrite Hc in Hcur. destruct Hcur as (tk & Htk & Hst).
  apply pwp_lift. eapply (wp_task_read _ s s A c tk); [by apply holds_refl|done|].
  apply pwp_bind. destruct (Z.eqb_spec (state tk) TASK_RUNNING) as [Hrun|Hrun].
  - assert (Hgo : pwp (twr (λ t, t) (Some c);; requeue (Some c) now)
      (λ _ s1, pwp (st ← trd state (Some c); if st =? TASK_ZOMBIE then
         q ← on_eev (eevdf_is_queued (Some c)); require (negb q) else pret tt) Q s1) s).
    { eapply (wp_requeue_current (λ t, t)); [done|done|done|exact Hc|exact Htk|done|].
      intros s1 A1 Hrel. destruct (rl_current _ _ _ _ Hrel c Hc) as (tk1 & Htk1 & Hst1).
      apply pwp_lift. eapply (wp_task_read _ s s1 A1 c tk1); [apply (rl_idle _ _ _ _ Hrel)|done|].
      destruct Hst1 as [->|(_ & -> & ->)]; [apply pwp_ret; by apply (HQ s1 A1)|].
      rewrite Htk in Htk1. injection Htk1 as <-. rewrite Hrun. apply pwp_ret. by apply (HQ s A). }
    destruct Hgo as (r & s1 & Hrun1 & Hpost). exists r, s1. split; [|done].
    rewrite <-Hrun1. unfold mbind, st_bind.
    unfold twr, load_task, mbind, st_bind. simpl.
    destruct Hinv as ((_ & Hts & _) & _). rewrite Hts, Htk. simpl. unfold modify.
    rewrite insert_id by (by rewrite Hts).
    replace (set_eev (set_etasks (etasks (eev s)) (eev s)) s) with s; [done|].
    destruct s as [e ? ? ?]; by destruct e.
  - apply pwp_ret. apply pwp_lift. eapply (wp_task_read _ s s A c tk); [by apply holds_refl|done|].
    assert (Hrel : released s A s A).
    { apply released_same; [done| |].
      - rewrite (contender_current s _ c tk Hc Htk). by destruct (Z.eqb_spec (state tk) TASK_RUNNING).
      - rewrite Hc. intros ? tk' [= <-] Htk'. congruence. }
    destruct (state tk =? TASK_ZOMBIE); [|apply pwp_ret; by apply (HQ s A)].
    apply pwp_lift. eapply wp_queued_eev; [by apply holds_refl|].
    apply pwp_require; [|by apply (HQ s A)]. rewrite bool_decide_eq_false_2; [done|].
    rewrite (to_ready _ _ _ _ Hok c tk Htk). by intros [? _].
Qed.

(** What [schedule] reports of a decision for [n]. *)
Definition action_of (prev : ptr) (n : Z) : action :=
  match prev with
  | Some c => if decide (n = c) then Stay else SwitchTo (Some c) (Some n)
  | None => JumpTo (Some n)
  end.

(** The second half of [schedule], once a task is chosen. *)
Lemma wp_commit s A s1 A1 n tn now (Q : action → sched → Prop) :
  sched_inv s A → released s A s1 A1 → best A1 n tn → q_tasks A1 !! n = Some tn →
  (∀ s' A', decided s A s' A' n → Q (action_of (current_task s) n) s') →
  pwp (if ptr_eqb (Some n) (current_task s) && negb (is_null (current_task s)) then
         st ← trd state (current_task s);
         pbind (if st =? TASK_READY then
                  twr (set_state TASK_RUNNING) (current_task s);;
                  on_eev (eevdf_dequeue (current_task s));;
                  q ← on_eev (eevdf_is_queued (current_task s));
                  require (negb q)
                else pret tt) (λ _, pret Stay)
       else
         pbind (dispatch (Some n) now) (λ _,
           pret (if is_null (current_task s) then JumpTo (Some n)
                 else SwitchTo (current_task s) (Some n)))) Q s1.
Proof.
  intros Hinv Hrel Hb Hn HQ. pose proof (rl_idle _ _ _ _ Hrel) as Hid. pose proof Hid as [Hh1 _].
  unfold action_of in HQ. unfold ptr_eqb.
  destruct (bool_decide_reflect (Some n = current_task s)) as [Heq|Hne]; simpl.
  - rewrite <-Heq in *. simpl in *. rewrite decide_True in HQ by done.
    apply pwp_lift. eapply (wp_task_read _ s s1 A1 n tn); [done|done|].
    apply pwp_bind. destruct (Z.eqb_spec (state tn) TASK_READY) as [Hst|Hst].
    + apply pwp_lift. eapply (wp_task_write _ s s1 A1 n tn); [done|done|done|done|]. intros s2 Hh2.
      apply pwp_lift. eapply wp_dequeue_eev; [exact Hh2|]. intros s3 Hh3.
      apply pwp_lift. eapply wp_queued_eev; [exact Hh3|].
      apply pwp_require; [rewrite bool_decide_eq_false_2; [done|apply not_in_filter]|].
      apply pwp_ret. eapply HQ, decided_dispatched; [done|done|done|].
      by apply (dispatched_stay s s1 A1).
    + apply pwp_ret, pwp_ret. destruct (rl_current _ _ _ _ Hrel n) as (tk1 & Htk1 & Hst1); [done|].
      rewrite Hn in Htk1. injection Htk1 as <-. destruct Hst1 as [|(_ & -> & ->)]; [done|].
      eapply HQ, decided_same; done.
  - apply pwp_bind. eapply (wp_dispatch s s1 A1 n tn); [done|done|].
    intros s' A' tk' Hd _. apply pwp_ret.
    pose proof (decided_dispatched _ _ _ _ _ _ _ _ _ Hrel Hb Hn Hd) as Hdec.
    destruct (current_task s) as [c|]; simpl.
    + rewrite decide_False in HQ by congruence. by eapply HQ.
    + by eapply HQ.
Qed.

Lemma wp_schedule s A now :
  sched_inv s A → room s A →
  pwp (schedule now) (λ act s', ∃ A' n, decided s A s' A' n ∧ act = action_of (current_task s) n) s.
Proof.
  intros Hinv Hroom. unfold schedule. apply pwp_lift, wp_gets. apply pwp_bind.
  eapply wp_put_back; [done|done|]. intros s1 A1 Hrel.
  pose proof (rl_idle _ _ _ _ Hrel) as Hid. pose proof Hid as [Hh1 _].
  apply pwp_lift. eapply wp_pick_eev; [exact Hh1|]. apply pwp_bind.
  eapply (pwp_mono _ (λ r s', s' = s1 ∧ ∃ n tn, r = Some n ∧ q_tasks A1 !! n = Some tn ∧ best A1 n tn)).
  { destruct (head (q_list A1)) as [n|] eqn:Hhd; simpl.
    - apply pwp_ret. split; [done|]. destruct (head_task s s1 A1 n Hh1 Hhd) as (tn & Htn).
      exists n, tn. split_and!; [done|done|by right].
    - apply pwp_lift. eapply wp_idle; [exact Hid|]. intros i tk Hi Hp. simpl. apply pwp_ret.
      split; [done|]. exists i, tk. split_and!; [done|done|]. left. split; [|done].
      by destruct (q_list A1). }
  intros r s1' (-> & n & tn & -> & Htn & Hb).
  eapply (wp_commit s A s1 A1 n tn now); [done|done|done|done|].
  intros s' A' Hd. by exists A', n.
Qed.

(** The frame [schedule_preempt] returns. *)
Definition frame_of (prev : ptr) (n : Z) (regs : cpu_context) (A' : queue) (r : cpu_context) : Prop :=
  if decide (prev = Some n) then r = regs
  else ∃ tn, q_tasks A' !! n = Some tn ∧ r = context tn.

Lemma wp_commit_preempt s A s1 A1 c n tn regs now (Q : cpu_context → sched → Prop) :
  sched_inv s A → current_task s = Some c → released s A s1 A1 → best A1 n tn →
  q_tasks A1 !! n = Some tn →
  (∀ s' A' r, decided s A s' A' n → frame_of (current_task s) n regs A' r → Q r s') →
  pwp (if ptr_eqb (Some n) (Some c) then
         st ← trd state (Some c);
         pbind (if st =? TASK_READY then
                  on_eev (eevdf_dequeue (Some c));;
                  q ← on_eev (eevdf_is_queued (Some c));
                  pbind (require (negb q)) (λ _,
                    twr (set_state TASK_RUNNING) (Some c);;
                    q ← on_eev (eevdf_is_queued (Some c));
                    require (negb q))
                else pret tt) (λ _, pret regs)
       else
         pbind (dispatch (Some n) now) (λ _, x ← trd context (Some n); pret x)) Q s1.
Proof.
  intros Hinv Hc Hrel Hb Hn HQ. pose proof (rl_idle _ _ _ _ Hrel) as Hid. pose proof Hid as [Hh1 _].
  unfold ptr_eqb.
  destruct (bool_decide_reflect (Some n = Some c)) as [[= <-]|Hne].
  - assert (Hfr : ∀ A', frame_of (current_task s) n regs A' regs).
    { intros A'. unfold frame_of. by rewrite Hc, decide_True. }
    apply pwp_lift. eapply (wp_task_read _ s s1 A1 n tn); [done|done|].
    apply pwp_bind. destruct (Z.eqb_spec (state tn) TASK_READY) as [Hst|Hst].
    + apply pwp_lift. eapply wp_dequeue_eev; [exact Hh1|]. intros s2 Hh2.
      apply pwp_lift. eapply wp_queued_eev; [exact Hh2|]. apply pwp_bind.
      apply pwp_require; [rewrite bool_decide_eq_false_2; [done|apply not_in_filter]|].
      apply pwp_lift. eapply (wp_task_write _ s s2 (dequeue_spec n A1) n tn); [done|done|done|done|].
      intros s3 Hh3. apply pwp_lift. eapply wp_queued_eev; [exact Hh3|].
      apply pwp_require; [rewrite bool_decide_eq_false_2; [done|apply not_in_filter]|].
      apply pwp_ret. eapply HQ; [|apply Hfr]. eapply decided_dispatched; [done|done|done|].
      by apply (dispatched_stay s s1 A1).
    + apply pwp_ret, pwp_ret. destruct (rl_current _ _ _ _ Hrel n) as (tk1 & Htk1 & Hst1); [done|].
      rewrite Hn in Htk1. injection Htk1 as <-. destruct Hst1 as [|(_ & -> & ->)]; [done|].
      eapply HQ; [|apply Hfr]. by eapply decided_same.
  - apply pwp_bind. eapply (wp_dispatch s s1 A1 n tn); [done|done|]. intros s' A' tk' Hd _.
    pose proof (decided_dispatched _ _ _ _ _ _ _ _ _ Hrel Hb Hn Hd) as Hdec.
    apply pwp_lift. eapply (wp_task_read _ s' s' A' n tk'); [|apply (dp_task _ _ _ _ _ _ _ Hd)|].
    { apply holds_refl, (dp_inv _ _ _ _ _ _ _ Hd). }
    apply pwp_ret. eapply HQ; [exact Hdec|]. unfold frame_of.
    rewrite Hc, decide_False by congruence. exists tk'. split; [|done]. apply (dp_task _ _ _ _ _ _ _ Hd).
Qed.

Lemma wp_preempt s A c regs now now' :
  sched_inv s A → room s A → current_task s = Some c →
  pwp (schedule_preempt regs now now') (λ r s', ∃ A' n, decided s A s' A' n ∧
    frame_of (current_task s) n regs A' r) s.
Proof.
  intros Hinv Hroom Hc. pose proof Hinv as (_ & Hok & Hcur). rewrite Hc in Hcur.
  destruct Hcur as (tk & Htk & Hst). unfold schedule_preempt.
  apply pwp_lift, wp_gets. rewrite Hc at 1. cbn [is_null]. rewrite Hc.
  apply pwp_lift. eapply (wp_task_read _ s s A c tk); [by apply holds_refl|done|].
  apply pwp_bind. eapply (pwp_mono _ (λ _ s1, ∃ A1, released s A s1 A1)).
  { destruct (Z.eqb_spec (state tk) TASK_RUNNING) as [Hrun|Hrun].
    - eapply (wp_requeue_current (set_context regs)); [done|done|done|exact Hc|exact Htk|done|]. eauto.
    - assert (Hrel : released s A s A).
      { apply released_same; [done| |].
        - rewrite (contender_current s _ c tk Hc Htk). by destruct (Z.eqb_spec (state tk) TASK_RUNNING).
        - rewrite Hc. intros ? tk' [= <-] Htk'. congruence. }
      destruct (state tk =? TASK_ZOMBIE); [|apply pwp_ret; eauto].
      apply pwp_lift. eapply wp_queued_eev; [by apply holds_refl|].
      apply pwp_require; [|eauto]. rewrite bool_decide_eq_false_2; [done|].
      rewrite (to_ready _ _ _ _ Hok c tk Htk). by intros [? _]. }
  intros [] s1 [A1 Hrel]. pose proof (rl_idle _ _ _ _ Hrel) as Hid. pose proof Hid as [Hh1 Hok1].
  apply pwp_lift. eapply wp_pick_eev; [exact Hh1|]. apply pwp_bind.
  eapply (pwp_mono _ (λ r s', s' = s1 ∧ ∃ n tn, r = Some n ∧ q_tasks A1 !! n = Some tn ∧ best A1 n tn)).
  { destruct (head (q_list A1)) as [n|] eqn:Hhd; simpl.
    - apply pwp_ret. split; [done|]. destruct (head_task s s1 A1 n Hh1 Hhd) as (tn & Htn).
      exists n, tn. split_and!; [done|done|by right].
    - assert (Hnil : q_list A1 = []) by (by destruct (q_list A1)).
      destruct (rl_current _ _ _ _ Hrel c Hc) as (tk1 & Htk1 & _).
      apply pwp_lift. eapply (wp_task_read _ s s1 A1 c tk1); [done|done|].
      destruct (Z.eqb_spec (state tk1) TASK_READY) as [Hst1|Hst1].
      + apply pwp_ret. split; [done|]. exists c, tk1. split_and!; [done|done|]. left. split; [done|].
        pose proof (to_ready _ _ _ _ Hok1 c tk1 Htk1) as Hq. rewrite Hnil, Hst1 in Hq.
        destruct (decide (pid tk1 = 0)) as [|Hp]; [done|]. exfalso.
        by apply (not_elem_of_nil c), Hq.
      + apply pwp_lift. eapply wp_idle; [exact Hid|]. intros i tki Hi Hp. simpl. apply pwp_ret.
        split; [done|]. exists i, tki. split_and!; [done|done|by left]. }
  intros r s1' (-> & n & tn & -> & Htn & Hb).
  eapply (wp_commit_preempt s A s1 A1 c n tn regs now'); [done|done|done|done|done|].
  intros s' A' r Hd Hf. rewrite Hc in Hf. by exists A', n.
Qed.
