(* ===== verification/SchedClaims.v ===== *)
(** * Scheduler: the properties *)
From stdpp Require Import base gmap list option numbers sorting.
From S2P Require Import Prelude Panic Bitmap RBHeap RBTree Pid TaskDef Eevdf EevdfTree EevdfThm EevdfClaims Sched SchedThm.
#[local] Open Scope Z_scope.
Import Pid Eevdf Sched.

(** ** Leaving *)

(** The state in which [task_exit] calls [schedule]. *)
Lemma exit_inv s A c tk p :
  sched_inv s A → current_task s = Some c → q_tasks A !! c = Some tk →
  ∀ s1, holds s s1 (with_task c (set_state TASK_ZOMBIE tk) A) →
  sched_inv (set_current_task None (set_pids p s1)) (with_task c (set_state TASK_ZOMBIE tk) A).
Proof.
  intros (Hr & Hok & Hcur) Hc Htk s1 (Hr1 & Hl1 & _). split_and!; [done| |done].
  rewrite Hc in Hcur. destruct Hcur as (tk' & Htk' & Hst). rewrite Htk in Htk'. injection Htk' as <-.
  simpl. rewrite Hl1. eapply (tasks_ok_state (q_tasks A) (q_list A)); [exact Hok|done|done| | |done].
  - rewrite (to_ready _ _ _ _ Hok c tk Htk). split; by intros [? _].
  - rewrite Hc. by intros b [= <-].
Qed.

Lemma wp_task_exit s A c tk now :
  sched_inv s A → pid_ok (pids s) → current_task s = Some c → q_tasks A !! c = Some tk → pid tk ≠ 0 →
  pwp (task_exit now) (λ act s', ∃ A' n tk',
    sched_inv s' A' ∧ current_task s' = Some n ∧ act = JumpTo (Some n) ∧ n ≠ c ∧
    chosen (q_list A) (q_tasks A') n ∧ q_list A' ≡ₚ filter (λ b, b ≠ n) (q_list A) ∧
    q_tasks A' !! c = Some tk' ∧ state tk' = TASK_ZOMBIE ∧ pid_ok (pids s') ∧
    (0 < pid tk < MAX_PID → pid_used (pids s') (pid tk) = false)) s.
Proof.
  intros Hinv Hpid Hc Htk Hp0. pose proof Hinv as (_ & Hok & Hcur). rewrite Hc in Hcur.
  destruct Hcur as (tk0 & Htk0 & Hst). rewrite Htk in Htk0. injection Htk0 as <-.
  assert (Hcq : c ∉ q_list A) by (rewrite (to_ready _ _ _ _ Hok c tk Htk); by intros [? _]).
  unfold task_exit. apply pwp_lift, wp_gets. rewrite Hc. cbn [is_null].
  apply pwp_lift. eapply (wp_task_write _ s s A c tk); [by apply holds_refl|done|done|done|].
  intros s1 Hh1. set (A1 := with_task c (set_state TASK_ZOMBIE tk) A) in *.
  apply pwp_lift. eapply (wp_task_read _ s s1 A1 c); [done|apply lookup_insert_eq|]. cbv beta.
  change (pid (set_state TASK_ZOMBIE tk)) with (pid tk).
  apply pwp_lift, wp_zoom. pose proof Hh1 as (_ & _ & _ & Hpids). rewrite Hpids.
  eapply wp_mono; [by apply wp_pid_free|]. intros [] p1 (Hpok & _ & Hfree).
  apply pwp_lift, wp_modify. set (s2 := set_current_task None (set_pids p1 s1)).
  assert (Hinv2 : sched_inv s2 A1) by (by apply (exit_inv s A c tk)).
  eapply pwp_mono; [apply (wp_schedule s2 A1 now); [done|by intros []]|].
  intros act s' (A' & n & Hd & ->).
  pose proof (dc_chosen _ _ _ _ _ Hd) as Hch. change (runnable s2 A1) with (q_list A) in Hch.
  pose proof (dc_links _ _ _ _ _ Hd c) as Hpc.
  change (q_tasks A1 !! c) with (<[c := set_state TASK_ZOMBIE tk]> (q_tasks A) !! c) in Hpc.
  rewrite lookup_insert_eq in Hpc.
  assert (Hnc : n ≠ c).
  { intros ->. unfold chosen in Hch. destruct (q_list A) as [|x q]; [|by destruct Hch].
    destruct Hch as (tn & Htn & Hp). rewrite Htn in Hpc. injection Hpc as Hpc _ _. simpl in Hpc. congruence. }
  exists A', n, (set_state TASK_ZOMBIE tk). destruct Hd. split_and!; try done.
  - rewrite dc_others by done. apply lookup_insert_eq.
  - by rewrite dc_pids.
  - intros Hp. rewrite dc_pids. change (pids s2) with p1. rewrite Hfree by lia. by rewrite Z.eqb_refl.
Qed.

(** ** A full pool *)

Lemma wp_schedule_full s A c tk now :
  sched_inv s A → current_task s = Some c → q_tasks A !! c = Some tk →
  state tk = TASK_RUNNING → pid tk ≠ 0 → length (q_list A) = 64%nat →
  wp (schedule now) (λ r _, r = None) s.
Proof.
  intros Hinv Hc Htk Hst Hp Hlen. pose proof Hinv as (Hr & Hok & _).
  assert (Hcq : c ∉ q_list A) by (rewrite (to_ready _ _ _ _ Hok c tk Htk), Hst; by intros [? _]).
  unfold schedule. apply wp_bind, wp_gets. unfold pbind at 1. apply wp_bind. rewrite Hc.
  eapply (wp_mono _ (λ r _, r = None)); [|intros r s' ->; by apply wp_ret].
  unfold put_back. cbn [is_null]. apply wp_bind.
  eapply (wp_task_read _ s s A c tk); [by apply holds_refl|done|].
  unfold pbind at 1. apply wp_bind.
  eapply (wp_mono _ (λ r _, r = None)); [|intros r s' ->; by apply wp_ret].
  rewrite Hst. change (TASK_RUNNING =? TASK_RUNNING) with true. cbn match. unfold requeue.
  destruct (update_spec_shape c now A) as (Hq1 & Hm1 & _). set (A1 := update_spec c now A) in *.
  apply wp_bind. eapply (wp_on_eev _ s s A (λ _ A', A' = A1)); [by apply holds_refl| |].
  { eapply wp_mono; [by apply (wp_update (eev s) A c now tk)|]. simpl. intros [] e He. by exists A1. }
  intros [] A1' s1 Hh1 ->. symmetry in Hm1.
  destruct (same_meta_lookup _ _ _ _ Hm1 Htk) as (tk1 & Hc1 & Hmeta).
  unfold meta in Hmeta. injection Hmeta as Hpid1 Hst1 Hpr1 Hnx1 Hpv1.
  apply wp_bind. eapply (wp_task_write _ s s1 A1 c tk1); [done|done|done|done|]. intros s2 Hh2.
  set (tk2 := set_state TASK_READY tk1) in *. set (A2 := with_task c tk2 A1) in *.
  assert (Hc2 : q_tasks A2 !! c = Some tk2) by apply lookup_insert_eq.
  assert (Hq2 : q_list A2 = q_list A) by exact Hq1.
  apply wp_bind. eapply (wp_task_read _ s s2 A2 c tk2); [done|done|]. cbv beta.
  change (pid tk2) with (pid tk1). rewrite Hpid1. destruct (Z.eqb_spec (pid tk) 0); [done|].
  cbn [negb]. set (A3 := enqueue_spec c A2).
  assert (Hq3 : q_list A3 = q_list A).
  { unfold A3, enqueue_spec. rewrite Hc2. simpl. by rewrite Hq1, Hlen. }
  apply wp_bind. eapply (wp_on_eev _ s s2 A2 (λ _ A', A' = A3)); [done| |].
  { eapply wp_mono; [eapply (wp_enqueue (eev s2) A2 c tk2); [apply Hh2|done| |]|].
    - change (priority tk2) with (priority tk1). rewrite Hpr1. apply (to_nice _ _ _ _ Hok c tk Htk).
    - by rewrite Hq2.
    - simpl. intros [] e He. by exists A3. }
  intros [] A3' s3 Hh3 ->. apply wp_bind. eapply wp_queued_eev; [exact Hh3|].
  rewrite Hq3, bool_decide_eq_false_2 by done. by apply wp_ret.
Qed.

(** ** A concrete scheduler state

    Task 50 is the idle task, 60 runs, 100 and 101 wait; the task list is 101,
    100, 60, 50. *)
Definition demo_tk (p st v : Z) (nx pv : option Z) : task :=
  set_prev pv (set_next nx (set_pid p (set_state st (set_vruntime v task_zero)))).
Definition demo_ts : gmap Z task :=
  <[50 := demo_tk 0 TASK_READY 0 None (Some 60)]>
  (<[60 := demo_tk 1 TASK_RUNNING 400 (Some 50) (Some 100)]>
  (<[100 := demo_tk 2 TASK_READY 700 (Some 60) (Some 101)]>
  (<[101 := demo_tk 3 TASK_READY 500 (Some 100) None]> ∅))).
Definition demo_wait : queue := Queue [101; 100] demo_ts 0.
Definition demo_sched (e : eevdf) : sched :=
  {| eev := e; current_task := Some 60; task_list := Some 101; pids := pid_static |}.

Ltac demo_cases :=
  repeat match goal with
  | H : _ !! _ = Some _ |- _ => apply lookup_insert_Some in H as [[<- <-]|[_ H]]
  end; try (by rewrite lookup_empty in *).

Lemma demo_tasks_ok : tasks_ok demo_ts [101; 100] (Some 101) (Some 60).
Proof.
  split.
  - intros a tk Ha. unfold demo_ts in Ha. demo_cases; (split; by apply Z.leb_le).
  - intros a tk Ha. unfold demo_ts in Ha. demo_cases;
      apply (bool_decide_unpack _); vm_compute; exact I.
  - intros a tk Ha. unfold demo_ts in Ha. demo_cases; by intros [=].
  - exists [101; 100; 60; 50]. split_and!.
    + repeat (split; [reflexivity|]; eexists; split; [reflexivity|]; split; [reflexivity|]). reflexivity.
    + apply (bool_decide_unpack _). vm_compute. exact I.
    + by eexists.
Qed.

Lemma demo_sched_inv : ∃ e, sched_inv (demo_sched e) demo_wait.
Proof.
  destruct (wp_exec_ops (set_etasks demo_ts demo_rq) (Queue [] demo_ts 0)
    [OpEnqueue 100; OpEnqueue 101] [OutUnit; OutUnit] demo_wait) as (? & e & _ & _ & He).
  - apply (rep_empty (set_etasks demo_ts demo_rq)); first [reflexivity|exact demo_pool].
  - vm_compute. reflexivity.
  - exists e. split_and!; [exact He|exact demo_tasks_ok|]. by eexists.
Qed.

Lemma demo_room e : room (demo_sched e) demo_wait.
Proof. intros _. simpl. lia. Qed.

(** All 64 queue nodes in use, by the tasks 1000 to 1063. *)
Definition full_ts : gmap Z task :=
  <[50 := demo_tk 0 TASK_READY 0 None None]> (<[60 := demo_tk 1 TASK_RUNNING 400 None None]>
  (list_to_map ((λ i, (i, demo_tk (i - 900) TASK_READY i None None)) <$> seqZ 1000 64))).
Definition full_wait : queue := Queue (seqZ 1000 64) full_ts 0.
Definition full_sched (e : eevdf) : sched :=
  {| eev := e; current_task := Some 60; task_list := Some 50; pids := pid_static |}.

Lemma full_tasks_ok : tasks_ok full_ts (seqZ 1000 64) (Some 50) (Some 60).
Proof.
  assert (Hall : map_Forall (λ a tk,
    (-20 ≤ priority tk ∧ priority tk ≤ 19) ∧
    (a ∈ seqZ 1000 64 ↔ state tk = TASK_READY ∧ pid tk ≠ 0) ∧
    (state tk = TASK_RUNNING → Some 60 = Some a)) full_ts).
  { apply (bool_decide_unpack _). vm_compute. exact I. }
  split.
  - intros a tk Ha. by destruct (Hall a tk Ha) as [[? ?] _].
  - intros a tk Ha. apply (Hall a tk Ha).
  - intros a tk Ha. apply (Hall a tk Ha).
  - exists [50]. split_and!; [|apply NoDup_singleton|].
    + split; [reflexivity|]. exists (demo_tk 0 TASK_READY 0 None None). split; [apply lookup_insert_eq|].
      split; reflexivity.
    + exists 50. vm_compute. reflexivity.
Qed.

Lemma full_sched_inv : ∃ e, sched_inv (full_sched e) full_wait.
Proof.
  destruct (wp_exec_ops (set_etasks full_ts demo_rq) (Queue [] full_ts 0)
    (OpEnqueue <$> seqZ 1000 64) (replicate 64 OutUnit) full_wait) as (? & e & _ & _ & He).
  - apply (rep_empty (set_etasks full_ts demo_rq)); first [reflexivity|exact demo_pool].
  - vm_compute. reflexivity.
  - exists e. split_and!; [exact He|exact full_tasks_ok|].
    exists (demo_tk 1 TASK_RUNNING 400 None None). split; [|discriminate]. vm_compute. reflexivity.
Qed.

(** ** The properties *)

(** C1: from a state in which the tasks that are ready, the idle task aside, are
    exactly the queued ones, at most the current task is running and the task
    list holds the idle task, [schedule] returns without reaching any of its
    panics, provided a queue node is left for the running task.  It keeps that
    state invariant, gives the CPU to a task of least virtual run time among
    the running and the queued tasks (to the idle task when there is none),
    loses no runnable task, and touches no other task's structure. *)
Theorem schedule_correct s A now :
  sched_inv s A → room s A →
  pwp (schedule now) (λ act s', ∃ A' n, decided s A s' A' n ∧ act = action_of (current_task s) n) s.
Proof. apply wp_schedule. Qed.
Lemma schedule_correct_witness :
  ∃ e, pwp (schedule 1000) (λ act s', ∃ A' n, decided (demo_sched e) demo_wait s' A' n ∧
    act = action_of (Some 60) n) (demo_sched e).
Proof.
  destruct demo_sched_inv as [e He]. exists e.
  exact (schedule_correct (demo_sched e) demo_wait 1000 He (demo_room e)).
Defined.

(** C2: the same for the timer tick: [schedule_preempt] reaches no panic, makes
    the same decision, and returns the interrupted frame unchanged when the
    task stays, or the saved context of the chosen task. *)
Theorem schedule_preempt_correct s A c regs now now' :
  sched_inv s A → room s A → current_task s = Some c →
  pwp (schedule_preempt regs now now') (λ r s', ∃ A' n, decided s A s' A' n ∧
    frame_of (current_task s) n regs A' r) s.
Proof. apply wp_preempt. Qed.
Lemma schedule_preempt_correct_witness :
  ∃ e, pwp (schedule_preempt ctx_zero 1000 1001) (λ r s', ∃ A' n,
    decided (demo_sched e) demo_wait s' A' n ∧ frame_of (Some 60) n ctx_zero A' r) (demo_sched e).
Proof.
  destruct demo_sched_inv as [e He]. exists e.
  exact (schedule_preempt_correct (demo_sched e) demo_wait 60 ctx_zero 1000 1001 He (demo_room e) eq_refl).
Defined.

(** [task_exit] of a task other than the idle task reaches no panic and does
    not come back: it jumps to another task, of least virtual run time among
    the queued ones or the idle task; the leaving task ends as a zombie, its
    pid can be allocated again, and the invariants of the scheduler and of the
    pid allocator hold. *)
Theorem task_exit_correct s A c tk now :
  sched_inv s A → pid_ok (pids s) → current_task s = Some c → q_tasks A !! c = Some tk → pid tk ≠ 0 →
  pwp (task_exit now) (λ act s', ∃ A' n tk',
    sched_inv s' A' ∧ current_task s' = Some n ∧ act = JumpTo (Some n) ∧ n ≠ c ∧
    chosen (q_list A) (q_tasks A') n ∧ q_list A' ≡ₚ filter (λ b, b ≠ n) (q_list A) ∧
    q_tasks A' !! c = Some tk' ∧ state tk' = TASK_ZOMBIE ∧ pid_ok (pids s') ∧
    (0 < pid tk < MAX_PID → pid_used (pids s') (pid tk) = false)) s.
Proof. apply wp_task_exit. Qed.
Lemma task_exit_correct_witness :
  ∃ s, current_task s = Some 60 ∧
  pwp (task_exit 1000) (λ act s', ∃ A' n tk',
    sched_inv s' A' ∧ current_task s' = Some n ∧ act = JumpTo (Some n) ∧ n ≠ 60 ∧
    chosen [101; 100] (q_tasks A') n ∧ q_list A' ≡ₚ filter (λ b, b ≠ n) [101; 100] ∧
    q_tasks A' !! 60 = Some tk' ∧ state tk' = TASK_ZOMBIE ∧ pid_ok (pids s') ∧
    (0 < 1 < MAX_PID → pid_used (pids s') 1 = false)) s.
Proof.
  destruct demo_sched_inv as [e He].
  destruct (wp_pid_init pid_static eq_refl) as ([] & p & _ & Hp & _).
  exists (set_pids p (demo_sched e)). split; [reflexivity|].
  apply (task_exit_correct (set_pids p (demo_sched e)) demo_wait 60
    (demo_tk 1 TASK_RUNNING 400 (Some 50) (Some 100)) 1000).
  - exact He.
  - exact Hp.
  - reflexivity.
  - reflexivity.
  - discriminate.
Defined.

(** The queue holds 64 tasks: when the running task (not the idle one) finds
    all nodes taken, [schedule] runs into its own panic, because
    [eevdf_enqueue] has dropped the task. *)
Theorem schedule_full_panics s A c tk now :
  sched_inv s A → current_task s = Some c → q_tasks A !! c = Some tk →
  state tk = TASK_RUNNING → pid tk ≠ 0 → length (q_list A) = 64%nat →
  wp (schedule now) (λ r _, r = None) s.
Proof. apply wp_schedule_full. Qed.
Lemma schedule_full_panics_witness :
  ∃ e, wp (schedule 1000) (λ r _, r = None) (full_sched e).
Proof.
  destruct full_sched_inv as [e He]. exists e.
  apply (schedule_full_panics (full_sched e) full_wait 60 (demo_tk 1 TASK_RUNNING 400 None None) 1000 He).
  - reflexivity.
  - vm_compute. reflexivity.
  - reflexivity.
  - discriminate.
  - vm_compute. reflexivity.
Defined.

(** The context word [x23] doubles as the time stamp of the accounting: when
    a tick moves the CPU to another task, the frame that is restored has the
    time of the switch in [x23] in place of the value the task was interrupted
    with (here 7777). *)
Theorem preempt_clobbers_x23 :
  let ts := <[101 := set_context (ctx_set X23 7777 ctx_zero) (demo_tk 3 TASK_READY 300 (Some 100) None)]> demo_ts in
  let s0 := {| eev := set_etasks ts demo_rq; current_task := Some 60; task_list := Some 101; pids := pid_static |} in
  (λ r : option cpu_context * sched, ctx_get X23 <$> r.1) <$>
    (on_eev (eevdf_enqueue (Some 101));; schedule_preempt ctx_zero 1000 1001) s0
  = Some (Some 1001).
Proof. vm_compute. reflexivity. Qed.
