(* ===== verification/CString.v ===== *)
(** * The string and memory routines (lib/string.c): translation

    The routines run over a byte-addressed memory: an address that is not in
    the map is not mapped, and loading from it or storing to it is undefined.
    Pointers are addresses and [NULL] is 0; [char] is unsigned, as on this
    architecture. *)
From stdpp Require Import base gmap list option numbers.
From S2P Require Import Prelude.
#[local] Open Scope Z_scope.

Module CString.

(** ** Memory *)

Abbreviation mem := (gmap Z Z).

Definition load (a : Z) : ST mem Z := λ m,
  match m !! a with Some c => Some (c, m) | None => None end.
Definition store (a c : Z) : ST mem unit := λ m,
  match m !! a with Some _ => Some (tt, <[a:=c]> m) | None => None end.

(** Little-endian words of [n] bytes, lowest address first. *)
Fixpoint load_le (n : nat) (a : Z) : ST mem Z :=
  match n with
  | O => mret 0
  | S n => b ← load a; r ← load_le n (a + 1); mret (b + 256 * r)
  end.
Fixpoint store_le (n : nat) (a v : Z) : ST mem unit :=
  match n with
  | O => mret tt
  | S n => store a (v mod 256);; store_le n (a + 1) (v / 256)
  end.
Definition load64 : Z → ST mem Z := load_le 8.
Definition store64 : Z → Z → ST mem unit := store_le 8.

(** A loop that walks up through memory stops or leaves the mapped addresses
    after at most [size m] iterations. *)
Definition walking {A} (loop : nat → ST mem A) : ST mem A := λ m, loop (S (size m)) m.

(** ** Comparison and length *)

(** The loop of [strncmp] over two readers: a pointer, or a string literal. *)
Definition strncmp_rd (ra rb : Z → ST mem Z) (n : Z) : ST mem Z :=
  r ← for_ret (Z.to_nat n) 0 (λ i,
    ca ← ra i;
    cb ← rb i;
    if negb (ca =? cb) then mret (Some (ca - cb))
    else if ca =? 0 then mret (Some 0) else mret None);
  mret (default 0 r).
Definition strncmp (a b n : Z) : ST mem Z :=
  strncmp_rd (λ i, load (a + i)) (λ i, load (b + i)) n.
Definition strncmp_lit (a : Z) (b : list Z) (n : Z) : ST mem Z :=
  strncmp_rd (λ i, load (a + i)) (λ i, deref ((b ++ [0]) !! Z.to_nat i)) n.

(** [strcmp], the two pointers advancing together: [i] steps so far. *)
Fixpoint strcmp_loop (fuel : nat) (ra rb : Z → ST mem Z) (i : Z) : ST mem Z :=
  match fuel with
  | O => undef
  | S fuel =>
      ca ← ra i;
      cb ← rb i;
      if ctrue ca && (ca =? cb) then strcmp_loop fuel ra rb (i + 1)
      else mret (ca - cb)
  end.
Definition strcmp (a b : Z) : ST mem Z :=
  walking (λ fuel, strcmp_loop fuel (λ i, load (a + i)) (λ i, load (b + i)) 0).
Definition strcmp_lit (a : Z) (b : list Z) : ST mem Z :=
  walking (λ fuel,
    strcmp_loop fuel (λ i, load (a + i)) (λ i, deref ((b ++ [0]) !! Z.to_nat i)) 0).

(** [len] is an [int]: going past its largest value is undefined. *)
Fixpoint strlen_loop (fuel : nat) (str len : Z) : ST mem Z :=
  match fuel with
  | O => undef
  | S fuel =>
      c ← load (str + len);
      if ctrue c then (if len <? 2 ^ 31 - 1 then strlen_loop fuel str (len + 1) else undef)
      else mret len
  end.
Definition strlen (str : Z) : ST mem Z :=
  if str =? 0 then mret 0 else walking (λ fuel, strlen_loop fuel str 0).

Definition strnlen (str max : Z) : ST mem Z :=
  r ← for_ret (Z.to_nat max) 0 (λ len,
    c ← load (str + len);
    if ctrue c then mret None else mret (Some len));
  mret (s32 (default max r)).

(** ** Search *)

Fixpoint strchr_loop (fuel : nat) (str target : Z) : ST mem Z :=
  match fuel with
  | O => undef
  | S fuel =>
      c ← load str;
      if negb (c =? 0) then
        if c =? target then mret str else strchr_loop fuel (str + 1) target
      else mret (if target =? 0 then str else 0)
  end.
Definition strchr (str c : Z) : ST mem Z := walking (λ fuel, strchr_loop fuel str (u8 c)).

(** The inner loop of [strspn] and [strpbrk]: where the scan of [accept] for
    [c] stops. *)
Fixpoint scan_set (fuel : nat) (accept c : Z) : ST mem Z :=
  match fuel with
  | O => undef
  | S fuel =>
      x ← load accept;
      if negb (x =? 0) then
        if c =? x then mret accept else scan_set fuel (accept + 1) c
      else mret accept
  end.

Fixpoint strspn_loop (fuel : nat) (p accept count : Z) : ST mem Z :=
  match fuel with
  | O => undef
  | S fuel =>
      c ← load p;
      if negb (c =? 0) then
        a ← walking (λ fuel, scan_set fuel accept c);
        x ← load a;
        if x =? 0 then mret count else strspn_loop fuel (p + 1) accept (count + 1)
      else mret count
  end.
Definition strspn (s accept : Z) : ST mem Z := walking (λ fuel, strspn_loop fuel s accept 0).

Fixpoint strpbrk_loop (fuel : nat) (sc1 ct : Z) : ST mem Z :=
  match fuel with
  | O => undef
  | S fuel =>
      c ← load sc1;
      if negb (c =? 0) then
        a ← walking (λ fuel, scan_set fuel ct c);
        x ← load a;
        if negb (x =? 0) then mret sc1 else strpbrk_loop fuel (sc1 + 1) ct
      else mret 0
  end.
Definition strpbrk (cs ct : Z) : ST mem Z := walking (λ fuel, strpbrk_loop fuel cs ct).

(** [strsep] stores through its first argument: here it returns the token and
    the new value of [*s]. *)
Definition strsep (s ct : Z) : ST mem (Z * Z) :=
  if s =? 0 then mret (0, s)
  else
    e ← strpbrk s ct;
    if ctrue e then store e 0;; mret (s, e + 1) else mret (s, 0).

(** ** Copies *)

Fixpoint strncpy_loop (fuel : nat) (dest src i max_len : Z) : ST mem Z :=
  match fuel with
  | O => undef
  | S fuel =>
      if u64 (i + 1) <? max_len then
        c ← load (src + i);
        if ctrue c then store (dest + i) c;; strncpy_loop fuel dest src (i + 1) max_len
        else mret i
      else mret i
  end.
Definition strncpy (dest src max_len : Z) : ST mem unit :=
  if (dest =? 0) || (src =? 0) then mret tt
  else
    i ← walking (λ fuel, strncpy_loop fuel dest src 0 max_len);
    store (dest + i) 0.

Fixpoint copy_bytes (fuel : nat) (d s : Z) : ST mem unit :=
  match fuel with
  | O => undef
  | S fuel =>
      c ← load s;
      store d c;;
      if ctrue c then copy_bytes fuel (d + 1) (s + 1) else mret tt
  end.

(** The eight tests of [strcpy] for a zero byte. *)
Definition has_zero_byte (val : Z) : bool :=
  (Z.land val 0xFF00000000000000 =? 0) || (Z.land val 0x00FF000000000000 =? 0) ||
  (Z.land val 0x0000FF0000000000 =? 0) || (Z.land val 0x000000FF00000000 =? 0) ||
  (Z.land val 0x00000000FF000000 =? 0) || (Z.land val 0x0000000000FF0000 =? 0) ||
  (Z.land val 0x000000000000FF00 =? 0) || (Z.land val 0x00000000000000FF =? 0).

Fixpoint copy_words (fuel : nat) (d64 s64 : Z) : ST mem unit :=
  match fuel with
  | O => undef
  | S fuel =>
      val ← load64 s64;
      if ctrue val then
        if has_zero_byte val then walking (λ fuel, copy_bytes fuel d64 s64)
        else store64 d64 val;; copy_words fuel (d64 + 8) (s64 + 8)
      else store d64 0
  end.

Definition strcpy (dest src : Z) : ST mem unit :=
  if (dest =? 0) || (src =? 0) then mret tt
  else if (Z.land dest 7 =? 0) && (Z.land src 7 =? 0) then
    walking (λ fuel, copy_words fuel dest src)
  else walking (λ fuel, copy_bytes fuel dest src).

Fixpoint find_end (fuel : nat) (dest : Z) : ST mem Z :=
  match fuel with
  | O => undef
  | S fuel => c ← load dest; if ctrue c then find_end fuel (dest + 1) else mret dest
  end.
Definition strcat (dest src : Z) : ST mem unit :=
  if (dest =? 0) || (src =? 0) then mret tt
  else e ← walking (λ fuel, find_end fuel dest); strcpy e src.

(** ** Numbers *)

Definition hex_chars : list Z :=
  [48; 49; 50; 51; 52; 53; 54; 55; 56; 57; 65; 66; 67; 68; 69; 70].
Definition hex_digit (n sh : Z) : Z :=
  default 0 (hex_chars !! Z.to_nat (Z.land (Z.shiftr n sh) 0xF)).
Definition htoa (n buffer : Z) : ST mem unit :=
  if buffer =? 0 then mret tt
  else
    store (buffer + 0) 48;; store (buffer + 1) 120;;
    store (buffer + 2) (hex_digit n 60);; store (buffer + 3) (hex_digit n 56);;
    store (buffer + 4) (hex_digit n 52);; store (buffer + 5) (hex_digit n 48);;
    store (buffer + 6) (hex_digit n 44);; store (buffer + 7) (hex_digit n 40);;
    store (buffer + 8) (hex_digit n 36);; store (buffer + 9) (hex_digit n 32);;
    store (buffer + 10) (hex_digit n 28);; store (buffer + 11) (hex_digit n 24);;
    store (buffer + 12) (hex_digit n 20);; store (buffer + 13) (hex_digit n 16);;
    store (buffer + 14) (hex_digit n 12);; store (buffer + 15) (hex_digit n 8);;
    store (buffer + 16) (hex_digit n 4);; store (buffer + 17) (hex_digit n 0);;
    store (buffer + 18) 0.

(** The digit loop: twenty iterations are enough for any 64-bit number. *)
Fixpoint itoa_loop (fuel : nat) (n p : Z) : ST mem (Z * Z) :=
  match fuel with
  | O => undef
  | S fuel =>
      if 10 <=? n then
        let q := n / 10 in
        store (p - 1) (u8 (48 + u64 (n - u64 (q * 10))));;
        itoa_loop fuel q (p - 1)
      else mret (n, p)
  end.

(** [temp_buffer] is where the frame of the call keeps that array. *)
Definition itoa (temp_buffer n buffer : Z) : ST mem unit :=
  if n =? 0 then store (buffer + 0) 48;; store (buffer + 1) 0
  else
    let p := temp_buffer + 20 in
    store p 0;;
    np ← itoa_loop 20 n p;
    let '(n, p) := np : Z * Z in
    store (p - 1) (u8 (48 + n));;
    strcpy buffer (p - 1).

(** ** Blocks of memory *)

Definition memset (s c n : Z) : ST mem Z :=
  for_each (Z.to_nat n) 0 (λ i, store (s + i) (u8 c));; mret s.

Definition memcpy (dest src n : Z) : ST mem Z :=
  for_each (Z.to_nat n) 0 (λ i, c ← load (src + i); store (dest + i) c);; mret dest.

(** The second loop runs [i] from [n] down to 1. *)
Definition memmove (dest src n : Z) : ST mem Z :=
  (if dest <? src then
     for_each (Z.to_nat n) 0 (λ i, c ← load (src + i); store (dest + i) c)
   else if src <? dest then
     for_each (Z.to_nat n) 0 (λ j,
       let i := n - j in c ← load (src + (i - 1)); store (dest + (i - 1)) c)
   else mret tt);;
  mret dest.

Definition memcmp (s1 s2 n : Z) : ST mem Z :=
  r ← for_ret (Z.to_nat n) 0 (λ i,
    c1 ← load (s1 + i);
    c2 ← load (s2 + i);
    if negb (c1 =? c2) then mret (Some (c1 - c2)) else mret None);
  mret (default 0 r).

End CString.
