(* ===== verification/CStringThm.v ===== *)
(** * The string and memory routines: properties

    [bytes_at] and [cstr] relate memory to lists of bytes and to strings,
    [upd] writes a list.  Each routine is specified by an operation on lists. *)
From stdpp Require Import base gmap list option numbers.
From Stdlib Require Import ZArith Lia.
From S2P Require Import Prelude CString.
Import CString.
#[local] Open Scope Z_scope.

(** ** Memory and lists *)

Definition bytes_at (m : mem) (p : Z) (l : list Z) : Prop :=
  ∀ i c, l !! i = Some c → m !! (p + Z.of_nat i) = Some c.

(** [n] addresses from [p] on are mapped. *)
Definition mapped (m : mem) (p n : Z) : Prop :=
  ∀ a, p ≤ a < p + n → is_Some (m !! a).

Definition nonzero (c : Z) : Prop := 0 < c < 256.
Definition cstr (m : mem) (p : Z) (s : list Z) : Prop :=
  bytes_at m p (s ++ [0]) ∧ Forall nonzero s.

Fixpoint upd (p : Z) (l : list Z) (m : mem) : mem :=
  match l with
  | [] => m
  | c :: l => <[p:=c]> (upd (p + 1) l m)
  end.

Definition disjoint_from (p n q k : Z) : Prop := p + n ≤ q ∨ q + k ≤ p.

Lemma bytes_at_nil m p : bytes_at m p [].
Proof. intros i c. by rewrite lookup_nil. Qed.

Lemma bytes_at_cons m p c l :
  bytes_at m p (c :: l) ↔ m !! p = Some c ∧ bytes_at m (p + 1) l.
Proof.
  split.
  - intros H. split.
    + specialize (H 0%nat c eq_refl). by rewrite Z.add_0_r in H.
    + intros i d Hi. specialize (H (S i) d Hi).
      by replace (p + 1 + Z.of_nat i) with (p + Z.of_nat (S i)) by lia.
  - intros [H1 H2] [|i] d Hd; simpl in Hd; simplify_eq/=.
    + by rewrite Z.add_0_r.
    + replace (p + Z.of_nat (S i)) with (p + 1 + Z.of_nat i) by lia. by apply H2.
Qed.

Lemma bytes_at_app m p l k :
  bytes_at m p (l ++ k) ↔ bytes_at m p l ∧ bytes_at m (p + Z.of_nat (length l)) k.
Proof.
  revert p. induction l as [|c l IH]; intros p; simpl.
  - rewrite Z.add_0_r. split; [split; [apply bytes_at_nil|done]|by intros [_ ?]].
  - rewrite !bytes_at_cons, IH.
    replace (p + Z.of_nat (S (length l))) with (p + 1 + Z.of_nat (length l)) by lia.
    naive_solver.
Qed.

Lemma bytes_at_mapped m p l : bytes_at m p l → mapped m p (Z.of_nat (length l)).
Proof.
  intros H a Ha. destruct (lookup_lt_is_Some_2 l (Z.to_nat (a - p))) as [c Hc]; [lia|].
  apply H in Hc. exists c. by replace a with (p + Z.of_nat (Z.to_nat (a - p))) by lia.
Qed.

Lemma mapped_bytes m p n :
  0 ≤ n → mapped m p n → ∃ l, Z.of_nat (length l) = n ∧ bytes_at m p l.
Proof.
  intros Hn. rewrite <-(Z2Nat.id n) by done. generalize (Z.to_nat n). clear Hn n. intros n.
  revert p. induction n as [|n IH]; intros p H.
  - exists []. split; [done|apply bytes_at_nil].
  - destruct (H p) as [c Hc]; [lia|].
    destruct (IH (p + 1)) as (l & Hl & Hb); [intros a Ha; apply H; lia|].
    exists (c :: l). split; [simpl; lia|]. by apply bytes_at_cons.
Qed.

(** Mapped addresses are distinct keys of the memory. *)
Lemma mapped_size m p n : 0 ≤ n → mapped m p n → n ≤ Z.of_nat (size m).
Proof.
  intros Hn. rewrite <-(Z2Nat.id n) by done. generalize (Z.to_nat n). clear Hn n. intros n.
  revert m p. induction n as [|n IH]; intros m p H; [lia|].
  destruct (H p) as [c Hc]; [lia|].
  assert (Hd : mapped (delete p m) (p + 1) (Z.of_nat n)).
  { intros a Ha. rewrite lookup_delete_ne by lia. apply H. lia. }
  apply IH in Hd. rewrite map_size_delete_Some in Hd by eauto.
  assert (size m ≠ 0%nat); [|lia].
  intros E%map_size_empty_inv. subst. by rewrite lookup_empty in Hc.
Qed.

Lemma bytes_at_size m p l : bytes_at m p l → (length l ≤ size m)%nat.
Proof. intros H%bytes_at_mapped%mapped_size; lia. Qed.

Lemma upd_lookup p l m a :
  upd p l m !! a =
    if decide (p ≤ a < p + Z.of_nat (length l)) then l !! Z.to_nat (a - p) else m !! a.
Proof.
  revert p. induction l as [|c l IH]; intros p; simpl.
  - case_decide; [lia|done].
  - destruct (decide (a = p)) as [->|Hne].
    + rewrite lookup_insert_eq. rewrite decide_True by lia.
      by replace (Z.to_nat (p - p)) with 0%nat by lia.
    + rewrite lookup_insert_ne, IH by done.
      destruct (decide (p + 1 ≤ a < p + 1 + Z.of_nat (length l))).
      * rewrite decide_True by lia.
        by replace (Z.to_nat (a - p)) with (S (Z.to_nat (a - (p + 1)))) by lia.
      * rewrite decide_False by lia. done.
Qed.

Lemma upd_out p l m a : ¬ (p ≤ a < p + Z.of_nat (length l)) → upd p l m !! a = m !! a.
Proof. intros H. by rewrite upd_lookup, decide_False. Qed.

Lemma upd_bytes p l m : bytes_at (upd p l m) p l.
Proof.
  intros i c Hi. pose proof (lookup_lt_Some _ _ _ Hi).
  rewrite upd_lookup, decide_True by lia.
  by replace (Z.to_nat (p + Z.of_nat i - p)) with i by lia.
Qed.

Lemma upd_mapped p l m q n : mapped m q n → mapped (upd p l m) q n.
Proof.
  intros H a Ha. rewrite upd_lookup. case_decide; [|by apply H].
  apply lookup_lt_is_Some. lia.
Qed.

Lemma upd_bytes_ne p l m q k :
  disjoint_from p (Z.of_nat (length l)) q (Z.of_nat (length k)) →
  bytes_at m q k → bytes_at (upd p l m) q k.
Proof.
  intros Hd H i c Hi. pose proof (lookup_lt_Some _ _ _ Hi).
  rewrite upd_out; [by apply H|]. destruct Hd; lia.
Qed.

Lemma upd_app p l k m : upd p (l ++ k) m = upd p l (upd (p + Z.of_nat (length l)) k m).
Proof.
  revert p. induction l as [|c l IH]; intros p; simpl; [by rewrite Z.add_0_r|].
  rewrite IH. by replace (p + Z.of_nat (S (length l))) with (p + 1 + Z.of_nat (length l)) by lia.
Qed.

(** Writes to separate places commute. *)
Lemma upd_comm p l q k m :
  disjoint_from p (Z.of_nat (length l)) q (Z.of_nat (length k)) →
  upd p l (upd q k m) = upd q k (upd p l m).
Proof.
  intros Hd. apply map_eq. intros a. rewrite !upd_lookup. destruct Hd; by repeat case_decide; try lia.
Qed.

Lemma upd_dom p l m a : mapped m p (Z.of_nat (length l)) → is_Some (upd p l m !! a) ↔ is_Some (m !! a).
Proof.
  intros Hm. rewrite upd_lookup. case_decide; [|done].
  split; [intros _; by apply Hm|intros _; apply lookup_lt_is_Some; lia].
Qed.

Lemma upd_size p l m : mapped m p (Z.of_nat (length l)) → size (upd p l m) = size m.
Proof.
  intros Hm. rewrite <-!size_dom. f_equal. apply set_eq. intros a.
  rewrite !elem_of_dom. by apply upd_dom.
Qed.

(** Writing back what is there changes nothing. *)
Lemma upd_same p l m : bytes_at m p l → upd p l m = m.
Proof.
  intros H. apply map_eq. intros a. rewrite upd_lookup. case_decide; [|done].
  destruct (lookup_lt_is_Some_2 l (Z.to_nat (a - p))) as [c Hc]; [lia|]. rewrite Hc.
  apply H in Hc. by replace (p + Z.of_nat (Z.to_nat (a - p))) with a in Hc by lia.
Qed.

(** ** Strings *)

Lemma cstr_nil m p : cstr m p [] ↔ m !! p = Some 0.
Proof.
  unfold cstr. simpl. rewrite bytes_at_cons. split; [naive_solver|].
  intros H. split; [split; [done|apply bytes_at_nil]|done].
Qed.

Lemma cstr_cons m p c s : cstr m p (c :: s) ↔ m !! p = Some c ∧ nonzero c ∧ cstr m (p + 1) s.
Proof.
  unfold cstr. simpl. rewrite bytes_at_cons. split.
  - intros [[H1 H2] [Hc Hs]%Forall_cons_1]. done.
  - intros (H1 & Hc & H2 & Hs). split; [done|]. by constructor.
Qed.

Lemma cstr_app m p s t : Forall nonzero s → bytes_at m p s → cstr m (p + Z.of_nat (length s)) t →
  cstr m p (s ++ t).
Proof.
  intros Hs Hb [Ht Hn]. split; [|by apply Forall_app].
  rewrite <-app_assoc. by apply bytes_at_app.
Qed.

Lemma cstr_size m p s : cstr m p s → (length s < size m)%nat.
Proof. intros [H _]. apply bytes_at_size in H. rewrite length_app in H. simpl in H. lia. Qed.

Lemma cstr_mapped m p s : cstr m p s → mapped m p (Z.of_nat (length s) + 1).
Proof.
  intros [H _]. apply bytes_at_mapped in H. rewrite length_app in H. simpl in H.
  intros a Ha. apply H. lia.
Qed.

Lemma cstr_upd p l m q s :
  disjoint_from p (Z.of_nat (length l)) q (Z.of_nat (length s) + 1) →
  cstr m q s → cstr (upd p l m) q s.
Proof.
  intros Hd [H Hn]. split; [|done]. apply upd_bytes_ne; [|done].
  rewrite length_app. simpl. destruct Hd; [left|right]; lia.
Qed.

(** A string is determined by where it starts. *)
Lemma cstr_inj m p s t : cstr m p s → cstr m p t → s = t.
Proof.
  revert p t. induction s as [|c s IH]; intros p [|d t] Hs Ht; [done| | |].
  - apply cstr_nil in Hs. apply cstr_cons in Ht as (Hd & Hz & _).
    rewrite Hs in Hd. unfold nonzero in Hz. simplify_eq. lia.
  - apply cstr_nil in Ht. apply cstr_cons in Hs as (Hd & Hz & _).
    rewrite Ht in Hd. unfold nonzero in Hz. simplify_eq. lia.
  - apply cstr_cons in Hs as (Hc & _ & Hs). apply cstr_cons in Ht as (Hd & _ & Ht).
    rewrite Hc in Hd. simplify_eq. f_equal. by eapply IH.
Qed.

(** ** Rules *)

Lemma wp_load m a c (Q : Z → mem → Prop) : m !! a = Some c → Q c m → wp (load a) Q m.
Proof. intros H HQ. exists c, m. unfold load. by rewrite H. Qed.

Lemma wp_store m a c (Q : unit → mem → Prop) :
  is_Some (m !! a) → Q tt (<[a:=c]> m) → wp (store a c) Q m.
Proof. intros [x H] HQ. exists tt, (<[a:=c]> m). unfold store. by rewrite H. Qed.

Lemma wp_walking {A} (loop : nat → ST mem A) (Q : A → mem → Prop) m :
  wp (loop (S (size m))) Q m → wp (walking loop) Q m.
Proof. done. Qed.

(** The rules in the common case of a string that is being read. *)
Ltac wp_load := wp_step; eapply wp_load; [eassumption|cbv beta].

Lemma nonzero_true c : nonzero c → ctrue c = true.
Proof. intros H. unfold ctrue. destruct (Z.eqb_spec c 0); [unfold nonzero in H; lia|done]. Qed.

Lemma nonzero_eqb c : nonzero c → (c =? 0) = false.
Proof. intros H. apply Z.eqb_neq. unfold nonzero in H. lia. Qed.

(** ** Comparison and length *)

(** Comparison of byte strings, the terminator below every character. *)
Fixpoint str_cmp (s t : list Z) : Z :=
  match s, t with
  | [], [] => 0
  | [], d :: _ => - d
  | c :: _, [] => c
  | c :: s, d :: t => if c =? d then str_cmp s t else c - d
  end.

(** Lexicographic order. *)
Fixpoint str_lt (s t : list Z) : Prop :=
  match s, t with
  | _, [] => False
  | [], _ :: _ => True
  | c :: s, d :: t => c < d ∨ c = d ∧ str_lt s t
  end.

Lemma str_cmp_zero s t : Forall nonzero s → Forall nonzero t → str_cmp s t = 0 ↔ s = t.
Proof.
  revert t. induction s as [|c s IH]; intros [|d t] Hs Ht; simpl; [done| | |].
  - apply Forall_cons_1 in Ht as [H _]. unfold nonzero in H. split; [lia|done].
  - apply Forall_cons_1 in Hs as [H _]. unfold nonzero in H. split; [lia|done].
  - apply Forall_cons_1 in Hs as [_ Hs]. apply Forall_cons_1 in Ht as [_ Ht].
    destruct (Z.eqb_spec c d) as [->|Hne].
    + rewrite IH by done. split; [by intros ->|by intros [= ->]].
    + split; [lia|intros [= -> ->]; lia].
Qed.

Lemma str_cmp_neg s t : Forall nonzero s → Forall nonzero t → str_cmp s t < 0 ↔ str_lt s t.
Proof.
  revert t. induction s as [|c s IH]; intros [|d t] Hs Ht; simpl; [lia| | |].
  - apply Forall_cons_1 in Ht as [H _]. unfold nonzero in H. split; [done|lia].
  - apply Forall_cons_1 in Hs as [H _]. unfold nonzero in H. split; [lia|done].
  - apply Forall_cons_1 in Hs as [_ Hs]. apply Forall_cons_1 in Ht as [_ Ht].
    destruct (Z.eqb_spec c d) as [->|Hne].
    + rewrite IH by done. split; [by right|intros [?|[_ ?]]; [lia|done]].
    + split; [left; lia|intros [?|[? _]]; lia].
Qed.

(** Readers that yield a string and its terminator. *)
Definition reads (m : mem) (r : Z → ST mem Z) (s : list Z) : Prop :=
  ∀ i c (Q : Z → mem → Prop),
    (s ++ [0]) !! i = Some c → Q c m → wp (r (Z.of_nat i)) Q m.

Lemma reads_cstr m a s : cstr m a s → reads m (λ i, load (a + i)) s.
Proof. intros [H _] i c Q Hi HQ. eapply wp_load; [|done]. by apply H. Qed.

Lemma reads_lit m s : reads m (λ i, deref ((s ++ [0]) !! Z.to_nat i)) s.
Proof. intros i c Q Hi HQ. eapply wp_deref; [|done]. by rewrite Nat2Z.id. Qed.

Lemma lookup_nul (s : list Z) i c :
  Forall nonzero s → (s ++ [0]) !! i = Some c →
  (s !! i = Some c ∧ nonzero c) ∨ (i = length s ∧ c = 0).
Proof.
  intros Hs Hi. apply lookup_app_Some in Hi as [Hi|[Hl Hi]].
  - left. split; [done|]. rewrite Forall_lookup in Hs. eauto.
  - right. destruct (i - length s)%nat eqn:E; simpl in Hi; [|by rewrite lookup_nil in Hi].
    simplify_eq. split; [lia|done].
Qed.

(** Two strings that agree on a prefix compare as what follows it. *)
Lemma str_cmp_drop s t i :
  (i ≤ length s)%nat → take i s = take i t → str_cmp s t = str_cmp (drop i s) (drop i t).
Proof.
  revert s t. induction i as [|i IH]; intros [|c s] [|d t] Hi E; simpl in *; try done; try lia.
  simplify_eq. rewrite Z.eqb_refl. apply IH; [lia|done].
Qed.

Lemma wp_strcmp_loop m ra rb s t fuel i (Q : Z → mem → Prop) :
  reads m ra s → reads m rb t → Forall nonzero s → Forall nonzero t →
  (i ≤ length s)%nat → (i ≤ length t)%nat → (length s < fuel + i)%nat →
  Q (str_cmp (drop i s) (drop i t)) m → wp (strcmp_loop fuel ra rb (Z.of_nat i)) Q m.
Proof.
  intros Ha Hb Hs Ht. revert i. induction fuel as [|fuel IH]; intros i His Hit Hf HQ; simpl; [lia|].
  destruct (lookup_lt_is_Some_2 (s ++ [0]) i) as [c Hc]; [rewrite length_app; simpl; lia|].
  destruct (lookup_lt_is_Some_2 (t ++ [0]) i) as [d Hd]; [rewrite length_app; simpl; lia|].
  apply wp_bind, (Ha i c); [done|]. cbv beta. apply wp_bind, (Hb i d); [done|]. cbv beta.
  destruct (lookup_nul _ _ _ Hs Hc) as [[Hc' Hzc]|[Hk ->]],
    (lookup_nul _ _ _ Ht Hd) as [[Hd' Hzd]|[Hk' ->]];
    rewrite ?(drop_S _ _ _ Hc'), ?(drop_S _ _ _ Hd') in HQ; try rewrite (drop_ge s i) in HQ by lia;
    try rewrite (drop_ge t i) in HQ by lia; rewrite ?nonzero_true by done; cbn [str_cmp] in HQ.
  - simpl. destruct (c =? d); [|by apply wp_ret].
    replace (Z.of_nat i + 1) with (Z.of_nat (S i)) by lia.
    apply lookup_lt_Some in Hc', Hd'. apply IH; [lia..|done].
  - rewrite nonzero_eqb by done. apply wp_ret. by rewrite Z.sub_0_r.
  - apply wp_ret. by rewrite Z.sub_0_l.
  - apply wp_ret. done.
Qed.

Lemma wp_strcmp m s t a b (Q : Z → mem → Prop) :
  cstr m a s → cstr m b t → Q (str_cmp s t) m → wp (strcmp a b) Q m.
Proof.
  intros Hs Ht HQ. pose proof (cstr_size _ _ _ Hs). apply wp_walking.
  apply (wp_strcmp_loop m _ _ s t _ 0%nat); [by apply reads_cstr..|apply Hs|apply Ht|lia|lia|lia|done].
Qed.

Lemma wp_strcmp_lit m s t a (Q : Z → mem → Prop) :
  cstr m a s → Forall nonzero t → Q (str_cmp s t) m → wp (strcmp_lit a t) Q m.
Proof.
  intros Hs Ht HQ. pose proof (cstr_size _ _ _ Hs). apply wp_walking.
  apply (wp_strcmp_loop m _ _ s t _ 0%nat);
    [by apply reads_cstr|apply reads_lit|apply Hs|done|lia|lia|lia|done].
Qed.

Lemma wp_strncmp_rd m ra rb s t n (Q : Z → mem → Prop) :
  reads m ra s → reads m rb t → Forall nonzero s → Forall nonzero t → 0 ≤ n →
  Q (str_cmp (take (Z.to_nat n) s) (take (Z.to_nat n) t)) m →
  wp (strncmp_rd ra rb n) Q m.
Proof.
  intros Ha Hb Hs Ht Hn HQ. unfold strncmp_rd. apply wp_bind.
  set (N := Z.to_nat n) in *.
  assert (HQ' : ∀ x, x = str_cmp (take N s) (take N t) → Q x m) by (by intros x ->).
  apply (wp_for_ret (λ i m', m' = m ∧ 0 ≤ i ∧ (Z.to_nat i ≤ length s)%nat ∧ (Z.to_nat i ≤ length t)%nat ∧
    take (Z.to_nat i) s = take (Z.to_nat i) t)); [split_and!; by (lia || done)| |].
  - intros j m' Hj (-> & H0 & Hls & Hlt & E).
    destruct (Z_of_nat_complete j H0) as [k ->]. rewrite Nat2Z.id in *.
    assert (Hcs : ∃ c, (s ++ [0]) !! k = Some c) by (apply lookup_lt_is_Some; rewrite length_app; simpl; lia).
    assert (Hct : ∃ d, (t ++ [0]) !! k = Some d) by (apply lookup_lt_is_Some; rewrite length_app; simpl; lia).
    destruct Hcs as [c Hc], Hct as [d Hd].
    apply wp_bind, (Ha k c); [done|]. cbv beta. apply wp_bind, (Hb k d); [done|]. cbv beta.
    assert (Hcmp : str_cmp (take N s) (take N t) =
      str_cmp (drop k (take N s)) (drop k (take N t))).
    { apply str_cmp_drop; [rewrite length_take; lia|]. rewrite !take_take.
      by replace (k `min` N)%nat with k by lia. }
    rewrite !skipn_firstn_comm in Hcmp.
    destruct (N - k)%nat as [|r] eqn:Er; [lia|].
    destruct (lookup_nul _ _ _ Hs Hc) as [[Hc' Hzc]|[Hk ->]],
      (lookup_nul _ _ _ Ht Hd) as [[Hd' Hzd]|[Hk' ->]];
      rewrite ?(drop_S _ _ _ Hc'), ?(drop_S _ _ _ Hd') in Hcmp; try rewrite (drop_ge s k) in Hcmp by lia;
      try rewrite (drop_ge t k) in Hcmp by lia; simpl in Hcmp.
    + destruct (Z.eqb_spec c d) as [->|Hne]; simpl.
      * rewrite nonzero_eqb by done. apply wp_ret.
        replace (Z.to_nat (Z.of_nat k + 1)) with (S k) by lia.
        pose proof (lookup_lt_Some _ _ _ Hc'). pose proof (lookup_lt_Some _ _ _ Hd').
        split_and!; [done|lia|lia|lia|].
        by rewrite (take_S_r _ _ _ Hc'), (take_S_r _ _ _ Hd'), E.
      * do 2 apply wp_ret. apply HQ'. simpl. lia.
    + rewrite nonzero_eqb by done. simpl. do 2 apply wp_ret. apply HQ'. simpl. lia.
    + replace (0 =? d) with false by (symmetry; apply Z.eqb_neq; unfold nonzero in Hzd; lia).
      simpl. do 2 apply wp_ret. apply HQ'. simpl. lia.
    + simpl. do 2 apply wp_ret. apply HQ'. simpl. lia.
  - intros m' (-> & H0 & Hls & Hlt & E). apply wp_ret. simpl.
    replace (Z.to_nat (0 + Z.of_nat N)) with N in * by lia.
    rewrite E in HQ. replace (str_cmp (take N t) (take N t)) with 0 in HQ; [done|].
    symmetry. apply str_cmp_zero; [by apply Forall_take|by apply Forall_take|done].
Qed.

Lemma wp_strlen_loop m s fuel str len (Q : Z → mem → Prop) :
  cstr m (str + len) s → (length s < fuel)%nat → 0 ≤ len →
  len + Z.of_nat (length s) < 2 ^ 31 →
  Q (len + Z.of_nat (length s)) m → wp (strlen_loop fuel str len) Q m.
Proof.
  revert fuel len. induction s as [|c s IH]; intros [|fuel] len Hs Hf H0 Hlen HQ;
    simpl in Hf, Hlen; try lia; simpl.
  - apply cstr_nil in Hs. wp_load. simpl. apply wp_ret. by rewrite Z.add_0_r in HQ.
  - apply cstr_cons in Hs as (Hc & Hz & Hs). wp_load. rewrite nonzero_true by done.
    destruct (Z.ltb_spec len (2 ^ 31 - 1)); [|lia]. apply IH; [|lia|lia|lia|].
    + by rewrite Z.add_assoc.
    + simpl in HQ. by replace (len + 1 + Z.of_nat (length s)) with (len + Z.of_nat (S (length s))) by lia.
Qed.

Lemma wp_strlen m s p (Q : Z → mem → Prop) :
  p ≠ 0 → cstr m p s → Z.of_nat (length s) < 2 ^ 31 → Q (Z.of_nat (length s)) m →
  wp (strlen p) Q m.
Proof.
  intros Hp Hs Hl HQ. unfold strlen. rewrite (proj2 (Z.eqb_neq p 0)) by done.
  apply wp_walking, (wp_strlen_loop m s); [by rewrite Z.add_0_r| |lia|lia|done].
  apply cstr_size in Hs. lia.
Qed.

Lemma wp_strnlen m s p max (Q : Z → mem → Prop) :
  0 ≤ max → cstr m p s → Q (s32 (Z.min (Z.of_nat (length s)) max)) m →
  wp (strnlen p max) Q m.
Proof.
  intros Hm [Hs Hz] HQ. unfold strnlen. apply wp_bind.
  apply (wp_for_ret (λ i m', m' = m ∧ 0 ≤ i ≤ Z.of_nat (length s))); [split; [done|lia]| |].
  - intros j m' Hj (-> & H0 & Hl).
    destruct (lookup_lt_is_Some_2 (s ++ [0]) (Z.to_nat j)) as [c Hc].
    { rewrite length_app. simpl. lia. }
    apply wp_bind. eapply wp_load. { apply Hs in Hc. by rewrite Z2Nat.id in Hc by done. }
    destruct (lookup_nul _ _ _ Hz Hc) as [[Hl' Hn]|[Hk ->]].
    + rewrite nonzero_true by done. apply wp_ret. apply lookup_lt_Some in Hl'. split; [done|lia].
    + simpl. do 2 apply wp_ret. simpl. replace j with (Z.min (Z.of_nat (length s)) max) by lia. done.
  - intros m' (-> & H0 & Hl). apply wp_ret. simpl.
    by replace max with (Z.min (Z.of_nat (length s)) max) by lia.
Qed.

(** ** Search *)

(** Length of the longest prefix on which [f] holds. *)
Fixpoint span (f : Z → bool) (s : list Z) : nat :=
  match s with
  | [] => 0
  | c :: s => if f c then S (span f s) else 0
  end.
Definition memb (l : list Z) (c : Z) : bool := bool_decide (c ∈ l).

Lemma span_length f s : (span f s ≤ length s)%nat.
Proof. induction s as [|c s IH]; simpl; [done|]. destruct (f c); lia. Qed.

Lemma span_prefix f s : Forall (λ c, f c = true) (take (span f s) s).
Proof. induction s as [|c s IH]; simpl; [done|]. destruct (f c) eqn:E; simpl; auto. Qed.

Lemma span_stop f s c : s !! span f s = Some c → f c = false.
Proof.
  induction s as [|d s IH]; simpl; [done|]. destruct (f d) eqn:E; simpl; [done|]. by intros [= ->].
Qed.

Lemma span_end f s : span f s = length s ↔ Forall (λ c, f c = true) s.
Proof.
  induction s as [|c s IH]; simpl; [done|]. split.
  - destruct (f c) eqn:E; [|done]. intros H. constructor; [done|]. apply IH. lia.
  - intros [-> H]%Forall_cons_1. f_equal. by apply IH.
Qed.

Lemma wp_strchr_loop m s fuel p t (Q : Z → mem → Prop) :
  cstr m p s → (length s < fuel)%nat →
  (let k := span (λ c, negb (c =? t)) s in
   Q (if (k <? length s)%nat || (t =? 0) then p + Z.of_nat k else 0) m) →
  wp (strchr_loop fuel p t) Q m.
Proof.
  revert fuel p. induction s as [|c s IH]; intros [|fuel] p Hs Hf HQ;
    simpl in Hf; try lia; simpl in *.
  - apply cstr_nil in Hs. wp_load. simpl. apply wp_ret. by rewrite Z.add_0_r in HQ.
  - apply cstr_cons in Hs as (Hc & Hz & Hs). wp_load. rewrite nonzero_eqb by done. simpl.
    destruct (c =? t); simpl in *.
    + apply wp_ret. by rewrite Z.add_0_r in HQ.
    + apply IH; [done|lia|].
      by rewrite Nat2Z.inj_succ, <-Z.add_1_l, Z.add_assoc in HQ.
Qed.

Lemma wp_strchr m s p c (Q : Z → mem → Prop) :
  cstr m p s →
  (let k := span (λ x, negb (x =? u8 c)) s in
   Q (if (k <? length s)%nat || (u8 c =? 0) then p + Z.of_nat k else 0) m) →
  wp (strchr p c) Q m.
Proof.
  intros Hs HQ. apply wp_walking, (wp_strchr_loop m s); [done| |done].
  apply cstr_size in Hs. lia.
Qed.

(** The scan of a set stops at a nonzero byte exactly when the character is in
    the set. *)
Lemma wp_scan_set m l fuel p c (Q : Z → mem → Prop) :
  cstr m p l → (length l < fuel)%nat →
  (∀ q x, m !! q = Some x → (x =? 0) = negb (memb l c) → Q q m) →
  wp (scan_set fuel p c) Q m.
Proof.
  revert fuel p. induction l as [|d l IH]; intros [|fuel] p Hs Hf HQ; simpl in Hf; try lia; simpl.
  - apply cstr_nil in Hs. wp_load. simpl. apply wp_ret. by apply (HQ _ 0).
  - apply cstr_cons in Hs as (Hc & Hz & Hs). wp_load. rewrite nonzero_eqb by done. simpl.
    destruct (Z.eqb_spec c d) as [->|Hne].
    + apply wp_ret. apply (HQ _ d); [done|]. rewrite nonzero_eqb by done.
      unfold memb. rewrite bool_decide_true by set_solver. done.
    + apply IH; [done|lia|]. intros q x Hq Hx. apply (HQ q x Hq). rewrite Hx.
      f_equal. apply bool_decide_ext. set_solver.
Qed.

(** One character of [strspn] and [strpbrk]. *)
Lemma wp_member m l p c (k : Z → ST mem Z) (Q : Z → mem → Prop) :
  cstr m p l →
  (∀ x, (x =? 0) = negb (memb l c) → wp (k x) Q m) →
  wp (a ← walking (λ fuel, scan_set fuel p c); x ← load a; k x) Q m.
Proof.
  intros Hl Hk. apply wp_bind, wp_walking, (wp_scan_set m l); [done|apply cstr_size in Hl; lia|].
  intros q x Hq Hx. wp_load. by apply Hk.
Qed.

Lemma wp_strspn_loop m s l fuel p accept n (Q : Z → mem → Prop) :
  cstr m p s → cstr m accept l → (length s < fuel)%nat →
  Q (n + Z.of_nat (span (memb l) s)) m → wp (strspn_loop fuel p accept n) Q m.
Proof.
  revert fuel p n. induction s as [|c s IH]; intros [|fuel] p n Hs Hl Hf HQ; simpl in Hf; try lia; simpl in *.
  - apply cstr_nil in Hs. wp_load. simpl. apply wp_ret. by rewrite Z.add_0_r in HQ.
  - apply cstr_cons in Hs as (Hc & Hz & Hs). wp_load. rewrite nonzero_eqb by done. simpl.
    apply (wp_member m l); [done|]. intros x ->. destruct (memb l c); simpl in *.
    + apply IH; [done|done|lia|]. by rewrite Nat2Z.inj_succ, <-Z.add_1_l, Z.add_assoc in HQ.
    + apply wp_ret. by rewrite Z.add_0_r in HQ.
Qed.

Lemma wp_strspn m s l p accept (Q : Z → mem → Prop) :
  cstr m p s → cstr m accept l → Q (Z.of_nat (span (memb l) s)) m →
  wp (strspn p accept) Q m.
Proof.
  intros Hs Hl HQ. apply wp_walking, (wp_strspn_loop m s l); [done..| |done].
  apply cstr_size in Hs. lia.
Qed.

Lemma wp_strpbrk_loop m s l fuel p ct (Q : Z → mem → Prop) :
  cstr m p s → cstr m ct l → (length s < fuel)%nat →
  (let k := span (λ c, negb (memb l c)) s in
   Q (if (k <? length s)%nat then p + Z.of_nat k else 0) m) →
  wp (strpbrk_loop fuel p ct) Q m.
Proof.
  revert fuel p. induction s as [|c s IH]; intros [|fuel] p Hs Hl Hf HQ; simpl in Hf; try lia; simpl in *.
  - apply cstr_nil in Hs. wp_load. simpl. by apply wp_ret.
  - apply cstr_cons in Hs as (Hc & Hz & Hs). wp_load. rewrite nonzero_eqb by done. simpl.
    apply (wp_member m l); [done|]. intros x ->. destruct (memb l c); simpl in *.
    + apply wp_ret. by rewrite Z.add_0_r in HQ.
    + apply IH; [done|done|lia|]. by rewrite Nat2Z.inj_succ, <-Z.add_1_l, Z.add_assoc in HQ.
Qed.

Lemma wp_strpbrk m s l p ct (Q : Z → mem → Prop) :
  cstr m p s → cstr m ct l →
  (let k := span (λ c, negb (memb l c)) s in
   Q (if (k <? length s)%nat then p + Z.of_nat k else 0) m) →
  wp (strpbrk p ct) Q m.
Proof.
  intros Hs Hl HQ. apply wp_walking, (wp_strpbrk_loop m s l); [done..| |done].
  apply cstr_size in Hs. lia.
Qed.
