(* ===== verification/CStringCopy.v ===== *)
(** * The string and memory routines: copies and numbers

    The routines that write memory, each specified as one write of a list. *)
From stdpp Require Import base gmap list option numbers.
From Stdlib Require Import ZArith Lia.
From S2P Require Import Prelude CString CStringThm.
Import CString.
#[local] Open Scope Z_scope.

(** ** Blocks *)

Lemma upd_snoc p l c m : upd p (l ++ [c]) m = <[p + Z.of_nat (length l):=c]> (upd p l m).
Proof.
  rewrite upd_app. simpl. apply map_eq. intros a. rewrite upd_lookup.
  destruct (decide (a = p + Z.of_nat (length l))) as [->|Hne].
  - rewrite decide_False, !lookup_insert_eq by lia. done.
  - rewrite !lookup_insert_ne by done. by rewrite upd_lookup.
Qed.

Lemma upd_cons_comm p c l m : upd (p + 1) l (<[p:=c]> m) = <[p:=c]> (upd (p + 1) l m).
Proof.
  change (<[p:=c]> m) with (upd p [c] m).
  rewrite (upd_comm (p + 1) l p [c]); [done|]. right. simpl. lia.
Qed.

Lemma upd_zero_length p l m : length l = 0%nat → upd p l m = m.
Proof. by destruct l. Qed.

Lemma wp_memset m s c n (Q : Z → mem → Prop) :
  0 ≤ n → mapped m s n → Q s (upd s (replicate (Z.to_nat n) (u8 c)) m) →
  wp (memset s c n) Q m.
Proof.
  intros Hn Hm HQ. unfold memset. apply wp_bind.
  apply (wp_for_each (λ i m', 0 ≤ i ∧ m' = upd s (replicate (Z.to_nat i) (u8 c)) m)).
  - by split.
  - intros j m' Hj [H0 ->]. apply wp_store; [apply (upd_mapped _ _ _ _ _ Hm); lia|].
    split; [lia|]. replace (Z.to_nat (j + 1)) with (S (Z.to_nat j)) by lia.
    rewrite replicate_S_end, upd_snoc, length_replicate. by rewrite Z2Nat.id by done.
  - intros m' [_ ->]. apply wp_ret. rewrite Z.add_0_l, Nat2Z.id. done.
Qed.

(** Copying upwards is right when the destination starts below the source, or
    the two do not overlap. *)
Lemma wp_copy_up m dest src l (Q : unit → mem → Prop) :
  let n := Z.of_nat (length l) in
  bytes_at m src l → mapped m dest n → dest < src ∨ disjoint_from dest n src n →
  Q tt (upd dest l m) →
  wp (for_each (length l) 0 (λ i, c ← load (src + i); store (dest + i) c)) Q m.
Proof.
  intros n Hs Hd Ho HQ.
  apply (wp_for_each (λ i m', 0 ≤ i ∧ m' = upd dest (take (Z.to_nat i) l) m)); [done| |].
  - intros j m' Hj [H0 ->].
    destruct (lookup_lt_is_Some_2 l (Z.to_nat j)) as [c Hc]; [lia|].
    apply wp_bind. eapply wp_load.
    { rewrite upd_out; [replace j with (Z.of_nat (Z.to_nat j)) by lia; by apply Hs|].
      rewrite length_take. unfold disjoint_from in Ho. lia. }
    apply wp_store; [apply (upd_mapped _ _ _ _ _ Hd); lia|]. split; [lia|].
    replace (Z.to_nat (j + 1)) with (S (Z.to_nat j)) by lia.
    rewrite (take_S_r _ _ _ Hc), upd_snoc, length_take. do 2 f_equal. lia.
  - intros m' [_ ->]. rewrite Z.add_0_l, Nat2Z.id, take_ge; done.
Qed.

(** Copying downwards is right when the destination starts above. *)
Lemma wp_copy_down m dest src l (Q : unit → mem → Prop) :
  let n := Z.of_nat (length l) in
  bytes_at m src l → mapped m dest n → src < dest → Q tt (upd dest l m) →
  wp (for_each (length l) 0 (λ j, let i := n - j in
        c ← load (src + (i - 1)); store (dest + (i - 1)) c)) Q m.
Proof.
  intros n Hs Hd Ho HQ.
  apply (wp_for_each (λ j m', 0 ≤ j ≤ n ∧ m' = upd (dest + (n - j)) (drop (Z.to_nat (n - j)) l) m)).
  - split; [lia|]. rewrite drop_ge by lia. done.
  - intros j m' Hj [H0 ->]. cbv zeta.
    destruct (lookup_lt_is_Some_2 l (Z.to_nat (n - j - 1))) as [c Hc]; [lia|].
    apply wp_bind. eapply wp_load.
    { rewrite upd_out by lia. rewrite <-(Hs _ _ Hc). f_equal. lia. }
    apply wp_store; [apply (upd_mapped _ _ _ _ _ Hd); lia|]. split; [lia|].
    replace (n - (j + 1)) with (n - j - 1) by lia. rewrite (drop_S _ _ _ Hc). simpl.
    replace (dest + (n - j - 1) + 1) with (dest + (n - j)) by lia.
    by replace (S (Z.to_nat (n - j - 1))) with (Z.to_nat (n - j)) by lia.
  - intros m' [_ ->]. replace (n - (0 + Z.of_nat (length l))) with 0 by lia.
    by rewrite Z.add_0_r, drop_0.
Qed.

Lemma wp_memcpy m dest src l (Q : Z → mem → Prop) :
  let n := Z.of_nat (length l) in
  bytes_at m src l → mapped m dest n → disjoint_from dest n src n →
  Q dest (upd dest l m) → wp (memcpy dest src n) Q m.
Proof.
  intros n Hs Hd Ho HQ. unfold memcpy, n. rewrite Nat2Z.id.
  apply wp_bind, (wp_copy_up m dest src l); [done|done|by right|]. by apply wp_ret.
Qed.

Lemma wp_memmove m dest src l (Q : Z → mem → Prop) :
  let n := Z.of_nat (length l) in
  bytes_at m src l → mapped m dest n → Q dest (upd dest l m) →
  wp (memmove dest src n) Q m.
Proof.
  intros n Hs Hd HQ. unfold memmove. apply wp_bind.
  destruct (Z.ltb_spec dest src); [|destruct (Z.ltb_spec src dest)].
  - unfold n. rewrite Nat2Z.id. apply (wp_copy_up m dest src l); [done|done|by left|]. by apply wp_ret.
  - unfold n at 1. rewrite Nat2Z.id. apply (wp_copy_down m dest src l); [done..|]. by apply wp_ret.
  - assert (dest = src) as -> by lia. do 2 apply wp_ret. by rewrite upd_same in HQ.
Qed.

Fixpoint mem_cmp (s t : list Z) : Z :=
  match s, t with
  | c :: s, d :: t => if c =? d then mem_cmp s t else c - d
  | _, _ => 0
  end.

Lemma mem_cmp_zero s t : length s = length t → mem_cmp s t = 0 ↔ s = t.
Proof.
  revert t. induction s as [|c s IH]; intros [|d t] Hl; simpl in *; try done.
  destruct (Z.eqb_spec c d) as [->|Hne].
  - rewrite IH by lia. split; [by intros ->|by intros [= ->]].
  - split; [lia|intros [= -> ->]; lia].
Qed.

Lemma wp_memcmp m s1 s2 l k (Q : Z → mem → Prop) :
  bytes_at m s1 l → bytes_at m s2 k → length l = length k → Q (mem_cmp l k) m →
  wp (memcmp s1 s2 (Z.of_nat (length l))) Q m.
Proof.
  intros H1 H2 Hl HQ. unfold memcmp. rewrite Nat2Z.id. apply wp_bind.
  apply (wp_for_ret (λ i m', m' = m ∧ 0 ≤ i ∧
    mem_cmp l k = mem_cmp (drop (Z.to_nat i) l) (drop (Z.to_nat i) k))); [done| |].
  - intros j m' Hj (-> & H0 & E). destruct (Z_of_nat_complete j H0) as [i ->]. rewrite Nat2Z.id in *.
    destruct (lookup_lt_is_Some_2 l i) as [c Hc]; [lia|].
    destruct (lookup_lt_is_Some_2 k i) as [d Hd]; [lia|].
    rewrite (drop_S _ _ _ Hc), (drop_S _ _ _ Hd) in E. simpl in E.
    apply wp_bind. eapply wp_load; [by apply H1|]. apply wp_bind. eapply wp_load; [by apply H2|].
    destruct (c =? d); simpl.
    + apply wp_ret. split; [done|]. split; [lia|]. by replace (Z.to_nat (Z.of_nat i + 1)) with (S i) by lia.
    + do 2 apply wp_ret. simpl. by rewrite <-E.
  - intros m' (-> & H0 & E). apply wp_ret. simpl.
    rewrite Z.add_0_l, Nat2Z.id, !drop_ge in E by lia. by rewrite E in HQ.
Qed.

(** ** Strings *)

Lemma wp_strncpy_loop m s k fuel dest src i n (Q : Z → mem → Prop) :
  cstr m (src + Z.of_nat i) s → (i + length s < fuel + i)%nat →
  Z.of_nat i < n < 2 ^ 64 → Z.of_nat k = Z.min (Z.of_nat (length s)) (n - 1 - Z.of_nat i) →
  mapped m (dest + Z.of_nat i) (Z.of_nat k) →
  disjoint_from (dest + Z.of_nat i) (Z.of_nat k) (src + Z.of_nat i) (Z.of_nat (length s) + 1) →
  Q (Z.of_nat (i + k)) (upd (dest + Z.of_nat i) (take k s) m) →
  wp (strncpy_loop fuel dest src (Z.of_nat i) n) Q m.
Proof.
  revert m k fuel i. induction s as [|c s IH]; intros m k [|fuel] i Hs Hf Hn Hk Hm Ho HQ;
    simpl in Hf, Hk; try lia; simpl.
  - assert (k = 0%nat) as -> by lia. simpl in HQ. rewrite Nat.add_0_r in HQ.
    destruct (u64 _ <? n); [|by apply wp_ret].
    apply cstr_nil in Hs. wp_load. simpl. by apply wp_ret.
  - unfold u64. rewrite Z.mod_small by lia. destruct (Z.ltb_spec (Z.of_nat i + 1) n).
    + destruct k as [|k]; [lia|].
      apply cstr_cons in Hs as (Hc & Hz & Hs). wp_load. rewrite nonzero_true by done.
      apply wp_bind, wp_store; [apply Hm; lia|].
      replace (Z.of_nat i + 1) with (Z.of_nat (S i)) by lia.
      unfold disjoint_from in Ho; simpl in Ho.
      apply (IH _ k); [|lia|lia|lia| | |].
      * change (<[?p:=c]> m) with (upd p [c] m). apply cstr_upd.
        -- simpl. unfold disjoint_from. lia.
        -- by replace (src + Z.of_nat (S i)) with (src + Z.of_nat i + 1) by lia.
      * change (<[?p:=c]> m) with (upd p [c] m). apply upd_mapped. intros a Ha. apply Hm. lia.
      * unfold disjoint_from. lia.
      * simpl in HQ. replace (dest + Z.of_nat (S i)) with (dest + Z.of_nat i + 1) by lia.
        rewrite upd_cons_comm. by replace (S i + k)%nat with (i + S k)%nat by lia.
    + assert (k = 0%nat) as -> by lia. apply wp_ret. by rewrite Nat.add_0_r in HQ.
Qed.

(** At least one byte of room: the longest prefix that fits, terminated. *)
Lemma wp_strncpy m s dest src n (Q : unit → mem → Prop) :
  let t := take (Z.to_nat (n - 1)) s in
  let k := Z.of_nat (length t) + 1 in
  dest ≠ 0 → src ≠ 0 → cstr m src s → 1 ≤ n < 2 ^ 64 → mapped m dest k →
  disjoint_from dest k src (Z.of_nat (length s) + 1) →
  Q tt (upd dest (t ++ [0]) m) → wp (strncpy dest src n) Q m.
Proof.
  intros t k Hd Hs0 Hs Hn Hm Ho HQ. unfold strncpy.
  rewrite (proj2 (Z.eqb_neq dest 0)), (proj2 (Z.eqb_neq src 0)) by done. simpl.
  assert (Ht : t = take (length t) s) by (unfold t; rewrite length_take, <-take_take, (take_ge s (length s)) by lia; done).
  apply wp_bind, wp_walking. apply (wp_strncpy_loop m s (length t) _ dest src 0%nat).
  - by rewrite Z.add_0_r.
  - apply cstr_size in Hs. lia.
  - lia.
  - unfold t. rewrite length_take. lia.
  - intros a Ha. apply Hm. lia.
  - unfold disjoint_from in *. lia.
  - rewrite <-Ht, Z.add_0_r. simpl. apply wp_store; [apply upd_mapped with (1 := Hm); lia|].
    by rewrite <-upd_snoc.
Qed.

Lemma wp_copy_bytes m s fuel d p (Q : unit → mem → Prop) :
  let k := Z.of_nat (length s) + 1 in
  cstr m p s → (length s < fuel)%nat → mapped m d k → disjoint_from d k p k →
  Q tt (upd d (s ++ [0]) m) → wp (copy_bytes fuel d p) Q m.
Proof.
  revert m fuel d p. induction s as [|c s IH]; intros m [|fuel] d p k Hs Hf Hm Ho HQ;
    simpl in Hf; try lia; simpl; subst k; unfold disjoint_from in Ho; simpl in *.
  - apply cstr_nil in Hs. wp_load. apply wp_bind, wp_store; [apply Hm; lia|]. by apply wp_ret.
  - apply cstr_cons in Hs as (Hc & Hz & Hs). wp_load. apply wp_bind, wp_store; [apply Hm; lia|].
    rewrite nonzero_true by done. change (<[d:=c]> m) with (upd d [c] m). apply IH.
    + apply cstr_upd; [|done]. simpl. unfold disjoint_from. lia.
    + lia.
    + apply upd_mapped. intros a Ha. apply Hm. lia.
    + unfold disjoint_from. lia.
    + simpl. by rewrite upd_cons_comm.
Qed.

(** *** Words as lists of bytes *)

Definition byte (c : Z) : Prop := 0 ≤ c < 256.
Fixpoint le_val (l : list Z) : Z :=
  match l with [] => 0 | b :: l => b + 256 * le_val l end.

Lemma nonzero_byte s : Forall nonzero s → Forall byte s.
Proof. apply Forall_impl. unfold nonzero, byte. lia. Qed.

Lemma le_val_nonneg l : Forall byte l → 0 ≤ le_val l.
Proof. induction 1 as [|c l Hc _ IH]; simpl; [lia|]. unfold byte in Hc. lia. Qed.

Lemma wp_load_le m p l (Q : Z → mem → Prop) :
  bytes_at m p l → Q (le_val l) m → wp (load_le (length l) p) Q m.
Proof.
  revert p Q. induction l as [|c l IH]; intros p Q Hl HQ; simpl; [by apply wp_ret|].
  apply bytes_at_cons in Hl as [Hc Hl]. wp_load. apply wp_bind, IH; [done|]. by apply wp_ret.
Qed.

Lemma wp_store_le m p l (Q : unit → mem → Prop) :
  Forall byte l → mapped m p (Z.of_nat (length l)) → Q tt (upd p l m) →
  wp (store_le (length l) p (le_val l)) Q m.
Proof.
  intros Hl. revert m p Q. induction Hl as [|c l Hc Hl IH]; intros m p Q Hm HQ; simpl; [by apply wp_ret|].
  unfold byte in Hc. simpl in Hm.
  replace ((c + 256 * le_val l) mod 256) with c by (apply Z.mod_unique with (le_val l); lia).
  replace ((c + 256 * le_val l) / 256) with (le_val l) by (apply Z.div_unique with c; lia).
  apply wp_bind, wp_store; [apply Hm; lia|]. apply IH.
  - change (<[p:=c]> m) with (upd p [c] m). apply upd_mapped. intros a Ha. apply Hm. lia.
  - by rewrite upd_cons_comm.
Qed.

Lemma le_val_byte l k c :
  Forall byte l → l !! k = Some c → (le_val l / 2 ^ (8 * Z.of_nat k)) mod 256 = c.
Proof.
  intros Hl. revert k. induction Hl as [|b l Hb Hl IH]; intros k Hk; [by rewrite lookup_nil in Hk|].
  unfold byte in Hb. simpl. destruct k as [|k]; simpl in Hk; simplify_eq.
  - simpl. rewrite Z.div_1_r. symmetry. apply Z.mod_unique with (le_val l); lia.
  - replace (8 * Z.of_nat (S k)) with (8 + 8 * Z.of_nat k) by lia.
    rewrite Z.pow_add_r by lia. rewrite <-Z.div_div by (apply Z.pow_nonzero || apply Z.pow_pos_nonneg; lia).
    replace ((b + 256 * le_val l) / 2 ^ 8) with (le_val l) by (apply Z.div_unique with b; lia).
    by apply IH.
Qed.

(** A mask of one byte selects that byte. *)
Lemma land_byte_eq v k :
  0 ≤ k → Z.land v (Z.shiftl 255 k) = (v / 2 ^ k) mod 256 * 2 ^ k.
Proof.
  intros Hk. rewrite <-Z.shiftl_mul_pow2 by done.
  change 256 with (2 ^ 8). rewrite <-Z.land_ones, <-Z.shiftr_div_pow2 by lia.
  rewrite Z.shiftl_land. change (Z.ones 8) with 255. apply Z.bits_inj'. intros b Hb.
  rewrite !Z.land_spec. destruct (Z.lt_ge_cases b k).
  - by rewrite !Z.shiftl_spec_low, !andb_false_r by done.
  - rewrite !Z.shiftl_spec, Z.shiftr_spec by lia. by replace (b - k + k) with b by lia.
Qed.

Lemma land_byte v k :
  0 ≤ k → (Z.land v (Z.shiftl 255 k) =? 0) = ((v / 2 ^ k) mod 256 =? 0).
Proof.
  intros Hk. rewrite land_byte_eq by done. pose proof (Z.pow_pos_nonneg 2 k).
  destruct (Z.eqb_spec ((v / 2 ^ k) mod 256) 0) as [->|Hne]; [done|].
  apply Z.eqb_neq. nia.
Qed.

(** Joining disjoint bit fields is addition. *)
Lemma lor_add x y k : 0 ≤ k → 0 ≤ y < 2 ^ k → Z.lor (x * 2 ^ k) y = x * 2 ^ k + y.
Proof.
  intros Hk Hy. symmetry. rewrite <-Z.lxor_lor, Z.add_nocarry_lxor; try done;
    apply Z.bits_inj'; intros b Hb; rewrite Z.land_spec, Z.bits_0;
    rewrite <-Z.shiftl_mul_pow2 by done;
    (destruct (Z.lt_ge_cases b k); [by rewrite Z.shiftl_spec_low|]);
    by rewrite (bits_above k y b), andb_false_r.
Qed.

Lemma has_zero_byte_spec l :
  Forall byte l → length l = 8%nat →
  has_zero_byte (le_val l) = true ↔ 0 ∈ l.
Proof.
  intros Hl Hlen. unfold has_zero_byte.
  change 0xFF00000000000000 with (Z.shiftl 255 (8 * Z.of_nat 7)).
  change 0x00FF000000000000 with (Z.shiftl 255 (8 * Z.of_nat 6)).
  change 0x0000FF0000000000 with (Z.shiftl 255 (8 * Z.of_nat 5)).
  change 0x000000FF00000000 with (Z.shiftl 255 (8 * Z.of_nat 4)).
  change 0x00000000FF000000 with (Z.shiftl 255 (8 * Z.of_nat 3)).
  change 0x0000000000FF0000 with (Z.shiftl 255 (8 * Z.of_nat 2)).
  change 0x000000000000FF00 with (Z.shiftl 255 (8 * Z.of_nat 1)).
  change 0x00000000000000FF with (Z.shiftl 255 (8 * Z.of_nat 0)).
  rewrite !land_byte by lia.
  destruct l as [|b0 [|b1 [|b2 [|b3 [|b4 [|b5 [|b6 [|b7 [|]]]]]]]]]; simpl in Hlen; try lia.
  rewrite (le_val_byte _ 0%nat b0), (le_val_byte _ 1%nat b1), (le_val_byte _ 2%nat b2),
    (le_val_byte _ 3%nat b3), (le_val_byte _ 4%nat b4), (le_val_byte _ 5%nat b5),
    (le_val_byte _ 6%nat b6), (le_val_byte _ 7%nat b7) by done.
  rewrite !orb_true_iff, !Z.eqb_eq, !elem_of_cons, elem_of_nil. naive_solver.
Qed.

(** A word inside a string: its first eight characters, none of them zero. *)
Lemma cstr_word m p s w :
  cstr m p s → bytes_at m p w → (length w ≤ length s)%nat → ∃ t, s = w ++ t.
Proof.
  intros [Hs _] Hw Hl. exists (drop (length w) s).
  rewrite <-(take_drop (length w) s) at 1. f_equal. apply list_eq_same_length with (length w).
  - done.
  - rewrite length_take. lia.
  - intros i c d Hi Hc Hd. rewrite lookup_take_lt in Hc by done.
    apply (lookup_app_l_Some _ [0]), Hs in Hc. apply Hw in Hd. congruence.
Qed.

Lemma word_inside w :
  Forall nonzero w → length w = 8%nat → ctrue (le_val w) = true ∧ has_zero_byte (le_val w) = false.
Proof.
  intros Hw Hl. assert (Hz : has_zero_byte (le_val w) = false).
  { apply not_true_iff_false. rewrite has_zero_byte_spec by (done || by apply nonzero_byte).
    intros [i H0]%list_elem_of_lookup. eapply Forall_lookup_1 in H0; [|exact Hw].
    unfold nonzero in H0. lia. }
  split; [|done]. unfold ctrue. destruct (Z.eqb_spec (le_val w) 0) as [E|]; [|done]. by rewrite E in Hz.
Qed.

(** The word with the terminator: it has a zero byte, and is zero only when
    the string is empty. *)
Lemma word_last m p s w :
  cstr m p s → bytes_at m p w → Forall byte w → length w = 8%nat → (length s < 8)%nat →
  has_zero_byte (le_val w) = true ∧ (ctrue (le_val w) = false → s = []).
Proof.
  intros Hs Hw Hb Hl H8. split.
  - apply has_zero_byte_spec; [done..|]. apply list_elem_of_lookup. exists (length s).
    destruct (lookup_lt_is_Some_2 w (length s)) as [c Hc]; [lia|]. pose proof (Hw _ _ Hc) as H1.
    rewrite (proj1 Hs (length s) 0) in H1; [congruence|].
    by rewrite lookup_app_r, Nat.sub_diag by lia.
  - intros E. destruct s as [|c s]; [done|]. exfalso. apply cstr_cons in Hs as (Hc & Hz & _).
    destruct w as [|b w]; simpl in Hl; [lia|]. apply bytes_at_cons in Hw as [Hb0 _].
    rewrite Hc in Hb0. simplify_eq. apply Forall_cons_1 in Hb as [_ Hb].
    pose proof (le_val_nonneg _ Hb). unfold ctrue in E. apply negb_false_iff, Z.eqb_eq in E.
    unfold nonzero in Hz. simpl in E. lia.
Qed.

(** How far the word loop reads: whole words up to the terminator. *)
Definition words (n : nat) : Z := (Z.of_nat n / 8 + 1) * 8.
Definition bytes_mem (m : mem) : Prop := ∀ a c, m !! a = Some c → byte c.

Lemma bytes_mem_upd p l m : bytes_mem m → Forall byte l → bytes_mem (upd p l m).
Proof.
  intros Hm Hl a c. rewrite upd_lookup. case_decide; [|apply Hm]. intros Hi. by eapply Forall_lookup_1 in Hi.
Qed.

Lemma words_step n : words (8 + n) = words n + 8.
Proof.
  unfold words. replace (Z.of_nat (8 + n)) with (Z.of_nat n + 1 * 8) by lia.
  rewrite Z.div_add by lia. lia.
Qed.

Lemma words_ge n : 8 ≤ words n ∧ Z.of_nat n < words n ≤ Z.of_nat n + 8.
Proof. unfold words. pose proof (Z.div_mod (Z.of_nat n) 8). pose proof (Z.mod_pos_bound (Z.of_nat n) 8). lia. Qed.

Lemma wp_copy_words m s fuel d p (Q : unit → mem → Prop) :
  let k := Z.of_nat (length s) + 1 in
  cstr m p s → bytes_mem m → (length s < fuel)%nat →
  mapped m d k → mapped m p (words (length s)) → disjoint_from d k p k →
  Q tt (upd d (s ++ [0]) m) → wp (copy_words fuel d p) Q m.
Proof.
  revert m s d p. induction fuel as [|fuel IH]; intros m s d p k Hs Hb Hf Hm Hw Ho HQ; [lia|]. subst k.
  pose proof (words_ge (length s)) as Hge. unfold disjoint_from in Ho. simpl.
  destruct (mapped_bytes m p 8) as (w & Hlw & Hwb); [lia|intros a Ha; apply Hw; lia|].
  assert (Hbw : Forall byte w) by (apply Forall_lookup; intros i c Hi; apply Hwb in Hi; eauto).
  apply wp_bind. unfold load64. replace 8%nat with (length w) by lia. apply wp_load_le; [done|].
  destruct (decide (8 ≤ length s)%nat) as [H8|H8].
  - destruct (cstr_word _ _ _ _ Hs Hwb) as [t ->]; [lia|]. destruct Hs as [Hsb [Hwn Htn]%Forall_app].
    rewrite <-app_assoc in Hsb. apply bytes_at_app in Hsb as [_ Ht].
    rewrite length_app in *. replace (length w) with 8%nat in Hw by lia. rewrite words_step in Hw.
    destruct (word_inside w Hwn) as [-> ->]; [lia|].
    apply wp_bind. unfold store64. replace 8%nat with (length w) at 1 by lia.
    apply wp_store_le; [done|intros a Ha; apply Hm; lia|].
    replace (p + 8) with (p + Z.of_nat (length w)) by lia. replace (d + 8) with (d + Z.of_nat (length w)) by lia.
    apply (IH _ t).
    + apply cstr_upd; [unfold disjoint_from; lia|done].
    + by apply bytes_mem_upd.
    + lia.
    + apply upd_mapped. intros a Ha. apply Hm. lia.
    + apply upd_mapped. intros a Ha. apply Hw. lia.
    + unfold disjoint_from. lia.
    + rewrite <-app_assoc, upd_app in HQ. rewrite upd_comm; [done|unfold disjoint_from; lia].
  - destruct (word_last _ _ _ _ Hs Hwb Hbw) as [-> He]; [lia..|].
    destruct (ctrue (le_val w)).
    + apply wp_walking, (wp_copy_bytes m s); try done. apply cstr_size in Hs. lia.
    + rewrite He in * by done. apply wp_store; [apply Hm; lia|]. done.
Qed.

(** [strcpy], along either path.  The word path reads past the terminator, to
    the end of the aligned word that holds it. *)
Lemma wp_strcpy m s dest src (Q : unit → mem → Prop) :
  let k := Z.of_nat (length s) + 1 in
  dest ≠ 0 → src ≠ 0 → cstr m src s → bytes_mem m → mapped m dest k →
  (Z.land dest 7 = 0 → Z.land src 7 = 0 → mapped m src (words (length s))) →
  disjoint_from dest k src k →
  Q tt (upd dest (s ++ [0]) m) → wp (strcpy dest src) Q m.
Proof.
  intros k Hd Hs0 Hs Hb Hm Hw Ho HQ. unfold strcpy. pose proof (cstr_size _ _ _ Hs).
  rewrite (proj2 (Z.eqb_neq dest 0)), (proj2 (Z.eqb_neq src 0)) by done. simpl.
  destruct (Z.eqb_spec (Z.land dest 7) 0), (Z.eqb_spec (Z.land src 7) 0); simpl;
    apply wp_walking;
    [apply (wp_copy_words m s)|apply (wp_copy_bytes m s)..]; auto; lia.
Qed.

Lemma wp_find_end m s fuel p (Q : Z → mem → Prop) :
  cstr m p s → (length s < fuel)%nat → Q (p + Z.of_nat (length s)) m → wp (find_end fuel p) Q m.
Proof.
  revert fuel p. induction s as [|c s IH]; intros [|fuel] p Hs Hf HQ; simpl in Hf; try lia; simpl.
  - apply cstr_nil in Hs. wp_load. simpl. apply wp_ret. by rewrite Z.add_0_r in HQ.
  - apply cstr_cons in Hs as (Hc & Hz & Hs). wp_load. rewrite nonzero_true by done.
    apply IH; [done|lia|]. simpl in HQ.
    by replace (p + 1 + Z.of_nat (length s)) with (p + Z.of_nat (S (length s))) by lia.
Qed.

Lemma wp_strcat m s t dest src (Q : unit → mem → Prop) :
  let e := dest + Z.of_nat (length t) in
  let k := Z.of_nat (length s) + 1 in
  0 < dest → src ≠ 0 → cstr m dest t → cstr m src s → bytes_mem m → mapped m e k →
  (Z.land e 7 = 0 → Z.land src 7 = 0 → mapped m src (words (length s))) →
  disjoint_from e k src k →
  Q tt (upd e (s ++ [0]) m) → wp (strcat dest src) Q m.
Proof.
  intros e k Hd Hs0 Ht Hs Hb Hm Hw Ho HQ. unfold strcat.
  rewrite (proj2 (Z.eqb_neq dest 0)), (proj2 (Z.eqb_neq src 0)) by lia. simpl.
  apply wp_bind, wp_walking, (wp_find_end m t); [done|apply cstr_size in Ht; lia|].
  apply (wp_strcpy m s); try done. lia.
Qed.

(** ** Tokens *)

Lemma cstr_take m p s k :
  cstr m p s → (k ≤ length s)%nat → cstr (upd (p + Z.of_nat k) [0] m) p (take k s).
Proof.
  intros [Hs Hn] Hk. split; [|by apply Forall_take]. apply bytes_at_app.
  rewrite length_take, Nat.min_l by done. split; [|apply upd_bytes].
  apply upd_bytes_ne; [rewrite length_take; right; simpl; lia|].
  intros i c Hi. apply Hs. apply lookup_app_l_Some.
  apply lookup_take_Some in Hi as [??]. done.
Qed.

Lemma cstr_drop m p s k : cstr m p s → (k ≤ length s)%nat → cstr m (p + Z.of_nat k) (drop k s).
Proof.
  intros [Hs Hn] Hk. split; [|by apply Forall_drop].
  rewrite <-(take_drop k s), <-app_assoc in Hs. apply bytes_at_app in Hs as [_ Hs].
  by rewrite length_take, Nat.min_l in Hs by done.
Qed.

(** [strsep] ends the token at the first delimiter and leaves the rest of the
    string; without a delimiter the token is all of it. *)
Lemma wp_strsep m s l p ct (Q : Z * Z → mem → Prop) :
  let k := span (λ c, negb (memb l c)) s in
  0 < p → cstr m p s → cstr m ct l →
  ((k < length s)%nat → cstr (upd (p + Z.of_nat k) [0] m) p (take k s) →
    cstr (upd (p + Z.of_nat k) [0] m) (p + Z.of_nat k + 1) (drop (S k) s) →
    Q (p, p + Z.of_nat k + 1) (upd (p + Z.of_nat k) [0] m)) →
  (k = length s → Q (p, 0) m) →
  wp (strsep p ct) Q m.
Proof.
  intros k Hp Hs Hl Hsome Hnone. unfold strsep. rewrite (proj2 (Z.eqb_neq p 0)) by lia.
  apply wp_bind, (wp_strpbrk m s l); [done..|]. fold k. cbv zeta.
  destruct (Nat.ltb_spec k (length s)) as [Hk|Hk].
  - unfold ctrue. rewrite (proj2 (Z.eqb_neq (p + Z.of_nat k) 0)) by lia. simpl.
    apply wp_bind, wp_store. { apply (cstr_mapped _ _ _ Hs). lia. }
    apply wp_ret. apply Hsome; [done|by apply cstr_take; [|lia]|].
    apply cstr_upd; [left; simpl; lia|].
    replace (p + Z.of_nat k + 1) with (p + Z.of_nat (S k)) by lia. by apply cstr_drop; [|lia].
  - simpl. apply wp_ret, Hnone. pose proof (span_length (λ c, negb (memb l c)) s). fold k in H. lia.
Qed.

(** ** Numbers *)

Definition horner (base : Z) (digit : Z → Z) (s : list Z) : Z :=
  foldl (λ a c, base * a + digit c) 0 s.
Definition dec_digit (c : Z) : Z := c - 48.
Definition hex_value (c : Z) : Z := if c <? 65 then c - 48 else c - 55.
Definition is_dec (c : Z) : Prop := 48 ≤ c < 58.

Lemma foldl_horner b d a s :
  foldl (λ a c, b * a + d c) a s = a * b ^ Z.of_nat (length s) + horner b d s.
Proof.
  unfold horner. revert a. induction s as [|c s IH]; intros a; simpl; [lia|].
  rewrite (IH (b * a + d c)), (IH (b * 0 + d c)).
  replace (Z.of_nat (S (length s))) with (Z.of_nat (length s) + 1) by lia.
  rewrite Z.pow_add_r by lia. lia.
Qed.

Lemma horner_cons b d c s : horner b d (c :: s) = d c * b ^ Z.of_nat (length s) + horner b d s.
Proof. unfold horner at 1. simpl. rewrite foldl_horner. lia. Qed.

Lemma horner_snoc b d s c : horner b d (s ++ [c]) = b * horner b d s + d c.
Proof. unfold horner. by rewrite foldl_app. Qed.

Lemma is_dec_nonzero s : Forall is_dec s → Forall nonzero s.
Proof. apply Forall_impl. unfold is_dec, nonzero. lia. Qed.

Lemma wp_itoa_loop m fuel n p (Q : Z * Z → mem → Prop) :
  0 < n < 10 ^ Z.of_nat fuel → n < 2 ^ 64 → mapped m (p - Z.of_nat fuel) (Z.of_nat fuel) →
  (∀ q l, 0 < q < 10 → Forall is_dec l → (length l < fuel)%nat →
    horner 10 dec_digit (48 + q :: l) = n →
    Q (q, p - Z.of_nat (length l)) (upd (p - Z.of_nat (length l)) l m)) →
  wp (itoa_loop fuel n p) Q m.
Proof.
  revert m n p Q. induction fuel as [|fuel IH]; intros m n p Q Hn H64 Hm HQ; [lia|].
  simpl. destruct (Z.leb_spec 10 n) as [H10|H10].
  - pose proof (Z.div_mod n 10 ltac:(lia)) as Hdm. pose proof (Z.mod_pos_bound n 10 ltac:(lia)) as Hmod.
    assert (Hq : u64 (n - u64 (n / 10 * 10)) = n mod 10).
    { unfold u64. rewrite (Z.mod_small (n / 10 * 10)) by lia. rewrite Z.mod_small; lia. }
    rewrite Hq. unfold u8. rewrite (Z.mod_small (48 + n mod 10)) by lia.
    apply wp_bind, wp_store; [apply Hm; lia|].
    change (<[?a:=?c]> m) with (upd a [c] m).
    apply IH; [|lia|apply upd_mapped; intros a Ha; apply Hm; lia|].
    + replace (Z.of_nat (S fuel)) with (Z.of_nat fuel + 1) in Hn by lia. rewrite Z.pow_add_r in Hn by lia. lia.
    + intros q l Hq' Hl Hlen Hv.
      specialize (HQ q (l ++ [48 + n mod 10])). rewrite length_app in HQ. simpl in HQ.
      replace (p - Z.of_nat (length l + 1)) with (p - 1 - Z.of_nat (length l)) in HQ by lia.
      rewrite upd_app in HQ.
      replace (p - 1 - Z.of_nat (length l) + Z.of_nat (length l)) with (p - 1) in HQ by lia.
      apply HQ; [done| |lia|].
      * apply Forall_app. split; [done|]. constructor; [unfold is_dec; lia|done].
      * rewrite (app_comm_cons l _ (48 + q)), horner_snoc, Hv. unfold dec_digit. lia.
  - apply wp_ret. specialize (HQ n []). simpl in HQ. rewrite Z.sub_0_r in HQ.
    apply HQ; [lia|done|lia|]. unfold horner, dec_digit. simpl. lia.
Qed.

(** Everything outside the buffer and the local array is as it was. *)
Definition only_changes (m m' : mem) (f : Z → Prop) : Prop := ∀ a, ¬ f a → m' !! a = m !! a.

Lemma wp_itoa m temp n buffer (Q : unit → mem → Prop) :
  0 ≤ n < 2 ^ 64 → buffer ≠ 0 → 0 < temp → bytes_mem m →
  mapped m temp 28 → mapped m buffer 21 → disjoint_from buffer 21 temp 28 →
  (∀ s m', cstr m' buffer s → Forall is_dec s → (length s ≤ 20)%nat → horner 10 dec_digit s = n →
    (0 < n → s !! 0%nat ≠ Some 48) →
    only_changes m m' (λ a, buffer ≤ a ≤ buffer + Z.of_nat (length s) ∨ temp ≤ a ≤ temp + 20) → Q tt m') →
  wp (itoa temp n buffer) Q m.
Proof.
  intros Hn Hb0 Ht0 Hbm Ht Hb Ho HQ. unfold disjoint_from in Ho. unfold itoa.
  destruct (Z.eqb_spec n 0) as [->|Hne].
  - apply wp_bind, wp_store; [apply Hb; lia|].
    apply wp_store. { change (<[?a:=?c]> m) with (upd a [c] m). apply (upd_mapped _ _ _ _ _ Hb). lia. }
    apply (HQ [48]); [|by repeat constructor|simpl; lia|done|lia|].
    + apply cstr_cons. rewrite lookup_insert_ne, Z.add_0_r, lookup_insert_eq by lia.
      split; [done|]. split; [done|]. apply cstr_nil. apply lookup_insert_eq.
    + intros a Ha. simpl in Ha. rewrite !lookup_insert_ne by lia. done.
  - apply wp_bind, wp_store; [apply Ht; lia|]. apply wp_bind.
    change (<[?a:=?c]> m) with (upd a [c] m).
    apply wp_itoa_loop; [lia|lia|apply upd_mapped; intros a Ha; apply Ht; lia|].
    intros q l Hq Hl Hlen Hv.
    set (p := temp + 20 - Z.of_nat (length l)) in *. set (t := 48 + q :: l).
    assert (Hm1 : <[p - 1:=48 + q]> (upd p l (upd (temp + 20) [0] m)) = upd (p - 1) (t ++ [0]) m).
    { cbn [upd app t]. rewrite upd_app. replace (p - 1 + 1) with p by lia.
      by replace (p + Z.of_nat (length l)) with (temp + 20) by lia. }
    assert (Hdec : Forall is_dec t) by (constructor; [unfold is_dec; lia|done]).
    assert (Hlt : Z.of_nat (length t) = Z.of_nat (length l) + 1) by (unfold t; simpl; lia).
    unfold u8. rewrite (Z.mod_small (48 + q)) by lia.
    apply wp_bind, wp_store; [apply (upd_mapped _ _ _ temp 28); [by apply upd_mapped|lia]|].
    rewrite Hm1. pose proof (words_ge (length t)) as Hw.
    apply (wp_strcpy _ t).
    + done.
    + lia.
    + split; [apply upd_bytes|by apply is_dec_nonzero].
    + apply bytes_mem_upd; [done|]. apply Forall_app.
      split; [by apply nonzero_byte, is_dec_nonzero|by repeat constructor].
    + apply upd_mapped. intros a Ha. apply Hb. lia.
    + intros _ _. apply upd_mapped. intros a Ha. apply Ht. lia.
    + unfold disjoint_from. lia.
    + apply (HQ t); [split; [apply upd_bytes|by apply is_dec_nonzero]|done|lia|done|simpl; intros _ [=]; lia|].
      intros a Ha. rewrite !upd_out; [done|rewrite length_app; simpl; lia..].
Qed.

(** *** Hexadecimal *)

Lemma hex_digit_value n sh :
  0 ≤ n → 0 ≤ sh → nonzero (hex_digit n sh) ∧ hex_value (hex_digit n sh) = Z.shiftr n sh mod 16.
Proof.
  intros Hn Hs. unfold hex_digit. change 15 with (2 ^ 4 - 1). rewrite land_ones_mod by lia.
  change (2 ^ 4) with 16. pose proof (Z.mod_pos_bound (Z.shiftr n sh) 16 ltac:(lia)) as Hm.
  set (d := Z.shiftr n sh mod 16) in *. clearbody d.
  assert (Hd : d ∈ [0;1;2;3;4;5;6;7;8;9;10;11;12;13;14;15]).
  { rewrite !elem_of_cons. lia. }
  repeat (apply elem_of_cons in Hd as [->|Hd]; [done|]). by apply elem_of_nil in Hd.
Qed.

(** The sixteen digits from bit [4 k] up. *)
Fixpoint hex_list (k : nat) (n : Z) : list Z :=
  match k with
  | O => []
  | S k => hex_digit n (4 * Z.of_nat k) :: hex_list k n
  end.

Lemma hex_list_value k n :
  0 ≤ n → Forall nonzero (hex_list k n) ∧ horner 16 hex_value (hex_list k n) = n mod 16 ^ Z.of_nat k.
Proof.
  intros Hn. assert (Hlen : ∀ k, length (hex_list k n) = k) by (intros j; induction j; simpl; congruence).
  induction k as [|k [IHn IHv]]; [split; [constructor|by rewrite Z.mod_1_r]|].
  destruct (hex_digit_value n (4 * Z.of_nat k)) as [H1 H2]; [lia..|].
  split; [by constructor|]. cbn [hex_list]. rewrite horner_cons, Hlen, IHv, H2.
  rewrite Z.shiftr_div_pow2, Z.pow_mul_r by lia. change (2 ^ 4) with 16.
  replace (Z.of_nat (S k)) with (Z.of_nat k + 1) by lia. rewrite Z.pow_add_r by lia.
  pose proof (Z.pow_pos_nonneg 16 (Z.of_nat k)). change (16 ^ 1) with 16.
  rewrite (Z.rem_mul_r n (16 ^ Z.of_nat k) 16) by lia. lia.
Qed.

Lemma wp_stores m p l c (k : ST mem unit) (Q : unit → mem → Prop) :
  is_Some (m !! (p + Z.of_nat (length l))) →
  wp k Q (upd p (l ++ [c]) m) →
  wp (store (p + Z.of_nat (length l)) c;; k) Q (upd p l m).
Proof.
  intros Hm Hk. apply wp_bind, wp_store.
  - rewrite upd_out by lia. done.
  - by rewrite <-upd_snoc.
Qed.

Lemma wp_htoa m n buffer (Q : unit → mem → Prop) :
  buffer ≠ 0 → mapped m buffer 19 → Q tt (upd buffer ([48; 120] ++ hex_list 16 n ++ [0]) m) →
  wp (htoa n buffer) Q m.
Proof.
  intros Hb Hm HQ. unfold htoa. rewrite (proj2 (Z.eqb_neq buffer 0)) by done.
  change m with (upd buffer [] m) at 1.
  do 18 (apply wp_stores; [apply Hm; simpl; lia|]; simpl app).
  apply wp_store; [rewrite upd_out by (simpl; lia); apply Hm; lia|].
  change 18 with (Z.of_nat 18). rewrite <-(upd_snoc buffer ([48; 120] ++ hex_list 16 n)).
  by rewrite <-app_assoc.
Qed.
