(* ===== verification/CStringClaims.v ===== *)
(** * The string and memory routines: the properties

    What callers rely on, each with an instance at a concrete memory. *)
From stdpp Require Import base gmap list option numbers.
From Stdlib Require Import ZArith Lia.
From S2P Require Import Prelude CString CStringThm CStringCopy.
Import CString.
#[local] Open Scope Z_scope.

(** A memory of [n] bytes from [p] on, all zero. *)
Fixpoint zeroes (p : Z) (n : nat) : mem :=
  match n with O => ∅ | S n => <[p:=0]> (zeroes (p + 1) n) end.

Definition mappedb (m : mem) (p : Z) (n : nat) : bool :=
  forallb (λ i, bool_decide (is_Some (m !! (p + Z.of_nat i)))) (seq 0 n).
Lemma mappedb_ok m p n : mappedb m p n = true → mapped m p (Z.of_nat n).
Proof.
  unfold mappedb. rewrite forallb_forall. intros H a Ha.
  specialize (H (Z.to_nat (a - p))). rewrite in_seq in H.
  replace (p + Z.of_nat (Z.to_nat (a - p))) with a in H by lia.
  eapply bool_decide_eq_true_1, H. lia.
Qed.

Definition bytesb (m : mem) (p : Z) (l : list Z) : bool :=
  forallb (λ ic, bool_decide (m !! (p + Z.of_nat ic.1) = Some ic.2)) (imap pair l).
Lemma bytesb_ok m p l : bytesb m p l = true → bytes_at m p l.
Proof.
  unfold bytesb. rewrite forallb_forall. intros H i c Hi.
  specialize (H (i, c)). eapply bool_decide_eq_true_1, H.
  apply list_elem_of_In, list_elem_of_lookup. exists i. by rewrite list_lookup_imap, Hi.
Qed.

Definition bytes_memb (m : mem) : bool :=
  bool_decide (map_Forall (λ _ c, 0 ≤ c < 256) m).
Lemma bytes_memb_ok m : bytes_memb m = true → bytes_mem m.
Proof. intros H%bool_decide_eq_true_1 a c Ha. exact (H a c Ha). Qed.

(** 64 bytes from 1000 on (an address that is a multiple of 8), with two
    strings in them. *)
Definition demo_mem : mem :=
  upd 1000 [97; 98; 44; 99; 100; 101; 102; 103; 104; 105; 0]
    (upd 1056 [44; 59; 0] (zeroes 1000 64)).

(** [strcpy], on both of its paths.  The copy a word at a time and the copy
    a byte at a time have the same effect: the string and its terminator are
    written to the destination and nothing else changes, provided the memory
    is mapped to the end of the aligned word that holds the terminator. *)
Theorem strcpy_correct (m : mem) (s : list Z) (dest src : Z) :
  let k := Z.of_nat (length s) + 1 in
  dest ≠ 0 → src ≠ 0 → cstr m src s → bytes_mem m → mapped m dest k →
  (Z.land dest 7 = 0 → Z.land src 7 = 0 → mapped m src (words (length s))) →
  disjoint_from dest k src k →
  strcpy dest src m = Some (tt, upd dest (s ++ [0]) m) ∧
  walking (λ fuel, copy_bytes fuel dest src) m = strcpy dest src m ∧
  cstr (upd dest (s ++ [0]) m) dest s.
Proof.
  intros k Hd Hs0 Hs Hb Hm Hw Ho.
  destruct (wp_strcpy m s dest src (λ _ m', m' = upd dest (s ++ [0]) m)) as ([] & m1 & E1 & ->); try done.
  destruct (wp_copy_bytes m s (S (size m)) dest src (λ _ m', m' = upd dest (s ++ [0]) m))
    as ([] & m2 & E2 & ->); try done; [apply cstr_size in Hs; lia|].
  split; [done|]. split; [by rewrite E1|]. split; [apply upd_bytes|apply Hs].
Qed.

Lemma strcpy_correct_witness :
  strcpy 1024 1000 demo_mem
  = Some (tt, upd 1024 [97; 98; 44; 99; 100; 101; 102; 103; 104; 105; 0] demo_mem).
Proof.
  refine (proj1 (strcpy_correct demo_mem [97; 98; 44; 99; 100; 101; 102; 103; 104; 105] 1024 1000 _ _ _ _ _ _ _)).
  - lia.
  - lia.
  - split; [apply bytesb_ok; vm_compute; reflexivity|repeat constructor].
  - apply bytes_memb_ok. vm_compute. reflexivity.
  - apply (mappedb_ok demo_mem 1024 11). vm_compute. reflexivity.
  - intros _ _. apply (mappedb_ok demo_mem 1000 16). vm_compute. reflexivity.
  - right. simpl. lia.
Defined.

(** [memmove] copies as if through a temporary: the destination receives the
    bytes the source held before the call, whether or not and however the two
    overlap, and nothing else changes. *)
Theorem memmove_correct (m : mem) (dest src : Z) (l : list Z) :
  bytes_at m src l → mapped m dest (Z.of_nat (length l)) →
  memmove dest src (Z.of_nat (length l)) m = Some (dest, upd dest l m).
Proof.
  intros Hs Hd.
  destruct (wp_memmove m dest src l (λ r m', r = dest ∧ m' = upd dest l m)) as (r & m' & E & -> & ->); done.
Qed.

Lemma memmove_correct_witness :
  memmove 1002 1000 8 demo_mem = Some (1002, upd 1002 [97; 98; 44; 99; 100; 101; 102; 103] demo_mem).
Proof.
  apply (memmove_correct demo_mem 1002 1000 [97; 98; 44; 99; 100; 101; 102; 103]).
  - apply bytesb_ok. vm_compute. reflexivity.
  - apply (mappedb_ok demo_mem 1002 8). vm_compute. reflexivity.
Defined.

(** [strcmp] and [strncmp] decide the lexicographic order of strings (of
    their prefixes of [n] characters): zero exactly on equal strings, negative
    exactly when the first is smaller.  They do not write. *)
Theorem strcmp_correct (m : mem) (a b n : Z) (s t : list Z) :
  cstr m a s → cstr m b t → 0 ≤ n →
  let s' := take (Z.to_nat n) s in let t' := take (Z.to_nat n) t in
  ∃ r r', strcmp a b m = Some (r, m) ∧ (r = 0 ↔ s = t) ∧ (r < 0 ↔ str_lt s t) ∧
    strncmp a b n m = Some (r', m) ∧ (r' = 0 ↔ s' = t') ∧ (r' < 0 ↔ str_lt s' t').
Proof.
  intros Hs Ht Hn s' t'. exists (str_cmp s t), (str_cmp s' t').
  destruct (wp_strcmp m s t a b (λ r m', r = str_cmp s t ∧ m' = m)) as (? & ? & E1 & -> & ->); try done.
  destruct (wp_strncmp_rd m (λ i, load (a + i)) (λ i, load (b + i)) s t n
    (λ r m', r = str_cmp s' t' ∧ m' = m)) as (? & ? & E2 & -> & ->);
    try done; [by apply reads_cstr..|apply Hs|apply Ht|].
  destruct Hs as [_ Hs], Ht as [_ Ht].
  assert (Forall nonzero s' ∧ Forall nonzero t') as [Hs' Ht'] by (split; by apply Forall_take).
  split; [done|]. split; [by apply str_cmp_zero|]. split; [by apply str_cmp_neg|].
  split; [done|]. split; [by apply str_cmp_zero|by apply str_cmp_neg].
Qed.

Lemma strcmp_correct_witness :
  ∃ r r', strcmp 1000 1056 demo_mem = Some (r, demo_mem) ∧
    (r = 0 ↔ [97; 98; 44; 99; 100; 101; 102; 103; 104; 105] = [44; 59]) ∧
    (r < 0 ↔ str_lt [97; 98; 44; 99; 100; 101; 102; 103; 104; 105] [44; 59]) ∧
    strncmp 1000 1056 1 demo_mem = Some (r', demo_mem) ∧ (r' = 0 ↔ [97] = [44]) ∧
    (r' < 0 ↔ str_lt [97] [44]).
Proof.
  apply (strcmp_correct demo_mem 1000 1056 1
    [97; 98; 44; 99; 100; 101; 102; 103; 104; 105] [44; 59]).
  - split; [apply bytesb_ok; vm_compute; reflexivity|repeat constructor].
  - split; [apply bytesb_ok; vm_compute; reflexivity|repeat constructor].
  - lia.
Defined.

(** [strsep] splits off one token: it returns the string it was given, cut
    at the first character of the delimiter set, and advances to what follows
    that delimiter; without a delimiter it returns the whole string and sets
    the position to NULL.  Given NULL it returns NULL. *)
Theorem strsep_correct (m : mem) (p ct : Z) (s l : list Z) :
  0 < p → cstr m p s → cstr m ct l →
  strsep 0 ct m = Some ((0, 0), m) ∧
  ∃ rest m', strsep p ct m = Some ((p, rest), m') ∧
    ((∃ tok c tail, s = tok ++ c :: tail ∧ c ∈ l ∧ (∀ x, x ∈ tok → x ∉ l) ∧
       cstr m' p tok ∧ cstr m' rest tail ∧ only_changes m m' (λ a, a = p + Z.of_nat (length tok))) ∨
     ((∀ x, x ∈ s → x ∉ l) ∧ rest = 0 ∧ m' = m)).
Proof.
  intros Hp Hs Hl. split; [done|].
  set (f := λ c, negb (memb l c)). set (k := span f s).
  assert (Hf : ∀ x, f x = true ↔ x ∉ l).
  { intros x. unfold f, memb. rewrite negb_true_iff. apply bool_decide_eq_false. }
  assert (Hin : ∀ x, x ∈ take k s → x ∉ l).
  { intros x [i Hi]%list_elem_of_lookup. apply Hf. by eapply Forall_lookup_1 in Hi; [|apply span_prefix]. }
  destruct (wp_strsep m s l p ct (λ r m', r.1 = p ∧
    ((∃ tok c tail, s = tok ++ c :: tail ∧ c ∈ l ∧ (∀ x, x ∈ tok → x ∉ l) ∧
       cstr m' p tok ∧ cstr m' r.2 tail ∧ only_changes m m' (λ a, a = p + Z.of_nat (length tok))) ∨
     ((∀ x, x ∈ s → x ∉ l) ∧ r.2 = 0 ∧ m' = m)))) as ([r rest] & m' & E & Hr & HQ); try done.
  - fold f. fold k. intros Hk Htok Htail. split; [done|]. left.
    destruct (lookup_lt_is_Some_2 s k Hk) as [c Hc]. exists (take k s), c, (drop (S k) s).
    split; [by rewrite take_drop_middle|]. split.
    { destruct (decide (c ∈ l)); [done|]. apply span_stop in Hc. by rewrite (proj2 (Hf c)) in Hc. }
    split; [done|]. split; [done|]. split; [done|].
    intros a Ha. rewrite length_take, Nat.min_l in Ha by lia. rewrite upd_out; [done|]. simpl. lia.
  - fold f. fold k. intros Hk. split; [done|]. right. split; [|done]. by rewrite Hk, take_ge in Hin.
  - simpl in *. subst r. by exists rest, m'.
Qed.

Lemma strsep_correct_witness :
  strsep 0 1056 demo_mem = Some ((0, 0), demo_mem) ∧
  ∃ rest m', strsep 1000 1056 demo_mem = Some ((1000, rest), m') ∧
    ((∃ tok c tail, [97; 98; 44; 99; 100; 101; 102; 103; 104; 105] = tok ++ c :: tail ∧
       c ∈ [44; 59] ∧ (∀ x, x ∈ tok → x ∉ [44; 59]) ∧ cstr m' 1000 tok ∧ cstr m' rest tail ∧
       only_changes demo_mem m' (λ a, a = 1000 + Z.of_nat (length tok))) ∨
     ((∀ x, x ∈ [97; 98; 44; 99; 100; 101; 102; 103; 104; 105] → x ∉ [44; 59]) ∧
      rest = 0 ∧ m' = demo_mem)).
Proof.
  apply (strsep_correct demo_mem 1000 1056
    [97; 98; 44; 99; 100; 101; 102; 103; 104; 105] [44; 59]).
  - lia.
  - split; [apply bytesb_ok; vm_compute; reflexivity|repeat constructor].
  - split; [apply bytesb_ok; vm_compute; reflexivity|repeat constructor].
Defined.

(** [itoa] and [htoa] are inverted by reading the digits back: for every
    64-bit number the text in the buffer has that value, in decimal without
    leading zeros and at most twenty digits, and in hexadecimal as "0x" and
    sixteen digits; only the buffer and the local array of [itoa] change. *)
Theorem itoa_htoa_roundtrip (m : mem) (temp n buffer : Z) :
  0 ≤ n < 2 ^ 64 → buffer ≠ 0 → 0 < temp → bytes_mem m →
  mapped m temp 28 → mapped m buffer 21 → disjoint_from buffer 21 temp 28 →
  (∃ s m', itoa temp n buffer m = Some (tt, m') ∧ cstr m' buffer s ∧ Forall is_dec s ∧
    (length s ≤ 20)%nat ∧ horner 10 dec_digit s = n ∧ (0 < n → s !! 0%nat ≠ Some 48) ∧
    only_changes m m' (λ a, buffer ≤ a ≤ buffer + Z.of_nat (length s) ∨ temp ≤ a ≤ temp + 20)) ∧
  (∃ s m', htoa n buffer m = Some (tt, m') ∧ cstr m' buffer ([48; 120] ++ s) ∧
    length s = 16%nat ∧ horner 16 hex_value s = n ∧
    only_changes m m' (λ a, buffer ≤ a < buffer + 19)).
Proof.
  intros Hn Hb0 Ht0 Hbm Ht Hb Ho. split.
  - destruct (wp_itoa m temp n buffer (λ _ m', ∃ s, cstr m' buffer s ∧ Forall is_dec s ∧
      (length s ≤ 20)%nat ∧ horner 10 dec_digit s = n ∧ (0 < n → s !! 0%nat ≠ Some 48) ∧
      only_changes m m' (λ a, buffer ≤ a ≤ buffer + Z.of_nat (length s) ∨ temp ≤ a ≤ temp + 20)))
      as ([] & m' & E & s & HQ); try done; [|by exists s, m'].
    intros s m' ??????. by exists s.
  - destruct (hex_list_value 16 n) as [Hz Hv]; [lia|]. exists (hex_list 16 n).
    eexists. split; [|split; [split; [apply upd_bytes|]|split; [done|split]]].
    + destruct (wp_htoa m n buffer (λ _ m', m' = upd buffer (([48; 120] ++ hex_list 16 n) ++ [0]) m))
        as ([] & m' & E & ->); [done|intros a Ha; apply Hb; lia|by rewrite <-app_assoc|done].
    + apply Forall_app. split; [by repeat constructor|done].
    + rewrite Hv. apply Z.mod_small. done.
    + intros a Ha. by apply upd_out.
Qed.

Lemma itoa_htoa_roundtrip_witness :
  (∃ s m', itoa 1032 1234567 1000 demo_mem = Some (tt, m') ∧ cstr m' 1000 s ∧ Forall is_dec s ∧
    (length s ≤ 20)%nat ∧ horner 10 dec_digit s = 1234567 ∧ (0 < 1234567 → s !! 0%nat ≠ Some 48) ∧
    only_changes demo_mem m' (λ a, 1000 ≤ a ≤ 1000 + Z.of_nat (length s) ∨ 1032 ≤ a ≤ 1032 + 20)) ∧
  (∃ s m', htoa 1234567 1000 demo_mem = Some (tt, m') ∧ cstr m' 1000 ([48; 120] ++ s) ∧
    length s = 16%nat ∧ horner 16 hex_value s = 1234567 ∧
    only_changes demo_mem m' (λ a, 1000 ≤ a < 1000 + 19)).
Proof.
  apply (itoa_htoa_roundtrip demo_mem 1032 1234567 1000).
  - lia.
  - lia.
  - lia.
  - apply bytes_memb_ok. vm_compute. reflexivity.
  - apply (mappedb_ok demo_mem 1032 28). vm_compute. reflexivity.
  - apply (mappedb_ok demo_mem 1000 21). vm_compute. reflexivity.
  - left. lia.
Defined.

(** With room for no byte at all, [strncpy] still writes a terminator. *)
Lemma strncpy_zero_writes :
  strncpy 1000 1056 0 demo_mem = Some (tt, <[1000:=0]> demo_mem).
Proof. reflexivity. Qed.
