(* ===== verification/Dtb.v ===== *)
(** * The flattened device tree (drivers/dtb.c, and the parsers of mm/pmm.c):
      translation

    The blob lives in the byte memory of CString.v.  Positions in it are
    [uint32_t], so they wrap; depths are [int] and cannot reach their bounds,
    since every change of depth consumes at least four bytes of the blob.
    Local character arrays are lists of cells: reading a cell that was not
    written is undefined, and so is any access outside the array. *)
From stdpp Require Import base gmap list option numbers strings.
From S2P Require Import Prelude CString.
Import CString.
#[local] Open Scope Z_scope.

(** String literals as lists of characters. *)
Definition lit (s : string) : list Z :=
  map (λ c, Z.of_N (Ascii.N_of_ascii c)) (String.list_ascii_of_string s).
#[global] Arguments lit : simpl never.

Module Dtb.

Definition DTB_MAGIC : Z := 0xd00dfeed.
Definition DTB_BEGIN_NODE : Z := 1.
Definition DTB_END_NODE : Z := 2.
Definition DTB_PROP : Z := 3.
Definition DTB_NOP : Z := 4.
Definition DTB_END : Z := 9.

(** Offsets of the fields of [struct dtb_header]. *)
Definition hdr_magic : Z := 0.
Definition hdr_totalsize : Z := 4.
Definition hdr_off_dt_struct : Z := 8.
Definition hdr_off_dt_strings : Z := 12.
Definition hdr_version : Z := 20.

(** The globals of drivers/dtb.c and the memory they point into. *)
Record dtb := {
  ram : mem;
  dtb_ptr : Z;
  boot_x0 : Z;
}.
Definition set_ptr (v : Z) (s : dtb) : dtb :=
  {| ram := ram s; dtb_ptr := v; boot_x0 := boot_x0 s |}.
Definition on_ram {A} (m : ST mem A) : ST dtb A :=
  zoom ram (λ r s, {| ram := r; dtb_ptr := dtb_ptr s; boot_x0 := boot_x0 s |}) m.

(** ** Helpers *)

Definition be32_to_cpu (val : Z) : Z :=
  Z.lor (Z.lor (Z.lor (u32 (Z.shiftl (Z.land val 0xFF) 24)) (u32 (Z.shiftl (Z.land val 0xFF00) 8)))
    (Z.shiftr (Z.land val 0xFF0000) 8)) (Z.shiftr (Z.land val 0xFF000000) 24).

(** [be32_to_cpu( *(uint32_t * )a )]. *)
Definition be32_at (a : Z) : ST mem Z := v ← load_le 4 a; mret (be32_to_cpu v).

Definition align4 (x : Z) : Z := Z.land (u32 (x + 3)) (u32 (Z.lnot 3)).

(** Local character arrays. *)
Abbreviation arr := (list (option Z)).
Definition arr_get {S} (a : arr) (i : Z) : ST S Z := deref (mjoin (a !! Z.to_nat i)).
Definition arr_put {S} (a : arr) (i c : Z) : ST S arr :=
  if (i <? Z.of_nat (length a)) then mret (<[Z.to_nat i := Some c]> a) else undef.

(** The arrays have 256 cells: no loop over one takes more iterations. *)
Definition arr_size : Z := 256.
Definition arr_fuel : nat := 257.
#[global] Arguments arr_fuel : simpl never.
Definition new_arr : arr := replicate (Z.to_nat arr_size) None.
#[global] Arguments new_arr : simpl never.

Fixpoint path_equals_loop {S} (fuel : nat) (a b : arr) (i : Z) : ST S bool :=
  match fuel with
  | O => undef
  | Datatypes.S fuel =>
      ca ← arr_get a i;
      cb ← arr_get b i;
      if ctrue ca && ctrue cb then
        if negb (ca =? cb) then mret false else path_equals_loop fuel a b (i + 1)
      else mret ((ca =? 0) && (cb =? 0))
  end.
Definition path_equals {S} (a b : arr) : ST S bool := path_equals_loop arr_fuel a b 0.

(** The length of the token; it starts at [val]. *)
Definition extract_path_token (val len : Z) : ST mem Z :=
  r ← for_ret (Z.to_nat len) 0 (λ l,
    c ← load (val + l);
    if (c =? 0) || (c =? 58) || (c =? 44) then mret (Some l) else mret None);
  mret (default len r).

(** [while (name[name_len] != 0) name_len++]. *)
Fixpoint name_len_loop (fuel : nat) (name n : Z) : ST mem Z :=
  match fuel with
  | O => undef
  | S fuel =>
      c ← load (name + n);
      if negb (c =? 0) then name_len_loop fuel name (n + 1) else mret n
  end.
Definition name_len (name : Z) : ST mem Z := walking (λ fuel, name_len_loop fuel name 0).

(** ** Finding the blob *)

Definition locations : list Z := [0x48000000; 0x7ff00000; 0x44000000; 0x50000000].

Fixpoint try_locations (ls : list Z) : ST mem Z :=
  match ls with
  | [] => mret 0
  | a :: ls =>
      v ← load_le 4 a;
      if be32_to_cpu v =? DTB_MAGIC then mret a else try_locations ls
  end.

(** [kernel_end] is the address of the linker symbol. *)
Definition dtb_search (kernel_end : Z) : ST mem Z :=
  r ← try_locations locations;
  if ctrue r then mret r
  else
    let start := Z.land (u64 (kernel_end + 0xfffff)) (u64 (Z.lnot 0xfffff)) in
    let stop := 0x50000000 in
    r ← for_ret (Z.to_nat ((stop - start + 0xfff) / 0x1000)) 0 (λ i,
      let addr := start + i * 0x1000 in
      v ← load_le 4 addr;
      mret (if be32_to_cpu v =? DTB_MAGIC then Some addr else None));
    mret (default 0 r).

Definition dtb_init (kernel_end : Z) : ST dtb unit :=
  ptr ← gets dtb_ptr;
  x0 ← gets boot_x0;
  let dtb_addr := if ctrue ptr then ptr else x0 in
  dtb_addr ← (if negb (ctrue dtb_addr) then on_ram (dtb_search kernel_end) else mret dtb_addr);
  if negb (ctrue dtb_addr) then mret tt
  else
    modify (set_ptr dtb_addr);;
    magic ← on_ram (be32_at (dtb_addr + hdr_magic));
    if negb (magic =? DTB_MAGIC) then mret tt else mret tt.

(** The three words it prints. *)
Definition dtb_dump_info : ST dtb (option (Z * Z * Z)) :=
  ptr ← gets dtb_ptr;
  if negb (ctrue ptr) then mret None
  else
    magic ← on_ram (be32_at (ptr + hdr_magic));
    totalsize ← on_ram (be32_at (ptr + hdr_totalsize));
    version ← on_ram (be32_at (ptr + hdr_version));
    mret (Some (magic, totalsize, version)).

Definition dtb_get : ST dtb Z := gets dtb_ptr.

(** ** The console's UART: first pass *)

Record pass1 := {
  depth : Z;
  stdout_token : Z;
  stdout_token_len : Z;
  aliases : list (Z * Z);
}.
Definition set_depth (d : Z) (s : pass1) : pass1 :=
  {| depth := d; stdout_token := stdout_token s; stdout_token_len := stdout_token_len s;
     aliases := aliases s |}.
Definition set_token (q l : Z) (s : pass1) : pass1 :=
  {| depth := depth s; stdout_token := q; stdout_token_len := l; aliases := aliases s |}.
Definition add_alias (name path : Z) (s : pass1) : pass1 :=
  {| depth := depth s; stdout_token := stdout_token s; stdout_token_len := stdout_token_len s;
     aliases := aliases s ++ [(name, path)] |}.

(** One property of the node being read. *)
Definition prop1 (in_chosen in_aliases : bool) (pname pdata len : Z) (s : pass1) : ST mem pass1 :=
  out ← (if in_chosen then
           r ← strncmp_lit pname (lit "stdout-path") 11;
           if r =? 0 then mret true
           else r ← strncmp_lit pname (lit "stdout") 6; mret (r =? 0)
         else mret false);
  if out : bool then l ← extract_path_token pdata len; mret (set_token pdata l s)
  else if in_aliases && (Z.of_nat (length (aliases s)) <? 16) then mret (add_alias pname pdata s)
  else mret s.

(** The loop over the properties of a node.  The first component of the result
    is [true] for [goto pass1_done]. *)
Fixpoint props1 (fuel : nat) (fdt strings : Z) (in_chosen in_aliases : bool) (p : Z) (s : pass1)
    : ST mem (bool * (Z * pass1)) :=
  match fuel with
  | O => undef
  | S fuel =>
      ptok ← be32_at (fdt + p);
      let p := u32 (p + 4) in
      if ptok =? DTB_PROP then
        len ← be32_at (fdt + p);
        let p := u32 (p + 4) in
        nameoff ← be32_at (fdt + p);
        let p := u32 (p + 4) in
        s ← prop1 in_chosen in_aliases (strings + nameoff) (fdt + p) len s;
        props1 fuel fdt strings in_chosen in_aliases (u32 (p + align4 len)) s
      else if ptok =? DTB_END_NODE then mret (false, (p, set_depth (depth s - 1) s))
      else if ptok =? DTB_NOP then props1 fuel fdt strings in_chosen in_aliases p s
      else if ptok =? DTB_END then mret (true, (p, s))
      else if ptok =? DTB_BEGIN_NODE then mret (false, (u32 (p - 4), s))
      else mret (true, (p, s))
  end.

Fixpoint pass1_loop (fuel : nat) (fdt strings : Z) (p : Z) (s : pass1) : ST mem pass1 :=
  match fuel with
  | O => undef
  | S fuel =>
      token ← be32_at (fdt + p);
      let p := u32 (p + 4) in
      if token =? DTB_BEGIN_NODE then
        let name := fdt + p in
        n ← name_len name;
        let p := u32 (p + align4 (u32 (n + 1))) in
        let s := if depth s <? 16 then set_depth (depth s + 1) s else s in
        flags ← (if depth s =? 2 then
                   r1 ← strncmp_lit name (lit "chosen") 6;
                   r2 ← strncmp_lit name (lit "aliases") 7;
                   mret (r1 =? 0, r2 =? 0)
                 else mret (false, false));
        r ← walking (λ fuel, props1 fuel fdt strings flags.1 flags.2 p s);
        let '(fin, (p, s)) := r : bool * (Z * pass1) in
        if fin then mret s else pass1_loop fuel fdt strings p s
      else if token =? DTB_END_NODE then
        pass1_loop fuel fdt strings p (if 0 <? depth s then set_depth (depth s - 1) s else s)
      else if token =? DTB_PROP then
        len ← be32_at (fdt + p);
        let p := u32 (p + 4) in
        let p := u32 (p + 4) in
        pass1_loop fuel fdt strings (u32 (p + align4 len)) s
      else if token =? DTB_NOP then pass1_loop fuel fdt strings p s
      else if token =? DTB_END then mret s
      else mret s
  end.

(** ** The console's UART: the path of the node *)

(** [for (i = 0; i < n; ++i) buf[i] = src[i]]. *)
Fixpoint copy_to (n : nat) (i src : Z) (buf : arr) : ST mem arr :=
  match n with
  | O => mret buf
  | S n => c ← load (src + i); buf ← arr_put buf i c; copy_to n (i + 1) src buf
  end.

(** Where the alias name and the token stop agreeing. *)
Fixpoint match_alias (fuel : nat) (an tok len j : Z) : ST mem Z :=
  match fuel with
  | O => undef
  | S fuel =>
      a ← load (an + j);
      if ctrue a && negb (a =? 0) then
        t ← load (tok + j);
        if ctrue t && (j <? len) && (a =? t) then match_alias fuel an tok len (j + 1)
        else mret j
      else mret j
  end.

Fixpoint copy_alias (fuel : nat) (ap k : Z) (buf : arr) : ST mem (Z * arr) :=
  match fuel with
  | O => undef
  | S fuel =>
      c ← load (ap + k);
      if ctrue c && (k <? arr_size - 1) then
        buf ← arr_put buf k c; copy_alias fuel ap (k + 1) buf
      else mret (k, buf)
  end.

Fixpoint find_alias (als : list (Z * Z)) (tok len : Z) : ST mem (option arr) :=
  match als with
  | [] => mret None
  | (an, ap) :: als =>
      j ← walking (λ fuel, match_alias fuel an tok len 0);
      a ← load (an + j);
      if (j =? len) && (a =? 0) then
        r ← copy_alias arr_fuel ap 0 new_arr;
        buf ← arr_put r.2 r.1 0;
        mret (Some buf)
      else find_alias als tok len
  end.

Definition resolve (s : pass1) : ST mem (option arr) :=
  let tok := stdout_token s in
  let len := stdout_token_len s in
  if (tok =? 0) || (len =? 0) then mret None
  else
    c ← load tok;
    if c =? 47 then
      let n := if len <? arr_size - 1 then len else arr_size - 1 in
      buf ← copy_to (Z.to_nat n) 0 tok new_arr;
      buf ← arr_put buf n 0;
      mret (Some buf)
    else find_alias (aliases s) tok len.

(** ** The console's UART: second pass *)

Fixpoint arr_len {S} (fuel : nat) (a : arr) (i : Z) : ST S Z :=
  match fuel with
  | O => undef
  | Datatypes.S fuel =>
      c ← arr_get a i;
      if negb (c =? 0) then arr_len fuel a (i + 1) else mret i
  end.

(** The copy of a node's name to the end of the path: [i] characters so far. *)
Fixpoint append_name (n : nat) (i name cur_len : Z) (path : arr) : ST mem (Z * arr) :=
  match n with
  | O => mret (cur_len, path)
  | S n =>
      if cur_len <? arr_size - 1 then
        c ← load (name + i);
        path ← arr_put path cur_len c;
        append_name n (i + 1) name (cur_len + 1) path
      else mret (cur_len, path)
  end.

Definition push_path (name n : Z) (path : arr) : ST mem arr :=
  cur_len ← arr_len arr_fuel path 0;
  r ← (if 1 <? cur_len then path ← arr_put path cur_len 47; mret (cur_len + 1, path)
       else mret (cur_len, path));
  r ← append_name (Z.to_nat n) 0 name r.1 r.2;
  arr_put r.2 r.1 0.

(** [while (cur_len > 1 && current_path[cur_len - 1] != '/') cur_len--]. *)
Fixpoint last_slash {S} (fuel : nat) (path : arr) (cur_len : Z) : ST S Z :=
  match fuel with
  | O => undef
  | Datatypes.S fuel =>
      if 1 <? cur_len then
        c ← arr_get path (cur_len - 1);
        if negb (c =? 47) then last_slash fuel path (cur_len - 1) else mret cur_len
      else mret cur_len
  end.

Definition pop_path {S} (path : arr) : ST S arr :=
  cur_len ← arr_len arr_fuel path 0;
  cur_len ← last_slash arr_fuel path cur_len;
  if 1 <? cur_len then arr_put path (cur_len - 1) 0 else arr_put path 1 0.

(** A [reg] property of the node: [inl None] is [return -1]. *)
Definition read_reg (pdata len : Z) : ST mem (option Z) :=
  if 8 <=? len then
    hi ← be32_at (pdata + 0);
    lo ← be32_at (pdata + 4);
    mret (Some (Z.lor (Z.shiftl hi 32) lo))
  else if 4 <=? len then b ← be32_at (pdata + 0); mret (Some b)
  else mret None.

(** The loop over the properties: [inl] is the value returned by the function
    ([None] for -1), [inr] leaves for the next token. *)
Fixpoint props2 (fuel : nat) (fdt strings : Z) (at_target : bool) (p : Z) (dp : Z) (path : arr)
    : ST mem (option Z + Z * Z * arr) :=
  match fuel with
  | O => undef
  | S fuel =>
      ptok ← be32_at (fdt + p);
      let p := u32 (p + 4) in
      if ptok =? DTB_PROP then
        len ← be32_at (fdt + p);
        let p := u32 (p + 4) in
        nameoff ← be32_at (fdt + p);
        let p := u32 (p + 4) in
        hit ← (if at_target then r ← strncmp_lit (strings + nameoff) (lit "reg") 3; mret (r =? 0)
               else mret false);
        if hit : bool then b ← read_reg (fdt + p) len; mret (inl b)
        else props2 fuel fdt strings at_target (u32 (p + align4 len)) dp path
      else if ptok =? DTB_END_NODE then
        path ← pop_path path;
        mret (inr (p, dp - 1, path))
      else if ptok =? DTB_NOP then props2 fuel fdt strings at_target p dp path
      else if ptok =? DTB_BEGIN_NODE then mret (inr (u32 (p - 4), dp, path))
      else if ptok =? DTB_END then mret (inl None)
      else mret (inl None)
  end.

Fixpoint pass2_loop (fuel : nat) (fdt strings : Z) (target : arr) (p : Z) (dp : Z) (path : arr)
    : ST mem (option Z) :=
  match fuel with
  | O => undef
  | S fuel =>
      token ← be32_at (fdt + p);
      let p := u32 (p + 4) in
      if token =? DTB_BEGIN_NODE then
        let name := fdt + p in
        n ← name_len name;
        let p := u32 (p + align4 (u32 (n + 1))) in
        path ← (if negb ((dp =? 0) && (n =? 0)) then push_path name n path else mret path);
        at_target ← path_equals path target;
        r ← walking (λ fuel, props2 fuel fdt strings at_target p (dp + 1) path);
        match r with
        | inl b => mret b
        | inr (p, dp, path) => pass2_loop fuel fdt strings target p dp path
        end
      else if token =? DTB_PROP then
        len ← be32_at (fdt + p);
        let p := u32 (p + 4) in
        let p := u32 (p + 4) in
        pass2_loop fuel fdt strings target (u32 (p + align4 len)) dp path
      else if token =? DTB_END_NODE then pass2_loop fuel fdt strings target p dp path
      else if token =? DTB_NOP then pass2_loop fuel fdt strings target p dp path
      else if token =? DTB_END then mret None
      else mret None
  end.

(** The base address that is stored through [out_base], with 0 returned;
    [None] when -1 is. *)
Definition dtb_get_stdout_uart_base : ST dtb (option Z) :=
  ptr ← gets dtb_ptr;
  if negb (ctrue ptr) then mret None
  else on_ram (
    magic ← be32_at (ptr + hdr_magic);
    if negb (magic =? DTB_MAGIC) then mret None
    else
      off_struct ← be32_at (ptr + hdr_off_dt_struct);
      off_strings ← be32_at (ptr + hdr_off_dt_strings);
      let strings := ptr + off_strings in
      s ← walking (λ fuel, pass1_loop fuel ptr strings off_struct
        {| depth := 0; stdout_token := 0; stdout_token_len := 0; aliases := [] |});
      target ← resolve s;
      match target with
      | None => mret None
      | Some target =>
          path ← arr_put new_arr 0 47;
          path ← arr_put path 1 0;
          walking (λ fuel, pass2_loop fuel ptr strings target off_struct 0 path)
      end).

End Dtb.
