(* ===== verification/DtbThm.v ===== *)
(** * The flattened device tree: the structure block as a list of events

    [block] says that memory holds the encoding of a list of events.  The
    parsers are related to functions of that list. *)
From stdpp Require Import base gmap list option numbers strings.
From Stdlib Require Import ZArith Lia.
From S2P Require Import Prelude CString CStringThm CStringCopy Dtb.
Import CString Dtb.
#[local] Open Scope Z_scope.

(** ** Words of the blob *)

Definition be_bytes (v : Z) : list Z :=
  [v / 2 ^ 24; (v / 2 ^ 16) mod 256; (v / 2 ^ 8) mod 256; v mod 256].

Lemma be32_to_cpu_bytes b0 b1 b2 b3 :
  byte b0 → byte b1 → byte b2 → byte b3 →
  be32_to_cpu (le_val [b0; b1; b2; b3]) = b0 * 2 ^ 24 + (b1 * 2 ^ 16 + (b2 * 2 ^ 8 + b3)).
Proof.
  intros H0 H1 H2 H3. unfold be32_to_cpu. set (v := le_val _).
  assert (Hl : Forall byte [b0; b1; b2; b3]) by (repeat (constructor; [assumption|]); constructor).
  change 0xFF with (Z.shiftl 255 (8 * Z.of_nat 0)). change 0xFF00 with (Z.shiftl 255 (8 * Z.of_nat 1)).
  change 0xFF0000 with (Z.shiftl 255 (8 * Z.of_nat 2)). change 0xFF000000 with (Z.shiftl 255 (8 * Z.of_nat 3)).
  rewrite !land_byte_eq by lia. unfold v.
  rewrite (le_val_byte _ 0%nat b0), (le_val_byte _ 1%nat b1), (le_val_byte _ 2%nat b2),
    (le_val_byte _ 3%nat b3) by done.
  clear v. unfold byte in *. unfold u32. rewrite !Z.shiftl_mul_pow2, !Z.shiftr_div_pow2 by lia.
  change (8 * Z.of_nat 0) with 0. change (8 * Z.of_nat 1) with 8.
  change (8 * Z.of_nat 2) with 16. change (8 * Z.of_nat 3) with 24. rewrite !(Z.mod_small _ (2 ^ 32)) by lia.
  replace (b2 * 2 ^ 16 / 2 ^ 8) with (b2 * 2 ^ 8)
    by (change (2 ^ 16) with (2 ^ 8 * 2 ^ 8); rewrite Z.mul_assoc, Z.div_mul; lia).
  rewrite Z.div_mul by lia. rewrite <-!Z.lor_assoc, (lor_add b2 b3 8) by lia.
  replace (b1 * 2 ^ 8 * 2 ^ 8) with (b1 * 2 ^ 16) by lia. rewrite (lor_add b1 _ 16) by lia.
  replace (b0 * 2 ^ 0 * 2 ^ 24) with (b0 * 2 ^ 24) by lia. rewrite (lor_add b0 _ 24) by lia. done.
Qed.

Lemma be_bytes_ok v : 0 ≤ v < 2 ^ 32 → Forall byte (be_bytes v).
Proof.
  intros Hv. unfold be_bytes, byte. pose proof (Z.mod_pos_bound (v / 2 ^ 16) 256).
  pose proof (Z.mod_pos_bound (v / 2 ^ 8) 256). pose proof (Z.mod_pos_bound v 256).
  repeat (constructor; [lia || (split; [apply Z.div_pos; lia|apply Z.div_lt_upper_bound; lia])|]).
  constructor.
Qed.

Lemma be_bytes_val v : 0 ≤ v < 2 ^ 32 → be32_to_cpu (le_val (be_bytes v)) = v.
Proof.
  intros Hv. pose proof (be_bytes_ok v Hv) as Hb. unfold be_bytes in *.
  repeat (apply Forall_cons_1 in Hb as [? Hb]). rewrite be32_to_cpu_bytes by done.
  change (2 ^ 24) with (256 * (256 * 256)). change (2 ^ 16) with (256 * 256). change (2 ^ 8) with 256.
  rewrite <-!Z.div_div by lia.
  pose proof (Z.div_mod v 256). pose proof (Z.div_mod (v / 256) 256). pose proof (Z.div_mod (v / 256 / 256) 256).
  lia.
Qed.

(** A big-endian word. *)
Definition tok (m : mem) (a v : Z) : Prop := 0 ≤ v < 2 ^ 32 ∧ bytes_at m a (be_bytes v).

Lemma wp_be32_at m a v (Q : Z → mem → Prop) : tok m a v → Q v m → wp (be32_at a) Q m.
Proof.
  intros [Hv Hb] HQ. unfold be32_at. apply wp_bind, (wp_load_le m a (be_bytes v)); [done|].
  apply wp_ret. by rewrite be_bytes_val.
Qed.

Lemma tok_inj m a v w : tok m a v → tok m a w → v = w.
Proof.
  intros [Hv Hb] [Hw Hb']. rewrite <-(be_bytes_val v), <-(be_bytes_val w) by done. do 2 f_equal.
  apply list_eq_same_length with 4%nat; [done|done|].
  intros i x y _ Hx Hy. apply Hb in Hx. apply Hb' in Hy. congruence.
Qed.

Lemma tok_first m a v : tok m a v → is_Some (m !! a).
Proof. intros [_ H]. apply bytes_at_cons in H as [H _]. eauto. Qed.

Definition pad4 (n : Z) : Z := (n + 3) / 4 * 4.

Lemma pad4_range n : n ≤ pad4 n < n + 4.
Proof. unfold pad4. pose proof (Z.div_mod (n + 3) 4). pose proof (Z.mod_pos_bound (n + 3) 4). lia. Qed.

Lemma align4_pad n : 0 ≤ n → n + 3 < 2 ^ 32 → align4 n = pad4 n.
Proof.
  intros H0 H. unfold align4, pad4, u32. rewrite (Z.mod_small (n + 3)) by lia.
  change 3 with (2 ^ 2 - 1) at 2. rewrite (land_lnot_ones 32 2) by lia. done.
Qed.

(** ** Events *)

Inductive ev :=
  | EBegin (name : list Z)
  | EProp (name data : list Z)
  | EEnd
  | ENop.

Definition zlen (l : list Z) : Z := Z.of_nat (length l).

Definition ev_size (e : ev) : Z :=
  match e with
  | EBegin n => 4 + pad4 (zlen n + 1)
  | EProp _ d => 12 + pad4 (zlen d)
  | _ => 4
  end.

Section block.
Context (m : mem) (fdt strings : Z).

Definition ev_at (p : Z) (e : ev) : Prop :=
  match e with
  | EBegin n => tok m (fdt + p) DTB_BEGIN_NODE ∧ cstr m (fdt + (p + 4)) n
  | EProp n d =>
      tok m (fdt + p) DTB_PROP ∧ tok m (fdt + (p + 4)) (zlen d) ∧
      (∃ off, tok m (fdt + (p + 8)) off ∧ cstr m (strings + off) n) ∧
      bytes_at m (fdt + (p + 12)) d ∧ Forall byte d ∧
      mapped m (fdt + (p + 12)) (pad4 (zlen d))
  | EEnd => tok m (fdt + p) DTB_END_NODE
  | ENop => tok m (fdt + p) DTB_NOP
  end.

Fixpoint block (p : Z) (evs : list ev) : Prop :=
  match evs with
  | [] => tok m (fdt + p) DTB_END ∧ 0 ≤ p ∧ p + 4 < 2 ^ 32
  | e :: evs => ev_at p e ∧ 0 ≤ p ∧ block (p + ev_size e) evs
  end.

Lemma ev_size_pos e : 4 ≤ ev_size e.
Proof.
  destruct e as [n|n d| |]; simpl; try lia.
  - pose proof (pad4_range (zlen n + 1)). unfold zlen in *. lia.
  - pose proof (pad4_range (zlen d)). unfold zlen in *. lia.
Qed.

Lemma block_bound p evs : block p evs → 0 ≤ p ∧ p + 4 < 2 ^ 32.
Proof.
  revert p. induction evs as [|e evs IH]; intros p; simpl; [naive_solver|].
  intros (_ & H0 & H%IH). pose proof (ev_size_pos e). lia.
Qed.

Lemma ev_first p e : ev_at p e → is_Some (m !! (fdt + p)).
Proof. destruct e; simpl; intros H; first [by eapply tok_first|destruct H as [H _]; by eapply tok_first]. Qed.

Lemma block_first p evs : block p evs → is_Some (m !! (fdt + p)).
Proof. destruct evs; simpl; intros [H _]; [by eapply tok_first|by eapply ev_first]. Qed.

(** Each event starts at an address of its own. *)
Lemma block_keys p evs :
  block p evs → ∃ X : gset Z, X ⊆ dom m ∧ (∀ a, a ∈ X → fdt + p ≤ a) ∧ size X = S (length evs).
Proof.
  revert p. induction evs as [|e evs IH]; intros p Hb.
  - exists {[fdt + p]}. split; [|split; [intros a ->%elem_of_singleton; lia|by rewrite size_singleton]].
    apply block_first in Hb. apply elem_of_dom in Hb. set_solver.
  - pose proof (block_first _ _ Hb) as Hf%elem_of_dom. destruct Hb as (_ & _ & Hb).
    apply IH in Hb as (X & Hsub & Hge & Hsz). pose proof (ev_size_pos e).
    exists ({[fdt + p]} ∪ X). split; [set_solver|]. split.
    + intros a [->%elem_of_singleton|Ha%Hge]%elem_of_union; lia.
    + rewrite size_union, size_singleton, Hsz; [done|]. intros a ->%elem_of_singleton Ha%Hge. lia.
Qed.

Lemma block_fuel p evs : block p evs → (length evs < size m)%nat.
Proof.
  intros (X & Hsub & _ & Hsz)%block_keys. apply subseteq_size in Hsub.
  rewrite size_dom in Hsub. lia.
Qed.

(** The position after an event, as the code computes it. *)
Lemma u32_step p e evs k : block p (e :: evs) → 0 ≤ k ≤ ev_size e → u32 (p + k) = p + k.
Proof.
  intros Hb Hk. pose proof (block_bound _ _ Hb). destruct Hb as (_ & _ & Hb%block_bound).
  unfold u32. apply Z.mod_small. lia.
Qed.

(** The positions the loops compute for the event that follows. *)
Lemma begin_step p n evs : block p (EBegin n :: evs) →
  u32 (p + 4) = p + 4 ∧ u32 (p + 4 + align4 (u32 (zlen n + 1))) = p + ev_size (EBegin n).
Proof.
  intros Hb. pose proof (u32_step _ _ _ 4 Hb) as H4. pose proof (u32_step _ _ _ (ev_size (EBegin n)) Hb) as H.
  pose proof (ev_size_pos (EBegin n)). pose proof (block_bound _ _ Hb).
  destruct Hb as (_ & _ & Hb%block_bound). simpl in *. pose proof (pad4_range (zlen n + 1)).
  assert (0 ≤ zlen n) by (unfold zlen; lia).
  rewrite H4 by lia. unfold u32 at 2. rewrite (Z.mod_small (zlen n + 1)) by lia.
  rewrite align4_pad by lia. rewrite <-!Z.add_assoc. by rewrite H by lia.
Qed.

Lemma prop_step p n d evs : block p (EProp n d :: evs) →
  u32 (p + 4) = p + 4 ∧ u32 (p + 8) = p + 8 ∧ u32 (p + 12) = p + 12 ∧
  u32 (p + 12 + align4 (zlen d)) = p + ev_size (EProp n d).
Proof.
  intros Hb. pose proof (u32_step _ _ _ 4 Hb) as H4. pose proof (u32_step _ _ _ 8 Hb) as H8.
  pose proof (u32_step _ _ _ 12 Hb) as H12. pose proof (u32_step _ _ _ (ev_size (EProp n d)) Hb) as H.
  pose proof (block_bound _ _ Hb). destruct Hb as (_ & _ & Hb%block_bound). simpl in *.
  pose proof (pad4_range (zlen d)). assert (0 ≤ zlen d) by (unfold zlen; lia).
  rewrite align4_pad by lia. rewrite <-Z.add_assoc. by rewrite H, H4, H8, H12 by lia.
Qed.

Lemma u32_end p : block p [] → u32 (p + 4) = p + 4.
Proof. intros (_ & H0 & H). unfold u32. apply Z.mod_small. lia. Qed.
End block.

(** ** Readers of names and data *)

Lemma wp_name_len_loop m s fuel name n (Q : Z → mem → Prop) :
  cstr m (name + n) s → (length s < fuel)%nat → Q (n + zlen s) m → wp (name_len_loop fuel name n) Q m.
Proof.
  unfold zlen. revert fuel n. induction s as [|c s IH]; intros [|fuel] n Hs Hf HQ; simpl in Hf; try lia; simpl.
  - apply cstr_nil in Hs. wp_load. simpl. apply wp_ret. by rewrite Z.add_0_r in HQ.
  - apply cstr_cons in Hs as (Hc & Hz & Hs). wp_load. rewrite nonzero_eqb by done. simpl.
    apply IH; [by rewrite Z.add_assoc|lia|]. simpl in HQ.
    by replace (n + 1 + Z.of_nat (length s)) with (n + Z.of_nat (S (length s))) by lia.
Qed.

Lemma wp_name_len m s name (Q : Z → mem → Prop) :
  cstr m name s → Q (zlen s) m → wp (name_len name) Q m.
Proof.
  intros Hs HQ. apply wp_walking, (wp_name_len_loop m s); [by rewrite Z.add_0_r| |done].
  apply cstr_size in Hs. lia.
Qed.

(** [strncmp(s, "literal", strlen("literal")) == 0] tests for a prefix. *)
Definition has_prefix (l s : list Z) : bool := bool_decide (take (length l) s = l).

Lemma wp_prefix m s a l n (Q : Z → mem → Prop) :
  cstr m a s → Forall nonzero l → n = zlen l →
  (∀ r, (r =? 0) = has_prefix l s → Q r m) → wp (strncmp_lit a l n) Q m.
Proof.
  intros Hs Hl -> HQ. apply (wp_strncmp_rd m _ _ s l);
    [by apply reads_cstr|apply reads_lit|apply Hs|done|unfold zlen; lia|].
  apply HQ. unfold zlen. rewrite Nat2Z.id, (take_ge l) by lia. unfold has_prefix.
  apply Bool.eq_iff_eq_true. rewrite Z.eqb_eq, bool_decide_eq_true.
  apply str_cmp_zero; [apply Forall_take, Hs|done].
Qed.

Lemma wp_equal m s a l (Q : Z → mem → Prop) :
  cstr m a s → Forall nonzero l →
  (∀ r, (r =? 0) = bool_decide (s = l) → Q r m) → wp (strcmp_lit a l) Q m.
Proof.
  intros Hs Hl HQ. apply (wp_strcmp_lit m s l); [done..|]. apply HQ.
  apply Bool.eq_iff_eq_true. rewrite Z.eqb_eq, bool_decide_eq_true.
  apply str_cmp_zero; [apply Hs|done].
Qed.

Lemma lit_nonzero s : forallb (λ c, (0 <? c) && (c <? 256)) (lit s) = true → Forall nonzero (lit s).
Proof.
  rewrite forallb_forall. intros H. apply Forall_lookup. intros i c Hi.
  specialize (H c). unfold nonzero. apply andb_prop in H as [H1 H2]; [lia|].
  by eapply list_elem_of_In, list_elem_of_lookup_2.
Qed.

(** The literals of the parsers are proper strings. *)
Ltac lit_ok := apply lit_nonzero; vm_compute; reflexivity.

(** A computation that only reads memory, in the larger state. *)
Lemma wp_on_ram {A} (c : ST mem A) (Q : A → dtb → Prop) s :
  wp c (λ a m', m' = ram s ∧ Q a s) (ram s) → wp (on_ram c) Q s.
Proof.
  intros H. apply wp_zoom. eapply wp_mono; [exact H|]. intros a m' [-> HQ]. by destruct s.
Qed.

(** ** The blob *)

(** A device tree blob at [dtb_ptr] whose structure block is [evs]. *)
Record blob (s : dtb) (evs : list ev) : Prop := {
  blob_ptr : 0 < dtb_ptr s;
  blob_magic : tok (ram s) (dtb_ptr s + hdr_magic) DTB_MAGIC;
  blob_total : ∃ n, tok (ram s) (dtb_ptr s + hdr_totalsize) n;
  blob_block : ∃ os ot, tok (ram s) (dtb_ptr s + hdr_off_dt_struct) os ∧
    tok (ram s) (dtb_ptr s + hdr_off_dt_strings) ot ∧
    block (ram s) (dtb_ptr s) (dtb_ptr s + ot) os evs;
}.

Lemma ptr_true p : 0 < p → ctrue p = true.
Proof. intros H. unfold ctrue. by rewrite (proj2 (Z.eqb_neq p 0)) by lia. Qed.

(** ** Cells *)

(** The big-endian words of a property. *)
Fixpoint be_words (d : list Z) : list Z :=
  match d with
  | b0 :: b1 :: b2 :: b3 :: d => b0 * 2 ^ 24 + (b1 * 2 ^ 16 + (b2 * 2 ^ 8 + b3)) :: be_words d
  | _ => []
  end.

Lemma be_words_length d : (length (be_words d) ≤ length d / 4)%nat.
Proof.
  remember (length d) as n eqn:Hn. revert d Hn. induction (lt_wf n) as [n _ IH]; intros d ->.
  destruct d as [|b0 [|b1 [|b2 [|b3 d]]]]; cbn [be_words length]; try apply Nat.le_0_l.
  replace (S (S (S (S (length d))))) with (1 * 4 + length d)%nat by lia. rewrite Nat.div_add_l by lia.
  specialize (IH (length d) ltac:(simpl; lia) d eq_refl). lia.
Qed.

Lemma be_words_short d : zlen d < 4 → be_words d = [].
Proof. unfold zlen. destruct d as [|b0 [|b1 [|b2 [|b3 d]]]]; simpl; try done. lia. Qed.

Lemma be_words_long d : 4 ≤ zlen d → Forall byte d →
  ∃ w d', be_words d = w :: be_words d' ∧ d = be_bytes w ++ d' ∧ 0 ≤ w < 2 ^ 32 ∧ Forall byte d'.
Proof.
  unfold zlen. destruct d as [|b0 [|b1 [|b2 [|b3 d]]]]; simpl; try lia. intros _ H.
  apply Forall_cons_1 in H as [H0 H]. apply Forall_cons_1 in H as [H1 H].
  apply Forall_cons_1 in H as [H2 H]. apply Forall_cons_1 in H as [H3 H]. unfold byte in *.
  set (w := b0 * 2 ^ 24 + (b1 * 2 ^ 16 + (b2 * 2 ^ 8 + b3))). exists w, d.
  split; [done|]. split; [|split; [unfold w; lia|done]]. unfold be_bytes, w. simpl.
  f_equal; [apply Z.div_unique with (b1 * 2 ^ 16 + (b2 * 2 ^ 8 + b3)); lia|].
  f_equal; [|f_equal; [|f_equal]].
  - replace ((b0 * 2 ^ 24 + _) / 2 ^ 16) with (b0 * 256 + b1)
      by (apply Z.div_unique with (b2 * 2 ^ 8 + b3); lia).
    apply Z.mod_unique with b0; lia.
  - replace ((b0 * 2 ^ 24 + _) / 2 ^ 8) with (b0 * 65536 + (b1 * 256 + b2))
      by (apply Z.div_unique with b3; lia).
    apply Z.mod_unique with (b0 * 256 + b1); lia.
  - apply Z.mod_unique with (b0 * 65536 + (b1 * 256 + b2)); lia.
Qed.

Lemma first_cell m a d :
  bytes_at m a d → Forall byte d → 4 ≤ zlen d → tok m a (hd 0 (be_words d)).
Proof.
  intros Hd Hb H4. destruct (be_words_long d) as (w & d' & Hw & Hs & Hrw & _); [done..|].
  rewrite Hw. simpl. split; [done|]. rewrite Hs in Hd. by apply bytes_at_app in Hd as [? _].
Qed.
