(* ===== verification/DtbFind.v ===== *)
(** * The flattened device tree: finding the blob

    [dtb_search] is the search for the first address, in the order of
    [candidates], at which the magic number is read; [dtb_init] settles the
    pointer that every later parser uses. *)
From stdpp Require Import base gmap list option numbers strings.
From Stdlib Require Import ZArith Lia.
From S2P Require Import Prelude CString CStringThm CStringCopy Dtb DtbThm.
Import CString Dtb.
#[local] Open Scope Z_scope.

(** ** The search *)

(** The outer option is an access to unmapped memory. *)
Fixpoint first_hit (m : mem) (ls : list Z) : option (option Z) :=
  match ls with
  | [] => Some None
  | a :: ls =>
      match load_le 4 a m with
      | None => None
      | Some (v, _) => if be32_to_cpu v =? DTB_MAGIC then Some (Some a) else first_hit m ls
      end
  end.

(** The page-aligned addresses from the end of the kernel, rounded up to 1 MiB,
    to 256 MiB into the memory. *)
Definition scan_start (kernel_end : Z) : Z := Z.land (u64 (kernel_end + 0xfffff)) (u64 (Z.lnot 0xfffff)).
Definition scan_count (kernel_end : Z) : nat := Z.to_nat ((0x50000000 - scan_start kernel_end + 0xfff) / 0x1000).
Definition candidates (kernel_end : Z) : list Z :=
  locations ++ ((λ i, scan_start kernel_end + i * 0x1000) <$> seqZ 0 (Z.of_nat (scan_count kernel_end))).

Lemma load_le_pure n a m v m' : load_le n a m = Some (v, m') → m' = m.
Proof.
  revert a v. induction n as [|n IH]; intros a v; simpl; [by intros [= _ <-]|].
  unfold mbind, st_bind, load. destruct (m !! a) as [b|]; [|done].
  destruct (load_le n (a + 1) m) as [[r m1]|] eqn:E; [|done]. intros [= _ <-]. by eapply IH.
Qed.

Lemma first_hit_app m l1 l2 :
  first_hit m (l1 ++ l2) =
  match first_hit m l1 with Some None => first_hit m l2 | r => r end.
Proof.
  induction l1 as [|a l1 IH]; cbn [first_hit app]; [done|].
  destruct (load_le 4 a m) as [[v ?]|]; [|done]. by destruct (_ =? _).
Qed.

Lemma try_locations_eq m ls :
  Forall (λ a, a ≠ 0) ls → try_locations ls m = (λ r, (default 0 r, m)) <$> first_hit m ls.
Proof.
  induction 1 as [|a ls Ha _ IH]; [reflexivity|]. cbn [try_locations first_hit]. unfold mbind, st_bind.
  destruct (load_le 4 a m) as [[v m']|] eqn:E; [|done]. apply load_le_pure in E as ->. by destruct (_ =? _).
Qed.

Lemma for_ret_S {S R} n i (body : Z → ST S (option R)) :
  for_ret (Datatypes.S n) i body =
  (r ← body i; match r with Some v => mret (Some v) | None => for_ret n (i + 1) body end).
Proof. reflexivity. Qed.

Lemma scan_eq m start n i :
  for_ret n i (λ i, v ← load_le 4 (start + i * 0x1000);
    mret (if be32_to_cpu v =? DTB_MAGIC then Some (start + i * 0x1000) else None)) m =
  (λ r, (r, m)) <$> first_hit m ((λ i, start + i * 0x1000) <$> seqZ i (Z.of_nat n)).
Proof.
  revert i. induction n as [|n IH]; intros i; [done|].
  rewrite (seqZ_cons i), for_ret_S by lia. cbn [fmap list_fmap first_hit]. rewrite <-Z.add_1_r.
  replace (Z.pred (Z.of_nat (S n))) with (Z.of_nat n) by lia. specialize (IH (i + 1)).
  set (next := for_ret n (i + 1) _) in *. clearbody next. unfold mbind, st_bind.
  destruct (load_le 4 (start + i * 0x1000) m) as [[v m']|] eqn:E; [|done]. apply load_le_pure in E as ->.
  destruct (_ =? _); [done|exact IH].
Qed.

Lemma first_hit_in m ls a : first_hit m ls = Some (Some a) → a ∈ ls.
Proof.
  induction ls as [|b ls IH]; cbn [first_hit]; [done|]. destruct (load_le 4 b m) as [[v ?]|]; [|done].
  destruct (_ =? _); [intros [= ->]; by left|]. intros H. right. by apply IH.
Qed.

Lemma bind_run {S A B} (m : ST S A) (k : A → ST S B) s :
  (m ≫= k) s = match m s with Some (a, s') => k a s' | None => None end.
Proof. reflexivity. Qed.

(** C33: the search returns the first address of [candidates] that holds the
    magic number, 0 if none does, and reads nothing behind it. *)
Theorem dtb_search_correct m kernel_end :
  dtb_search kernel_end m = (λ r, (default 0 r, m)) <$> first_hit m (candidates kernel_end).
Proof.
  unfold dtb_search, candidates. rewrite first_hit_app, bind_run.
  assert (Hnz : Forall (λ a, a ≠ 0) locations) by (unfold locations; repeat constructor; discriminate).
  rewrite try_locations_eq by done. destruct (first_hit m locations) as [[a|]|] eqn:E; [| |done]; cbn [fmap option_fmap option_map default].
  - assert (a ≠ 0) by (by eapply (proj1 (Forall_forall _ _) Hnz), first_hit_in).
    assert (ctrue a = true) as Hc by (unfold ctrue; by rewrite (proj2 (Z.eqb_neq a 0))).
    cbn. by rewrite Hc.
  - change (ctrue 0) with false. cbv iota zeta. rewrite bind_run, scan_eq.
    fold (scan_start kernel_end) (scan_count kernel_end). set (r := first_hit m (_ <$> _)). by destruct r.
Qed.

(** ** The pointer *)

(** [p] is what [dtb_init] settles on: the loader's pointer, or the result of the
    search. *)
Definition settles (kernel_end : Z) (s : dtb) (p : Z) : Prop :=
  if ctrue (dtb_ptr s) then p = dtb_ptr s
  else if ctrue (boot_x0 s) then p = boot_x0 s
  else first_hit (ram s) (candidates kernel_end) = Some (Some p).

Lemma set_ptr_same s : set_ptr (dtb_ptr s) s = s.
Proof. by destruct s. Qed.

(** It is kept whatever the header says. *)
Lemma wp_dtb_init kernel_end s p magic (Q : unit → dtb → Prop) :
  settles kernel_end s p → p ≠ 0 → tok (ram s) (p + hdr_magic) magic → Q tt (set_ptr p s) → wp (dtb_init kernel_end) Q s.
Proof.
  intros Hs Hp Hm HQ. unfold dtb_init. apply wp_bind, wp_gets, wp_bind, wp_gets. cbv zeta.
  assert (Hfin : wp (if negb (ctrue p) then mret tt
    else modify (set_ptr p);; magic ← on_ram (be32_at (p + hdr_magic)); if negb (magic =? DTB_MAGIC) then mret tt else mret tt) Q s).
  { unfold ctrue. rewrite (proj2 (Z.eqb_neq p 0)) by done. cbn [negb]. apply wp_bind, wp_modify. apply wp_bind, wp_zoom.
    apply (wp_be32_at _ _ magic); [done|].
    destruct (negb (_ =? _)); apply wp_ret; exact HQ. }
  unfold settles in Hs. destruct (ctrue (dtb_ptr s)) eqn:E1.
  - subst p. rewrite E1. cbn [negb]. by apply wp_bind, wp_ret.
  - destruct (ctrue (boot_x0 s)) eqn:E2; cbn [negb].
    + subst p. by apply wp_bind, wp_ret.
    + apply wp_bind, wp_zoom. exists p, (ram s). rewrite dtb_search_correct, Hs. split; [done|].
      replace {| ram := ram s; dtb_ptr := dtb_ptr s; boot_x0 := boot_x0 s |} with s by (by destruct s). exact Hfin.
Qed.

(** A header without the magic number is reported, and its pointer kept: the
    reservation of the blob goes by its size field. *)
Lemma dtb_init_keeps_invalid kernel_end s magic :
  dtb_ptr s ≠ 0 → tok (ram s) (dtb_ptr s + hdr_magic) magic → magic ≠ DTB_MAGIC →
  dtb_init kernel_end s = Some (tt, s).
Proof.
  intros Hp Hm _. destruct (wp_dtb_init kernel_end s (dtb_ptr s) magic (λ _ s', s' = s)) as ([] & ? & E & ->); [|done|done| |done].
  - unfold settles, ctrue. by rewrite (proj2 (Z.eqb_neq _ 0)).
  - apply set_ptr_same.
Qed.

Lemma wp_dtb_dump_info s a b c (Q : option (Z * Z * Z) → dtb → Prop) :
  dtb_ptr s ≠ 0 → tok (ram s) (dtb_ptr s + hdr_magic) a → tok (ram s) (dtb_ptr s + hdr_totalsize) b →
  tok (ram s) (dtb_ptr s + hdr_version) c → Q (Some (a, b, c)) s → wp dtb_dump_info Q s.
Proof.
  intros Hp Ha Hb Hc HQ. unfold dtb_dump_info. apply wp_bind, wp_gets. unfold ctrue.
  rewrite (proj2 (Z.eqb_neq _ 0)) by done. cbn [negb]. destruct s as [m p x].
  apply wp_bind, wp_zoom, (wp_be32_at _ _ a); [done|]. apply wp_bind, wp_zoom, (wp_be32_at _ _ b); [done|].
  apply wp_bind, wp_zoom, (wp_be32_at _ _ c); [done|]. apply wp_ret. exact HQ.
Qed.
