(* ===== verification/DtbUart.v ===== *)
(** * The flattened device tree: the console's UART

    [dtb_get_stdout_uart_base] as a function of the events of the structure
    block: the first pass collects the stdout token and the aliases, the second
    looks for the node with the resolved path. *)
From stdpp Require Import base gmap list option numbers strings.
From Stdlib Require Import ZArith Lia.
From S2P Require Import Prelude CString CStringThm CStringCopy Dtb DtbThm.
Import CString Dtb.
#[local] Open Scope Z_scope.

(** ** First pass *)

Record sig1 := {
  g_depth : Z;
  g_tok : option (list Z);
  g_als : list (list Z * list Z);
}.

Definition tok_end (c : Z) : bool := (c =? 0) || (c =? 58) || (c =? 44).
Definition token_of (d : list Z) : list Z := take (span (λ c, negb (tok_end c)) d) d.

Definition g_set_depth (d : Z) (g : sig1) : sig1 :=
  {| g_depth := d; g_tok := g_tok g; g_als := g_als g |}.
Definition g_prop (ch al : bool) (n d : list Z) (g : sig1) : sig1 :=
  if ch && has_prefix (lit "stdout") n then
    {| g_depth := g_depth g; g_tok := Some (token_of d); g_als := g_als g |}
  else if al && (Z.of_nat (length (g_als g)) <? 16) then
    {| g_depth := g_depth g; g_tok := g_tok g; g_als := g_als g ++ [(n, d)] |}
  else g.

(** Entering a node: one more level, and whether it is one of the two nodes of
    interest. *)
Definition g_enter (g : sig1) : sig1 :=
  if g_depth g <? 16 then g_set_depth (g_depth g + 1) g else g.
Definition g_flags (n : list Z) (g : sig1) : bool * bool :=
  if g_depth g =? 2 then (has_prefix (lit "chosen") n, has_prefix (lit "aliases") n)
  else (false, false).

(** [mode] is [Some] inside the property loop of a node. *)
Fixpoint p1 (evs : list ev) (mode : option (bool * bool)) (g : sig1) : sig1 :=
  match evs with
  | [] => g
  | EBegin n :: evs => let g := g_enter g in p1 evs (Some (g_flags n g)) g
  | EEnd :: evs =>
      match mode with
      | Some _ => p1 evs None (g_set_depth (g_depth g - 1) g)
      | None => p1 evs None (if 0 <? g_depth g then g_set_depth (g_depth g - 1) g else g)
      end
  | EProp n d :: evs =>
      match mode with
      | Some (ch, al) => p1 evs mode (g_prop ch al n d g)
      | None => p1 evs mode g
      end
  | ENop :: evs => p1 evs mode g
  end.
Definition sig0 : sig1 := {| g_depth := 0; g_tok := None; g_als := [] |}.

Lemma span_next f s j c :
  (j ≤ span f s)%nat → s !! j = Some c →
  (f c = true → (S j ≤ span f s)%nat) ∧ (f c = false → j = span f s).
Proof.
  revert j. induction s as [|x s IH]; intros j Hj Hc; [by rewrite lookup_nil in Hc|].
  simpl in *. destruct j as [|j]; simpl in Hc; simplify_eq.
  - destruct (f c); split; intros; lia || done.
  - destruct (f x); [|lia]. destruct (IH j) as [H1 H2]; [lia|done|]. split; intros H.
    + specialize (H1 H). lia.
    + by rewrite <-H2.
Qed.

Lemma wp_extract m q d (Q : Z → mem → Prop) :
  bytes_at m q d → Q (zlen (token_of d)) m → wp (extract_path_token q (zlen d)) Q m.
Proof.
  intros Hd HQ. unfold extract_path_token, zlen. rewrite Nat2Z.id. apply wp_bind.
  unfold token_of, zlen in HQ. rewrite length_take in HQ. set (f := λ c, negb (tok_end c)) in *.
  pose proof (span_length f d). rewrite Nat.min_l in HQ by done.
  apply (wp_for_ret (λ i m', m' = m ∧ 0 ≤ i ≤ Z.of_nat (span f d))); [split; [done|lia]| |].
  - intros j m' Hj [-> Hr]. destruct (lookup_lt_is_Some_2 d (Z.to_nat j)) as [c Hc]; [lia|].
    destruct (span_next f d (Z.to_nat j) c) as [H1 H2]; [lia|done|].
    apply wp_bind. eapply wp_load; [apply Hd in Hc; rewrite Z2Nat.id in Hc by lia; exact Hc|].
    fold (tok_end c). change (f c) with (negb (tok_end c)) in H1, H2. destruct (tok_end c); simpl in *.
    + do 2 apply wp_ret. simpl. rewrite <-H2, Z2Nat.id in HQ by (done || lia). done.
    + apply wp_ret. split; [done|]. specialize (H1 eq_refl). lia.
  - intros m' [-> Hr]. apply wp_ret. simpl. by replace (length d) with (span f d) by lia.
Qed.

Lemma has_prefix_trans l k s :
  take (length l) k = l → has_prefix k s = true → has_prefix l s = true.
Proof.
  unfold has_prefix. rewrite !bool_decide_eq_true. intros Hl Hk.
  rewrite <-Hk, take_take in Hl. rewrite <-Hl at 2.
  assert (length l ≤ length k)%nat.
  { rewrite <-Hl, <-Hk, !length_take. lia. }
  by rewrite Nat.min_l.
Qed.

Section pass1.
Context (m : mem) (fdt strings : Z).
Hypothesis fdt_pos : 0 < fdt.

Definition tok_rel (s : pass1) (t : option (list Z)) : Prop :=
  match t with
  | None => stdout_token s = 0
  | Some t =>
      0 < stdout_token s ∧ stdout_token_len s = zlen t ∧ bytes_at m (stdout_token s) t ∧
      Forall nonzero t ∧ is_Some (m !! (stdout_token s + zlen t))
  end.
Definition alias_rel (a : Z * Z) (b : list Z * list Z) : Prop :=
  cstr m a.1 b.1 ∧ bytes_at m a.2 b.2 ∧ Forall byte b.2.
Record rel1 (s : pass1) (g : sig1) : Prop := {
  r_depth : depth s = g_depth g;
  r_tok : tok_rel s (g_tok g);
  r_als : Forall2 alias_rel (aliases s) (g_als g);
}.

Lemma rel1_depth s g d : rel1 s g → rel1 (set_depth d s) (g_set_depth d g).
Proof. intros [H1 H2 H3]. by split. Qed.

Lemma token_nonzero d : Forall byte d → Forall nonzero (token_of d).
Proof.
  intros Hd. apply Forall_lookup. intros i c Hi.
  pose proof (Forall_lookup_1 _ _ _ _ (span_prefix _ d) Hi) as H. simpl in H.
  apply lookup_take_Some in Hi as [Hi _]. pose proof (Forall_lookup_1 _ _ _ _ Hd Hi) as Hb.
  unfold tok_end in H. unfold byte in Hb. unfold nonzero. destruct (Z.eqb_spec c 0); [done|lia].
Qed.

Lemma wp_prop1 ch al pname pdata n d s g (Q : pass1 → mem → Prop) :
  cstr m pname n → 0 < pdata → bytes_at m pdata d → Forall byte d →
  is_Some (m !! (pdata + zlen d)) → rel1 s g →
  (∀ s', rel1 s' (g_prop ch al n d g) → Q s' m) →
  wp (prop1 ch al pname pdata (zlen d) s) Q m.
Proof.
  intros Hn Hp Hd Hb Hmap [Hr1 Hr2 Hr3] HQ. unfold prop1, g_prop in *. apply wp_bind.
  apply (wp_mono _ (λ b m', b = ch && has_prefix (lit "stdout") n ∧ m' = m)).
  { destruct ch; [|by apply wp_ret]. simpl.
    apply wp_bind, (wp_prefix m n); [done|lit_ok|done|]. intros r ->.
    destruct (has_prefix (lit "stdout-path") n) eqn:E.
    - apply wp_ret. by rewrite (has_prefix_trans (lit "stdout") (lit "stdout-path")).
    - apply wp_bind, (wp_prefix m n); [done|lit_ok|done|]. intros r' ->. by apply wp_ret. }
  intros b m' [-> ->]. destruct (ch && has_prefix (lit "stdout") n).
  - apply wp_bind, (wp_extract m _ d); [done|]. apply wp_ret, HQ. split; [done| |done].
    unfold tok_rel. simpl. split_and!; [done|done| |by apply token_nonzero|].
    + intros i c Hi. apply Hd. by apply lookup_take_Some in Hi as [? _].
    + unfold token_of, zlen. rewrite length_take. pose proof (span_length (λ c, negb (tok_end c)) d).
      rewrite Nat.min_l by done.
      destruct (decide (span (λ c, negb (tok_end c)) d < length d)%nat).
      * apply (bytes_at_mapped _ _ _ Hd). lia.
      * replace (span (λ c, negb (tok_end c)) d) with (length d) by lia. done.
  - rewrite <-(Forall2_length _ _ _ Hr3) in HQ.
    destruct (al && _); apply wp_ret, HQ; [|by split].
    split; [done|done|]. simpl. apply Forall2_app; [done|]. constructor; [done|constructor].
Qed.

(** The loop over the properties of a node. *)
Lemma wp_props1 ch al evs fuel p s g (Q : bool * (Z * pass1) → mem → Prop) :
  block m fdt strings p evs → (length evs < fuel)%nat → rel1 s g →
  (∀ fin p' s', (if fin : bool then rel1 s' (p1 evs (Some (ch, al)) g)
    else ∃ evs' g', block m fdt strings p' evs' ∧ (length evs' ≤ length evs)%nat ∧ rel1 s' g' ∧
      p1 evs' None g' = p1 evs (Some (ch, al)) g) → Q (fin, (p', s')) m) →
  wp (props1 fuel fdt strings ch al p s) Q m.
Proof.
  revert evs p s g. induction fuel as [|fuel IH]; intros evs p s g Hb Hf Hr HQ; [lia|].
  simpl. destruct evs as [|[n|n d| |] evs]; simpl in Hf.
  - pose proof Hb as [Ht _]. apply wp_bind, (wp_be32_at _ _ _ _ Ht). by apply wp_ret, HQ.
  - pose proof Hb as ((Ht & Hn) & _ & _). apply wp_bind, (wp_be32_at _ _ _ _ Ht).
    apply wp_ret, HQ. exists (EBegin n :: evs), g.
    replace (u32 (u32 (p + 4) - 4)) with p; [done|]. destruct (begin_step _ _ _ _ _ _ Hb) as [-> _].
    apply block_bound in Hb. unfold u32. rewrite Z.mod_small; lia.
  - pose proof Hb as ((Ht & Hl & (off & Hoff & Hn) & Hd & Hbd & Hmap) & Hp0 & Hb').
    destruct (prop_step _ _ _ _ _ _ _ Hb) as (E4 & E8 & E12 & E).
    apply wp_bind, (wp_be32_at _ _ _ _ Ht). simpl (_ =? _). cbv iota. rewrite E4.
    replace (p + 4 + 4) with (p + 8) by lia. rewrite E8. replace (p + 8 + 4) with (p + 12) by lia. rewrite E12.
    apply wp_bind, (wp_be32_at _ _ _ _ Hl). apply wp_bind, (wp_be32_at _ _ _ _ Hoff). rewrite E.
    apply wp_bind, (wp_prop1 _ _ _ _ n d s g); [done|lia|done|done| |done|].
    + pose proof (pad4_range (zlen d)). destruct (decide (zlen d = pad4 (zlen d))) as [Ee|].
      * apply block_first in Hb'. simpl in Hb'. rewrite <-Ee in Hb'.
        by replace (fdt + (p + 12) + zlen d) with (fdt + (p + (12 + zlen d))) by lia.
      * apply Hmap. unfold zlen in *. lia.
    + intros s' Hr'. apply (IH evs _ _ _ Hb' ltac:(lia) Hr'). intros fin p' s'' H. apply HQ.
      destruct fin; [done|]. destruct H as (evs' & g' & H1 & H2 & H3 & H4).
      exists evs', g'. split_and!; [done|simpl; lia|done|done].
  - pose proof Hb as (Ht & _ & Hb'). pose proof (u32_step _ _ _ _ _ _ 4 Hb ltac:(simpl; lia)) as E4.
    apply wp_bind, (wp_be32_at _ _ _ _ Ht). simpl (_ =? _). cbv iota. rewrite E4.
    apply wp_ret, HQ. exists evs, (g_set_depth (g_depth g - 1) g).
    split_and!; [done|simpl; lia| |done]. rewrite (r_depth _ _ Hr). by apply rel1_depth.
  - pose proof Hb as (Ht & _ & Hb'). pose proof (u32_step _ _ _ _ _ _ 4 Hb ltac:(simpl; lia)) as E4.
    apply wp_bind, (wp_be32_at _ _ _ _ Ht). simpl (_ =? _). cbv iota. rewrite E4.
    apply (IH evs _ _ _ Hb' ltac:(lia) Hr). intros fin p' s'' H. apply HQ.
    destruct fin; [done|]. destruct H as (evs' & g' & H1 & H2 & H3 & H4).
    exists evs', g'. split_and!; [done|simpl; lia|done|done].
Qed.

Lemma wp_pass1 evs fuel p s g (Q : pass1 → mem → Prop) :
  block m fdt strings p evs → (length evs < fuel)%nat → rel1 s g →
  (∀ s', rel1 s' (p1 evs None g) → Q s' m) →
  wp (pass1_loop fuel fdt strings p s) Q m.
Proof.
  revert evs p s g. induction fuel as [|fuel IH]; intros evs p s g Hb Hf Hr HQ; [lia|].
  simpl. destruct evs as [|[n|n d| |] evs]; simpl in Hf.
  - pose proof Hb as [Ht _]. apply wp_bind, (wp_be32_at _ _ _ _ Ht). by apply wp_ret, HQ.
  - pose proof Hb as ((Ht & Hn) & _ & Hb'). destruct (begin_step _ _ _ _ _ _ Hb) as (E4 & E).
    apply wp_bind, (wp_be32_at _ _ _ _ Ht). simpl (_ =? _). cbv iota. rewrite E4.
    apply wp_bind, (wp_name_len m n); [done|]. rewrite E. cbn [p1] in HQ. cbv zeta in *.
    set (s1 := if depth s <? 16 then _ else _).
    assert (Hr1 : rel1 s1 (g_enter g)).
    { unfold s1, g_enter. rewrite (r_depth _ _ Hr).
      destruct (g_depth g <? 16); [by apply rel1_depth|done]. }
    clearbody s1. generalize dependent (g_enter g). clear g Hr. intros g HQ Hr.
    apply wp_bind. apply (wp_mono _ (λ r m', r = g_flags n g ∧ m' = m)).
    { unfold g_flags. rewrite (r_depth _ _ Hr). destruct (g_depth g =? 2); [|by apply wp_ret].
      apply wp_bind, (wp_prefix m n); [done|lit_ok|done|]. intros r1 ->.
      apply wp_bind, (wp_prefix m n); [done|lit_ok|done|]. intros r2 ->. by apply wp_ret. }
    intros fl m' [-> ->]. destruct (g_flags n g) as [ch al] eqn:Efl.
    apply wp_bind, wp_walking, (wp_props1 _ _ evs _ _ _ g); [done|apply block_fuel in Hb'; simpl; lia|done|].
    intros [] p' s'; [intros H; by apply wp_ret, HQ|].
    intros (evs' & g' & Hb'' & Hl & Hr'' & Eq). apply (IH evs' _ _ g'); [done|lia|done|].
    rewrite Eq. done.
  - pose proof Hb as ((Ht & Hl & _) & _ & Hb'). destruct (prop_step _ _ _ _ _ _ _ Hb) as (E4 & E8 & E12 & E).
    apply wp_bind, (wp_be32_at _ _ _ _ Ht). simpl (_ =? _). cbv iota. rewrite E4.
    replace (p + 4 + 4) with (p + 8) by lia. rewrite E8. replace (p + 8 + 4) with (p + 12) by lia. rewrite E12.
    apply wp_bind, (wp_be32_at _ _ _ _ Hl). rewrite E. by apply (IH evs _ _ g); [|lia| |].
  - pose proof Hb as (Ht & _ & Hb'). pose proof (u32_step _ _ _ _ _ _ 4 Hb ltac:(simpl; lia)) as E4.
    apply wp_bind, (wp_be32_at _ _ _ _ Ht). simpl (_ =? _). cbv iota. rewrite E4.
    eapply (IH evs); [done|lia| |exact HQ]. rewrite (r_depth _ _ Hr).
    destruct (0 <? g_depth g); [by apply rel1_depth|done].
  - pose proof Hb as (Ht & _ & Hb'). pose proof (u32_step _ _ _ _ _ _ 4 Hb ltac:(simpl; lia)) as E4.
    apply wp_bind, (wp_be32_at _ _ _ _ Ht). simpl (_ =? _). cbv iota. rewrite E4.
    by apply (IH evs _ _ g); [|lia| |].
Qed.
End pass1.
