(* ===== verification/DtbPath.v ===== *)
(** * The flattened device tree: paths of nodes

    The local character arrays of [dtb_get_stdout_uart_base], the resolution of
    the stdout token, and the second pass. *)
From stdpp Require Import base gmap list option numbers strings.
From Stdlib Require Import ZArith Lia.
From S2P Require Import Prelude CString CStringThm CStringCopy Dtb DtbThm DtbUart.
Import CString Dtb.
#[local] Open Scope Z_scope.

(** ** Character arrays *)

Lemma arr_fuel_val : Z.of_nat arr_fuel = 257.
Proof. reflexivity. Qed.
#[local] Opaque arr_fuel.

(** The array starts with the characters of [s]; it holds the string [s]. *)
Definition arr_pre (a : arr) (s : list Z) : Prop :=
  Z.of_nat (length a) = arr_size ∧ ∀ i c, s !! i = Some c → a !! i = Some (Some c).
Definition arr_is (a : arr) (s : list Z) : Prop := arr_pre a (s ++ [0]) ∧ Forall nonzero s.

Lemma arr_pre_length a s : arr_pre a s → zlen s ≤ 256.
Proof.
  intros [Hl H]. unfold arr_size in Hl. destruct (decide (zlen s ≤ 256)) as [|Hn]; [done|].
  unfold zlen in *. destruct (lookup_lt_is_Some_2 s 256) as [c Hc]; [lia|].
  apply H, lookup_lt_Some in Hc. lia.
Qed.

Lemma arr_is_length a s : arr_is a s → zlen s ≤ 255.
Proof. intros [H%arr_pre_length _]. unfold zlen in *. rewrite length_app in H. simpl in H. lia. Qed.

Lemma new_arr_pre : arr_pre new_arr [].
Proof. split; [reflexivity|]. intros i c. by rewrite lookup_nil. Qed.

Section arr.
Context {S : Type}.
Implicit Types (Q : arr → S → Prop).

Lemma wp_arr_get a s i c (Q : Z → S → Prop) st :
  arr_pre a s → s !! Z.to_nat i = Some c → Q c st → wp (arr_get a i) Q st.
Proof. intros [_ H] Hc HQ. unfold arr_get. eapply wp_deref; [|done]. by rewrite (H _ _ Hc). Qed.

(** Writing at the end, or cutting the array short. *)
Lemma wp_arr_put a s k c Q st :
  arr_pre a s → 0 ≤ k ≤ zlen s → k < 256 →
  (∀ a', arr_pre a' (take (Z.to_nat k) s ++ [c]) → Q a' st) → wp (arr_put a k c) Q st.
Proof.
  intros [Hl H] Hk Hk' HQ. unfold arr_put. rewrite Hl. unfold zlen in *.
  destruct (Z.ltb_spec k arr_size); [|unfold arr_size in *; lia]. apply wp_ret, HQ.
  split; [by rewrite length_insert|]. intros i x Hi. unfold arr_size in *.
  apply lookup_app_Some in Hi as [Hi|[Hge Hi]].
  - apply lookup_take_Some in Hi as [Hi Hlt]. rewrite list_lookup_insert_ne by lia. by apply H.
  - rewrite length_take in *. destruct (i - _)%nat eqn:E; simpl in Hi; [|by rewrite lookup_nil in Hi].
    simplify_eq. replace i with (Z.to_nat k) by lia. apply list_lookup_insert_eq. lia.
Qed.

Lemma wp_arr_put_end a s c Q st :
  arr_pre a s → zlen s < 256 → (∀ a', arr_pre a' (s ++ [c]) → Q a' st) →
  wp (arr_put a (zlen s) c) Q st.
Proof.
  intros Ha Hl HQ. eapply wp_arr_put; [done|unfold zlen; lia|done|].
  intros a'. unfold zlen. rewrite Nat2Z.id, take_ge by done. apply HQ.
Qed.

Lemma wp_arr_len a s fuel i (Q : Z → S → Prop) st :
  arr_is a s → (i ≤ length s)%nat → (length s < fuel + i)%nat → Q (zlen s) st →
  wp (arr_len fuel a (Z.of_nat i)) Q st.
Proof.
  intros [Ha Hz]. revert i. induction fuel as [|fuel IH]; intros i Hi Hf HQ; simpl; [lia|].
  destruct (lookup_lt_is_Some_2 (s ++ [0]) i) as [c Hc]; [rewrite length_app; simpl; lia|].
  apply wp_bind. eapply wp_arr_get; [done|by rewrite Nat2Z.id|].
  destruct (lookup_nul _ _ _ Hz Hc) as [[Hc' Hn]|[-> ->]].
  - rewrite nonzero_eqb by done. simpl. replace (Z.of_nat i + 1) with (Z.of_nat (Datatypes.S i)) by lia.
    apply lookup_lt_Some in Hc'. apply IH; [lia..|done].
  - by apply wp_ret.
Qed.

Lemma wp_path_equals_loop a b s t fuel i (Q : bool → S → Prop) st :
  arr_is a s → arr_is b t → (i ≤ length s)%nat → (i ≤ length t)%nat → (length s < fuel + i)%nat →
  Q (bool_decide (drop i s = drop i t)) st → wp (path_equals_loop fuel a b (Z.of_nat i)) Q st.
Proof.
  intros [Ha Hs] [Hb Ht]. revert i. induction fuel as [|fuel IH]; intros i Hi Hi' Hf HQ; simpl; [lia|].
  destruct (lookup_lt_is_Some_2 (s ++ [0]) i) as [c Hc]; [rewrite length_app; simpl; lia|].
  destruct (lookup_lt_is_Some_2 (t ++ [0]) i) as [d Hd]; [rewrite length_app; simpl; lia|].
  apply wp_bind. eapply wp_arr_get; [exact Ha|by rewrite Nat2Z.id|].
  apply wp_bind. eapply wp_arr_get; [exact Hb|by rewrite Nat2Z.id|].
  destruct (lookup_nul _ _ _ Hs Hc) as [[Hc' Hzc]|[Hk ->]],
    (lookup_nul _ _ _ Ht Hd) as [[Hd' Hzd]|[Hk' ->]];
    rewrite ?(drop_S _ _ _ Hc'), ?(drop_S _ _ _ Hd') in HQ; try rewrite (drop_ge s i) in HQ by lia;
    try rewrite (drop_ge t i) in HQ by lia; rewrite ?nonzero_true by done; simpl.
  - destruct (Z.eqb_spec c d) as [->|Hne]; simpl.
    + replace (Z.of_nat i + 1) with (Z.of_nat (Datatypes.S i)) by lia.
      apply lookup_lt_Some in Hc', Hd'. apply IH; [lia..|].
      erewrite bool_decide_ext; [exact HQ|]. split; [by intros ->|by intros [= ->]].
    + apply wp_ret. rewrite bool_decide_false in HQ; [done|]. by intros [= ->].
  - rewrite nonzero_eqb by done. apply wp_ret. done.
  - rewrite nonzero_eqb by done. apply wp_ret. done.
  - apply wp_ret. done.
Qed.

Lemma wp_path_equals a b s t (Q : bool → S → Prop) st :
  arr_is a s → arr_is b t → Q (bool_decide (s = t)) st → wp (path_equals a b) Q st.
Proof.
  intros Ha Hb HQ. apply (wp_path_equals_loop a b s t _ 0%nat); [done..|lia|lia| |done].
  apply arr_is_length in Ha. pose proof arr_fuel_val. unfold zlen in *. lia.
Qed.
End arr.

(** ** The paths of the second pass *)

Definition push (s n : list Z) : list Z := take 255 (if 1 <? zlen s then s ++ [47] ++ n else s ++ n).

(** One past the last slash among the first [k] characters, at least one. *)
Fixpoint slash_pos (s : list Z) (k : nat) : nat :=
  match k with
  | O => O
  | S O => 1%nat
  | S k' => if bool_decide (s !! k' = Some 47) then k else slash_pos s k'
  end.
Definition pop (s : list Z) : list Z :=
  let k := slash_pos s (length s) in take (if (1 <? k)%nat then k - 1 else 1) s.

Lemma slash_pos_le s k : (slash_pos s k ≤ k)%nat.
Proof.
  induction k as [|k IH]; [done|]. destruct k as [|k]; [done|].
  change (slash_pos s (S (S k))) with
    (if bool_decide (s !! S k = Some 47) then S (S k) else slash_pos s (S k)).
  case_bool_decide; lia.
Qed.

Lemma wp_append_name m name n j pre path (Q : Z * arr → mem → Prop) :
  cstr m name n → arr_pre path pre → (j ≤ length n)%nat → zlen pre ≤ 255 →
  (∀ path', arr_pre path' (take 255 (pre ++ drop j n)) →
    Q (zlen (take 255 (pre ++ drop j n)), path') m) →
  wp (append_name (length n - j) (Z.of_nat j) name (zlen pre) path) Q m.
Proof.
  intros Hn. remember (length n - j)%nat as r eqn:Hr. revert j pre path Hr.
  induction r as [|r IH]; intros j pre path Hr Hp Hj Hl HQ; simpl.
  - apply wp_ret. rewrite (drop_ge n), app_nil_r, take_ge in HQ by (unfold zlen in *; lia). by apply HQ.
  - unfold arr_size. destruct (Z.ltb_spec (zlen pre) (256 - 1)).
    + destruct (lookup_lt_is_Some_2 n j) as [c Hc]; [lia|].
      apply wp_bind. eapply wp_load; [apply (proj1 Hn), lookup_app_l_Some, Hc|].
      apply wp_bind, (wp_arr_put_end _ pre); [done|lia|]. intros path' Hp'.
      replace (zlen pre + 1) with (zlen (pre ++ [c])) by (unfold zlen; rewrite length_app; simpl; lia).
      replace (Z.of_nat j + 1) with (Z.of_nat (S j)) by lia.
      apply IH; [lia|done|lia|unfold zlen in *; rewrite length_app; simpl; lia|].
      rewrite <-app_assoc. simpl. by rewrite <-(drop_S _ _ _ Hc).
    + apply wp_ret. rewrite take_app_le, take_ge in HQ by (unfold zlen in *; lia). by apply HQ.
Qed.

Lemma wp_push_path m name n s path (Q : arr → mem → Prop) :
  cstr m name n → arr_is path s → zlen s < 255 →
  (∀ path', arr_is path' (push s n) → Q path' m) →
  wp (push_path name (zlen n) path) Q m.
Proof.
  intros Hn Hp Hl HQ. unfold push_path.
  apply wp_bind, (wp_arr_len path s _ 0%nat); [done|lia|pose proof arr_fuel_val; unfold zlen in *; lia|].
  assert (Hz : Forall nonzero (push s n)).
  { unfold push. apply Forall_take. destruct (_ <? _); repeat (apply Forall_app; split);
      try apply Hp; try apply Hn. by repeat constructor. }
  assert (Hpre : arr_pre path s).
  { destruct Hp as [[Hlen Hp] _]. split; [done|]. intros i c Hi. by apply Hp, lookup_app_l_Some. }
  apply wp_bind. apply (wp_mono _ (λ r m', m' = m ∧ ∃ pre, r.1 = zlen pre ∧ arr_pre r.2 pre ∧
    zlen pre ≤ 255 ∧ push s n = take 255 (pre ++ n))).
  { unfold push. destruct (Z.ltb_spec 1 (zlen s)).
    - apply wp_bind. apply (wp_arr_put_end _ s); [done|lia|]. intros path' Hp'. apply wp_ret.
      split; [done|]. exists (s ++ [47]). unfold zlen in *. rewrite length_app. simpl.
      split_and!; [lia|done|lia|by rewrite <-app_assoc].
    - apply wp_ret. split; [done|]. exists s. split_and!; [done|done|lia|done]. }
  intros [k path1] m' [-> (pre & Hk & Hp1 & Hl1 & E)]. simpl in Hk, Hp1. subst k. simpl.
  apply wp_bind. unfold zlen at 1. rewrite Nat2Z.id.
  replace (length n) with (length n - 0)%nat at 1 by lia.
  apply (wp_append_name m name n 0 pre); [done|done|lia|done|]. rewrite drop_0, <-E.
  intros path2 Hp2. simpl. apply wp_arr_put_end; [done| |intros path3 Hp3; by apply HQ].
  unfold push, zlen. rewrite length_take. lia.
Qed.

Lemma wp_last_slash {S} path s k fuel (Q : Z → S → Prop) st :
  arr_is path s → (k ≤ length s)%nat → (k < fuel)%nat → Q (Z.of_nat (slash_pos s k)) st →
  wp (last_slash fuel path (Z.of_nat k)) Q st.
Proof.
  intros [Hp Hz]. revert k. induction fuel as [|fuel IH]; intros k Hk Hf HQ; [lia|]. simpl.
  destruct k as [|[|k]]; [by apply wp_ret|by apply wp_ret|].
  destruct (Z.ltb_spec 1 (Z.of_nat (Datatypes.S (Datatypes.S k)))) as [_|]; [|lia].
  destruct (lookup_lt_is_Some_2 s (Datatypes.S k)) as [c Hc]; [lia|].
  replace (Z.of_nat (Datatypes.S (Datatypes.S k)) - 1) with (Z.of_nat (Datatypes.S k)) by lia.
  apply wp_bind. eapply wp_arr_get; [exact Hp|rewrite Nat2Z.id; by apply lookup_app_l_Some|].
  change (slash_pos s (Datatypes.S (Datatypes.S k))) with
    (if bool_decide (s !! Datatypes.S k = Some 47) then Datatypes.S (Datatypes.S k)
     else slash_pos s (Datatypes.S k)) in HQ. rewrite Hc in HQ. destruct (Z.eqb_spec c 47) as [->|Hne]; simpl.
  - apply wp_ret. by rewrite bool_decide_true in HQ.
  - apply IH; [lia..|]. rewrite bool_decide_false in HQ by congruence. exact HQ.
Qed.

Lemma wp_pop_path {S} path s (Q : arr → S → Prop) st :
  arr_is path s → s ≠ [] → (∀ path', arr_is path' (pop s) → Q path' st) →
  wp (pop_path path) Q st.
Proof.
  intros Hp Hne HQ. unfold pop_path. pose proof (arr_is_length _ _ Hp) as Hl. unfold zlen in Hl.
  apply wp_bind, (wp_arr_len path s _ 0%nat); [done|lia|pose proof arr_fuel_val; lia|].
  apply wp_bind, (wp_last_slash path s (length s)); [done|lia|pose proof arr_fuel_val; lia|].
  unfold pop in HQ. set (k := slash_pos s (length s)) in *.
  assert (k ≤ length s)%nat by apply slash_pos_le.
  assert (Hcut : ∀ j, (j ≤ length s)%nat →
    (∀ path', arr_is path' (take j s) → Q path' st) → wp (arr_put path (Z.of_nat j) 0) Q st).
  { intros j Hj HQ'. destruct Hp as [Hp Hz]. eapply wp_arr_put; [exact Hp|unfold zlen; rewrite length_app; lia|lia|].
    intros a'. rewrite Nat2Z.id, take_app_le by done. intros Ha. apply HQ'. split; [done|by apply Forall_take]. }
  destruct (Z.ltb_spec 1 (Z.of_nat k)), (Nat.ltb_spec 1 k); try lia.
  - replace (Z.of_nat k - 1) with (Z.of_nat (k - 1)) by lia. apply Hcut; [lia|done].
  - apply (Hcut 1%nat); [|done]. destruct s; [done|simpl; lia].
Qed.

(** ** The path of the console *)

(** The string at the start of a property. *)
Definition cstring (d : list Z) : list Z := take (span (λ c, negb (c =? 0)) d) d.

Fixpoint alias_spec (als : list (list Z * list Z)) (t : list Z) : option (list Z) :=
  match als with
  | [] => None
  | (n, d) :: als => if bool_decide (n = t) then Some (take 255 (cstring d)) else alias_spec als t
  end.
Definition resolve_spec (g : sig1) : option (list Z) :=
  match g_tok g with
  | Some ((c :: _) as t) => if c =? 47 then Some (take 255 t) else alias_spec (g_als g) t
  | _ => None
  end.

Lemma cstring_cstr m p d :
  bytes_at m p d → Forall byte d → 0 ∈ d → cstr m p (cstring d).
Proof.
  intros Hd Hb H0. revert p Hd. induction d as [|c d IH]; intros p Hd; [by apply elem_of_nil in H0|].
  apply bytes_at_cons in Hd as [Hc Hd]. apply Forall_cons_1 in Hb as [Hbc Hb]. unfold cstring. simpl.
  destruct (Z.eqb_spec c 0) as [->|Hne]; simpl; [by apply cstr_nil|].
  apply cstr_cons. split; [done|]. unfold byte in Hbc. split; [unfold nonzero; lia|].
  apply IH; [done| |done]. apply elem_of_cons in H0 as [?|?]; [lia|done].
Qed.

Section resolve.
Context (m : mem).

Lemma wp_copy_to l q n i buf (Q : arr → mem → Prop) :
  bytes_at m q l → arr_pre buf (take i l) → (i + n ≤ length l)%nat → (i + n ≤ 255)%nat →
  (∀ buf', arr_pre buf' (take (i + n) l) → Q buf' m) → wp (copy_to n (Z.of_nat i) q buf) Q m.
Proof.
  intros Hl. revert i buf. induction n as [|n IH]; intros i buf Hp Hn H255 HQ; simpl.
  - apply wp_ret, HQ. by rewrite Nat.add_0_r.
  - destruct (lookup_lt_is_Some_2 l i) as [c Hc]; [lia|].
    apply wp_bind. eapply wp_load; [by apply Hl|].
    assert (Ei : Z.of_nat i = zlen (take i l)) by (unfold zlen; rewrite length_take; lia).
    apply wp_bind. rewrite Ei. apply wp_arr_put_end; [done|lia|]. rewrite <-Ei.
    intros buf' Hb'. replace (Z.of_nat i + 1) with (Z.of_nat (S i)) by lia.
    apply IH; [by rewrite (take_S_r _ _ _ Hc)|lia|lia|].
    by replace (S i + n)%nat with (i + S n)%nat by lia.
Qed.

Lemma wp_match_alias an name q t fuel j (Q : Z → mem → Prop) :
  cstr m an name → bytes_at m q t → Forall nonzero t → is_Some (m !! (q + zlen t)) →
  (j ≤ length name)%nat → (j ≤ length t)%nat → take j name = take j t →
  (length name < fuel + j)%nat →
  (∀ j' x, m !! (an + j') = Some x → (j' =? zlen t) && (x =? 0) = bool_decide (name = t) → Q j' m) →
  wp (match_alias fuel an q (zlen t) (Z.of_nat j)) Q m.
Proof.
  intros [Han Hz] Hq Ht Hend. revert j. induction fuel as [|fuel IH]; intros j Hj Hj' E Hf HQ; [lia|].
  simpl. destruct (lookup_lt_is_Some_2 (name ++ [0]) j) as [a Ha]; [rewrite length_app; simpl; lia|].
  pose proof (Han _ _ Ha) as Hla. wp_load.
  destruct (lookup_nul _ _ _ Hz Ha) as [[Ha' Hna]|[-> ->]].
  - rewrite nonzero_true, nonzero_eqb by done. simpl.
    assert (Hstop : ∀ b, (Z.of_nat j =? zlen t) = b → name ≠ t → Q (Z.of_nat j) m).
    { intros b Eb Hne. apply (HQ _ a Hla). rewrite nonzero_eqb, andb_false_r by done.
      by rewrite bool_decide_false. }
    destruct (decide (j < length t)%nat) as [Hlt|Hge].
    + destruct (lookup_lt_is_Some_2 t j Hlt) as [c Hc]. pose proof (Hq _ _ Hc) as Hlc. wp_load.
      rewrite nonzero_true by (by eapply Forall_lookup_1).
      destruct (Z.ltb_spec (Z.of_nat j) (zlen t)); [|unfold zlen in *; lia]. simpl.
      destruct (Z.eqb_spec a c) as [->|Hne].
      * replace (Z.of_nat j + 1) with (Z.of_nat (S j)) by lia. apply lookup_lt_Some in Ha' as Hlt'.
        apply IH; [lia|lia| |lia|done]. by rewrite (take_S_r _ _ _ Ha'), (take_S_r _ _ _ Hc), E.
      * apply wp_ret, (Hstop _ eq_refl). intros ->. congruence.
    + destruct Hend as [c Hc]. replace (q + zlen t) with (q + Z.of_nat j) in Hc by (unfold zlen; lia). wp_load.
      destruct (Z.ltb_spec (Z.of_nat j) (zlen t)); [unfold zlen in *; lia|]. rewrite andb_false_r.
      apply wp_ret, (Hstop _ eq_refl). intros ->. apply lookup_lt_Some in Ha'. lia.
  - simpl. apply wp_ret, (HQ _ 0 Hla). rewrite andb_true_r. rewrite take_ge in E by done.
    apply Bool.eq_iff_eq_true. rewrite Z.eqb_eq, bool_decide_eq_true. unfold zlen. split.
    + intros El. rewrite E, take_ge; [done|lia].
    + by intros ->.
Qed.

Lemma wp_copy_alias s ap k fuel buf (Q : Z * arr → mem → Prop) :
  cstr m ap s → arr_pre buf (take k s) → (k ≤ length s)%nat → (k ≤ 255)%nat → (255 < fuel + k)%nat →
  (∀ buf', arr_pre buf' (take 255 s) → Q (zlen (take 255 s), buf') m) →
  wp (copy_alias fuel ap (Z.of_nat k) buf) Q m.
Proof.
  intros [Hs Hz]. revert k buf. induction fuel as [|fuel IH]; intros k buf Hp Hk H255 Hf HQ; [lia|].
  simpl. destruct (lookup_lt_is_Some_2 (s ++ [0]) k) as [c Hc]; [rewrite length_app; simpl; lia|].
  apply wp_bind. eapply wp_load; [by apply Hs|].
  destruct (lookup_nul _ _ _ Hz Hc) as [[Hc' Hn]|[-> ->]].
  - rewrite nonzero_true by done. unfold arr_size. simpl.
    destruct (Z.ltb_spec (Z.of_nat k) (256 - 1)).
    + assert (Ei : Z.of_nat k = zlen (take k s)) by (unfold zlen; rewrite length_take; lia).
      apply wp_bind. rewrite Ei. apply wp_arr_put_end; [done|lia|]. rewrite <-Ei. intros buf' Hb'.
      replace (Z.of_nat k + 1) with (Z.of_nat (S k)) by lia. apply lookup_lt_Some in Hc' as Hlt.
      apply IH; [by rewrite (take_S_r _ _ _ Hc')|lia|lia|lia|done].
    + apply wp_ret. assert (k = 255%nat) as -> by lia. specialize (HQ buf Hp).
      unfold zlen in HQ. rewrite length_take, Nat.min_l in HQ by lia. exact HQ.
  - simpl. apply wp_ret. rewrite (take_ge s (length s)) in Hp by done. rewrite take_ge in HQ by lia. by apply HQ.
Qed.

Lemma wp_find_alias als gals q t (Q : option arr → mem → Prop) :
  Forall2 (alias_rel m) als gals → (∀ n d, (n, d) ∈ gals → 0 ∈ d) →
  bytes_at m q t → Forall nonzero t → is_Some (m !! (q + zlen t)) →
  match alias_spec gals t with
  | None => Q None m
  | Some path => ∀ buf, arr_is buf path → Q (Some buf) m
  end → wp (find_alias als q (zlen t)) Q m.
Proof.
  intros Hr Hnul Hq Ht Hend. induction Hr as [|[an ap] [n d] als gals (Hn & Hd & Hb) Hr IH]; intros HQ;
    simpl in *; [by apply wp_ret|].
  apply wp_bind, wp_walking, (wp_match_alias an n q t _ 0%nat); [done..|lia|lia|done| |].
  { apply cstr_size in Hn. lia. }
  intros j x Hx E. wp_load. rewrite E. clear E. destruct (bool_decide (n = t)).
  - assert (Hc : cstr m ap (cstring d)) by (apply cstring_cstr; [done..|apply (Hnul n); set_solver]).
    apply wp_bind, (wp_copy_alias (cstring d) ap 0%nat arr_fuel new_arr); [done|apply new_arr_pre|lia|lia|pose proof arr_fuel_val; lia|].
    intros buf Hp. simpl. apply wp_bind, wp_arr_put_end; [done|unfold zlen; rewrite length_take; lia|].
    intros buf' Hp'. apply wp_ret, HQ. split; [done|]. apply Forall_take, Hc.
  - apply IH; [|done]. intros n' d' Hin. apply (Hnul n'). set_solver.
Qed.

Lemma wp_resolve s g (Q : option arr → mem → Prop) :
  rel1 m s g → (∀ n d, (n, d) ∈ g_als g → 0 ∈ d) →
  match resolve_spec g with
  | None => Q None m
  | Some path => ∀ buf, arr_is buf path → Q (Some buf) m
  end → wp (resolve s) Q m.
Proof.
  intros [_ Ht Ha] Hnul HQ. unfold resolve, resolve_spec in *. destruct (g_tok g) as [t|]; simpl in Ht.
  - destruct Ht as (Hp & Hl & Hb & Hz & Hend). rewrite (proj2 (Z.eqb_neq (stdout_token s) 0)) by lia.
    rewrite Hl. simpl. destruct t as [|c t]; [by apply wp_ret|].
    destruct (Z.eqb_spec (zlen (c :: t)) 0) as [E|_]; [by unfold zlen in E; simpl in E; lia|].
    pose proof Hb as Hb'. apply bytes_at_cons in Hb' as [Hc _]. wp_load.
    destruct (c =? 47); [|by apply (wp_find_alias _ (g_als g))].
    set (t' := c :: t) in *. set (n := if zlen t' <? arr_size - 1 then _ else _).
    assert (Hn : n = zlen (take 255 t')).
    { unfold n, arr_size, zlen. rewrite length_take. destruct (Z.ltb_spec (Z.of_nat (length t')) (256 - 1)); lia. }
    assert (Hn' : (Z.to_nat n ≤ length t' ∧ Z.to_nat n ≤ 255)%nat).
    { rewrite Hn. unfold zlen. rewrite length_take. lia. }
    assert (Htk : take (Z.to_nat n) t' = take 255 t').
    { rewrite Hn. unfold zlen. rewrite length_take, Nat2Z.id, <-take_take, (take_ge t' (length t')); done. }
    clearbody n.
    apply wp_bind, (wp_copy_to t' _ _ 0%nat); [done|apply new_arr_pre|lia|lia|]. simpl. rewrite Htk.
    intros buf Hbuf. apply wp_bind. rewrite Hn. apply wp_arr_put_end; [done|unfold zlen; rewrite length_take; lia|].
    intros buf' Hbuf'. apply wp_ret, HQ. split; [done|]. by apply Forall_take.
  - rewrite Ht. simpl. by apply wp_ret.
Qed.
End resolve.

(** ** Second pass *)

(** The value returned, or an overrun of the path array. *)
Inductive p2res :=
  | Ret (r : option Z)
  | Overrun.

Definition reg_val (d : list Z) : option Z :=
  match be_words d with
  | hi :: lo :: _ => Some (hi * 2 ^ 32 + lo)
  | [b] => Some b
  | [] => None
  end.

(** [mode] is [Some] inside the property loop of a node, with whether the node
    is the one looked for. *)
Fixpoint p2 (target : list Z) (evs : list ev) (mode : option bool) (path : list Z) (dp : Z) : p2res :=
  match evs with
  | [] => Ret None
  | EBegin n :: evs =>
      if (dp =? 0) && bool_decide (n = [])
      then p2 target evs (Some (bool_decide (path = target))) path (dp + 1)
      else if zlen path <? 255
      then let path := push path n in
           p2 target evs (Some (bool_decide (path = target))) path (dp + 1)
      else Overrun
  | EProp n d :: evs =>
      match mode with
      | Some true => if has_prefix (lit "reg") n then Ret (reg_val d) else p2 target evs mode path dp
      | _ => p2 target evs mode path dp
      end
  | EEnd :: evs =>
      match mode with
      | Some _ => p2 target evs None (pop path) (dp - 1)
      | None => p2 target evs None path dp
      end
  | ENop :: evs => p2 target evs mode path dp
  end.

Lemma push_nonempty s n : s ≠ [] → push s n ≠ [].
Proof. destruct s as [|c s]; [done|]. unfold push. by destruct (_ <? _). Qed.

Lemma pop_nonempty s : s ≠ [] → pop s ≠ [].
Proof.
  intros Hs. unfold pop. destruct s as [|c s]; [done|].
  destruct (Nat.ltb_spec 1 (slash_pos (c :: s) (length (c :: s)))) as [H|H]; [|done].
  by destruct (slash_pos _ _) as [|[|k]]; [lia|lia|].
Qed.

Lemma wp_read_reg m q d (Q : option Z → mem → Prop) :
  bytes_at m q d → Forall byte d → Q (reg_val d) m → wp (read_reg q (zlen d)) Q m.
Proof.
  intros Hd Hb HQ. unfold read_reg. rewrite Z.add_0_r. unfold reg_val in HQ.
  destruct (Z.leb_spec 4 (zlen d)) as [H4|H4].
  - destruct (be_words_long d) as (w & d' & Hw & Hsplit & Hrw & Hb'); [done..|].
    pose proof (first_cell _ _ _ Hd Hb H4) as Ht. rewrite Hw in *. simpl in Ht.
    assert (Hz : zlen d = 4 + zlen d') by (rewrite Hsplit; unfold zlen; simpl; lia).
    rewrite Hsplit in Hd. apply bytes_at_app in Hd as [_ Hd'].
    destruct (Z.leb_spec 8 (zlen d)) as [H8|H8].
    + destruct (be_words_long d') as (w' & d'' & Hw' & _ & Hrw' & _); [lia|done|].
      pose proof (first_cell _ _ _ Hd' Hb' ltac:(lia)) as Ht'. rewrite Hw' in *. simpl in Ht'.
      apply wp_bind, (wp_be32_at _ _ _ _ Ht). apply wp_bind, (wp_be32_at _ _ _ _ Ht'). apply wp_ret.
      rewrite Z.shiftl_mul_pow2, lor_add by lia. done.
    + rewrite (be_words_short d') in HQ by lia. apply wp_bind, (wp_be32_at _ _ _ _ Ht). by apply wp_ret.
  - rewrite be_words_short in HQ by done. destruct (Z.leb_spec 8 (zlen d)); [lia|]. by apply wp_ret.
Qed.

Section pass2.
Context (m : mem) (fdt strings : Z) (tgt : arr) (target : list Z).
Hypothesis Htgt : arr_is tgt target.

Lemma wp_props2 at_t evs fuel p dp path s r (Q : option Z + Z * Z * arr → mem → Prop) :
  block m fdt strings p evs → (length evs < fuel)%nat → arr_is path s → s ≠ [] →
  p2 target evs (Some at_t) s dp = Ret r →
  (∀ res, match res with
          | inl b => b = r
          | inr (p', dp', path') => ∃ evs' s', block m fdt strings p' evs' ∧
              (length evs' ≤ length evs)%nat ∧ arr_is path' s' ∧ s' ≠ [] ∧
              p2 target evs' None s' dp' = Ret r
          end → Q res m) →
  wp (props2 fuel fdt strings at_t p dp path) Q m.
Proof.
  revert evs p. induction fuel as [|fuel IH]; intros evs p Hb Hf Hs Hne Hr HQ; [lia|].
  simpl. destruct evs as [|[n|n d| |] evs]; simpl in Hf.
  - pose proof Hb as [Ht _]. apply wp_bind, (wp_be32_at _ _ _ _ Ht). apply wp_ret, HQ. by injection Hr.
  - pose proof Hb as ((Ht & Hn) & _ & _). apply wp_bind, (wp_be32_at _ _ _ _ Ht).
    apply wp_ret, HQ. exists (EBegin n :: evs), s.
    replace (u32 (u32 (p + 4) - 4)) with p; [done|]. destruct (begin_step _ _ _ _ _ _ Hb) as [-> _].
    apply block_bound in Hb. unfold u32. rewrite Z.mod_small; lia.
  - pose proof Hb as ((Ht & Hl & (off & Hoff & Hn) & Hd & Hbd & _) & Hp0 & Hb').
    destruct (prop_step _ _ _ _ _ _ _ Hb) as (E4 & E8 & E12 & E).
    apply wp_bind, (wp_be32_at _ _ _ _ Ht). simpl (_ =? _). cbv iota. rewrite E4.
    replace (p + 4 + 4) with (p + 8) by lia. rewrite E8. replace (p + 8 + 4) with (p + 12) by lia. rewrite E12.
    apply wp_bind, (wp_be32_at _ _ _ _ Hl). apply wp_bind, (wp_be32_at _ _ _ _ Hoff). rewrite E.
    apply wp_bind. apply (wp_mono _ (λ b m', b = at_t && has_prefix (lit "reg") n ∧ m' = m)).
    { destruct at_t; [|by apply wp_ret].
      apply wp_bind, (wp_prefix m n); [done|lit_ok|done|]. intros x ->. by apply wp_ret. }
    intros b m' [-> ->]. simpl in Hr.
    assert (Hrest : p2 target evs (Some at_t) s dp = Ret r →
      wp (props2 fuel fdt strings at_t (p + ev_size (EProp n d)) dp path) Q m).
    { intros Hr'. apply (IH evs _ Hb' ltac:(lia) Hs Hne Hr'). intros res H. apply HQ.
      destruct res as [|[[p' dp'] path']]; [done|]. destruct H as (evs' & s' & H1 & H2 & H3).
      exists evs', s'. split; [done|]. split; [simpl; lia|done]. }
    destruct at_t; simpl; [|by apply Hrest].
    destruct (has_prefix (lit "reg") n); [|by apply Hrest].
    apply wp_bind, (wp_read_reg m _ d); [done..|]. apply wp_ret, HQ. by injection Hr.
  - pose proof Hb as (Ht & _ & Hb'). pose proof (u32_step _ _ _ _ _ _ 4 Hb ltac:(simpl; lia)) as E4.
    apply wp_bind, (wp_be32_at _ _ _ _ Ht). simpl (_ =? _). cbv iota. rewrite E4.
    apply wp_bind, (wp_pop_path path s); [done..|]. intros path' Hs'. apply wp_ret, HQ.
    exists evs, (pop s). split_and!; [done|simpl; lia|done|by apply pop_nonempty|done].
  - pose proof Hb as (Ht & _ & Hb'). pose proof (u32_step _ _ _ _ _ _ 4 Hb ltac:(simpl; lia)) as E4.
    apply wp_bind, (wp_be32_at _ _ _ _ Ht). simpl (_ =? _). cbv iota. rewrite E4.
    apply (IH evs _ Hb' ltac:(lia) Hs Hne Hr). intros res H. apply HQ.
    destruct res as [|[[p' dp'] path']]; [done|]. destruct H as (evs' & s' & H1 & H2 & H3).
    exists evs', s'. split; [done|]. split; [simpl; lia|done].
Qed.

Lemma wp_pass2 evs fuel p dp path s r (Q : option Z → mem → Prop) :
  block m fdt strings p evs → (length evs < fuel)%nat → arr_is path s → s ≠ [] →
  p2 target evs None s dp = Ret r → Q r m →
  wp (pass2_loop fuel fdt strings tgt p dp path) Q m.
Proof.
  intros Hb Hf Hs Hne Hr HQ. revert evs p dp path s Hb Hf Hs Hne Hr.
  induction fuel as [|fuel IH]; intros evs p dp path s Hb Hf Hs Hne Hr; [lia|].
  simpl. destruct evs as [|[n|n d| |] evs]; simpl in Hf.
  - pose proof Hb as [Ht _]. apply wp_bind, (wp_be32_at _ _ _ _ Ht). apply wp_ret. by injection Hr as <-.
  - pose proof Hb as ((Ht & Hn) & _ & Hb'). destruct (begin_step _ _ _ _ _ _ Hb) as (E4 & E).
    apply wp_bind, (wp_be32_at _ _ _ _ Ht). simpl (_ =? _). cbv iota. rewrite E4.
    apply wp_bind, (wp_name_len m n); [done|]. rewrite E. cbn [p2] in Hr.
    assert (En : (zlen n =? 0) = bool_decide (n = [])) by (by destruct n). rewrite En.
    apply wp_bind. apply (wp_mono _ (λ path' m', m' = m ∧ ∃ s', arr_is path' s' ∧ s' ≠ [] ∧
      p2 target evs (Some (bool_decide (s' = target))) s' (dp + 1) = Ret r)).
    { destruct (_ && _); simpl; [apply wp_ret; split; [done|]; by exists s|].
      destruct (Z.ltb_spec (zlen s) 255); [|done].
      apply (wp_push_path m _ n s); [done..|]. intros path' Hs'. split; [done|].
      exists (push s n). split; [done|]. split; [by apply push_nonempty|done]. }
    intros path1 m' [-> (s1 & Hs1 & Hne1 & Hr1)].
    apply wp_bind, (wp_path_equals _ _ s1 target); [done..|].
    apply wp_bind, wp_walking, (wp_props2 _ evs _ _ _ _ s1 r); [done|apply block_fuel in Hb'; simpl; lia|done..|].
    intros [b|[[p' dp'] path']]; [intros ->; by apply wp_ret|].
    intros (evs' & s' & H1 & H2 & H3 & H4 & H5). apply (IH evs' _ _ _ s'); [done|lia|done..].
  - pose proof Hb as ((Ht & Hl & _) & _ & Hb'). destruct (prop_step _ _ _ _ _ _ _ Hb) as (E4 & E8 & E12 & E).
    apply wp_bind, (wp_be32_at _ _ _ _ Ht). simpl (_ =? _). cbv iota. rewrite E4.
    replace (p + 4 + 4) with (p + 8) by lia. rewrite E8. replace (p + 8 + 4) with (p + 12) by lia. rewrite E12.
    apply wp_bind, (wp_be32_at _ _ _ _ Hl). rewrite E. apply (IH evs _ _ _ s); [done|lia|done..].
  - pose proof Hb as (Ht & _ & Hb'). pose proof (u32_step _ _ _ _ _ _ 4 Hb ltac:(simpl; lia)) as E4.
    apply wp_bind, (wp_be32_at _ _ _ _ Ht). simpl (_ =? _). cbv iota. rewrite E4.
    apply (IH evs _ _ _ s); [done|lia|done..].
  - pose proof Hb as (Ht & _ & Hb'). pose proof (u32_step _ _ _ _ _ _ 4 Hb ltac:(simpl; lia)) as E4.
    apply wp_bind, (wp_be32_at _ _ _ _ Ht). simpl (_ =? _). cbv iota. rewrite E4.
    apply (IH evs _ _ _ s); [done|lia|done..].
Qed.
End pass2.

(** ** The whole function *)

Definition uart_spec (evs : list ev) : p2res :=
  match resolve_spec (p1 evs None sig0) with
  | None => Ret None
  | Some target => p2 target evs None [47] 0
  end.

Lemma wp_uart s evs r (Q : option Z → dtb → Prop) :
  blob s evs → (∀ n d, (n, d) ∈ g_als (p1 evs None sig0) → 0 ∈ d) →
  uart_spec evs = Ret r → Q r s → wp dtb_get_stdout_uart_base Q s.
Proof.
  intros [Hp Hm _ (os & ot & Hos & Hot & Hb)] Hnul Hr HQ. unfold dtb_get_stdout_uart_base, uart_spec in *.
  apply wp_bind, wp_gets. rewrite ptr_true by done. apply wp_on_ram.
  apply wp_bind, (wp_be32_at _ _ _ _ Hm). rewrite Z.eqb_refl.
  apply wp_bind, (wp_be32_at _ _ _ _ Hos). apply wp_bind, (wp_be32_at _ _ _ _ Hot).
  pose proof (block_fuel _ _ _ _ _ Hb) as Hfuel.
  apply wp_bind, wp_walking, (wp_pass1 (ram s) _ _ Hp evs _ _ _ sig0); [done|lia|by split; [| |constructor]|].
  intros s1 Hs1. apply wp_bind, (wp_resolve _ _ _ _ Hs1); [done|].
  destruct (resolve_spec _) as [target|]; [|apply wp_ret; by injection Hr as <-].
  intros buf Hbuf. apply wp_bind, (wp_arr_put_end _ []); [apply new_arr_pre|done|]. intros a1 Ha1.
  apply wp_bind, (wp_arr_put_end _ [47]); [done|done|]. intros a2 Ha2.
  apply wp_walking, (wp_pass2 (ram s) _ _ buf target Hbuf evs _ _ _ _ [47] r); [done|lia| |done|done|done].
  split; [done|]. by repeat constructor.
Qed.
