(* ===== verification/DtbTree.v ===== *)
(** * Device trees

    Trees of named nodes with properties, their flattening into events, an
    encoder of events into a blob, and what the passes over the events compute
    on the events of a tree. *)
From stdpp Require Import base gmap list option numbers strings.
From Stdlib Require Import ZArith Lia.
From S2P Require Import Prelude CString CStringThm CStringCopy Dtb DtbThm DtbUart DtbPath.
Import CString Dtb.
#[local] Open Scope Z_scope.

Abbreviation prop := (list Z * list Z)%type.
Inductive node :=
  | Node (name : list Z) (props : list prop) (children : list node).

Fixpoint flatten (t : node) : list ev :=
  match t with
  | Node n ps cs => EBegin n :: (uncurry EProp <$> ps) ++ flat_map flatten cs ++ [EEnd]
  end.

(** Names and properties of the nodes, in document order. *)
Fixpoint nodes (t : node) : list (list Z * list prop) :=
  match t with Node n ps cs => (n, ps) :: flat_map nodes cs end.

Fixpoint height (t : node) : Z :=
  match t with Node _ _ cs => 1 + foldr (λ c h, Z.max (height c) h) 0 cs end.

Lemma node_rect' (P : node → Prop) :
  (∀ n ps cs, Forall P cs → P (Node n ps cs)) → ∀ t, P t.
Proof.
  intros H. fix IH 1. intros [n ps cs]. apply H. induction cs as [|c cs IHcs]; [constructor|].
  constructor; [apply IH|exact IHcs].
Qed.

(** ** Encoding *)

Definition pad (n : Z) : list Z := replicate (Z.to_nat (pad4 n - n)) 0.

(** The structure block; [off] is where the next property name goes in the
    strings block. *)
Fixpoint enc_struct (off : Z) (evs : list ev) : list Z :=
  match evs with
  | [] => be_bytes DTB_END
  | EBegin n :: evs => be_bytes DTB_BEGIN_NODE ++ (n ++ [0]) ++ pad (zlen n + 1) ++ enc_struct off evs
  | EProp n d :: evs =>
      be_bytes DTB_PROP ++ be_bytes (zlen d) ++ be_bytes off ++ d ++ pad (zlen d) ++
      enc_struct (off + zlen n + 1) evs
  | EEnd :: evs => be_bytes DTB_END_NODE ++ enc_struct off evs
  | ENop :: evs => be_bytes DTB_NOP ++ enc_struct off evs
  end.
Fixpoint enc_strings (evs : list ev) : list Z :=
  match evs with
  | [] => []
  | EProp n _ :: evs => n ++ [0] ++ enc_strings evs
  | _ :: evs => enc_strings evs
  end.

Definition ok_ev (e : ev) : Prop :=
  match e with
  | EBegin n => Forall nonzero n
  | EProp n d => Forall nonzero n ∧ Forall byte d
  | _ => True
  end.

(** The blob: a header of 40 bytes, the structure block, the strings block. *)
Definition enc_blob (evs : list ev) : list Z :=
  let st := enc_struct 0 evs in
  let sg := enc_strings evs in
  be_bytes DTB_MAGIC ++ be_bytes (40 + zlen st + zlen sg) ++ be_bytes 40 ++ be_bytes (40 + zlen st) ++
  replicate 24 0 ++ st ++ sg.

Lemma zlen_app l k : zlen (l ++ k) = zlen l + zlen k.
Proof. unfold zlen. rewrite length_app. lia. Qed.
Lemma zlen_nonneg l : 0 ≤ zlen l.
Proof. unfold zlen. lia. Qed.
Lemma zlen_pad n : zlen (pad n) = pad4 n - n.
Proof. unfold zlen, pad. rewrite length_replicate. pose proof (pad4_range n). lia. Qed.
Lemma zlen_be v : zlen (be_bytes v) = 4.
Proof. reflexivity. Qed.
Lemma zlen_cons c l : zlen (c :: l) = 1 + zlen l.
Proof. unfold zlen. simpl. lia. Qed.
#[local] Hint Rewrite zlen_app zlen_pad zlen_be zlen_cons : zlen.

Lemma bytes_app m p l k : bytes_at m p (l ++ k) ↔ bytes_at m p l ∧ bytes_at m (p + zlen l) k.
Proof. apply bytes_at_app. Qed.

Lemma bytes_move m p q l : bytes_at m p l → p = q → bytes_at m q l.
Proof. by intros H <-. Qed.

(** Memory that holds the two encoded blocks satisfies [block]. *)
Lemma enc_block m fdt strings evs p off :
  Forall ok_ev evs → 0 ≤ p → 0 ≤ off →
  p + zlen (enc_struct off evs) < 2 ^ 32 → off + zlen (enc_strings evs) < 2 ^ 32 →
  bytes_at m (fdt + p) (enc_struct off evs) → bytes_at m (strings + off) (enc_strings evs) →
  block m fdt strings p evs.
Proof.
  intros Hok. revert p off. induction Hok as [|e evs He Hok IH]; intros p off Hp Ho Hl Hl' Hb Hs;
    cbn [enc_struct enc_strings block] in *.
  - rewrite zlen_be in Hl. split; [|lia]. by split.
  - pose proof (zlen_nonneg (enc_strings evs)).
    destruct e as [n|n d| |]; cbn [enc_struct enc_strings ok_ev ev_at ev_size] in *.
    + pose proof (pad4_range (zlen n + 1)). pose proof (zlen_nonneg n).
      autorewrite with zlen in Hl. change (zlen []) with 0 in Hl.
      apply bytes_app in Hb as [Hb1 Hb]. apply bytes_app in Hb as [Hb2 Hb]. apply bytes_app in Hb as [_ Hb].
      autorewrite with zlen in *. change (zlen []) with 0 in *.
      split; [split; [by split|]|split; [done|]].
      * split; [|done]. by rewrite Z.add_assoc.
      * apply (IH _ off); [lia|lia|lia|lia| |done].
        by replace (fdt + (p + (4 + pad4 (zlen n + 1)))) with
          (fdt + p + 4 + (zlen n + (1 + 0)) + (pad4 (zlen n + 1) - (zlen n + 1))) by lia.
    + destruct He as [Hn Hd]. pose proof (pad4_range (zlen d)). pose proof (zlen_nonneg d).
      pose proof (zlen_nonneg n). pose proof (zlen_nonneg (enc_struct (off + zlen n + 1) evs)).
      autorewrite with zlen in Hl, Hl'.
      apply bytes_app in Hb as [Hb1 Hb]. apply bytes_app in Hb as [Hb2 Hb]. apply bytes_app in Hb as [Hb3 Hb].
      pose proof Hb as Hm. apply bytes_app in Hb as [Hb4 Hb]. apply bytes_app in Hb as [Hb5 Hb].
      apply bytes_app in Hs as [Hs1 Hs].
      apply bytes_app in Hs as [Hs2 Hs].
      autorewrite with zlen in *. change (zlen []) with 0 in *. rewrite <-!Z.add_assoc in *. simpl (_ + _) in *.
      split; [|split; [done|]].
      * split; [by split|]. split; [by split; [lia|]|]. split.
        { exists off. split; [by split; [lia|]|]. split; [|done]. apply bytes_app.
          split; [done|]. by replace (strings + off + zlen n) with (strings + (off + zlen n)) by lia. }
        split; [done|]. split; [done|]. rewrite app_assoc in Hm. apply bytes_app in Hm as [Hm _].
        apply bytes_at_mapped in Hm. change (Z.of_nat (length ?l)) with (zlen l) in Hm.
        autorewrite with zlen in Hm. by replace (pad4 (zlen d)) with (zlen d + (pad4 (zlen d) - zlen d)) by lia.
      * apply (IH _ (off + (zlen n + 1))); [lia|lia|lia|lia| |];
          [apply (bytes_move _ _ _ _ Hb); lia|apply (bytes_move _ _ _ _ Hs); lia].
    + autorewrite with zlen in Hl. apply bytes_app in Hb as [Hb1 Hb].
      split; [by split|]. split; [done|]. rewrite zlen_be, <-Z.add_assoc in Hb. by apply (IH _ off); [lia|lia|lia|lia| |].
    + autorewrite with zlen in Hl. apply bytes_app in Hb as [Hb1 Hb].
      split; [by split|]. split; [done|]. rewrite zlen_be, <-Z.add_assoc in Hb. by apply (IH _ off); [lia|lia|lia|lia| |].
Qed.

(** Memory that holds an encoded blob at [dtb_ptr]. *)
Lemma enc_blob_ok s evs :
  Forall ok_ev evs → 0 < dtb_ptr s → zlen (enc_blob evs) < 2 ^ 32 →
  bytes_at (ram s) (dtb_ptr s) (enc_blob evs) → blob s evs.
Proof.
  intros Hok Hp Hl Hb. unfold enc_blob in *. set (st := enc_struct 0 evs) in *. set (sg := enc_strings evs) in *.
  pose proof (zlen_nonneg st). pose proof (zlen_nonneg sg).
  autorewrite with zlen in Hl. change (zlen (replicate 24 0)) with 24 in Hl.
  apply bytes_app in Hb as [Hb1 Hb]. apply bytes_app in Hb as [Hb2 Hb]. apply bytes_app in Hb as [Hb3 Hb].
  apply bytes_app in Hb as [Hb4 Hb]. apply bytes_app in Hb as [_ Hb]. apply bytes_app in Hb as [Hb5 Hb6].
  autorewrite with zlen in *. change (zlen (replicate 24 0)) with 24 in *.
  rewrite <-!Z.add_assoc in *. simpl (_ + _) in *.
  split; [done|rewrite Z.add_0_r; by split|exists (40 + (zlen st + zlen sg)); by split; [lia|]|].
  exists 40, (40 + zlen st). split; [by split|]. split; [by split; [lia|]|].
  apply (enc_block _ _ _ _ _ 0); [done|lia|lia|fold st; lia|fold sg; lia|done|].
  apply (bytes_move _ _ _ _ Hb6). lia.
Qed.

(** ** The first pass on a tree *)

Definition scan_child (t : node) (g : sig1) : sig1 :=
  match t with
  | Node n ps _ =>
      foldl (λ g p, g_prop (has_prefix (lit "chosen") n) (has_prefix (lit "aliases") n) p.1 p.2 g) g ps
  end.
(** The stdout token and the aliases that the children of the root define. *)
Definition scan (cs : list node) : sig1 := foldl (λ g c, scan_child c g) sig0 cs.

Lemma p1_props ch al ps r g :
  p1 ((uncurry EProp <$> ps) ++ r) (Some (ch, al)) g
  = p1 r (Some (ch, al)) (foldl (λ g p, g_prop ch al p.1 p.2 g) g ps).
Proof. revert g. induction ps as [|[n d] ps IH]; intros g; simpl; [done|]. apply IH. Qed.

Lemma p1_props_off ps r g :
  p1 ((uncurry EProp <$> ps) ++ r) (Some (false, false)) g = p1 r (Some (false, false)) g.
Proof. rewrite p1_props. f_equal. by induction ps as [|[n d] ps IH]. Qed.

Lemma g_prop_depth ch al n d k g :
  g_prop ch al n d (g_set_depth k g) = g_set_depth k (g_prop ch al n d g).
Proof. unfold g_prop. simpl. destruct (ch && _); [done|]. by destruct (al && _). Qed.

Lemma scan_child_depth t k g : scan_child t (g_set_depth k g) = g_set_depth k (scan_child t g).
Proof.
  destruct t as [n ps cs]. simpl. revert g. induction ps as [|p ps IH]; intros g; simpl; [done|].
  by rewrite g_prop_depth, IH.
Qed.

Lemma height_pos t : 1 ≤ height t.
Proof.
  destruct t as [n ps cs]. simpl.
  assert (0 ≤ foldr (λ c h, Z.max (height c) h) 0 cs); [|lia]. induction cs; simpl; lia.
Qed.

Definition heights (cs : list node) : Z := foldr (λ c h, Z.max (height c) h) 0 cs.

(** The last token of a node: back to the level above. *)
Lemma p1_close mode r g :
  1 ≤ g_depth g → p1 (EEnd :: r) mode g = p1 r None (g_set_depth (g_depth g - 1) g).
Proof. intros H. simpl. destruct mode; [done|]. by destruct (Z.ltb_spec 0 (g_depth g)); [|lia]. Qed.

Lemma g_enter_low g : g_depth g < 16 → g_enter g = g_set_depth (g_depth g + 1) g.
Proof. intros H. unfold g_enter. by destruct (Z.ltb_spec (g_depth g) 16); [|lia]. Qed.

Lemma g_flags_off n g : g_depth g ≠ 2 → g_flags n g = (false, false).
Proof. intros H. unfold g_flags. by rewrite (proj2 (Z.eqb_neq (g_depth g) 2)). Qed.

Lemma g_set_depth_id g : g_set_depth (g_depth g) g = g.
Proof. by destruct g. Qed.

(** Below the children of the root nothing is collected. *)
Lemma p1_deep t mode g r :
  2 ≤ g_depth g → g_depth g + height t ≤ 16 → p1 (flatten t ++ r) mode g = p1 r None g.
Proof.
  revert mode g r. induction t as [n ps cs IH] using node_rect'. intros mode g r H2 Hh.
  cbn [flatten height] in *. fold (heights cs) in Hh. rewrite <-app_comm_cons. cbn [p1].
  assert (0 ≤ heights cs) by (clear; induction cs as [|c cs IH]; simpl; lia).
  rewrite g_enter_low by lia. rewrite g_flags_off by (simpl; lia).
  rewrite <-!app_assoc, p1_props_off. generalize (Some (false, false)). intros mode'.
  assert (Hcs : ∀ md, p1 (flat_map flatten cs ++ [EEnd] ++ r) md (g_set_depth (g_depth g + 1) g)
    = p1 ([EEnd] ++ r) (match cs with [] => md | _ => None end) (g_set_depth (g_depth g + 1) g)).
  { clear mode mode'. induction cs as [|c cs IHcs]; intros md; [done|]. simpl in *.
    apply Forall_cons_1 in IH as [IHc IHf]. rewrite <-app_assoc, IHc by (simpl; lia).
    rewrite IHcs; [by destruct cs|done|lia|]. clear. induction cs as [|c cs IH]; simpl; lia. }
  rewrite Hcs. simpl ([EEnd] ++ r). rewrite p1_close by (simpl; lia). simpl.
  replace (g_depth g + 1 - 1) with (g_depth g) by lia. by destruct g.
Qed.

Lemma p1_forest cs r md g :
  2 ≤ g_depth g → g_depth g + heights cs ≤ 16 →
  p1 (flat_map flatten cs ++ EEnd :: r) md g = p1 r None (g_set_depth (g_depth g - 1) g).
Proof.
  revert md. induction cs as [|c cs IH]; intros md H2 Hh; simpl in *; [apply (p1_close md); lia|].
  rewrite <-app_assoc, p1_deep by lia. apply IH; lia.
Qed.

(** A child of the root. *)
Lemma p1_child t md g r :
  g_depth g = 1 → height t ≤ 14 → p1 (flatten t ++ r) md g = p1 r None (scan_child t g).
Proof.
  intros H1 Hh. destruct t as [n ps cs]. cbn [flatten height] in *. fold (heights cs) in Hh.
  rewrite <-app_comm_cons. cbn [p1]. rewrite g_enter_low, H1 by lia.
  change (g_flags n (g_set_depth (1 + 1) g))
    with (has_prefix (lit "chosen") n, has_prefix (lit "aliases") n).
  rewrite <-!app_assoc, p1_props.
  match goal with |- p1 _ _ ?x = _ => change x with (scan_child (Node n ps cs) (g_set_depth 2 g)) end.
  rewrite scan_child_depth. set (g' := scan_child _ g).
  assert (Hd : g_depth g' = 1).
  { unfold g'. rewrite <-(g_set_depth_id g), H1, scan_child_depth. done. }
  clearbody g'. simpl ([EEnd] ++ r). rewrite p1_forest by (simpl; lia). f_equal.
  destruct g' as [dg tg ag]. simpl in *. by subst.
Qed.

Lemma p1_children cs r md g :
  g_depth g = 1 → (∀ c, c ∈ cs → height c ≤ 14) →
  p1 (flat_map flatten cs ++ r) md g
  = p1 r (match cs with [] => md | _ => None end) (foldl (λ g c, scan_child c g) g cs).
Proof.
  revert md g. induction cs as [|c cs IH]; intros md g H1 Hh; [done|]. simpl.
  rewrite <-app_assoc, p1_child; [|done|apply Hh; set_solver].
  rewrite IH; [by destruct cs| |intros c' Hc'; apply Hh; set_solver].
  rewrite <-(g_set_depth_id g), H1, scan_child_depth. done.
Qed.

Lemma scan_depth cs k g :
  foldl (λ g c, scan_child c g) (g_set_depth k g) cs
  = g_set_depth k (foldl (λ g c, scan_child c g) g cs).
Proof. revert g. induction cs as [|c cs IH]; intros g; simpl; [done|]. by rewrite scan_child_depth, IH. Qed.

Lemma p1_root rps cs :
  (∀ c, c ∈ cs → height c ≤ 14) →
  p1 (flatten (Node [] rps cs)) None sig0 = scan cs.
Proof.
  intros Hh. cbn [flatten p1]. rewrite g_enter_low by (simpl; lia). rewrite g_flags_off by done.
  rewrite p1_props_off, (p1_children cs [EEnd]) by done. rewrite scan_depth.
  rewrite p1_close by done. unfold scan.
  assert (Hd : foldl (λ g c, scan_child c g) sig0 cs
    = g_set_depth 0 (foldl (λ g c, scan_child c g) sig0 cs)) by (by rewrite <-scan_depth).
  rewrite Hd at 2. done.
Qed.

(** ** The second pass on a tree *)

(** The first property whose name starts with [l]. *)
Fixpoint prop_prefix (l : list Z) (ps : list prop) : option (list Z) :=
  match ps with
  | [] => None
  | (n, d) :: ps => if has_prefix l n then Some d else prop_prefix l ps
  end.

Lemma p2_props tgt ps r b path dp :
  p2 tgt ((uncurry EProp <$> ps) ++ r) (Some b) path dp =
  match (if b then prop_prefix (lit "reg") ps else None) with
  | Some d => Ret (reg_val d)
  | None => p2 tgt r (Some b) path dp
  end.
Proof.
  induction ps as [|[n d] ps IH]; simpl; [by destruct b|]. destruct b; [|done].
  by destruct (has_prefix (lit "reg") n).
Qed.

(** A name that is one component of a path and fits the path array. *)
Definition ok_name (n : list Z) : Prop := n ≠ [] ∧ 47 ∉ n ∧ zlen n ≤ 254.

Lemma push_root n : zlen n ≤ 254 → push [47] n = 47 :: n.
Proof. intros H. unfold push, zlen in *. simpl. by rewrite take_ge by lia. Qed.

Lemma slash_none n k : 47 ∉ n → (k ≤ length n)%nat → slash_pos (47 :: n) (S k) = 1%nat.
Proof.
  intros Hn. induction k as [|k IH]; intros Hk; [done|].
  change (slash_pos (47 :: n) (S (S k))) with
    (if bool_decide ((47 :: n) !! S k = Some 47) then S (S k) else slash_pos (47 :: n) (S k)).
  rewrite bool_decide_false; [apply IH; lia|]. simpl. intros H. by apply Hn, (list_elem_of_lookup_2 _ _ _ H).
Qed.

Lemma pop_root n : 47 ∉ n → pop (47 :: n) = [47].
Proof. intros H. unfold pop. simpl length. rewrite slash_none by done. done. Qed.

(** A leaf below the root that is not the one looked for leaves the path as it
    was. *)
Lemma p2_leaf tgt n ps r md dp :
  dp ≠ 0 → ok_name n → 47 :: n ≠ tgt →
  p2 tgt (flatten (Node n ps []) ++ r) md [47] dp = p2 tgt r None [47] dp.
Proof.
  intros Hdp (Hne & Hsl & Hl) Hno. cbn [flatten flat_map]. rewrite <-app_comm_cons. cbn [p2].
  rewrite (proj2 (Z.eqb_neq dp 0)) by done. simpl (false && _). cbv iota. simpl (zlen [47] <? 255). cbv iota.
  rewrite push_root by done. rewrite bool_decide_false by done.
  rewrite <-app_assoc, p2_props. simpl. rewrite pop_root by done. f_equal. lia.
Qed.

Lemma p2_found tgt n ps cs r md dp d :
  dp ≠ 0 → zlen n ≤ 254 → tgt = 47 :: n → prop_prefix (lit "reg") ps = Some d →
  p2 tgt (flatten (Node n ps cs) ++ r) md [47] dp = Ret (reg_val d).
Proof.
  intros Hdp Hl -> Hd. cbn [flatten]. rewrite <-app_comm_cons. cbn [p2].
  rewrite (proj2 (Z.eqb_neq dp 0)) by done. simpl (false && _). cbv iota. simpl (zlen [47] <? 255). cbv iota.
  rewrite push_root by done. rewrite bool_decide_true by done.
  rewrite <-!app_assoc, p2_props, Hd. done.
Qed.

Definition leaf (t : node) : Prop := match t with Node _ _ cs => cs = [] end.
Definition name_of (t : node) : list Z := match t with Node n _ _ => n end.

Lemma p2_leaves tgt pre r md dp :
  dp ≠ 0 → (∀ t, t ∈ pre → leaf t ∧ ok_name (name_of t) ∧ 47 :: name_of t ≠ tgt) →
  p2 tgt (flat_map flatten pre ++ r) md [47] dp = p2 tgt r (match pre with [] => md | _ => None end) [47] dp.
Proof.
  intros Hdp. revert md. induction pre as [|[n ps cs] pre IH]; intros md Hall; [done|]. cbn [flat_map].
  destruct (Hall (Node n ps cs)) as (Hl & Hn & Hne); [set_solver|]. simpl in Hl. subst cs.
  rewrite <-app_assoc, p2_leaf by done. rewrite IH; [by destruct pre|]. intros t Ht. apply Hall. set_solver.
Qed.

(** The console is found when it is a child of the root that follows leaves
    only. *)
Lemma uart_found rps pre post name ps cs d :
  (∀ c, c ∈ pre ++ Node name ps cs :: post → height c ≤ 14) →
  resolve_spec (scan (pre ++ Node name ps cs :: post)) = Some (47 :: name) →
  ok_name name → prop_prefix (lit "reg") ps = Some d →
  (∀ t, t ∈ pre → leaf t ∧ ok_name (name_of t) ∧ name_of t ≠ name) →
  uart_spec (flatten (Node [] rps (pre ++ Node name ps cs :: post))) = Ret (reg_val d).
Proof.
  intros Hh Hres (Hne & Hsl & Hl) Hd Hpre. unfold uart_spec. rewrite p1_root, Hres by done.
  cbn [flatten p2]. simpl (_ && _). cbv iota. rewrite bool_decide_false by congruence.
  rewrite p2_props. rewrite flat_map_app, <-app_assoc, p2_leaves; [|done|].
  - cbn [flat_map]. rewrite <-app_assoc. by apply p2_found.
  - intros t Ht. destruct (Hpre t Ht) as (H1 & H2 & H3). split_and!; [done|done|congruence].
Qed.
