(* ===== verification/PmmInit.v ===== *)
(** * Initialisation of the page allocator (mm/pmm.c): translation

    The two device tree parsers of mm/pmm.c and [pmm_init_from_dtb], over the
    state of the page allocator and of the device tree. *)
From stdpp Require Import base gmap list option numbers strings.
From S2P Require Import Prelude Spinlock Bitmap Pmm CString Dtb.
Import CString.
#[local] Open Scope Z_scope.

Module PmmInit.
Import Pmm Dtb.

Record init := {
  pm : pmm;
  dt : dtb;
}.
Definition on_pm {A} (m : ST pmm A) : ST init A :=
  zoom pm (λ p s, {| pm := p; dt := dt s |}) m.
Definition on_dt {A} (m : ST dtb A) : ST init A :=
  zoom dt (λ d s, {| pm := pm s; dt := d |}) m.
Definition on_mem {A} (m : ST mem A) : ST init A := on_dt (on_ram m).

Definition be32_to_cpu_u32 (v : Z) : Z := be32_to_cpu v.
Definition be32_u32_at (a : Z) : ST mem Z := v ← load_le 4 a; mret (be32_to_cpu_u32 v).

(** [(x + 3) & ~3u] with a 64-bit [x + 3]. *)
Definition align4_64 (x : Z) : Z := Z.land (u64 (x + 3)) (u32 (Z.lnot 3)).

(** [pname[0] == 'r' && pname[1] == 'e' && ...], in order, with the
    terminator. *)
Fixpoint chars_are (pname : Z) (cs : list Z) : ST mem bool :=
  match cs with
  | [] => mret true
  | c :: cs => x ← load pname; if x =? c then chars_are (pname + 1) cs else mret false
  end.
Definition name_is (pname : Z) (cs : list Z) : ST mem bool := chars_are pname (cs ++ [0]).

(** ** The memory node *)

Record fm := {
  fm_depth : Z;
  in_memory_node : bool;
  device_type_memory : bool;
  parent_addr_cells : Z;
  parent_size_cells : Z;
}.
Definition fm0 : fm :=
  {| fm_depth := 0; in_memory_node := false; device_type_memory := false;
     parent_addr_cells := 2; parent_size_cells := 2 |}.

(** [for (c = 0; c < n && q + 4 <= lim; ++c)]: the accumulated value and [q]. *)
Fixpoint read_cells (fuel : nat) (c n q lim acc : Z) : ST mem (Z * Z) :=
  match fuel with
  | O => undef
  | S fuel =>
      if (c <? n) && (q + 4 <=? lim) then
        cell ← be32_u32_at q;
        read_cells fuel (c + 1) n (q + 4) lim (Z.lor (u64 (Z.shiftl acc 32)) cell)
      else mret (acc, q)
  end.

(** One property: the region when the function returns with it, otherwise the
    new state. *)
Definition fm_prop (pname pdata len : Z) (s : fm) : ST mem (Z * Z + fm) :=
  dev ← (if in_memory_node s then
           b ← name_is pname (lit "device_type");
           if b : bool then
             if 6 <=? len then r ← strncmp_lit pdata (lit "memory") 6; mret (r =? 0)
             else mret false
           else mret false
         else mret false);
  let dev := (dev : bool) || device_type_memory s in
  cells ← (if fm_depth s =? 1 then
             r ← strcmp_lit pname (lit "#address-cells");
             if (r =? 0) && (4 <=? len) then
               v ← be32_u32_at pdata; mret (s32 v, parent_size_cells s)
             else
               r ← strcmp_lit pname (lit "#size-cells");
               if (r =? 0) && (4 <=? len) then
                 v ← be32_u32_at pdata; mret (parent_addr_cells s, s32 v)
               else mret (parent_addr_cells s, parent_size_cells s)
           else mret (parent_addr_cells s, parent_size_cells s));
  let s := {| fm_depth := fm_depth s; in_memory_node := in_memory_node s;
              device_type_memory := dev;
              parent_addr_cells := cells.1; parent_size_cells := cells.2 |} in
  isreg ← (if in_memory_node s then name_is pname (lit "reg") else mret false);
  if isreg : bool then
    let ac := if 0 <? parent_addr_cells s then parent_addr_cells s else 2 in
    let sc := if 0 <? parent_size_cells s then parent_size_cells s else 2 in
    let fuel := S (Z.to_nat (len / 4)) in
    a ← read_cells fuel 0 ac pdata (pdata + len) 0;
    b ← read_cells fuel 0 sc a.2 (pdata + len) 0;
    if in_memory_node s || device_type_memory s then mret (inl (a.1, b.1)) else mret (inr s)
  else mret (inr s).

Fixpoint memory_loop (fuel : nat) (fdt strings p : Z) (s : fm) : ST mem (option (Z * Z)) :=
  match fuel with
  | O => undef
  | S fuel =>
      token ← be32_u32_at (fdt + p);
      let p := u32 (p + 4) in
      if token =? DTB_BEGIN_NODE then
        let name := fdt + p in
        n ← name_len name;
        let p := u32 (p + align4_64 (n + 1)) in
        inm ← (if 6 <=? n then r ← strncmp_lit name (lit "memory") 6; mret (r =? 0) else mret false);
        memory_loop fuel fdt strings p
          {| fm_depth := fm_depth s + 1; in_memory_node := inm; device_type_memory := false;
             parent_addr_cells := parent_addr_cells s; parent_size_cells := parent_size_cells s |}
      else if token =? DTB_PROP then
        len ← be32_u32_at (fdt + p);
        let p := u32 (p + 4) in
        nameoff ← be32_u32_at (fdt + p);
        let p := u32 (p + 4) in
        r ← fm_prop (strings + nameoff) (fdt + p) len s;
        match r with
        | inl bs => mret (Some bs)
        | inr s => memory_loop fuel fdt strings (u32 (p + align4 len)) s
        end
      else if token =? DTB_END_NODE then
        memory_loop fuel fdt strings p
          {| fm_depth := if 0 <? fm_depth s then fm_depth s - 1 else fm_depth s;
             in_memory_node := false; device_type_memory := false;
             parent_addr_cells := parent_addr_cells s; parent_size_cells := parent_size_cells s |}
      else if token =? DTB_NOP then memory_loop fuel fdt strings p s
      else if token =? DTB_END then mret None
      else mret None
  end.

(** The region stored through [base_out] and [size_out] when 0 is returned;
    [None] for -1. *)
Definition dtb_find_memory_region : ST dtb (option (Z * Z)) :=
  hdr ← dtb_get;
  if negb (ctrue hdr) then mret None
  else on_ram (
    magic ← be32_u32_at (hdr + hdr_magic);
    if negb (magic =? DTB_MAGIC) then mret None
    else
      off_struct ← be32_u32_at (hdr + hdr_off_dt_struct);
      off_strings ← be32_u32_at (hdr + hdr_off_dt_strings);
      walking (λ fuel, memory_loop fuel hdr (hdr + off_strings) off_struct fm0)).

(** ** Reserved memory *)

Record rm := {
  rm_depth : Z;
  in_reserved : Z;
  addr_cells : Z;
  size_cells : Z;
}.

(** [n] cells from [q]: the accumulated value and the new [q]. *)
Fixpoint cells_from (n : nat) (q acc : Z) : ST init (Z * Z) :=
  match n with
  | O => mret (acc, q)
  | S n =>
      cell ← on_mem (be32_u32_at q);
      cells_from n (q + 4) (Z.lor (u64 (Z.shiftl acc 32)) cell)
  end.

Fixpoint reserve_tuples (n : nat) (ac sc q : Z) : ST init unit :=
  match n with
  | O => mret tt
  | S n =>
      a ← cells_from (Z.to_nat ac) q 0;
      b ← cells_from (Z.to_nat sc) a.2 0;
      let base := a.1 in
      let size := b.1 in
      when (ctrue size)
        (let aligned_base := Z.land base page_mask in
         let stop := u64 (base + size) in
         let aligned_end := Z.land (u64 (u64 (stop + PMM_PAGE_SIZE) - 1)) page_mask in
         on_pm (reserve_range aligned_base
           (if aligned_base <? aligned_end then aligned_end - aligned_base else 0)));;
      reserve_tuples n ac sc b.2
  end.

Definition rm_prop (pname pdata len : Z) (s : rm) : ST init rm :=
  if ctrue (in_reserved s) then
    r ← on_mem (strcmp_lit pname (lit "#address-cells"));
    if (r =? 0) && (4 <=? len) then
      v ← on_mem (be32_u32_at pdata);
      mret {| rm_depth := rm_depth s; in_reserved := in_reserved s;
              addr_cells := s32 v; size_cells := size_cells s |}
    else
      r ← on_mem (strcmp_lit pname (lit "#size-cells"));
      if (r =? 0) && (4 <=? len) then
        v ← on_mem (be32_u32_at pdata);
        mret {| rm_depth := rm_depth s; in_reserved := in_reserved s;
                addr_cells := addr_cells s; size_cells := s32 v |}
      else on_mem (strcmp_lit pname (lit "reg"));; mret s
  else
    child ← (if in_reserved s =? 2 then r ← on_mem (strcmp_lit pname (lit "reg")); mret (r =? 0)
             else mret false);
    if child : bool then
      let tuple_cells := s32 (addr_cells s + size_cells s) in
      let tuple_cells := if tuple_cells <=? 0 then 4 else tuple_cells in
      let tuples := Z.quot (s32 len) (4 * tuple_cells) in
      reserve_tuples (Z.to_nat tuples) (addr_cells s) (size_cells s) pdata;;
      mret s
    else mret s.

Fixpoint reserved_loop (fuel : nat) (fdt strings p : Z) (s : rm) : ST init unit :=
  match fuel with
  | O => undef
  | S fuel =>
      token ← on_mem (be32_u32_at (fdt + p));
      let p := u32 (p + 4) in
      if token =? DTB_BEGIN_NODE then
        let name := fdt + p in
        n ← on_mem (name_len name);
        let p := u32 (p + align4_64 (n + 1)) in
        let d := rm_depth s + 1 in
        hit ← (if d =? 2 then
                 r ← on_mem (strncmp_lit name (lit "reserved-memory") 15); mret (r =? 0)
               else mret false);
        let s := if hit : bool
                 then {| rm_depth := d; in_reserved := 1; addr_cells := 2; size_cells := 2 |}
                 else {| rm_depth := d; in_reserved := in_reserved s;
                         addr_cells := addr_cells s; size_cells := size_cells s |} in
        (* the test at the end of the loop body *)
        let s := if (in_reserved s =? 1) && (3 <=? rm_depth s)
                 then {| rm_depth := rm_depth s; in_reserved := 2;
                         addr_cells := addr_cells s; size_cells := size_cells s |}
                 else s in
        reserved_loop fuel fdt strings p s
      else if token =? DTB_PROP then
        len ← on_mem (be32_u32_at (fdt + p));
        let p := u32 (p + 4) in
        nameoff ← on_mem (be32_u32_at (fdt + p));
        let p := u32 (p + 4) in
        s ← rm_prop (strings + nameoff) (fdt + p) len s;
        reserved_loop fuel fdt strings (u32 (p + align4 len)) s
      else if token =? DTB_END_NODE then
        reserved_loop fuel fdt strings p
          {| rm_depth := if 0 <? rm_depth s then rm_depth s - 1 else rm_depth s;
             in_reserved := if in_reserved s =? 2 then 1
                            else if in_reserved s =? 1 then 0 else in_reserved s;
             addr_cells := addr_cells s; size_cells := size_cells s |}
      else if token =? DTB_NOP then reserved_loop fuel fdt strings p s
      else if token =? DTB_END then mret tt
      else mret tt
  end.

(** A loop that walks up the memory of the larger state. *)
Definition walking_i {A} (loop : nat → ST init A) : ST init A := λ s,
  loop (S (size (ram (dt s)))) s.

Definition reserve_reserved_memory : ST init unit :=
  hdr ← on_dt dtb_get;
  if negb (ctrue hdr) then mret tt
  else
    magic ← on_mem (be32_u32_at (hdr + hdr_magic));
    if negb (magic =? DTB_MAGIC) then mret tt
    else
      off_struct ← on_mem (be32_u32_at (hdr + hdr_off_dt_struct));
      off_strings ← on_mem (be32_u32_at (hdr + hdr_off_dt_strings));
      walking_i (λ fuel, reserved_loop fuel hdr (hdr + off_strings) off_struct
        {| rm_depth := 0; in_reserved := 0; addr_cells := 2; size_cells := 2 |}).

Definition reserve_dtb_blob : ST init unit :=
  hdr ← on_dt dtb_get;
  if negb (ctrue hdr) then mret tt
  else
    addr ← on_dt (gets dtb_ptr);
    size ← on_mem (be32_u32_at (hdr + hdr_totalsize));
    on_pm (reserve_range addr size).

(** ** Initialisation *)

(** [pmm_bitmap[i] = 0xFFu]. *)
Definition fill_byte (i : Z) : ST pmm unit :=
  bm ← gets pmm_bitmap;
  deref (bm !! i);;
  modify (set_bitmap (<[i:=255]> bm)).

(** The managed range: the memory node, or the fallback, cut to whole pages. *)
Definition managed_range (region : option (Z * Z)) : Z * Z :=
  let '(base, size) :=
    match region with
    | Some (base, size) => if size =? 0 then (0x40000000, 0x40000000) else (base, size)
    | None => (0x40000000, 0x40000000)
    end in
  let stop := u64 (base + size) in
  let aligned_base := Z.land (u64 (u64 (base + PMM_PAGE_SIZE) - 1)) page_mask in
  let aligned_end := Z.land stop page_mask in
  let '(aligned_base, aligned_end) :=
    if aligned_end <=? aligned_base then (0x40000000, 0x40000000 + 0x40000000)
    else (aligned_base, aligned_end) in
  (aligned_base, u64 (aligned_end - aligned_base)).

(** The first half: the range, and every page of it free. *)
Definition pmm_set_range : ST init unit :=
  on_pm spinlock_init;;
  on_pm (for_each (Z.to_nat (PMM_MAX_PAGES / 8)) 0 fill_byte);;
  region ← on_dt dtb_find_memory_region;
  let '(base, size) := managed_range region in
  on_pm (modify (set_range base size));;
  let total := size / PMM_PAGE_SIZE in
  let total := if PMM_MAX_PAGES <? total then PMM_MAX_PAGES else total in
  on_pm (modify (set_pages_total total));;
  on_pm (for_each (Z.to_nat total) 0 clear_bit);;
  on_pm (modify (set_pages_free total)).

(** The page of the console's UART. *)
Definition reserve_uart : ST init unit :=
  uart ← on_dt dtb_get_stdout_uart_base;
  match uart with
  | Some uart_base =>
      when (ctrue uart_base) (on_pm (reserve_range (Z.land uart_base page_mask) PMM_PAGE_SIZE))
  | None => mret tt
  end.

(** The linker symbols are arguments. *)
Definition pmm_init_from_dtb (kernel_start kernel_end stack_bottom stack_top : Z) : ST init unit :=
  pmm_set_range;;
  on_pm (reserve_range kernel_start (u64 (kernel_end - kernel_start)));;
  on_pm (reserve_range stack_bottom (u64 (stack_top - stack_bottom)));;
  reserve_dtb_blob;;
  reserve_reserved_memory;;
  reserve_uart;;
  base ← on_pm (gets pmm_mem_base);
  size ← on_pm (gets pmm_mem_size);
  when (base <? u64 (base + size)) (on_pm (reserve_range base 0x100000)).

End PmmInit.
