(* ===== verification/PmmInitThm.v ===== *)
(** * Initialisation of the page allocator: the device tree parsers

    The parsers of mm/pmm.c as functions of the events of the structure block,
    and of the device tree those events flatten. *)
From stdpp Require Import base gmap list option numbers strings.
From Stdlib Require Import ZArith Lia.
From S2P Require Import Prelude Spinlock Bitmap Pmm CString CStringThm CStringCopy Dtb DtbThm PmmInit.
Import CString Dtb PmmInit.
#[local] Open Scope Z_scope.

(** ** Cells *)

(** A number of several cells, modulo 2^64. *)
Definition cell_step (acc w : Z) : Z := acc mod 2 ^ 32 * 2 ^ 32 + w.
Definition join (ws : list Z) : Z := foldl cell_step 0 ws.

Lemma wp_be32_u32 m a v (Q : Z → mem → Prop) : tok m a v → Q v m → wp (be32_u32_at a) Q m.
Proof. apply wp_be32_at. Qed.

Lemma cell_join acc w : 0 ≤ acc < 2 ^ 64 → 0 ≤ w < 2 ^ 32 →
  Z.lor (u64 (Z.shiftl acc 32)) w = cell_step acc w ∧ 0 ≤ cell_step acc w < 2 ^ 64.
Proof.
  intros Ha Hw. unfold cell_step, u64. pose proof (Z.mod_pos_bound acc (2 ^ 32) ltac:(lia)).
  rewrite Z.shiftl_mul_pow2 by lia. change (2 ^ 64) with (2 ^ 32 * 2 ^ 32).
  rewrite Z.mul_mod_distr_r by lia. rewrite lor_add by lia. split; [done|nia].
Qed.

(** The cell loop reads as many cells as asked for and present. *)
Lemma wp_read_cells m fuel c n q lim acc d (Q : Z * Z → mem → Prop) :
  bytes_at m q d → Forall byte d → lim = q + zlen d → (length (be_words d) < fuel)%nat →
  0 ≤ acc < 2 ^ 64 →
  (∀ q' d', bytes_at m q' d' → Forall byte d' → lim = q' + zlen d' →
    be_words d' = drop (Z.to_nat (n - c)) (be_words d) →
    Q (foldl cell_step acc (take (Z.to_nat (n - c)) (be_words d)), q') m) →
  wp (read_cells fuel c n q lim acc) Q m.
Proof.
  revert c q acc d. induction fuel as [|fuel IH]; intros c q acc d Hd Hb Hlim Hf Hacc HQ; [lia|].
  simpl. destruct (Z.ltb_spec c n) as [Hc|Hc]; simpl.
  - destruct (Z.leb_spec (q + 4) lim) as [H4|H4].
    + destruct (be_words_long d) as (w & d' & Hw & Hsplit & Hrw & Hb'); [lia|done|].
      rewrite Hsplit in Hd. apply bytes_at_app in Hd as [Hd1 Hd2].
      assert (Hz : zlen d = 4 + zlen d') by (rewrite Hsplit; unfold zlen; simpl; lia).
      apply wp_bind, (wp_be32_u32 _ _ w); [done|]. destruct (cell_join acc w Hacc Hrw) as [-> Hacc'].
      apply (IH _ _ _ d'); [done|done|lia|rewrite Hw in Hf; simpl in Hf; lia|done|].
      rewrite Hw in HQ. replace (Z.to_nat (n - c)) with (S (Z.to_nat (n - (c + 1)))) in HQ by lia. done.
    + apply wp_ret. rewrite be_words_short in HQ by lia. rewrite take_nil, drop_nil in HQ.
      apply (HQ q d); [done..|]. by rewrite be_words_short by lia.
  - apply wp_ret. specialize (HQ q d). replace (Z.to_nat (n - c)) with 0%nat in HQ by lia. by apply HQ.
Qed.

(** ** The memory node, over events *)

(** The cell counts of the root node, as the loop updates them. *)
Definition cells_update (n d : list Z) (c : Z * Z) : Z * Z :=
  let v := s32 (hd 0 (be_words d)) in
  if bool_decide (n = lit "#address-cells") && (4 <=? zlen d) then (v, c.2)
  else if bool_decide (n = lit "#size-cells") && (4 <=? zlen d) then (c.1, v) else c.

Definition cell_count (n : Z) : nat := Z.to_nat (if 0 <? n then n else 2).

(** The first (address, size) pair of a [reg] property. *)
Definition region (d : list Z) (c : Z * Z) : Z * Z :=
  let ws := be_words d in
  (join (take (cell_count c.1) ws), join (take (cell_count c.2) (drop (cell_count c.1) ws))).

Fixpoint fm_spec (evs : list ev) (depth : Z) (inm : bool) (c : Z * Z) : option (Z * Z) :=
  match evs with
  | [] => None
  | EBegin n :: evs => fm_spec evs (depth + 1) (has_prefix (lit "memory") n) c
  | EProp n d :: evs =>
      let c := if depth =? 1 then cells_update n d c else c in
      if inm && bool_decide (n = lit "reg") then Some (region d c) else fm_spec evs depth inm c
  | EEnd :: evs => fm_spec evs (if 0 <? depth then depth - 1 else depth) false c
  | ENop :: evs => fm_spec evs depth inm c
  end.

Lemma wp_name_is m s a l (Q : bool → mem → Prop) :
  cstr m a s → Forall nonzero l → Q (bool_decide (s = l)) m → wp (name_is a l) Q m.
Proof.
  unfold name_is. revert a l. induction s as [|c s IH]; intros a [|d l] Hs Hl HQ; simpl.
  - apply cstr_nil in Hs. wp_load. simpl. by apply wp_ret.
  - apply cstr_nil in Hs. wp_load. apply Forall_cons_1 in Hl as [Hd _].
    rewrite Z.eqb_sym, nonzero_eqb by done. by apply wp_ret.
  - apply cstr_cons in Hs as (Hc & Hz & _). wp_load. rewrite nonzero_eqb by done. by apply wp_ret.
  - apply cstr_cons in Hs as (Hc & Hz & Hs). apply Forall_cons_1 in Hl as [Hd Hl]. wp_load.
    destruct (Z.eqb_spec c d) as [->|Hne].
    + apply IH; [done..|]. erewrite bool_decide_ext; [exact HQ|]. split; [by intros ->|by intros [= ->]].
    + apply wp_ret. rewrite bool_decide_false in HQ; [done|]. by intros [= ->].
Qed.

(** A comparison of [n] bytes that are there returns, whatever they are. *)
Lemma wp_strncmp_any m a l n (Q : Z → mem → Prop) :
  mapped m a n → n = zlen l → (∀ r, Q r m) → wp (strncmp_lit a l n) Q m.
Proof.
  intros Hm -> HQ. unfold strncmp_lit, strncmp_rd. apply wp_bind.
  apply (wp_for_ret (λ i m', m' = m ∧ 0 ≤ i)); [done| |intros m' [-> _]; by apply wp_ret].
  intros j m' Hj [-> H0]. destruct (Hm (a + j)) as [c Hc]; [unfold zlen in *; lia|].
  destruct (lookup_lt_is_Some_2 (l ++ [0]) (Z.to_nat j)) as [e He].
  { rewrite length_app. unfold zlen in *. simpl. lia. }
  wp_load. apply wp_bind. eapply wp_deref; [exact He|].
  destruct (negb _); [|destruct (_ =? 0)]; repeat apply wp_ret; try apply HQ. split; [done|lia].
Qed.

(** The two cell count tests of a property, in either parser. *)
Lemma wp_cells m pname pdata n d {A} (f : Z * Z → A) c (Q : A → mem → Prop) :
  cstr m pname n → bytes_at m pdata d → Forall byte d →
  Q (f (cells_update n d c)) m →
  wp (r ← strcmp_lit pname (lit "#address-cells");
      if (r =? 0) && (4 <=? zlen d) then
        v ← be32_u32_at pdata; mret (f (s32 v, c.2))
      else
        r ← strcmp_lit pname (lit "#size-cells");
        if (r =? 0) && (4 <=? zlen d) then
          v ← be32_u32_at pdata; mret (f (c.1, s32 v))
        else mret (f c)) Q m.
Proof.
  intros Hn Hd Hb HQ. unfold cells_update in HQ.
  apply wp_bind, (wp_equal m n); [done|lit_ok|]. intros r ->.
  destruct (Z.leb_spec 4 (zlen d)) as [H4|H4]; rewrite ?andb_true_r, ?andb_false_r in *.
  - pose proof (first_cell _ _ _ Hd Hb H4) as Ht. case_bool_decide.
    + apply wp_bind, (wp_be32_u32 _ _ _ _ Ht). by apply wp_ret.
    + apply wp_bind, (wp_equal m n); [done|lit_ok|]. intros r' ->. rewrite andb_true_r.
      case_bool_decide; [apply wp_bind, (wp_be32_u32 _ _ _ _ Ht)|]; by apply wp_ret.
  - apply wp_bind, (wp_equal m n); [done|lit_ok|]. intros r' ->. rewrite andb_false_r.
    by apply wp_ret.
Qed.

Lemma wp_fm_prop m pname pdata n d s (Q : Z * Z + fm → mem → Prop) :
  let c := (parent_addr_cells s, parent_size_cells s) in
  let c' := if fm_depth s =? 1 then cells_update n d c else c in
  cstr m pname n → bytes_at m pdata d → Forall byte d →
  (if in_memory_node s && bool_decide (n = lit "reg") then Q (inl (region d c')) m
   else ∀ dev, Q (inr {| fm_depth := fm_depth s; in_memory_node := in_memory_node s;
     device_type_memory := dev; parent_addr_cells := c'.1; parent_size_cells := c'.2 |}) m) →
  wp (fm_prop pname pdata (zlen d) s) Q m.
Proof.
  intros c c' Hn Hd Hb HQ. unfold fm_prop. apply wp_bind.
  (* the device type never matters *)
  assert (Hdev : ∀ (R : bool → mem → Prop), (∀ b, R b m) →
    wp (if in_memory_node s then
          b ← name_is pname (lit "device_type");
          if b : bool then
            if 6 <=? zlen d then r ← strncmp_lit pdata (lit "memory") 6; mret (r =? 0)
            else mret false
          else mret false
        else mret false) R m).
  { intros R HR. destruct (in_memory_node s); [|by apply wp_ret].
    apply wp_bind, (wp_name_is m n); [done|lit_ok|].
    destruct (bool_decide (n = lit "device_type")); [|by apply wp_ret].
    destruct (Z.leb_spec 6 (zlen d)); [|by apply wp_ret].
    apply wp_bind, wp_strncmp_any; [|done|intros r; by apply wp_ret].
    intros a Ha. apply (bytes_at_mapped _ _ _ Hd). unfold zlen in *. lia. }
  apply Hdev. intros dev. cbv zeta. clear Hdev.
  apply wp_bind. apply (wp_mono _ (λ r m', r = c' ∧ m' = m)).
  { destruct (fm_depth s =? 1); [|by apply wp_ret].
    by apply (wp_cells m pname pdata n d id c). }
  assert (Hfuel : (length (be_words d) < S (Z.to_nat (zlen d / 4)))%nat).
  { pose proof (be_words_length d). unfold zlen. rewrite <-(Nat2Z.inj_div _ 4), Nat2Z.id. lia. }
  revert Hfuel. generalize (S (Z.to_nat (zlen d / 4))). intros fuel Hfuel.
  intros cells m' [-> ->]. simpl. destruct (in_memory_node s); simpl in *; [|apply wp_bind, wp_ret, wp_ret, HQ].
  apply wp_bind, (wp_name_is m n); [done|lit_ok|].
  destruct (bool_decide (n = lit "reg")); [|apply wp_ret, HQ].
  apply wp_bind, (wp_read_cells m _ _ _ _ _ _ d); [done..|].
  intros q1 d1 Hd1 Hb1 Hlim1 Hw1. apply wp_bind, (wp_read_cells m _ _ _ _ _ _ d1); [done..| |done|].
  { rewrite Hw1, length_drop. lia. }
  intros q2 d2 _ _ _ _. apply wp_ret. cbn [fst]. rewrite Hw1, !Z.sub_0_r. exact HQ.
Qed.

Section find.
Context (m : mem) (fdt strings : Z).

(** The step of the name as mm/pmm.c writes it. *)
Lemma align4_64_eq p n evs : block m fdt strings p (EBegin n :: evs) →
  align4_64 (zlen n + 1) = align4 (u32 (zlen n + 1)).
Proof.
  intros Hb. pose proof (block_bound _ _ _ _ _ Hb). destruct Hb as (_ & _ & Hb%block_bound). simpl in Hb.
  pose proof (pad4_range (zlen n + 1)). assert (0 ≤ zlen n) by (unfold zlen; lia).
  unfold align4_64, align4, u64, u32. rewrite !(Z.mod_small (zlen n + 1)) by lia.
  by rewrite !(Z.mod_small (zlen n + 1 + 3)) by lia.
Qed.

Lemma wp_memory_loop evs fuel p s (Q : option (Z * Z) → mem → Prop) :
  block m fdt strings p evs → (length evs < fuel)%nat →
  Q (fm_spec evs (fm_depth s) (in_memory_node s) (parent_addr_cells s, parent_size_cells s)) m →
  wp (memory_loop fuel fdt strings p s) Q m.
Proof.
  revert evs p s. induction fuel as [|fuel IH]; intros evs p s Hb Hf HQ; [lia|].
  simpl. destruct evs as [|[n|n d| |] evs]; simpl in Hf, HQ.
  - pose proof Hb as [Ht _]. apply wp_bind, (wp_be32_u32 _ _ _ _ Ht). by apply wp_ret.
  - pose proof Hb as ((Ht & Hn) & _ & Hb'). destruct (begin_step _ _ _ _ _ _ Hb) as (E4 & E).
    apply wp_bind, (wp_be32_u32 _ _ _ _ Ht). simpl (_ =? _). cbv iota. rewrite E4.
    apply wp_bind, (wp_name_len m n); [done|]. rewrite (align4_64_eq _ _ _ Hb), E.
    apply wp_bind. apply (wp_mono _ (λ r m', r = has_prefix (lit "memory") n ∧ m' = m)).
    { destruct (Z.leb_spec 6 (zlen n)).
      - apply wp_bind, (wp_prefix m n); [done|lit_ok|done|]. intros r ->. by apply wp_ret.
      - apply wp_ret. split; [|done]. unfold has_prefix. rewrite bool_decide_false; [done|].
        intros E'%(f_equal length). rewrite length_take in E'. unfold zlen in *.
        change (length (lit "memory")) with 6%nat in E'. lia. }
    intros inm m' [-> ->]. apply (IH evs); [done|lia|done].
  - pose proof Hb as ((Ht & Hl & (off & Hoff & Hn) & Hd & Hbd & _) & _ & Hb').
    destruct (prop_step _ _ _ _ _ _ _ Hb) as (E4 & E8 & E12 & E).
    apply wp_bind, (wp_be32_u32 _ _ _ _ Ht). simpl (_ =? _). cbv iota. rewrite E4.
    replace (p + 4 + 4) with (p + 8) by lia. rewrite E8. replace (p + 8 + 4) with (p + 12) by lia. rewrite E12.
    apply wp_bind, (wp_be32_u32 _ _ _ _ Hl). apply wp_bind, (wp_be32_u32 _ _ _ _ Hoff). rewrite E.
    apply wp_bind, (wp_fm_prop m _ _ n d s); [done..|].
    set (c' := if fm_depth s =? 1 then _ else _) in *.
    destruct (_ && _); [by apply wp_ret|]. intros dev.
    apply (IH evs); [done|lia|]. simpl. by destruct c'.
  - pose proof Hb as (Ht & _ & Hb'). pose proof (u32_step _ _ _ _ _ _ 4 Hb ltac:(simpl; lia)) as E4.
    apply wp_bind, (wp_be32_u32 _ _ _ _ Ht). simpl (_ =? _). cbv iota. rewrite E4.
    apply (IH evs); [done|lia|done].
  - pose proof Hb as (Ht & _ & Hb'). pose proof (u32_step _ _ _ _ _ _ 4 Hb ltac:(simpl; lia)) as E4.
    apply wp_bind, (wp_be32_u32 _ _ _ _ Ht). simpl (_ =? _). cbv iota. rewrite E4.
    apply (IH evs); [done|lia|done].
Qed.
End find.

(** ** Reserved memory, over events *)

Lemma wp_on_dt {A} (c : ST dtb A) (Q : A → init → Prop) s :
  wp c (λ a d', d' = dt s ∧ Q a s) (dt s) → wp (on_dt c) Q s.
Proof.
  intros H. apply wp_zoom. eapply wp_mono; [exact H|]. intros a m' [-> HQ]. by destruct s.
Qed.

Lemma wp_on_mem {A} (c : ST mem A) (Q : A → init → Prop) s :
  wp c (λ a m', m' = ram (dt s) ∧ Q a s) (ram (dt s)) → wp (on_mem c) Q s.
Proof. intros H. apply wp_on_dt, wp_on_ram. eapply wp_mono; [exact H|]. naive_solver. Qed.

Section reserved.
Context (fdt strings : Z) (s0 : init).
Let m := ram (dt s0).

(** Whatever the property, the allocator does not change: the branch that
    reserves is reached only outside the nodes it is meant for. *)
Lemma wp_rm_prop pname pdata n d s (Q : rm → init → Prop) :
  cstr m pname n → bytes_at m pdata d → Forall byte d →
  (∀ s', Q s' s0) →
  wp (rm_prop pname pdata (zlen d) s) Q s0.
Proof.
  intros Hn Hd Hb HQ. unfold rm_prop. destruct (ctrue (in_reserved s)) eqn:Ec.
  - apply wp_bind, wp_on_mem, (wp_equal m n); [done|lit_ok|]. intros r Hr. split; [done|].
    destruct (Z.leb_spec 4 (zlen d)) as [H4|H4]; rewrite ?andb_true_r, ?andb_false_r.
    + pose proof (first_cell _ _ _ Hd Hb H4) as Ht. destruct (r =? 0).
      { apply wp_bind, wp_on_mem, (wp_be32_u32 _ _ _ _ Ht). split; [done|]. by apply wp_ret. }
      apply wp_bind, wp_on_mem, (wp_equal m n); [done|lit_ok|]. intros r' Hr'. split; [done|].
      rewrite andb_true_r. destruct (r' =? 0).
      { apply wp_bind, wp_on_mem, (wp_be32_u32 _ _ _ _ Ht). split; [done|]. by apply wp_ret. }
      apply wp_bind, wp_on_mem, (wp_equal m n); [done|lit_ok|]. intros r'' _. split; [done|]. by apply wp_ret.
    + apply wp_bind, wp_on_mem, (wp_equal m n); [done|lit_ok|]. intros r' Hr'. split; [done|].
      rewrite andb_false_r.
      apply wp_bind, wp_on_mem, (wp_equal m n); [done|lit_ok|]. intros r'' _. split; [done|]. by apply wp_ret.
  - unfold ctrue in Ec. apply negb_false_iff, Z.eqb_eq in Ec. rewrite Ec. simpl.
    apply wp_bind, wp_ret. by apply wp_ret.
Qed.

Lemma wp_reserved_loop evs fuel p s (Q : unit → init → Prop) :
  block m fdt strings p evs → (length evs < fuel)%nat → Q tt s0 →
  wp (reserved_loop fuel fdt strings p s) Q s0.
Proof.
  intros Hb Hf HQ. revert evs p s Hb Hf. induction fuel as [|fuel IH]; intros evs p s Hb Hf; [lia|].
  simpl. destruct evs as [|[n|n d| |] evs]; simpl in Hf.
  - pose proof Hb as [Ht _]. apply wp_bind, wp_on_mem, (wp_be32_u32 _ _ _ _ Ht). split; [done|].
    by apply wp_ret.
  - pose proof Hb as ((Ht & Hn) & _ & Hb'). destruct (begin_step _ _ _ _ _ _ Hb) as (E4 & E).
    apply wp_bind, wp_on_mem, (wp_be32_u32 _ _ _ _ Ht). split; [done|]. simpl (_ =? _). cbv iota.
    rewrite E4. apply wp_bind, wp_on_mem, (wp_name_len m n); [done|]. split; [done|].
    rewrite (align4_64_eq _ _ _ _ _ _ Hb), E.
    apply wp_bind. apply (wp_mono _ (λ _ s', s' = s0)); [|intros hit s' ->; by apply (IH evs); [|lia]].
    destruct (rm_depth s + 1 =? 2); [|by apply wp_ret].
    apply wp_bind, wp_on_mem, (wp_prefix m n); [done|lit_ok|done|]. intros r _. split; [done|]. by apply wp_ret.
  - pose proof Hb as ((Ht & Hl & (off & Hoff & Hn) & Hd & Hbd & _) & _ & Hb').
    destruct (prop_step _ _ _ _ _ _ _ Hb) as (E4 & E8 & E12 & E).
    apply wp_bind, wp_on_mem, (wp_be32_u32 _ _ _ _ Ht). split; [done|]. simpl (_ =? _). cbv iota. rewrite E4.
    replace (p + 4 + 4) with (p + 8) by lia. rewrite E8. replace (p + 8 + 4) with (p + 12) by lia. rewrite E12.
    apply wp_bind, wp_on_mem, (wp_be32_u32 _ _ _ _ Hl). split; [done|].
    apply wp_bind, wp_on_mem, (wp_be32_u32 _ _ _ _ Hoff). split; [done|]. rewrite E.
    apply wp_bind, (wp_rm_prop _ _ n d); [done..|]. intros s'. by apply (IH evs); [|lia].
  - pose proof Hb as (Ht & _ & Hb'). pose proof (u32_step _ _ _ _ _ _ 4 Hb ltac:(simpl; lia)) as E4.
    apply wp_bind, wp_on_mem, (wp_be32_u32 _ _ _ _ Ht). split; [done|]. simpl (_ =? _). cbv iota.
    rewrite E4. by apply (IH evs); [|lia].
  - pose proof Hb as (Ht & _ & Hb'). pose proof (u32_step _ _ _ _ _ _ 4 Hb ltac:(simpl; lia)) as E4.
    apply wp_bind, wp_on_mem, (wp_be32_u32 _ _ _ _ Ht). split; [done|]. simpl (_ =? _). cbv iota.
    rewrite E4. by apply (IH evs); [|lia].
Qed.
End reserved.

Lemma wp_find_region s evs (Q : option (Z * Z) → dtb → Prop) :
  blob s evs → Q (fm_spec evs 0 false (2, 2)) s → wp dtb_find_memory_region Q s.
Proof.
  intros [Hp Hm _ (os & ot & Hos & Hot & Hb)] HQ. unfold dtb_find_memory_region.
  apply wp_bind, wp_gets. rewrite ptr_true by done. apply wp_on_ram.
  apply wp_bind, (wp_be32_u32 _ _ _ _ Hm). rewrite Z.eqb_refl.
  apply wp_bind, (wp_be32_u32 _ _ _ _ Hos). apply wp_bind, (wp_be32_u32 _ _ _ _ Hot).
  apply wp_walking, (wp_memory_loop (ram s) _ _ evs); [done|apply block_fuel in Hb; lia|done].
Qed.

Lemma wp_reserved s evs (Q : unit → init → Prop) :
  blob (dt s) evs → Q tt s → wp reserve_reserved_memory Q s.
Proof.
  intros [Hp Hm _ (os & ot & Hos & Hot & Hb)] HQ. unfold reserve_reserved_memory.
  apply wp_bind, wp_on_dt, wp_gets. split; [done|]. rewrite ptr_true by done.
  apply wp_bind, wp_on_mem, (wp_be32_u32 _ _ _ _ Hm). split; [done|]. rewrite Z.eqb_refl.
  apply wp_bind, wp_on_mem, (wp_be32_u32 _ _ _ _ Hos). split; [done|].
  apply wp_bind, wp_on_mem, (wp_be32_u32 _ _ _ _ Hot). split; [done|].
  apply (wp_reserved_loop _ _ s evs); [done|apply block_fuel in Hb; lia|done].
Qed.
