(* ===== verification/PmmInitClaims.v ===== *)
(** * Initialisation of the page allocator: the properties

    The memory node of a device tree, the state the allocator starts in, and
    what becomes of reserved memory. *)
From stdpp Require Import base gmap list option numbers strings.
From Stdlib Require Import ZArith Lia.
From S2P Require Import Prelude Spinlock Bitmap Pmm CString CStringThm CStringCopy.
From S2P Require Import CStringClaims Dtb DtbThm DtbUart DtbPath DtbTree PmmInit PmmInitThm.
Import CString Dtb PmmInit Pmm.
#[local] Open Scope Z_scope.

(** ** The memory node of a tree *)

Fixpoint prop_named (l : list Z) (ps : list prop) : option (list Z) :=
  match ps with
  | [] => None
  | (n, d) :: ps => if bool_decide (n = l) then Some d else prop_named l ps
  end.

(** The [reg] of the first node in document order whose name starts with
    "memory" and that has one. *)
Fixpoint find_reg (ns : list (list Z * list prop)) : option (list Z) :=
  match ns with
  | [] => None
  | (n, ps) :: ns =>
      match (if has_prefix (lit "memory") n then prop_named (lit "reg") ps else None) with
      | Some d => Some d
      | None => find_reg ns
      end
  end.

(** The cell counts of the root. *)
Definition root_cells (ps : list prop) : Z * Z :=
  foldl (λ c p, cells_update p.1 p.2 c) (2, 2) ps.

Lemma find_reg_app l k :
  find_reg (l ++ k) = match find_reg l with Some d => Some d | None => find_reg k end.
Proof.
  induction l as [|[n ps] l IH]; simpl; [done|]. by destruct (if has_prefix _ n then _ else _).
Qed.

Lemma fm_props ps r depth inm c :
  depth ≠ 1 →
  fm_spec ((uncurry EProp <$> ps) ++ r) depth inm c =
  match (if inm then prop_named (lit "reg") ps else None) with
  | Some d => Some (region d c)
  | None => fm_spec r depth inm c
  end.
Proof.
  intros Hd. induction ps as [|[n d] ps IH]; simpl; [by destruct inm|].
  rewrite (proj2 (Z.eqb_neq depth 1)) by done. destruct inm; simpl; [|done].
  by destruct (bool_decide (n = lit "reg")).
Qed.

Lemma fm_root_props ps r c :
  fm_spec ((uncurry EProp <$> ps) ++ r) 1 false c =
  fm_spec r 1 false (foldl (λ c p, cells_update p.1 p.2 c) c ps).
Proof. revert c. induction ps as [|[n d] ps IH]; intros c; simpl; [done|]. apply IH. Qed.

Definition fm_result (o : option (list Z)) (c : Z * Z) (rest : option (Z * Z)) : option (Z * Z) :=
  match o with Some d => Some (region d c) | None => rest end.

Lemma fm_tree t depth inm c r :
  1 ≤ depth →
  fm_spec (flatten t ++ r) depth inm c = fm_result (find_reg (nodes t)) c (fm_spec r depth false c).
Proof.
  revert depth inm r. induction t as [n ps cs IH] using node_rect'. intros depth inm r Hd.
  cbn [flatten nodes]. rewrite <-app_comm_cons. cbn [fm_spec find_reg].
  rewrite <-!app_assoc, fm_props by lia. set (inm' := has_prefix (lit "memory") n).
  destruct (if inm' then _ else _); [done|]. generalize inm'. clear inm'.
  induction cs as [|t cs IHcs]; intros inm'; cbn [flat_map find_reg fm_result].
  - simpl. destruct (Z.ltb_spec 0 (depth + 1)); [|lia]. by replace (depth + 1 - 1) with depth by lia.
  - apply Forall_cons_1 in IH as [IHt IHcs']. rewrite <-app_assoc, (IHt (depth + 1)) by lia.
    rewrite find_reg_app. destruct (find_reg (nodes t)); [done|]. by apply IHcs.
Qed.

Lemma fm_tree_root rps cs :
  fm_spec (flatten (Node [] rps cs)) 0 false (2, 2)
  = fm_result (find_reg (flat_map nodes cs)) (root_cells rps) None.
Proof.
  cbn [flatten fm_spec]. change (has_prefix (lit "memory") []) with false. simpl (0 + 1).
  rewrite fm_root_props. fold (root_cells rps). generalize (root_cells rps). intros c.
  generalize false. induction cs as [|t cs IH]; intros inm; cbn [flat_map find_reg fm_result]; [done|].
  rewrite <-app_assoc, fm_tree by lia. rewrite find_reg_app.
  destruct (find_reg (nodes t)); [done|]. apply IH.
Qed.

(** A tree as the boards have it: 64-bit cells, 1 GiB of memory at 1 GiB, the
    console named by its path. *)
Definition be64 (v : Z) : list Z := be_bytes (v / 2 ^ 32) ++ be_bytes (v mod 2 ^ 32).
Definition demo_uart : node :=
  Node (lit "uart@9000000") [(lit "reg", be64 0x9000000 ++ be64 0x1000)] [].
Definition demo_memory : node :=
  Node (lit "memory@40000000") [(lit "reg", be64 0x40000000 ++ be64 0x40000000)] [].
Definition demo_chosen : node :=
  Node (lit "chosen") [(lit "stdout-path", lit "/uart@9000000:115200" ++ [0])] [].
Definition demo_props : list prop :=
  [(lit "#address-cells", be_bytes 2); (lit "#size-cells", be_bytes 2)].
Definition demo_children : list node := [demo_memory; demo_uart; demo_chosen].
Definition demo_tree : node := Node [] demo_props demo_children.

(** A blob at 0x48000000. *)
Definition blob_of (t : node) : dtb := {|
  ram := upd 0x48000000 (enc_blob (flatten t)) ∅; dtb_ptr := 0x48000000; boot_x0 := 0 |}.

Definition ok_evb (e : ev) : bool :=
  match e with
  | EBegin n => bool_decide (Forall (λ c, 0 < c < 256) n)
  | EProp n d => bool_decide (Forall (λ c, 0 < c < 256) n) && bool_decide (Forall (λ c, 0 ≤ c < 256) d)
  | _ => true
  end.

Lemma ok_evb_ok evs : forallb ok_evb evs = true → Forall ok_ev evs.
Proof.
  intros H. rewrite forallb_forall in H. apply Forall_lookup. intros i e Hi.
  specialize (H e ltac:(by eapply list_elem_of_In, list_elem_of_lookup_2)).
  destruct e; simpl in *; try done.
  - by apply bool_decide_eq_true_1 in H.
  - apply andb_prop in H as [H1 H2]. split; by eapply bool_decide_eq_true_1.
Qed.

Lemma blob_of_ok t :
  forallb ok_evb (flatten t) = true → (zlen (enc_blob (flatten t)) <? 2 ^ 32) = true →
  blob (blob_of t) (flatten t).
Proof.
  intros Hok Hl. apply enc_blob_ok; [by apply ok_evb_ok|done|lia|]. apply upd_bytes.
Qed.

(** C34: the memory region of a device tree.  For every blob that encodes a tree,
    [dtb_find_memory_region] returns, without leaving the blob, the first
    (address, size) pair of the [reg] property of the first node in document
    order whose name starts with "memory" and that has such a property, decoded
    with the cell counts of the root; it fails exactly when there is none. *)
Theorem find_memory_region_tree (s : dtb) (rps : list prop) (cs : list node) :
  blob s (flatten (Node [] rps cs)) →
  dtb_find_memory_region s
  = Some ((λ d, region d (root_cells rps)) <$> find_reg (flat_map nodes cs), s).
Proof.
  intros Hb. set (R := _ <$> _).
  destruct (wp_find_region s _ (λ r s', r = R ∧ s' = s) Hb) as (r & s' & E & -> & ->); [|done].
  rewrite fm_tree_root. unfold R. by destruct (find_reg _).
Qed.

Lemma find_memory_region_tree_witness :
  dtb_find_memory_region (blob_of demo_tree) = Some (Some (0x40000000, 0x40000000), blob_of demo_tree).
Proof.
  exact (find_memory_region_tree (blob_of demo_tree) demo_props demo_children
    (blob_of_ok demo_tree eq_refl eq_refl)).
Defined.

(** C35: the console's UART.  When the resolved stdout path names a child of the
    root and every child before it is a leaf, [dtb_get_stdout_uart_base]
    returns the address in the first property of that child whose name starts
    with "reg".  [scan] gives the stdout token and the aliases of the tree. *)
Theorem uart_base_tree (s : dtb) (rps : list prop) (pre post : list node)
    (name : list Z) (ps : list prop) (sub : list node) (d : list Z) :
  let cs := pre ++ Node name ps sub :: post in
  blob s (flatten (Node [] rps cs)) →
  (∀ c, c ∈ cs → height c ≤ 14) →
  (∀ n a, (n, a) ∈ g_als (scan cs) → 0 ∈ a) →
  resolve_spec (scan cs) = Some (47 :: name) →
  ok_name name → prop_prefix (lit "reg") ps = Some d →
  (∀ t, t ∈ pre → leaf t ∧ ok_name (name_of t) ∧ name_of t ≠ name) →
  dtb_get_stdout_uart_base s = Some (reg_val d, s).
Proof.
  intros cs Hb Hh Hals Hres Hn Hd Hpre.
  destruct (wp_uart s _ (reg_val d) (λ r s', r = reg_val d ∧ s' = s) Hb) as (r & s' & E & -> & ->); [| |done|done].
  - intros n a. rewrite p1_root by done. apply Hals.
  - by apply uart_found.
Qed.

Lemma uart_base_tree_witness :
  dtb_get_stdout_uart_base (blob_of demo_tree) = Some (Some 0x9000000, blob_of demo_tree).
Proof.
  apply (uart_base_tree (blob_of demo_tree) demo_props [demo_memory] [demo_chosen]
    (lit "uart@9000000") [(lit "reg", be64 0x9000000 ++ be64 0x1000)] []
    (be64 0x9000000 ++ be64 0x1000)).
  - exact (blob_of_ok demo_tree eq_refl eq_refl).
  - intros c Hc. repeat (apply elem_of_cons in Hc as [->|Hc]; [vm_compute; discriminate|]).
    apply elem_of_nil in Hc. destruct Hc.
  - intros n a Hn. apply elem_of_nil in Hn. destruct Hn.
  - vm_compute. reflexivity.
  - split; [discriminate|]. split; [|vm_compute; discriminate].
    apply (bool_decide_eq_true_1 _). vm_compute. reflexivity.
  - vm_compute. reflexivity.
  - intros t Ht. apply elem_of_cons in Ht as [->|Ht]; [|apply elem_of_nil in Ht; destruct Ht].
    split; [reflexivity|]. split; [|discriminate].
    split; [discriminate|]. split; [|vm_compute; discriminate].
    apply (bool_decide_eq_true_1 _). vm_compute. reflexivity.
Defined.

(** After a node with children the second pass loses its place: here the
    console is the child of the root after such a node, the tree is well formed
    and names the console by its path, and the function fails. *)
Theorem uart_after_parent_missed :
  let keys := Node (lit "gpio-keys") [] [Node (lit "poweroff") [] []] in
  let cs := [keys; demo_uart; demo_chosen] in
  let t := Node [] demo_props cs in
  blob (blob_of t) (flatten t) ∧ resolve_spec (scan cs) = Some (47 :: name_of demo_uart) ∧
  dtb_get_stdout_uart_base (blob_of t) = Some (None, blob_of t).
Proof.
  intros keys cs t. assert (Hb : blob (blob_of t) (flatten t)) by (apply blob_of_ok; vm_compute; reflexivity).
  split; [done|]. split; [vm_compute; reflexivity|].
  destruct (wp_uart (blob_of t) _ None (λ r s', r = None ∧ s' = blob_of t) Hb) as (r & s' & E & -> & ->);
    [|vm_compute; reflexivity|done|done].
  intros n a Hn. apply elem_of_nil in Hn. destruct Hn.
Qed.
