(* ===== verification/PmmBoot.v ===== *)
(** * Initialisation of the page allocator: the state it leaves

    [pmm_init_from_dtb] establishes the invariant of Pmm.v and withdraws the
    regions in use; nothing of /reserved-memory is among them. *)
From stdpp Require Import base gmap list option numbers strings.
From Stdlib Require Import ZArith Lia.
From S2P Require Import Prelude Spinlock Bitmap Pmm CString CStringThm CStringCopy.
From S2P Require Import Dtb DtbThm DtbUart DtbPath DtbTree PmmInit PmmInitThm PmmInitClaims.
Import CString Dtb PmmInit Pmm.
#[local] Open Scope Z_scope.

(** ** Steps of the initialisation *)

Lemma wp_on_pm {A} (c : ST pmm A) (Q : A → init → Prop) s :
  wp c (λ a p, Q a {| pm := p; dt := dt s |}) (pm s) → wp (on_pm c) Q s.
Proof. intros H. apply wp_zoom. exact H. Qed.

(** Filling the bitmap. *)
Lemma wp_fill n (s : pmm) (Q : unit → pmm → Prop) :
  bm_ok 8 131072 (pmm_bitmap s) → Z.of_nat n ≤ 131072 →
  (∀ bm, bm_ok 8 131072 bm → Q tt (set_bitmap bm s)) → wp (for_each n 0 fill_byte) Q s.
Proof.
  intros Hok Hn HQ.
  apply (wp_for_each (λ _ t, ∃ bm, t = set_bitmap bm s ∧ bm_ok 8 131072 bm)).
  - exists (pmm_bitmap s). split; [by destruct s|done].
  - intros j t Hj (bm & -> & Hbm). unfold fill_byte. apply wp_bind, wp_gets. simpl.
    destruct (bm_ok_in _ _ _ Hbm j) as (x & Hx & _); [lia|].
    apply wp_bind. eapply wp_deref; [exact Hx|]. apply wp_modify. exists (<[j:=255]> bm).
    split; [done|]. apply bm_ok_insert; [done|lia|lia].
  - intros t (bm & -> & Hbm). by apply HQ.
Qed.

(** Clearing the bits of the managed pages. *)
Lemma wp_clear_all n (s : pmm) (Q : unit → pmm → Prop) :
  bm_ok 8 131072 (pmm_bitmap s) → Z.of_nat n ≤ PMM_MAX_PAGES →
  (∀ bm, bm_ok 8 131072 bm → (∀ j, 0 ≤ j < Z.of_nat n → bm_bit 8 bm j = false) →
    Q tt (set_bitmap bm s)) →
  wp (for_each n 0 clear_bit) Q s.
Proof.
  intros Hok Hn HQ.
  apply (wp_for_each (λ i t, ∃ bm, t = set_bitmap bm s ∧ bm_ok 8 131072 bm ∧
    ∀ j, 0 ≤ j < i → bm_bit 8 bm j = false)).
  - exists (pmm_bitmap s). split; [by destruct s|]. split; [done|]. lia.
  - intros i t Hi (bm & -> & Hbm & Hbits). apply wp_clear_bit; [done|lia|].
    intros bm' Hbm' Hbits'. exists bm'. split; [done|]. split; [done|]. intros j Hj.
    rewrite Hbits' by lia. destruct (Z.eqb_spec j i); [done|]. apply Hbits. lia.
  - intros t (bm & -> & Hbm & Hbits). apply HQ; [done|]. intros j Hj. apply Hbits. lia.
Qed.

(** The managed range and the pages withdrawn so far. *)
Record booting (s : pmm) (base size total : Z) (taken : Z → bool) : Prop := {
  b_ok : pmm_ok s;
  b_base : pmm_mem_base s = base;
  b_size : pmm_mem_size s = size;
  b_total : pmm_pages_total s = total;
  b_taken : ∀ j, 0 ≤ j < total → page_alloc s j = taken j;
}.

(** Page [j] of a range at [base] meets the bytes [start, start + size). *)
Definition meets (base start size j : Z) : bool :=
  (base + j * 4096 <? start + size) && (start <? base + (j + 1) * 4096) && (0 <? size).

Lemma wp_take s base size total taken start len (Q : unit → pmm → Prop) :
  booting s base size total taken → 0 ≤ start → 0 ≤ len → start + len < 2 ^ 64 →
  (∀ s', booting s' base size total (λ j, meets base start len j || taken j) → Q tt s') →
  wp (reserve_range start len) Q s.
Proof.
  intros [Hok <- <- <- Ht] H1 H2 H3 HQ. eapply wp_mono; [by apply wp_reserve_range|].
  intros [] s' [Hok' (lo & hi & Hps & Hcov)]. apply HQ. destruct Hps as [_ _ Hb Hs Htot Hbits].
  split; [done|done|done|done|]. intros j Hj. rewrite Hbits, Hcov by lia. unfold covers, meets.
  destruct (Z.ltb_spec j (pmm_pages_total s)); [|lia]. rewrite andb_true_r, Ht by lia.
  by destruct (_ && _ && _).
Qed.

(** ** The managed range *)

Definition fallback : Z * Z := (0x40000000, 0x40000000).

(** The range of the memory node, and that range cut to whole pages. *)
Definition raw_range (r : option (Z * Z)) : Z * Z :=
  match r with
  | Some (b, n) => if n =? 0 then fallback else (b, n)
  | None => fallback
  end.
Definition page_range (bn : Z * Z) : Z * Z :=
  let lo := (bn.1 + 4095) / 4096 * 4096 in
  let hi := (bn.1 + bn.2) / 4096 * 4096 in
  if hi <=? lo then fallback else (lo, hi - lo).

Lemma page_range_ok bn :
  0 ≤ bn.1 → 0 ≤ bn.2 → bn.1 + bn.2 + 4096 < 2 ^ 64 →
  let '(b, n) := page_range bn in
  0 ≤ b ∧ b mod 4096 = 0 ∧ 0 < n ∧ n mod 4096 = 0 ∧ b + n < 2 ^ 64.
Proof.
  intros H1 H2 H3. unfold page_range. destruct (Z.leb_spec ((bn.1 + bn.2) / 4096 * 4096) ((bn.1 + 4095) / 4096 * 4096)).
  - by split_and!.
  - pose proof (Z.div_pos (bn.1 + 4095) 4096). pose proof (Z.div_mod (bn.1 + bn.2) 4096).
    pose proof (Z.mod_pos_bound (bn.1 + bn.2) 4096).
    split_and!; [lia|apply Z.mod_mul; lia|lia| |lia].
    rewrite <-Z.mul_sub_distr_r. apply Z.mod_mul. lia.
Qed.

(** The two masks of the code, on a range that does not reach the end of the
    address space. *)
Lemma round_up b : 0 ≤ b → b + 4096 < 2 ^ 64 →
  Z.land (u64 (u64 (b + PMM_PAGE_SIZE) - 1)) page_mask = (b + 4095) / 4096 * 4096.
Proof.
  intros H0 H. unfold u64, PMM_PAGE_SIZE. rewrite Zminus_mod_idemp_l, (wrap_small 64) by lia.
  rewrite land_page_mask by lia. do 2 f_equal. lia.
Qed.

Lemma free_count (s : pmm) :
  0 ≤ pmm_pages_total s → (∀ j, 0 ≤ j < pmm_pages_total s → page_alloc s j = false) →
  free_pages s = pmm_pages_total s.
Proof.
  intros H0 H. unfold free_pages. rewrite countb_all; [lia|]. intros j Hj. by rewrite H by lia.
Qed.

Definition total_of (n : Z) : Z := Z.min (n / 4096) PMM_MAX_PAGES.

(** All pages free, before anything is withdrawn. *)
Lemma booting_start (s : pmm) bm b n :
  bm_ok 8 131072 bm → (∀ j, 0 ≤ j < total_of n → bm_bit 8 bm j = false) →
  0 ≤ b → b mod 4096 = 0 → 0 < n → n mod 4096 = 0 → b + n < 2 ^ 64 →
  pmm_lock s = 0 →
  booting (set_pages_free (total_of n) (set_bitmap bm (set_pages_total (total_of n) (set_range b n s))))
    b n (total_of n) (λ _, false).
Proof.
  intros Hbm Hbits Hb Hb4 Hn Hn4 Hlim Hlock.
  assert (Ht : 0 ≤ total_of n ≤ PMM_MAX_PAGES ∧ total_of n * 4096 ≤ n).
  { unfold total_of, PMM_MAX_PAGES. pose proof (Z.div_pos n 4096). pose proof (Z.div_mod n 4096).
    pose proof (Z.mod_pos_bound n 4096). lia. }
  split; [|done|done|done|intros j Hj; by apply Hbits].
  split; [done|done|done| | | |]; simpl; [lia|lia|lia|].
  rewrite free_count; [done|simpl; lia|]. intros j Hj. by apply Hbits.
Qed.

(** ** The whole initialisation *)

Definition uart_page (u : option Z) (base j : Z) : bool :=
  match u with
  | Some a => ctrue a && meets base (a / 4096 * 4096) 4096 j
  | None => false
  end.

(** Page [j] meets the kernel image, the boot stack, the blob, the page of the
    UART or the first MiB. *)
Definition withdrawn (base : Z) (u : option Z) (ptr tsz ks ke sb st j : Z) : bool :=
  meets base base 0x100000 j || uart_page u base j || meets base ptr tsz j ||
  meets base sb (st - sb) j || meets base ks (ke - ks) j.

Lemma booting_ext p base size total f g :
  booting p base size total f → (∀ j, f j = g j) → booting p base size total g.
Proof. intros [] H. split; try done. intros j Hj. rewrite <-H. auto. Qed.

(** What a boot finds: a blob, linker symbols in order, and regions that end
    below the end of the address space. *)
Record boot_ok (s : init) (evs : list ev) (u : option Z) (tsz ks ke sb st : Z) : Prop := {
  bo_bitmap : bm_ok 8 131072 (pmm_bitmap (pm s));
  bo_blob : blob (dt s) evs;
  bo_aliases : ∀ n d, (n, d) ∈ g_als (p1 evs None sig0) → 0 ∈ d;
  bo_uart : uart_spec evs = Ret u;
  bo_uart_range : match u with Some a => 0 ≤ a ∧ a + 4096 < 2 ^ 64 | None => True end;
  bo_size : tok (ram (dt s)) (dtb_ptr (dt s) + hdr_totalsize) tsz ∧ dtb_ptr (dt s) + tsz < 2 ^ 64;
  bo_kernel : 0 ≤ ks ≤ ke ∧ ke < 2 ^ 64;
  bo_stack : 0 ≤ sb ≤ st ∧ st < 2 ^ 64;
  bo_range : let bn := raw_range (fm_spec evs 0 false (2, 2)) in
    0 ≤ bn.1 ∧ 0 ≤ bn.2 ∧ bn.1 + bn.2 + 4096 < 2 ^ 64;
  bo_low : (page_range (raw_range (fm_spec evs 0 false (2, 2)))).1 + 0x100000 < 2 ^ 64;
}.

Lemma fill_count : ∃ N, Z.to_nat (PMM_MAX_PAGES / 8) = N ∧ Z.of_nat N ≤ 131072.
Proof. eexists. split; [reflexivity|]. rewrite Z2Nat.id; vm_compute; discriminate. Qed.

Lemma u64_small x : 0 ≤ x < 2 ^ 64 → u64 x = x.
Proof. apply Z.mod_small. Qed.

Lemma page_floor a : 0 ≤ a → 0 ≤ a / 4096 * 4096 ≤ a.
Proof. intros H. pose proof (Z.div_pos a 4096). pose proof (Z.div_mod a 4096). pose proof (Z.mod_pos_bound a 4096). lia. Qed.

Lemma managed_range_eq r :
  let bn := raw_range r in
  0 ≤ bn.1 → 0 ≤ bn.2 → bn.1 + bn.2 + 4096 < 2 ^ 64 → managed_range r = page_range bn.
Proof.
  intros bn H1 H2 H3. pose proof (page_range_ok bn H1 H2 H3) as Hpr. unfold managed_range.
  match goal with |- (let '(base, size) := ?x in _) = _ =>
    replace x with bn by (unfold bn, raw_range; by destruct r as [[? ?]|]) end.
  destruct bn as [b0 n0]. cbn [fst snd] in *. cbv zeta.
  rewrite round_up by lia. rewrite land_page_mask by (unfold u64; apply Z.mod_pos_bound; lia).
  rewrite (u64_small (b0 + n0)) by lia. unfold page_range in *. cbn [fst snd] in *.
  destruct (_ <=? _); [done|]. f_equal. apply u64_small. lia.
Qed.

Lemma wp_set_range s evs (Q : unit → init → Prop) :
  let r := fm_spec evs 0 false (2, 2) in
  bm_ok 8 131072 (pmm_bitmap (pm s)) → blob (dt s) evs →
  0 ≤ (raw_range r).1 → 0 ≤ (raw_range r).2 → (raw_range r).1 + (raw_range r).2 + 4096 < 2 ^ 64 →
  (let '(base, size) := page_range (raw_range r) in
   ∀ p, 0 ≤ base → 0 < size → base + size < 2 ^ 64 →
     booting p base size (total_of size) (λ _, false) → Q tt {| pm := p; dt := dt s |}) →
  wp pmm_set_range Q s.
Proof.
  intros r Hbm Hblob Hr1 Hr2 Hr3 HQ. unfold pmm_set_range.
  destruct fill_count as (N & -> & HN).
  apply wp_bind, wp_on_pm, wp_modify. cbv beta.
  apply wp_bind, wp_on_pm, wp_fill; [exact Hbm|exact HN|]. intros bm1 Hbm1. clear Hbm.
  apply wp_bind, wp_on_dt, (wp_find_region _ evs); [done|]. split; [done|]. fold r.
  rewrite managed_range_eq by done. pose proof (page_range_ok _ Hr1 Hr2 Hr3) as Hpr.
  destruct (page_range (raw_range r)) as [base size]. destruct Hpr as (Hb0 & Hb4 & Hn0 & Hn4 & Hlim).
  apply wp_bind, wp_on_pm, wp_modify. cbv beta.
  replace (if PMM_MAX_PAGES <? size / PMM_PAGE_SIZE then PMM_MAX_PAGES else size / PMM_PAGE_SIZE)
    with (total_of size)
    by (unfold total_of, PMM_PAGE_SIZE; destruct (Z.ltb_spec PMM_MAX_PAGES (size / 4096)); lia).
  assert (Htot : 0 ≤ total_of size ≤ PMM_MAX_PAGES)
    by (unfold total_of, PMM_MAX_PAGES; pose proof (Z.div_pos size 4096); lia).
  apply wp_bind, wp_on_pm, wp_modify. cbv beta.
  apply wp_bind, wp_on_pm, wp_clear_all; [done|lia|]. intros bm2 Hbm2 Hbits.
  rewrite Z2Nat.id in Hbits by lia.
  apply wp_on_pm, wp_modify. cbv beta. apply HQ; [done..|].
  by apply (booting_start (set_bitmap bm1 (lk_set_word 0 (pm s)))).
Qed.

Lemma wp_reserve_blob s base size total taken tsz (Q : unit → init → Prop) :
  0 < dtb_ptr (dt s) → tok (ram (dt s)) (dtb_ptr (dt s) + hdr_totalsize) tsz →
  dtb_ptr (dt s) + tsz < 2 ^ 64 → booting (pm s) base size total taken →
  (∀ p, booting p base size total (λ j, meets base (dtb_ptr (dt s)) tsz j || taken j) →
    Q tt {| pm := p; dt := dt s |}) →
  wp reserve_dtb_blob Q s.
Proof.
  intros Hp Ht Hlim Hb HQ. unfold reserve_dtb_blob. assert (0 ≤ tsz) by apply Ht.
  apply wp_bind, wp_on_dt, wp_gets. split; [done|]. rewrite ptr_true by done.
  apply wp_bind, wp_on_dt, wp_gets. split; [done|].
  apply wp_bind, wp_on_mem, (wp_be32_u32 _ _ tsz); [done|]. split; [done|].
  apply wp_on_pm, (wp_take _ _ _ _ _ _ _ _ Hb); [lia..|]. done.
Qed.

Lemma wp_reserve_uart s evs u base size total taken (Q : unit → init → Prop) :
  blob (dt s) evs → (∀ n d, (n, d) ∈ g_als (p1 evs None sig0) → 0 ∈ d) →
  uart_spec evs = Ret u → match u with Some a => 0 ≤ a ∧ a + 4096 < 2 ^ 64 | None => True end →
  booting (pm s) base size total taken →
  (∀ p, booting p base size total (λ j, uart_page u base j || taken j) → Q tt {| pm := p; dt := dt s |}) →
  wp reserve_uart Q s.
Proof.
  intros Hblob Hals Hu Hur Hb HQ. unfold reserve_uart.
  apply wp_bind, wp_on_dt, (wp_uart _ evs u); [done..|]. split; [done|].
  destruct s as [p d]. destruct u as [a|]; [|apply wp_ret, HQ; done]. unfold uart_page in HQ.
  destruct (ctrue a); simpl; [|apply wp_ret, HQ; done]. rewrite land_page_mask by lia.
  pose proof (page_floor a ltac:(lia)). unfold PMM_PAGE_SIZE.
  apply wp_on_pm, (wp_take _ _ _ _ _ _ _ _ Hb); [simpl; lia..|]. done.
Qed.

Lemma wp_boot s evs u tsz ks ke sb st (Q : unit → init → Prop) :
  boot_ok s evs u tsz ks ke sb st →
  (let '(base, size) := page_range (raw_range (fm_spec evs 0 false (2, 2))) in
   ∀ p, booting p base size (total_of size) (withdrawn base u (dtb_ptr (dt s)) tsz ks ke sb st) →
     Q tt {| pm := p; dt := dt s |}) →
  wp (pmm_init_from_dtb ks ke sb st) Q s.
Proof.
  intros [Hbm Hblob Hals Hu Hur [Htsz Hdt] Hk Hst (Hr1 & Hr2 & Hr3) Hlow] HQ. unfold pmm_init_from_dtb.
  assert (Hptr : 0 < dtb_ptr (dt s)) by apply Hblob.
  apply wp_bind, (wp_set_range s evs); [done..|].
  destruct (page_range _) as [base size]. intros p0 Hb0 Hn0 Hlim Hp0. cbn [fst snd] in Hlow.
  rewrite (u64_small (ke - ks)), (u64_small (st - sb)) by lia.
  apply wp_bind, wp_on_pm, (wp_take _ _ _ _ _ _ _ _ Hp0); [lia..|]. intros p1 Hp1. cbn [dt].
  apply wp_bind, wp_on_pm, (wp_take _ _ _ _ _ _ _ _ Hp1); [lia..|]. intros p2 Hp2. cbn [dt].
  apply wp_bind, (wp_reserve_blob {| pm := p2; dt := dt s |} _ _ _ _ tsz _ Hptr Htsz Hdt Hp2). intros p3 Hp3. cbn [dt] in *.
  apply wp_bind, (wp_reserved _ evs); [done|].
  apply wp_bind, (wp_reserve_uart {| pm := p3; dt := dt s |} evs u _ _ _ _ _
    Hblob Hals Hu Hur Hp3). intros p4 Hp4. cbn [dt] in *.
  pose proof Hp4 as [_ Hpb Hps _ _].
  apply wp_bind, wp_on_pm, wp_gets. apply wp_bind, wp_on_pm, wp_gets. cbn [dt pm].
  rewrite Hpb, Hps, (u64_small (base + size)) by lia.
  destruct (Z.ltb_spec base (base + size)); [|lia].
  apply wp_on_pm, (wp_take _ _ _ _ _ _ _ _ Hp4); [lia..|]. intros p5 Hp5.
  apply HQ, (booting_ext _ _ _ _ _ _ Hp5). intros j. unfold withdrawn. by rewrite orb_false_r, !orb_assoc.
Qed.

(** ** Theorems *)

(** A bitmap as it is at reset, and the state the witnesses start from. *)
Definition reset_pmm : pmm := {|
  pmm_lock := 0; pmm_daif := 0; pmm_bitmap := bm_fill 131072 0; pmm_mem_base := 0;
  pmm_mem_size := 0; pmm_pages_total := 0; pmm_pages_free := 0 |}.
Definition demo_boot (t : node) : init := {| pm := reset_pmm; dt := blob_of t |}.

Lemma demo_boot_ok :
  boot_ok (demo_boot demo_tree) (flatten demo_tree) (Some 0x9000000)
    (zlen (enc_blob (flatten demo_tree))) 0x40080000 0x400a0000 0x400a0000 0x400b0000.
Proof.
  assert (Hb : blob (blob_of demo_tree) (flatten demo_tree)) by (apply blob_of_ok; vm_compute; reflexivity).
  split.
  - apply bm_fill_ok. lia.
  - exact Hb.
  - intros n d Hn. apply elem_of_nil in Hn. destruct Hn.
  - vm_compute. reflexivity.
  - split; lia.
  - split; [split; [vm_compute; split; [discriminate|reflexivity]|]|vm_compute; reflexivity].
    change (ram (dt (demo_boot demo_tree))) with (upd 0x48000000 (enc_blob (flatten demo_tree)) ∅).
    replace (be_bytes (zlen (enc_blob (flatten demo_tree))))
      with (take 4 (drop 4 (enc_blob (flatten demo_tree)))) by (vm_compute; reflexivity).
    intros i c Hi. apply lookup_take_Some in Hi as [Hi _]. rewrite lookup_drop in Hi.
    apply (upd_bytes 0x48000000 _ ∅) in Hi. rewrite <-Hi. f_equal.
    change (dtb_ptr (dt (demo_boot demo_tree)) + hdr_totalsize) with (0x48000000 + 4). lia.
  - lia.
  - lia.
  - vm_compute. repeat split; discriminate.
  - vm_compute. reflexivity.
Qed.

(** C25: the state after [pmm_init_from_dtb].  Whatever the bitmap held, the
    allocator ends up consistent ([booting] includes [pmm_ok]: the free counter
    counts the clear bits, the lock is free), manages the whole pages of the
    memory node (or of the fallback), at most as many as the bitmap has bits
    for, and a page is withdrawn exactly when it meets the kernel image, the
    boot stack, the blob, the page of the console's UART or the first MiB.
    The device tree is only read. *)
Theorem pmm_init_correct (s : init) (evs : list ev) (u : option Z) (tsz ks ke sb st : Z) :
  boot_ok s evs u tsz ks ke sb st →
  let '(base, size) := page_range (raw_range (fm_spec evs 0 false (2, 2))) in
  ∃ s', pmm_init_from_dtb ks ke sb st s = Some (tt, s') ∧ dt s' = dt s ∧
    booting (pm s') base size (Z.min (size / 4096) PMM_MAX_PAGES)
      (withdrawn base u (dtb_ptr (dt s)) tsz ks ke sb st).
Proof.
  intros Hb. pose proof (λ Q, wp_boot s evs u tsz ks ke sb st Q Hb) as H.
  destruct (page_range _) as [base size].
  destruct (H (λ _ s', dt s' = dt s ∧ booting (pm s') base size (total_of size)
    (withdrawn base u (dtb_ptr (dt s)) tsz ks ke sb st))) as ([] & s' & E & Hd & HQ);
    [by intros p Hp|]. by exists s'.
Qed.

Lemma pmm_init_correct_witness :
  let '(base, size) := page_range (raw_range (fm_spec (flatten demo_tree) 0 false (2, 2))) in
  ∃ s', pmm_init_from_dtb 0x40080000 0x400a0000 0x400a0000 0x400b0000 (demo_boot demo_tree) = Some (tt, s') ∧
    dt s' = blob_of demo_tree ∧
    booting (pm s') base size (Z.min (size / 4096) PMM_MAX_PAGES)
      (withdrawn base (Some 0x9000000) 0x48000000 (zlen (enc_blob (flatten demo_tree)))
        0x40080000 0x400a0000 0x400a0000 0x400b0000).
Proof.
  exact (pmm_init_correct (demo_boot demo_tree) (flatten demo_tree) (Some 0x9000000)
    (zlen (enc_blob (flatten demo_tree))) 0x40080000 0x400a0000 0x400a0000 0x400b0000 demo_boot_ok).
Defined.

(** Regions under /reserved-memory are not withdrawn.  On every blob
    [reserve_reserved_memory] reads the tree to its end and leaves the allocator
    as it was: the branch that would reserve is guarded by a condition that
    excludes the nodes it is meant for. *)
Theorem reserved_memory_ignored (s : init) (evs : list ev) :
  blob (dt s) evs → reserve_reserved_memory s = Some (tt, s).
Proof.
  intros Hb. destruct (wp_reserved s evs (λ _ s', s' = s) Hb) as ([] & s' & E & ->); done.
Qed.

(** A tree with a reserved region of 1 MiB. *)
Definition demo_reserved : node :=
  Node [] demo_props [demo_memory; Node (lit "reserved-memory")
    [(lit "#address-cells", be_bytes 2); (lit "#size-cells", be_bytes 2)]
    [Node (lit "fw@50000000") [(lit "reg", be64 0x50000000 ++ be64 0x100000)] []]].

Lemma reserved_memory_ignored_witness :
  reserve_reserved_memory (demo_boot demo_reserved) = Some (tt, demo_boot demo_reserved).
Proof.
  exact (reserved_memory_ignored (demo_boot demo_reserved) (flatten demo_reserved)
    (blob_of_ok demo_reserved eq_refl eq_refl)).
Defined.
