(* ===== verification/Klog.v ===== *)
(** * The kernel log (kernel/log.c): translation

    State: the ring of bytes with its write and read positions, the two level
    filters, the console sink, the lock and the interrupt mask.  What the sink
    receives is recorded. *)
From stdpp Require Import base list option numbers.
From S2P Require Import Prelude Spinlock.
#[local] Open Scope Z_scope.

Module Klog.

Definition KLOG_RING_SIZE : Z := 4096.
#[global] Arguments KLOG_RING_SIZE : simpl never.
Definition KLOG_INFO : Z := 6.
(** [sizeof(klog_hdr_t)]: the structure is packed. *)
Definition HDR : Z := 3.
#[global] Arguments HDR : simpl never.

Record klog := {
  klog_ring : list Z;
  klog_head : Z;
  klog_tail : Z;
  klog_level : Z;
  klog_console_level : Z;
  klog_console_sink : bool;
  klog_lock : Z;
  klog_daif : Z;
  klog_inited : bool;
  console : list Z;
}.
Definition set_ring (v : list Z) (s : klog) : klog :=
  {| klog_ring := v; klog_head := klog_head s; klog_tail := klog_tail s; klog_level := klog_level s;
     klog_console_level := klog_console_level s; klog_console_sink := klog_console_sink s;
     klog_lock := klog_lock s; klog_daif := klog_daif s; klog_inited := klog_inited s;
     console := console s |}.
Definition set_head (v : Z) (s : klog) : klog :=
  {| klog_ring := klog_ring s; klog_head := v; klog_tail := klog_tail s; klog_level := klog_level s;
     klog_console_level := klog_console_level s; klog_console_sink := klog_console_sink s;
     klog_lock := klog_lock s; klog_daif := klog_daif s; klog_inited := klog_inited s;
     console := console s |}.
Definition set_tail (v : Z) (s : klog) : klog :=
  {| klog_ring := klog_ring s; klog_head := klog_head s; klog_tail := v; klog_level := klog_level s;
     klog_console_level := klog_console_level s; klog_console_sink := klog_console_sink s;
     klog_lock := klog_lock s; klog_daif := klog_daif s; klog_inited := klog_inited s;
     console := console s |}.
Definition set_console (v : list Z) (s : klog) : klog :=
  {| klog_ring := klog_ring s; klog_head := klog_head s; klog_tail := klog_tail s;
     klog_level := klog_level s;
     klog_console_level := klog_console_level s; klog_console_sink := klog_console_sink s;
     klog_lock := klog_lock s; klog_daif := klog_daif s; klog_inited := klog_inited s;
     console := v |}.

#[export] Instance klog_has_lock : HasLock klog := {|
  lk_word := klog_lock;
  lk_set_word v s :=
    {| klog_ring := klog_ring s; klog_head := klog_head s; klog_tail := klog_tail s;
       klog_level := klog_level s;
       klog_console_level := klog_console_level s; klog_console_sink := klog_console_sink s;
       klog_lock := v; klog_daif := klog_daif s; klog_inited := klog_inited s;
       console := console s |};
|}.
#[export] Instance klog_has_daif : HasDaif klog := {|
  lk_daif := klog_daif;
  lk_set_daif v s :=
    {| klog_ring := klog_ring s; klog_head := klog_head s; klog_tail := klog_tail s;
       klog_level := klog_level s;
       klog_console_level := klog_console_level s; klog_console_sink := klog_console_sink s;
       klog_lock := klog_lock s; klog_daif := v; klog_inited := klog_inited s;
       console := console s |};
|}.

(** [memcpy] out of and into the ring; undefined when it leaves the array. *)
Definition ring_get (p n : Z) : ST klog (list Z) :=
  r ← gets klog_ring;
  if (0 <=? p) && (0 <=? n) && (p + n <=? Z.of_nat (length r))
  then mret (take (Z.to_nat n) (drop (Z.to_nat p) r)) else undef.
Definition ring_put (p : Z) (bs : list Z) : ST klog unit :=
  r ← gets klog_ring;
  if (0 <=? p) && (p + Z.of_nat (length bs) <=? Z.of_nat (length r))
  then modify (set_ring (take (Z.to_nat p) r ++ bs ++ drop (Z.to_nat p + length bs) r)) else undef.

Definition rb_space (s : klog) : Z :=
  if klog_tail s <=? klog_head s
  then u32 (KLOG_RING_SIZE - u32 (klog_head s - klog_tail s) - 1)
  else u32 (klog_tail s - klog_head s - 1).

Definition rb_advance (p n : Z) : Z := u32 (p + n) mod KLOG_RING_SIZE.

(** The header's bytes: [level], then [len] in little-endian order. *)
Definition hdr_bytes (level len : Z) : list Z := [level; len mod 256; len / 256].
Definition hdr_level (h : list Z) : option Z := h !! 0%nat.
Definition hdr_len (h : list Z) : option Z :=
  lo ← h !! 1%nat; hi ← h !! 2%nat; Some (lo + 256 * hi).

(** The header at the tail, possibly wrapping. *)
Definition read_hdr : ST klog (list Z) :=
  tail ← gets klog_tail;
  if HDR <=? u32 (KLOG_RING_SIZE - tail) then ring_get tail HDR
  else
    let first := u32 (KLOG_RING_SIZE - tail) in
    a ← ring_get tail first;
    b ← ring_get 0 (HDR - first);
    mret (a ++ b).

(** A record takes at least three bytes, so the ring holds fewer than 2048. *)
Definition drop_fuel : nat := 2048.
#[global] Arguments drop_fuel : simpl never.

Fixpoint drop_loop (fuel : nat) (need : Z) : ST klog unit :=
  match fuel with
  | O => undef
  | S fuel =>
      sp ← gets rb_space;
      if sp <? need then
        h ← read_hdr;
        len ← deref (hdr_len h);
        let drop := u32 (HDR + len) in
        modify (λ s, set_tail (rb_advance (klog_tail s) drop) s);;
        drop_loop fuel need
      else mret tt
  end.
Definition rb_drop_oldest (need : Z) : ST klog unit := drop_loop drop_fuel need.

Definition log_init : ST klog unit :=
  spinlock_init;;
  modify (λ s,
    {| klog_ring := klog_ring s; klog_head := 0; klog_tail := 0; klog_level := KLOG_INFO;
       klog_console_level := KLOG_INFO; klog_console_sink := true;
       klog_lock := klog_lock s; klog_daif := klog_daif s; klog_inited := true;
       console := console s |}).

Definition set_levels (lv cl : Z) (sk : bool) (s : klog) : klog :=
  {| klog_ring := klog_ring s; klog_head := klog_head s; klog_tail := klog_tail s; klog_level := lv;
     klog_console_level := cl; klog_console_sink := sk;
     klog_lock := klog_lock s; klog_daif := klog_daif s; klog_inited := klog_inited s;
     console := console s |}.
Definition log_set_level (level : Z) : ST klog unit :=
  modify (λ s, set_levels level (klog_console_level s) (klog_console_sink s) s).
Definition log_set_console_sink (sink : bool) : ST klog unit :=
  modify (λ s, set_levels (klog_level s) (klog_console_level s) sink s).
Definition log_set_console_level (level : Z) : ST klog unit :=
  modify (λ s, set_levels (klog_level s) level (klog_console_sink s) s).

Definition sink_putc (c : Z) : ST klog unit := modify (λ s, set_console (console s ++ [c]) s).

(** ["<n>"]; every other level prints as KLOG_INFO. *)
Definition prefix_of (level : Z) : list Z :=
  [60; 48 + (if (0 <=? level) && (level <=? 7) then level else KLOG_INFO); 62].
Fixpoint sink_puts (cs : list Z) : ST klog unit :=
  match cs with [] => mret tt | c :: cs => sink_putc c;; sink_puts cs end.
Definition console_emit_prefix (level : Z) : ST klog unit :=
  sink ← gets klog_console_sink;
  when sink (sink_puts (prefix_of level)).

(** The two copies of [log_write_str]: the header and the payload, each
    possibly wrapping. *)
Definition append_record (level len : Z) (msg : list Z) : ST klog unit :=
  let hdr := hdr_bytes level (u16 len) in
  head ← gets klog_head;
  (if HDR <=? u32 (KLOG_RING_SIZE - head) then ring_put head hdr
   else
     let first := u32 (KLOG_RING_SIZE - head) in
     ring_put head (take (Z.to_nat first) hdr);;
     ring_put 0 (drop (Z.to_nat first) hdr));;
  modify (λ s, set_head (rb_advance (klog_head s) HDR) s);;
  head ← gets klog_head;
  (if len <=? u32 (KLOG_RING_SIZE - head) then ring_put head (take (Z.to_nat len) msg)
   else
     let first := u32 (KLOG_RING_SIZE - head) in
     ring_put head (take (Z.to_nat first) msg);;
     ring_put 0 (take (Z.to_nat (len - first)) (drop (Z.to_nat first) msg)));;
  modify (λ s, set_head (rb_advance (klog_head s) len) s).

(** [msg] is the characters of the string before its terminator. *)
Definition log_write_str (level : Z) (msg : option (list Z)) : ST klog Z :=
  match msg with
  | None => mret 0
  | Some msg =>
      sink ← gets klog_console_sink;
      cl ← gets klog_console_level;
      when (sink && (level <=? cl)) (console_emit_prefix level;; sink_puts msg);;
      inited ← gets klog_inited;
      lev ← gets klog_level;
      if negb inited then mret 0
      else if lev <? level then mret 0
      else
        let len := Z.of_nat (length msg) in
        let max_payload := KLOG_RING_SIZE - HDR - 1 in
        let len := if max_payload <? len then max_payload else len in
        flags ← spinlock_lock_irqsave;
        let need := u32 (HDR + len) in
        sp ← gets rb_space;
        when (sp <? need) (rb_drop_oldest need);;
        append_record (u8 level) len msg;;
        spinlock_unlock_irqrestore flags;;
        mret len
  end.

(** The result: the return value, and what is stored through [out_buf] (with
    its terminator) and [out_level]. *)
Definition log_read (out_buf_len : Z) : ST klog (Z * option (list Z * Z)) :=
  inited ← gets klog_inited;
  if (out_buf_len <=? 0) || negb inited then mret (0, None)
  else
    flags ← spinlock_lock_irqsave;
    head ← gets klog_head;
    tail ← gets klog_tail;
    if head =? tail then
      spinlock_unlock_irqrestore flags;;
      mret (0, None)
    else
      h ← read_hdr;
      modify (λ s, set_tail (rb_advance (klog_tail s) HDR) s);;
      len ← deref (hdr_len h);
      level ← deref (hdr_level h);
      let to_copy := if out_buf_len - 1 <? len then out_buf_len - 1 else len in
      tail ← gets klog_tail;
      out ← (if to_copy <=? u32 (KLOG_RING_SIZE - tail) then ring_get tail to_copy
             else
               let first := u32 (KLOG_RING_SIZE - tail) in
               let first := if to_copy <? first then to_copy else first in
               a ← ring_get tail first;
               b ← (if first <? to_copy then ring_get 0 (to_copy - first) else mret []);
               mret (a ++ b));
      modify (λ s, set_tail (rb_advance (klog_tail s) len) s);;
      spinlock_unlock_irqrestore flags;;
      mret (to_copy, Some (out ++ [0], level)).

End Klog.
