(* ===== verification/KlogThm.v ===== *)
(** * The kernel log: correctness

    The ring between tail and head is the concatenation of the stored records;
    writing appends a record, dropping as few of the oldest as needed, and
    reading takes the oldest one. *)
From stdpp Require Import base list option numbers.
From S2P Require Import Prelude Spinlock Klog.
#[local] Open Scope Z_scope.
Import Klog.

#[local] Opaque drop_fuel.
Lemma drop_fuel_val : drop_fuel = 2048%nat.
Proof. reflexivity. Qed.

(** ** Circular segments *)

Definition pos (p : Z) (i : nat) : nat := Z.to_nat ((p + Z.of_nat i) mod 4096).

Definition seg (r : list Z) (p : Z) (bs : list Z) : Prop :=
  ∀ i b, bs !! i = Some b → r !! pos p i = Some b.

Lemma pos_add p i j : pos p (i + j) = pos ((p + Z.of_nat i) mod 4096) j.
Proof. unfold pos. rewrite Z.add_mod_idemp_l by lia. do 2 f_equal. lia. Qed.

Lemma pos_cases p i :
  0 ≤ p < 4096 → Z.of_nat i ≤ 4096 →
  pos p i = if decide (p + Z.of_nat i < 4096) then (Z.to_nat p + i)%nat
            else Z.to_nat (p + Z.of_nat i - 4096).
Proof.
  intros Hp Hi. unfold pos. case_decide.
  - rewrite Z.mod_small by lia. lia.
  - replace (p + Z.of_nat i) with (p + Z.of_nat i - 4096 + 1 * 4096) by lia.
    rewrite Z.mod_add by lia. rewrite Z.mod_small by lia. lia.
Qed.

Lemma seg_app r p a b :
  seg r p (a ++ b) ↔ seg r p a ∧ seg r ((p + Z.of_nat (length a)) mod 4096) b.
Proof.
  split.
  - intros H. split.
    + intros i x Hi. apply H. by apply lookup_app_l_Some.
    + intros i x Hi. rewrite <-pos_add. apply H.
      rewrite lookup_app_r by lia. by replace (length a + i - length a)%nat with i by lia.
  - intros [Ha Hb] i x Hi. apply lookup_app_Some in Hi as [Hi|[Hlen Hi]]; [by apply Ha|].
    apply Hb in Hi. rewrite <-pos_add in Hi. by replace (length a + (i - length a))%nat with i in Hi by lia.
Qed.

Lemma seg_nil r p : seg r p [].
Proof. by intros i b. Qed.

(** The contiguous copy. *)
Lemma take_seg r p n bs :
  Z.of_nat (length r) = 4096 → 0 ≤ p < 4096 → 0 ≤ n → p + n ≤ 4096 → length bs = Z.to_nat n → seg r p bs →
  take (Z.to_nat n) (drop (Z.to_nat p) r) = bs.
Proof.
  intros Hr Hp Hn Hpn Hlen Hs. apply list_eq. intros i.
  destruct (decide (i < Z.to_nat n)%nat) as [Hi|Hi].
  - rewrite lookup_take_lt, lookup_drop by done.
    destruct (lookup_lt_is_Some_2 bs i) as [b Hb]; [lia|]. rewrite Hb. apply Hs in Hb.
    rewrite pos_cases in Hb by lia. by rewrite decide_True in Hb by lia.
  - rewrite lookup_take_ge by lia. symmetry. apply lookup_ge_None. lia.
Qed.

Lemma wp_ring_get s p n bs (Q : list Z → klog → Prop) :
  Z.of_nat (length (klog_ring s)) = 4096 → 0 ≤ p < 4096 → 0 ≤ n → p + n ≤ 4096 →
  length bs = Z.to_nat n → seg (klog_ring s) p bs → Q bs s → wp (ring_get p n) Q s.
Proof.
  intros Hr Hp Hn Hpn Hlen Hs HQ. apply wp_bind, wp_gets. rewrite Hr.
  destruct (Z.leb_spec 0 p); [|lia]. destruct (Z.leb_spec 0 n); [|lia].
  destruct (Z.leb_spec (p + n) 4096); [|lia]. simpl.
  apply wp_ret. by rewrite (take_seg _ p n bs).
Qed.

(** Reading [n] bytes from position [p], in one or two pieces. *)
Lemma wp_get_wrapped s p n bs (Q : list Z → klog → Prop) :
  Z.of_nat (length (klog_ring s)) = 4096 → 0 ≤ p < 4096 → 0 ≤ n ≤ 4096 →
  length bs = Z.to_nat n → seg (klog_ring s) p bs → 4096 - p < n → Q bs s →
  wp (a ← ring_get p (4096 - p); b ← ring_get 0 (n - (4096 - p)); mret (a ++ b)) Q s.
Proof.
  intros Hr Hp Hn Hlen Hs Hw HQ. rewrite <-(take_drop (Z.to_nat (4096 - p)) bs) in Hs, HQ.
  apply seg_app in Hs as [Ha Hb]. rewrite length_take in Hb.
  replace ((p + Z.of_nat (Z.to_nat (4096 - p) `min` length bs)) mod 4096) with 0 in Hb.
  2:{ rewrite Nat.min_l by lia. rewrite Z2Nat.id by lia.
      by replace (p + (4096 - p)) with 4096 by lia. }
  apply wp_bind. eapply wp_ring_get; [done|done|lia|lia| |exact Ha|].
  { rewrite length_take. lia. }
  apply wp_bind. eapply wp_ring_get; [done|lia|lia|lia| |exact Hb|].
  { rewrite length_drop. lia. }
  by apply wp_ret.
Qed.

(** ** Writing *)

Definition splice (r : list Z) (p : nat) (bs : list Z) : list Z :=
  take p r ++ bs ++ drop (p + length bs) r.

Lemma splice_length r p bs : (p + length bs ≤ length r)%nat → length (splice r p bs) = length r.
Proof. intros H. unfold splice. rewrite !length_app, length_take, length_drop. lia. Qed.

Lemma splice_lookup r p bs j :
  (p + length bs ≤ length r)%nat →
  splice r p bs !! j =
    if decide (p ≤ j < p + length bs)%nat then bs !! (j - p)%nat else r !! j.
Proof.
  intros H. unfold splice. case_decide as Hj.
  - rewrite lookup_app_r by (rewrite length_take; lia). rewrite length_take, Nat.min_l by lia.
    apply lookup_app_l. lia.
  - destruct (decide (j < p)%nat) as [Hlt|Hge].
    + rewrite lookup_app_l by (rewrite length_take; lia). by apply lookup_take_lt.
    + rewrite lookup_app_r by (rewrite length_take; lia). rewrite length_take, Nat.min_l by lia.
      rewrite lookup_app_r by lia. rewrite lookup_drop. f_equal. lia.
Qed.

Lemma wp_ring_put s p bs (Q : unit → klog → Prop) :
  0 ≤ p → p + Z.of_nat (length bs) ≤ Z.of_nat (length (klog_ring s)) →
  Q tt (set_ring (splice (klog_ring s) (Z.to_nat p) bs) s) → wp (ring_put p bs) Q s.
Proof.
  intros Hp Hlen HQ. apply wp_bind, wp_gets.
  destruct (Z.leb_spec 0 p); [|lia].
  destruct (Z.leb_spec (p + Z.of_nat (length bs)) (Z.of_nat (length (klog_ring s)))); [|lia]. simpl.
  by apply wp_modify.
Qed.

(** [r'] is [r] with the bytes [bs] written from position [p] on. *)
Definition written (r r' : list Z) (p : Z) (bs : list Z) : Prop :=
  length r' = length r ∧
  ∀ i, Z.of_nat i < 4096 → r' !! pos p i = if decide (i < length bs)%nat then bs !! i else r !! pos p i.

Lemma written_one r p bs :
  Z.of_nat (length r) = 4096 → 0 ≤ p < 4096 → p + Z.of_nat (length bs) ≤ 4096 →
  written r (splice r (Z.to_nat p) bs) p bs.
Proof.
  intros Hr Hp Hlen. split; [apply splice_length; lia|]. intros i Hi.
  rewrite splice_lookup by lia. rewrite pos_cases by lia.
  case_decide as H1; case_decide as H2; case_decide as H3; try lia; try done.
  f_equal. lia.
Qed.

Lemma written_two r p bs :
  Z.of_nat (length r) = 4096 → 0 ≤ p < 4096 → Z.of_nat (length bs) ≤ 4096 → 4096 - p < Z.of_nat (length bs) →
  written r (splice (splice r (Z.to_nat p) (take (Z.to_nat (4096 - p)) bs)) 0
               (drop (Z.to_nat (4096 - p)) bs)) p bs.
Proof.
  intros Hr Hp Hlen Hw. set (f := Z.to_nat (4096 - p)).
  assert (Hfz : Z.of_nat f = 4096 - p) by (unfold f; lia). clearbody f.
  assert (Hf : length (take f bs) = f) by (rewrite length_take; lia).
  assert (Hd : length (drop f bs) = (length bs - f)%nat) by apply length_drop.
  assert (Hl1 : length (splice r (Z.to_nat p) (take f bs)) = length r).
  { apply splice_length. lia. }
  split; [rewrite splice_length; lia|]. intros i Hi.
  rewrite splice_lookup by lia. rewrite Hd. rewrite pos_cases by lia.
  destruct (decide (p + Z.of_nat i < 4096)) as [H1|H1].
  - rewrite decide_False by lia. rewrite splice_lookup by lia. rewrite Hf.
    rewrite decide_True by lia. rewrite decide_True by lia.
    rewrite lookup_take_lt by lia. f_equal. lia.
  - destruct (decide (i < length bs)%nat) as [H2|H2].
    + rewrite decide_True by lia. rewrite lookup_drop. f_equal. lia.
    + rewrite decide_False by lia. rewrite splice_lookup by lia. rewrite Hf.
      rewrite decide_False by lia. done.
Qed.

(** Bytes written behind a segment extend it. *)
Lemma written_seg r r' t old bs :
  0 ≤ t < 4096 → Z.of_nat (length old + length bs) ≤ 4096 → seg r t old →
  written r r' ((t + Z.of_nat (length old)) mod 4096) bs → seg r' t (old ++ bs).
Proof.
  intros Ht Hlen Hs [_ Hw]. set (p := (t + Z.of_nat (length old)) mod 4096) in *.
  apply seg_app. split.
  - intros i b Hi. pose proof (lookup_lt_Some _ _ _ Hi) as Hil.
    assert (Hpos : pos t i = pos p (Z.to_nat (4096 - Z.of_nat (length old)) + i)).
    { unfold p. rewrite <-pos_add. unfold pos. f_equal.
      replace (t + Z.of_nat (length old + (Z.to_nat (4096 - Z.of_nat (length old)) + i))) with (t + Z.of_nat i + 1 * 4096) by lia.
      by rewrite Z.mod_add by lia. }
    rewrite Hpos, Hw by lia. rewrite decide_False by lia. rewrite <-Hpos. by apply Hs.
  - intros i b Hi. pose proof (lookup_lt_Some _ _ _ Hi) as Hil.
    fold p. rewrite Hw by lia. by rewrite decide_True.
Qed.

(** ** Records *)

(** A stored record: its level and its payload. *)
Notation record := (Z * list Z)%type.
Definition enc (r : record) : list Z := hdr_bytes r.1 (Z.of_nat (length r.2)) ++ r.2.
Definition bytes_of (recs : list record) : list Z := concat (enc <$> recs).
Definition used (recs : list record) : Z := Z.of_nat (length (bytes_of recs)).
Definition rec_ok (r : record) : Prop := Z.of_nat (length r.2) ≤ 4092.

Record ring_rep (s : klog) (recs : list record) : Prop := {
  rg_ring : Z.of_nat (length (klog_ring s)) = 4096;
  rg_tail : 0 ≤ klog_tail s < 4096;
  rg_head : klog_head s = (klog_tail s + used recs) mod 4096;
  rg_used : used recs ≤ 4095;
  rg_recs : Forall rec_ok recs;
  rg_seg : seg (klog_ring s) (klog_tail s) (bytes_of recs);
}.

Lemma length_enc r : length (enc r) = (3 + length r.2)%nat.
Proof. unfold enc. by rewrite length_app. Qed.
Lemma bytes_of_cons r recs : bytes_of (r :: recs) = enc r ++ bytes_of recs.
Proof. reflexivity. Qed.
Lemma used_cons r recs : used (r :: recs) = 3 + Z.of_nat (length r.2) + used recs.
Proof. unfold used, bytes_of. rewrite fmap_cons. cbn [concat]. rewrite length_app, length_enc. lia. Qed.
Lemma used_app a b : used (a ++ b) = used a + used b.
Proof. unfold used, bytes_of. rewrite fmap_app, concat_app, length_app. lia. Qed.
Lemma used_nonneg recs : 0 ≤ used recs.
Proof. unfold used. lia. Qed.
Lemma used_length recs : 3 * Z.of_nat (length recs) ≤ used recs.
Proof. induction recs as [|r recs IH]; [done|]. rewrite used_cons. cbn [length]. lia. Qed.

Lemma head_range s recs : ring_rep s recs → 0 ≤ klog_head s < 4096.
Proof. intros []. rewrite rg_head0. by apply Z.mod_pos_bound. Qed.

Lemma space_eq s recs : ring_rep s recs → rb_space s = 4095 - used recs.
Proof.
  intros Hr. pose proof (head_range s recs Hr) as Hh. destruct Hr as [_ Ht Hhd Hu _ _].
  pose proof (used_nonneg recs). unfold rb_space, KLOG_RING_SIZE, u32.
  destruct (decide (klog_tail s + used recs < 4096)) as [Hw|Hw].
  - rewrite Z.mod_small in Hhd by lia. destruct (Z.leb_spec (klog_tail s) (klog_head s)); [|lia].
    rewrite (wrap_small 32 (klog_head s - _)), wrap_small by lia. lia.
  - replace (klog_tail s + used recs) with (klog_tail s + used recs - 4096 + 1 * 4096) in Hhd by lia.
    rewrite Z.mod_add, Z.mod_small in Hhd by lia.
    destruct (Z.leb_spec (klog_tail s) (klog_head s)); [lia|].
    rewrite wrap_small by lia. lia.
Qed.

Lemma to_end p : 0 ≤ p < 4096 → u32 (KLOG_RING_SIZE - p) = 4096 - p.
Proof. intros Hp. unfold u32, KLOG_RING_SIZE. apply wrap_small. lia. Qed.

Lemma advance p n : 0 ≤ p < 4096 → 0 ≤ n < 2 ^ 31 → rb_advance p n = (p + n) mod 4096.
Proof. intros Hp Hn. unfold rb_advance, u32, KLOG_RING_SIZE. by rewrite (wrap_small 32) by lia. Qed.

(** The oldest record's header. *)
Lemma wp_read_hdr s r recs (Q : list Z → klog → Prop) :
  ring_rep s (r :: recs) → Q (hdr_bytes r.1 (Z.of_nat (length r.2))) s → wp read_hdr Q s.
Proof.
  intros [Hring Ht _ Hu _ Hseg] HQ. rewrite bytes_of_cons in Hseg.
  apply seg_app in Hseg as [Hseg _]. apply seg_app in Hseg as [Hseg _].
  apply wp_bind, wp_gets. rewrite to_end by done. unfold HDR.
  destruct (Z.leb_spec 3 (4096 - klog_tail s)).
  - eapply wp_ring_get; [done|done|lia|lia| |exact Hseg|done]. done.
  - eapply wp_get_wrapped; [done|done|lia| |exact Hseg|lia|done]. done.
Qed.

Lemma hdr_len_ok r : rec_ok r → hdr_len (hdr_bytes r.1 (Z.of_nat (length r.2))) = Some (Z.of_nat (length r.2)).
Proof.
  intros Hr. unfold hdr_len, hdr_bytes. simpl. f_equal.
  pose proof (Z.div_mod (Z.of_nat (length r.2)) 256). lia.
Qed.

(** Moving the tail past the oldest record. *)
Lemma pop_rep s r recs :
  ring_rep s (r :: recs) →
  ring_rep (set_tail ((klog_tail s + (3 + Z.of_nat (length r.2))) mod 4096) s) recs.
Proof.
  intros [Hring Ht Hh Hu Hok Hseg]. rewrite used_cons in *. apply Forall_cons_1 in Hok as [_ Hok].
  split; simpl; [done| | | |done|].
  - by apply Z.mod_pos_bound.
  - rewrite Hh, Z.add_mod_idemp_l by done. f_equal. lia.
  - lia.
  - rewrite bytes_of_cons in Hseg.
    apply seg_app in Hseg as [_ Hseg]. rewrite length_enc in Hseg.
    by replace (Z.of_nat (3 + length r.2)) with (3 + Z.of_nat (length r.2)) in Hseg by lia.
Qed.

(** ** Making room *)

Fixpoint drop_spec (need : Z) (recs : list record) : list record :=
  match recs with
  | [] => []
  | r :: rest => if used recs + need <=? 4095 then recs else drop_spec need rest
  end.

Lemma drop_spec_suffix need recs : ∃ old, recs = old ++ drop_spec need recs.
Proof.
  induction recs as [|r recs [old IH]]; [by exists []|]. cbn [drop_spec].
  destruct (_ <=? _); [by exists []|]. exists (r :: old). by rewrite IH at 1.
Qed.

Lemma drop_spec_fits need recs : need ≤ 4095 → used (drop_spec need recs) + need ≤ 4095.
Proof.
  intros Hn. induction recs as [|r recs IH]; [change (used (drop_spec need [])) with 0; lia|]. cbn [drop_spec].
  destruct (Z.leb_spec (used (r :: recs) + need) 4095); [done|exact IH].
Qed.

Lemma wp_drop_loop fuel s recs need (Q : unit → klog → Prop) :
  ring_rep s recs → 0 ≤ need ≤ 4095 → (length recs < fuel)%nat →
  (∀ t, ring_rep (set_tail t s) (drop_spec need recs) → Q tt (set_tail t s)) →
  wp (drop_loop fuel need) Q s.
Proof.
  revert s recs. induction fuel as [|fuel IH]; intros s recs Hr Hn Hf HQ; [lia|]. simpl.
  apply wp_bind, wp_gets. rewrite (space_eq s recs Hr).
  assert (Hself : set_tail (klog_tail s) s = s) by (by destruct s).
  destruct recs as [|r recs].
  { change (used []) with 0. destruct (Z.ltb_spec (4095 - 0) need); [lia|]. apply wp_ret.
    rewrite <-Hself. apply HQ. by rewrite Hself. }
  cbn [drop_spec] in HQ. destruct (Z.ltb_spec (4095 - used (r :: recs)) need).
  - destruct (Z.leb_spec (used (r :: recs) + need) 4095); [lia|].
    pose proof (rg_recs _ _ Hr) as [Hok _]%Forall_cons_1. pose proof (rg_tail _ _ Hr) as Ht.
    apply wp_bind. eapply wp_read_hdr; [exact Hr|]. apply wp_bind.
    eapply wp_deref; [by apply hdr_len_ok|]. apply wp_bind, wp_modify. unfold rec_ok in Hok.
    unfold u32 at 1. rewrite (wrap_small 32 (HDR + _)) by (unfold HDR; lia). rewrite advance by (unfold HDR; lia).
    unfold HDR. eapply IH; [by apply pop_rep|done|simpl in Hf; lia|].
    intros t Ht'. by apply (HQ t).
  - destruct (Z.leb_spec (used (r :: recs) + need) 4095); [|lia]. apply wp_ret.
    rewrite <-Hself. apply HQ. by rewrite Hself.
Qed.

(** ** Writing a record *)

Lemma wp_put_wrapped s p bs (Q : unit → klog → Prop) :
  Z.of_nat (length (klog_ring s)) = 4096 → 0 ≤ p < 4096 → Z.of_nat (length bs) ≤ 4096 →
  (∀ r', written (klog_ring s) r' p bs → Q tt (set_ring r' s)) →
  wp (if Z.of_nat (length bs) <=? u32 (KLOG_RING_SIZE - p) then ring_put p bs
      else
        ring_put p (take (Z.to_nat (u32 (KLOG_RING_SIZE - p))) bs);;
        ring_put 0 (drop (Z.to_nat (u32 (KLOG_RING_SIZE - p))) bs)) Q s.
Proof.
  intros Hr Hp Hlen HQ. rewrite to_end by done.
  destruct (Z.leb_spec (Z.of_nat (length bs)) (4096 - p)).
  - apply wp_ring_put; [lia|lia|]. apply HQ. by apply written_one; [|lia|lia].
  - assert (Hl : length (splice (klog_ring s) (Z.to_nat p) (take (Z.to_nat (4096 - p)) bs))
      = length (klog_ring s)).
    { apply splice_length. rewrite length_take. lia. }
    apply wp_bind, wp_ring_put; [lia|rewrite length_take; lia|].
    apply wp_ring_put; [lia|simpl; rewrite Hl, length_drop; lia|]. simpl.
    apply (HQ (splice (splice (klog_ring s) (Z.to_nat p) (take (Z.to_nat (4096 - p)) bs)) 0
               (drop (Z.to_nat (4096 - p)) bs))).
    by apply written_two; [|lia|lia|lia].
Qed.

(** The fields other than ring, head and tail. *)
Definition same_rest (s s' : klog) : Prop :=
  klog_level s' = klog_level s ∧ klog_console_level s' = klog_console_level s ∧
  klog_console_sink s' = klog_console_sink s ∧ klog_lock s' = klog_lock s ∧
  klog_daif s' = klog_daif s ∧ klog_inited s' = klog_inited s.

Lemma wp_append s recs level msg len (Q : unit → klog → Prop) :
  ring_rep s recs → 0 ≤ len ≤ Z.of_nat (length msg) → used recs + (3 + len) ≤ 4095 →
  (∀ r' h', ring_rep (set_head h' (set_ring r' s)) (recs ++ [(level, take (Z.to_nat len) msg)]) →
     Q tt (set_head h' (set_ring r' s))) →
  wp (append_record level len msg) Q s.
Proof.
  intros Hrep Hlen Hfit HQ. pose proof (head_range _ _ Hrep) as Hh.
  destruct Hrep as [Hring Ht Hhd Hu Hok Hseg]. pose proof (used_nonneg recs) as Hu0.
  set (pl := take (Z.to_nat len) msg) in *.
  assert (Hpl : Z.of_nat (length pl) = len) by (unfold pl; rewrite length_take; lia).
  unfold append_record, u16. rewrite (wrap_small 16) by lia.
  apply wp_bind, wp_gets. apply wp_bind.
  change HDR with (Z.of_nat (length (hdr_bytes level len))).
  apply wp_put_wrapped; [done|done|simpl; lia|]. intros r1 Hw1.
  assert (Hseg1 : seg r1 (klog_tail s) (bytes_of recs ++ hdr_bytes level len)).
  { eapply written_seg; [done|simpl; unfold used in *; lia|done|].
    by rewrite Hhd in Hw1. }
  apply wp_bind, wp_modify. simpl. rewrite advance by lia. apply wp_bind, wp_gets. simpl.
  set (h1 := (klog_head s + 3) mod 4096).
  assert (Hh1 : 0 ≤ h1 < 4096) by (by apply Z.mod_pos_bound).
  assert (Hh1' : h1 = (klog_tail s + Z.of_nat (length (bytes_of recs ++ hdr_bytes level len))) mod 4096).
  { unfold h1. rewrite Hhd, Z.add_mod_idemp_l by done. rewrite length_app. unfold used. f_equal. simpl. lia. }
  destruct Hw1 as [Hl1 _].
  assert (Hpay : ∀ s1, klog_ring s1 = r1 → ∀ Q' : unit → klog → Prop,
    (∀ r2, written r1 r2 h1 pl → Q' tt (set_ring r2 s1)) →
    wp (if len <=? u32 (KLOG_RING_SIZE - h1) then ring_put h1 (take (Z.to_nat len) msg)
        else
          ring_put h1 (take (Z.to_nat (u32 (KLOG_RING_SIZE - h1))) msg);;
          ring_put 0 (take (Z.to_nat (len - u32 (KLOG_RING_SIZE - h1)))
                           (drop (Z.to_nat (u32 (KLOG_RING_SIZE - h1))) msg))) Q' s1).
  { intros s1 Hs1 Q' HQ'. pose proof (wp_put_wrapped s1 h1 pl Q') as Hput. rewrite Hs1, Hpl in Hput.
    rewrite to_end in * by done. destruct (Z.leb_spec len (4096 - h1)).
    - apply Hput; [congruence|done|lia|done].
    - replace (take (Z.to_nat (4096 - h1)) msg) with (take (Z.to_nat (4096 - h1)) pl).
      2:{ unfold pl. rewrite take_take. f_equal. lia. }
      replace (take (Z.to_nat (len - (4096 - h1))) (drop (Z.to_nat (4096 - h1)) msg))
        with (drop (Z.to_nat (4096 - h1)) pl).
      2:{ unfold pl. rewrite skipn_firstn_comm. f_equal. lia. }
      apply Hput; [congruence|done|lia|done]. }
  apply wp_bind. apply Hpay; [done|]. intros r2 Hw2. apply wp_modify. simpl.
  rewrite advance by lia. apply (HQ r2). split; simpl.
  - destruct Hw2 as [Hl2 _]. congruence.
  - done.
  - rewrite used_app, used_cons. simpl. rewrite Hpl. unfold h1.
    rewrite Z.add_mod_idemp_l, Hhd by done.
    rewrite <-Z.add_assoc, Z.add_mod_idemp_l by done. f_equal. change (used []) with 0. lia.
  - rewrite used_app, used_cons. simpl. rewrite Hpl. change (used []) with 0. lia.
  - apply Forall_app. split; [done|]. constructor; [|done]. unfold rec_ok. simpl. lia.
  - assert (Hb : bytes_of (recs ++ [(level, pl)]) = (bytes_of recs ++ hdr_bytes level len) ++ pl).
    { unfold bytes_of. rewrite fmap_app, concat_app. cbn [fmap list_fmap concat]. rewrite app_nil_r.
      unfold enc. cbn [fst snd]. rewrite Hpl. by rewrite app_assoc. }
    rewrite Hb. eapply written_seg; [done| |exact Hseg1|by rewrite <-Hh1'].
    rewrite length_app. simpl. unfold used, bytes_of in *. lia.
Qed.

(** ** The operations *)

Definition klog_ok (s : klog) (recs : list record) : Prop :=
  ring_rep s recs ∧ klog_lock s = 0 ∧ klog_inited s = true.

(** The records after a write: the oldest go first if room is needed. *)
Definition write_spec (level : Z) (msg : list Z) (recs : list record) : list record :=
  let pl := take (Z.to_nat 4092) msg in
  drop_spec (3 + Z.of_nat (length pl)) recs ++ [(u8 level, pl)].

Definition console_out (s : klog) (level : Z) (msg : list Z) : list Z :=
  if klog_console_sink s && (level <=? klog_console_level s) then prefix_of level ++ msg else [].

Lemma wp_sink_puts s cs (Q : unit → klog → Prop) :
  Q tt (set_console (console s ++ cs) s) → wp (sink_puts cs) Q s.
Proof.
  revert s. induction cs as [|c cs IH]; intros s HQ; simpl.
  - apply wp_ret. rewrite app_nil_r in HQ. by destruct s.
  - apply wp_bind, wp_modify, IH. simpl. by rewrite <-app_assoc.
Qed.

Lemma wp_console s level msg (Q : unit → klog → Prop) :
  Q tt (set_console (console s ++ console_out s level msg) s) →
  wp (when (klog_console_sink s && (level <=? klog_console_level s))
       (console_emit_prefix level;; sink_puts msg)) Q s.
Proof.
  unfold console_out. destruct (klog_console_sink s) eqn:Hsk; cbn [andb when].
  2:{ rewrite app_nil_r. intros HQ. apply wp_ret. by destruct s. }
  destruct (level <=? klog_console_level s); cbn [andb when].
  2:{ rewrite app_nil_r. intros HQ. apply wp_ret. by destruct s. }
  intros HQ. apply wp_bind, wp_bind, wp_gets. rewrite Hsk. cbn [when]. apply wp_sink_puts, wp_sink_puts.
  cbn [console set_console]. by rewrite <-app_assoc.
Qed.

(** What the ring invariant looks at. *)
Lemma ring_rep_ext s s' recs :
  klog_ring s' = klog_ring s → klog_head s' = klog_head s → klog_tail s' = klog_tail s →
  ring_rep s recs → ring_rep s' recs.
Proof. intros Hr Hh Ht []. by split; rewrite ?Hr, ?Hh, ?Ht. Qed.

Lemma wp_write s recs level msg :
  klog_ok s recs → level ≤ klog_level s →
  wp (log_write_str level (Some msg)) (λ r s',
    r = Z.of_nat (length (take (Z.to_nat 4092) msg)) ∧ klog_ok s' (write_spec level msg recs) ∧
    same_rest s s' ∧ console s' = console s ++ console_out s level msg) s.
Proof.
  intros (Hrep & Hlock & Hin) Hlev. unfold log_write_str.
  apply wp_bind, wp_gets, wp_bind, wp_gets. apply wp_bind, wp_console.
  set (out := console_out s level msg). set (s1 := set_console (console s ++ out) s).
  assert (Hrep1 : ring_rep s1 recs) by (by apply (ring_rep_ext s)).
  apply wp_bind, wp_gets. apply wp_bind, wp_gets.
  change (klog_inited s1) with (klog_inited s). rewrite Hin. cbn [negb].
  change (klog_level s1) with (klog_level s). destruct (Z.ltb_spec (klog_level s) level); [lia|].
  set (len := if _ <? _ then _ else _).
  assert (Hlen : len = Z.of_nat (length (take (Z.to_nat 4092) msg))).
  { unfold len, KLOG_RING_SIZE, HDR. rewrite length_take.
    destruct (Z.ltb_spec (4096 - 3 - 1) (Z.of_nat (length msg))); lia. }
  clearbody len. rewrite length_take in Hlen.
  apply wp_bind, wp_lock_irqsave; [done|]. set (s2 := lk_set_word 1 _).
  assert (Hrep2 : ring_rep s2 recs) by (by apply (ring_rep_ext s1)).
  cbv zeta. apply wp_bind, wp_gets. unfold u32 at 1. rewrite (wrap_small 32 (HDR + len)) by (unfold HDR; lia).
  unfold u32. rewrite (wrap_small 32 (HDR + len)) by (unfold HDR; lia). fold (u32).
  set (recs' := drop_spec (3 + len) recs).
  apply wp_bind. eapply (wp_mono _ (λ _ s3, ∃ t, s3 = set_tail t s2 ∧ ring_rep s3 recs')).
  { rewrite (space_eq s2 recs Hrep2). destruct (Z.ltb_spec (4095 - used recs) (HDR + len)); simpl.
    - apply (wp_drop_loop drop_fuel s2 recs); [done|unfold HDR; lia| |].
      + pose proof (used_length recs). pose proof (rg_used _ _ Hrep). rewrite drop_fuel_val. lia.
      + intros t Ht. by exists t.
    - apply wp_ret. exists (klog_tail s2). split; [by destruct s2|].
      replace recs' with recs; [done|]. unfold recs'. destruct recs as [|r recs0]; [done|].
      cbn [drop_spec]. unfold HDR in *. destruct (Z.leb_spec (used (r :: recs0) + (3 + len)) 4095); [done|lia]. }
  intros [] s3 (t & -> & Hrep3). apply wp_bind.
  apply (wp_append _ recs' (u8 level) msg len); [done|lia| |].
  { pose proof (drop_spec_fits (3 + len) recs ltac:(lia)). unfold recs'. lia. }
  intros r' h' Hrep4. apply wp_bind, wp_unlock_irqrestore, wp_ret.
  split; [rewrite length_take; lia|]. split; [|split; [by split_and!|done]].
  split; [|done]. unfold write_spec. rewrite length_take. rewrite <-Hlen.
  replace (take (Z.to_nat 4092) msg) with (take (Z.to_nat len) msg).
  - by eapply ring_rep_ext; [..|exact Hrep4].
  - rewrite Hlen. destruct (decide (length msg ≤ Z.to_nat 4092)%nat).
    + rewrite !take_ge by lia. done.
    + f_equal. lia.
Qed.

(** The prefix of the oldest payload that a reader asks for. *)
Lemma payload_seg s r recs n :
  ring_rep s (r :: recs) → (n ≤ length r.2)%nat →
  seg (klog_ring s) ((klog_tail s + 3) mod 4096) (take n r.2).
Proof.
  intros [_ _ _ _ _ Hseg] Hn. rewrite bytes_of_cons in Hseg.
  apply seg_app in Hseg as [Hseg _]. apply seg_app in Hseg as [_ Hseg].
  rewrite <-(take_drop n r.2) in Hseg. by apply seg_app in Hseg as [Hseg _].
Qed.

Lemma wp_read s r recs n :
  klog_ok s (r :: recs) → 0 < n →
  wp (log_read n) (λ v s',
    v = (Z.min (Z.of_nat (length r.2)) (n - 1),
         Some (take (Z.to_nat (n - 1)) r.2 ++ [0], r.1)) ∧
    klog_ok s' recs ∧ same_rest s s' ∧ console s' = console s) s.
Proof.
  intros (Hrep & Hlock & Hin) Hn. unfold log_read. apply wp_bind, wp_gets. rewrite Hin.
  destruct (Z.leb_spec n 0); [lia|]. cbn [negb orb].
  apply wp_bind, wp_lock_irqsave; [done|]. set (s1 := lk_set_word 1 _).
  assert (Hrep1 : ring_rep s1 (r :: recs)) by (by apply (ring_rep_ext s)).
  pose proof (rg_recs _ _ Hrep1) as [Hok _]%Forall_cons_1. unfold rec_ok in Hok.
  pose proof (rg_tail _ _ Hrep1) as Ht. pose proof (rg_ring _ _ Hrep1) as Hring.
  apply wp_bind, wp_gets, wp_bind, wp_gets.
  assert (Hne : klog_head s1 ≠ klog_tail s1).
  { pose proof (rg_head _ _ Hrep1) as Hh. pose proof (rg_used _ _ Hrep1) as Hu. rewrite used_cons in *.
    pose proof (used_nonneg recs). intros Heq. rewrite Hh in Heq.
    destruct (decide (klog_tail s1 + (3 + Z.of_nat (length r.2) + used recs) < 4096)) as [Hw|Hw].
    - rewrite Z.mod_small in Heq by lia. lia.
    - set (x := klog_tail s1 + _) in *. replace x with (x - 4096 + 1 * 4096) in Heq by lia.
      rewrite Z.mod_add, Z.mod_small in Heq by (unfold x; lia). unfold x in *. lia. }
  destruct (Z.eqb_spec (klog_head s1) (klog_tail s1)); [done|].
  apply wp_bind. eapply wp_read_hdr; [exact Hrep1|].
  apply wp_bind, wp_modify. rewrite advance by (unfold HDR; lia).
  apply wp_bind. eapply wp_deref; [by apply hdr_len_ok|].
  apply wp_bind. eapply wp_deref; [reflexivity|].
  set (len := Z.of_nat (length r.2)). cbv zeta.
  set (tc := if n - 1 <? len then n - 1 else len).
  assert (Htc : tc = Z.min len (n - 1)) by (unfold tc; destruct (Z.ltb_spec (n - 1) len); lia).
  clearbody tc. apply wp_bind, wp_gets. change (klog_tail (set_tail ?x s1)) with x.
  set (t1 := (klog_tail s1 + HDR) mod 4096).
  assert (Ht1 : 0 ≤ t1 < 4096) by (by apply Z.mod_pos_bound).
  assert (Hseg : seg (klog_ring s1) t1 (take (Z.to_nat tc) r.2)) by (eapply payload_seg; [exact Hrep1|lia]).
  assert (Hlen : length (take (Z.to_nat tc) r.2) = Z.to_nat tc) by (rewrite length_take; lia).
  rewrite to_end by done. apply wp_bind.
  eapply (wp_mono _ (λ out s2, out = take (Z.to_nat tc) r.2 ∧ s2 = set_tail t1 s1)).
  { destruct (Z.leb_spec tc (4096 - t1)).
    - by eapply wp_ring_get; [done|done|lia|lia|exact Hlen|exact Hseg|].
    - destruct (Z.ltb_spec tc (4096 - t1)); [lia|]. destruct (Z.ltb_spec (4096 - t1) tc); [|lia].
      by eapply wp_get_wrapped; [done|done|lia|exact Hlen|exact Hseg|lia|]. }
  intros out s2 [-> ->]. apply wp_bind, wp_modify, wp_bind, wp_unlock_irqrestore, wp_ret.
  split; [|split; [|split; [by split_and!|done]]].
  - rewrite Htc. do 3 f_equal. f_equal. unfold len. destruct (decide (n - 1 ≤ Z.of_nat (length r.2))).
    + f_equal. lia.
    + rewrite !take_ge by lia. done.
  - split; [|done]. eapply ring_rep_ext; [..|exact (pop_rep _ _ _ Hrep1)]; try done. simpl.
    rewrite advance by (unfold len; lia). unfold t1, HDR. rewrite Z.add_mod_idemp_l by done.
    f_equal. unfold len. simpl. lia.
Qed.

Lemma wp_read_empty s n :
  klog_ok s [] → wp (log_read n) (λ v s', v = (0, None) ∧ s' = s) s.
Proof.
  intros (Hrep & Hlock & Hin). unfold log_read. apply wp_bind, wp_gets.
  destruct (_ || _); [by apply wp_ret|].
  apply wp_bind, wp_lock_irqsave; [done|]. apply wp_bind, wp_gets, wp_bind, wp_gets.
  pose proof (rg_head _ _ Hrep) as Hh. pose proof (rg_tail _ _ Hrep) as Ht.
  change (used []) with 0 in Hh. rewrite Z.add_0_r, Z.mod_small in Hh by done. simpl.
  rewrite Hh, Z.eqb_refl. apply wp_bind, wp_unlock_irqrestore, wp_ret. split; [done|].
  destruct s; simpl in *. by subst.
Qed.

Lemma wp_log_init s :
  Z.of_nat (length (klog_ring s)) = 4096 →
  wp log_init (λ _ s', klog_ok s' [] ∧ klog_level s' = KLOG_INFO) s.
Proof.
  intros Hr. apply wp_bind, wp_modify, wp_modify. split; [|done]. split; [|done].
  split; simpl; try done.
Qed.

(** ** Sequences *)

Fixpoint write_all (msgs : list record) : ST klog unit :=
  match msgs with
  | [] => mret tt
  | (lv, m) :: msgs => log_write_str lv (Some m);; write_all msgs
  end.
Fixpoint read_all (k : nat) (n : Z) : ST klog (list (Z * option (list Z * Z))) :=
  match k with
  | O => mret []
  | S k => v ← log_read n; vs ← read_all k n; mret (v :: vs)
  end.

Definition fits (lmax : Z) (msgs : list record) : Prop :=
  Forall (λ r, 0 ≤ r.1 < 256 ∧ r.1 ≤ lmax ∧ Z.of_nat (length r.2) ≤ 4092) msgs.

Lemma wp_write_all msgs s recs :
  klog_ok s recs → fits (klog_level s) msgs → used recs + used msgs ≤ 4095 →
  wp (write_all msgs) (λ _ s', klog_ok s' (recs ++ msgs)) s.
Proof.
  revert s recs. induction msgs as [|[lv m] msgs IH]; intros s recs Hs Hf Hu; simpl.
  { apply wp_ret. by rewrite app_nil_r. }
  apply Forall_cons_1 in Hf as [(Hl1 & Hl2 & Hlen) Hf]. simpl in *. rewrite used_cons in Hu. simpl in Hu.
  apply wp_bind. eapply wp_mono; [by apply wp_write|]. simpl. intros v s1 (_ & Hs1 & Hsame & _).
  unfold write_spec in Hs1. rewrite take_ge in Hs1 by lia.
  assert (Hd : drop_spec (3 + Z.of_nat (length m)) recs = recs).
  { destruct recs as [|r recs]; [done|]. cbn [drop_spec]. pose proof (used_nonneg msgs).
    destruct (Z.leb_spec (used (r :: recs) + (3 + Z.of_nat (length m))) 4095); [done|lia]. }
  rewrite Hd in Hs1. unfold u8 in Hs1. rewrite wrap_small in Hs1 by lia.
  replace (recs ++ (lv, m) :: msgs) with ((recs ++ [(lv, m)]) ++ msgs) by (by rewrite <-app_assoc).
  apply IH; [done| |].
  - destruct Hsame as (-> & _). done.
  - rewrite used_app, used_cons. change (used []) with 0. simpl. lia.
Qed.

Lemma wp_read_all msgs s rest n :
  klog_ok s (msgs ++ rest) → 4093 ≤ n → Forall rec_ok msgs →
  wp (read_all (length msgs) n) (λ vs s',
    vs = (λ r : record, (Z.of_nat (length r.2), Some (r.2 ++ [0], r.1))) <$> msgs ∧ klog_ok s' rest) s.
Proof.
  revert s. induction msgs as [|r msgs IH]; intros s Hs Hn Hok; simpl; [by apply wp_ret|].
  apply Forall_cons_1 in Hok as [Hr Hok]. unfold rec_ok in Hr.
  apply wp_bind. eapply wp_mono; [apply (wp_read s r (msgs ++ rest)); [done|lia]|].
  intros v s1 (-> & Hs1 & _). apply wp_bind. eapply wp_mono; [by apply IH|].
  intros vs s2 [-> Hs2]. apply wp_ret. split; [|done]. f_equal. rewrite take_ge by lia.
  f_equal. lia.
Qed.

(** ** The properties *)

Definition demo_log : klog :=
  {| klog_ring := replicate (Z.to_nat 4096) 0; klog_head := 4094; klog_tail := 4094; klog_level := 6;
     klog_console_level := 6; klog_console_sink := true; klog_lock := 0; klog_daif := 0;
     klog_inited := true; console := [] |}.
Lemma demo_log_ok : klog_ok demo_log [].
Proof.
  split; [|done]. split; [|done|done|done|constructor|apply seg_nil].
  unfold demo_log, klog_ring. rewrite length_replicate. lia.
Qed.

(** On a log that holds the records [recs], [log_write_str] of a message
    whose level passes the filter returns the number of bytes it stored, at most
    4092, and leaves the log holding the records followed by the new one, less
    as few of the oldest records as make it fit; the console receives the
    prefix and the message when its own filter lets it pass; the lock and the
    interrupt mask are as before. *)
Theorem log_write_correct s recs level msg :
  klog_ok s recs → level ≤ klog_level s →
  wp (log_write_str level (Some msg)) (λ r s',
    r = Z.of_nat (length (take (Z.to_nat 4092) msg)) ∧ klog_ok s' (write_spec level msg recs) ∧
    same_rest s s' ∧ console s' = console s ++ console_out s level msg) s.
Proof. apply wp_write. Qed.
Lemma log_write_correct_witness :
  wp (log_write_str 4 (Some [104; 105])) (λ r s',
    r = Z.of_nat (length (take (Z.to_nat 4092) [104; 105])) ∧
    klog_ok s' (write_spec 4 [104; 105] []) ∧
    same_rest demo_log s' ∧ console s' = console demo_log ++ console_out demo_log 4 [104; 105]) demo_log.
Proof.
  apply (log_write_correct demo_log [] 4 [104; 105] demo_log_ok). simpl. lia.
Defined.

(** [log_read] takes the oldest record off the log: it copies as much of the
    payload as the buffer holds besides the terminator, reports the record's
    level, and the rest of the record is gone with it. *)
Theorem log_read_correct s r recs n :
  klog_ok s (r :: recs) → 0 < n →
  wp (log_read n) (λ v s',
    v = (Z.min (Z.of_nat (length r.2)) (n - 1),
         Some (take (Z.to_nat (n - 1)) r.2 ++ [0], r.1)) ∧
    klog_ok s' recs ∧ same_rest s s' ∧ console s' = console s) s.
Proof. apply wp_read. Qed.
Lemma log_read_correct_witness :
  ∃ s, wp (log_read 2) (λ v s', v = (1, Some ([104; 0], 4)) ∧ klog_ok s' [] ∧ same_rest s s' ∧
    console s' = console s) s.
Proof.
  destruct (wp_write demo_log [] 4 [104; 105] demo_log_ok) as (v & s & _ & _ & Hs & _); [simpl; lia|].
  exists s. apply (log_read_correct s (4, [104; 105]) [] 2).
  - exact Hs.
  - lia.
Defined.

(** C32: the log is a queue: from an empty log, wherever its positions stand in
    the ring, messages that pass the level filter and fit the ring together are
    read back in order, complete and with their levels, and the log is empty
    again. *)
Theorem klog_fifo s msgs n :
  klog_ok s [] → fits (klog_level s) msgs → used msgs ≤ 4095 → 4093 ≤ n →
  wp (write_all msgs;; read_all (length msgs) n) (λ vs s',
    vs = (λ r : record, (Z.of_nat (length r.2), Some (r.2 ++ [0], r.1))) <$> msgs ∧ klog_ok s' []) s.
Proof.
  intros Hs Hf Hu Hn. apply wp_bind. eapply wp_mono; [by apply (wp_write_all msgs s [])|].
  simpl. intros [] s2 Hs2. apply wp_read_all; [by rewrite app_nil_r|done|].
  clear -Hf. induction Hf as [|r l (_ & _ & H) Hl IH]; by constructor.
Qed.
Lemma klog_fifo_witness :
  wp (write_all [(4, [104; 105]); (6, [111])];; read_all 2 5000) (λ vs s',
    vs = [(2, Some ([104; 105; 0], 4)); (1, Some ([111; 0], 6))] ∧ klog_ok s' []) demo_log.
Proof.
  apply (klog_fifo demo_log [(4, [104; 105]); (6, [111])] 5000).
  - exact demo_log_ok.
  - repeat constructor; simpl; lia.
  - vm_compute. discriminate.
  - lia.
Defined.
