(* ===== verification/Printk.v ===== *)
(** * Formatted output (kernel/printk.c): translation

    State: the memory that format strings and string arguments live in, the
    static buffer with its position and room, the log that receives the
    message, and what [printk_simple] writes to the serial port.  A [va_list] is
    the list of the 64-bit slots of the arguments. *)
From stdpp Require Import base gmap list option numbers strings.
From S2P Require Import Prelude CString Dtb Klog.
Import CString.
#[local] Open Scope Z_scope.

Module Printk.
Import Klog.

Record pk := {
  text : mem;
  printk_buf : list Z;
  printk_buf_ptr : Z;
  printk_buf_rem : Z;
  log : klog;
  serial : list Z;
}.
Definition set_buf (b : list Z) (p r : Z) (s : pk) : pk :=
  {| text := text s; printk_buf := b; printk_buf_ptr := p; printk_buf_rem := r; log := log s;
     serial := serial s |}.
Definition on_text {A} (m : ST mem A) : ST pk A :=
  zoom text (λ t s, {| text := t; printk_buf := printk_buf s; printk_buf_ptr := printk_buf_ptr s;
    printk_buf_rem := printk_buf_rem s; log := log s; serial := serial s |}) m.
Definition on_log {A} (m : ST klog A) : ST pk A :=
  zoom log (λ l s, {| text := text s; printk_buf := printk_buf s; printk_buf_ptr := printk_buf_ptr s;
    printk_buf_rem := printk_buf_rem s; log := l; serial := serial s |}) m.

(** A store into the buffer; the pointer is an index. *)
Definition buf_store (i c : Z) : ST pk unit :=
  b ← gets printk_buf;
  if (0 <=? i) && (i <? Z.of_nat (length b))
  then modify (λ s, set_buf (<[Z.to_nat i:=c]> b) (printk_buf_ptr s) (printk_buf_rem s) s)
  else undef.

Definition buf_putc (c : Z) : ST pk unit :=
  rem ← gets printk_buf_rem;
  when (1 <? rem)
    (p ← gets printk_buf_ptr;
     buf_store p c;;
     modify (λ s, set_buf (printk_buf s) (p + 1) (rem - 1) s)).

Section printf.
Context (output : Z → ST pk unit).

(** [count] is an [int]: going past its largest value is undefined. *)
Definition add_count (count n : Z) : ST pk Z :=
  if count + n <? 2 ^ 31 then mret (count + n) else undef.

(** [while (val > 0) { buf[i++] = digit; ... }] into an array of [cap]
    characters, in decimal and in hexadecimal; no number of 64 bits takes 24
    iterations. *)
Definition digit_fuel : nat := 24.
Fixpoint push_dec (fuel : nat) (cap : Z) (val : Z) (buf : list Z) : ST pk (list Z) :=
  match fuel with
  | O => undef
  | S fuel =>
      if 0 <? val then
        if Z.of_nat (length buf) <? cap then push_dec fuel cap (val / 10) (buf ++ [48 + val mod 10])
        else undef
      else mret buf
  end.
Definition hex_char (digit : Z) : Z := if digit <? 10 then 48 + digit else 97 + digit - 10.
Fixpoint push_hex (fuel : nat) (cap : Z) (val : Z) (buf : list Z) : ST pk (list Z) :=
  match fuel with
  | O => undef
  | S fuel =>
      if 0 <? val then
        if Z.of_nat (length buf) <? cap
        then push_hex fuel cap (Z.shiftr val 4) (buf ++ [hex_char (Z.land val 0xF)])
        else undef
      else mret buf
  end.

(** [while (i > 0) { output(buf[--i]); count++; }]: the characters of the array
    from the last one down. *)
Fixpoint put_all (cs : list Z) (count : Z) : ST pk Z :=
  match cs with
  | [] => mret count
  | c :: cs => output c;; count ← add_count count 1; put_all cs count
  end.
Definition put_dec (cap val count : Z) : ST pk Z :=
  buf ← (if val =? 0 then mret [48] else push_dec digit_fuel cap val []);
  put_all (rev buf) count.
Definition put_hex (cap val count : Z) : ST pk Z :=
  buf ← (if val =? 0 then mret [48] else push_hex digit_fuel cap val []);
  put_all (rev buf) count.

(** A signed number of [w] bits: negating the least one is undefined. *)
Definition put_signed (w cap val count : Z) : ST pk Z :=
  if val <? 0 then
    output 45;;
    count ← add_count count 1;
    if val =? - 2 ^ (w - 1) then undef else put_dec cap (- val) count
  else put_dec cap val count.

(** [while ( *str) output( *str++)]. *)
Fixpoint put_str (fuel : nat) (str count : Z) : ST pk Z :=
  match fuel with
  | O => undef
  | S fuel =>
      c ← on_text (load str);
      if ctrue c then output c;; count ← add_count count 1; put_str fuel (str + 1) count
      else mret count
  end.
Definition walking_t {A} (loop : nat → ST pk A) : ST pk A := λ s, loop (S (size (text s))) s.

(** One conversion: [fmt] is at the character after the percent sign.  The
    result is where [fmt] ends up, the arguments left, and the count. *)
Definition conversion (fmt : Z) (args : list Z) (count : Z) : ST pk (Z * list Z * Z) :=
  c ← on_text (load fmt);
  if c =? 117 (* u *) then
    v ← deref (head args);
    n ← put_dec 12 (u32 v) count;
    mret (fmt, tail args, n)
  else if c =? 100 (* d *) then
    v ← deref (head args);
    n ← put_signed 32 12 (s32 v) count;
    mret (fmt, tail args, n)
  else if c =? 108 (* l *) then
    c1 ← on_text (load (fmt + 1));
    c2 ← (if c1 =? 108 then on_text (load (fmt + 2)) else mret 0);
    if (c1 =? 108) && (c2 =? 117) then
      v ← deref (head args);
      n ← put_dec 24 (u64 v) count;
      mret (fmt + 2, tail args, n)
    else if (c1 =? 108) && (c2 =? 100) then
      v ← deref (head args);
      n ← put_signed 64 24 (s64 v) count;
      mret (fmt + 2, tail args, n)
    else mret (fmt, args, count)
  else if c =? 120 (* x *) then
    v ← deref (head args);
    n ← put_hex 9 (u32 v) count;
    mret (fmt, tail args, n)
  else if c =? 112 (* p *) then
    v ← deref (head args);
    output 48;; output 120;;
    count ← add_count count 2;
    n ← put_hex 17 (u64 v) count;
    mret (fmt, tail args, n)
  else if c =? 115 (* s *) then
    v ← deref (head args);
    n ← (if v =? 0 then put_all (lit "(null)") count
         else walking_t (λ fuel, put_str fuel v count));
    mret (fmt, tail args, n)
  else if c =? 99 (* c *) then
    v ← deref (head args);
    output (u8 v);;
    n ← add_count count 1;
    mret (fmt, tail args, n)
  else if c =? 37 (* % *) then
    output 37;;
    n ← add_count count 1;
    mret (fmt, args, n)
  else
    output 37;; output c;;
    n ← add_count count 2;
    mret (fmt, args, n).

Fixpoint printf_loop (fuel : nat) (fmt : Z) (args : list Z) (count : Z) : ST pk Z :=
  match fuel with
  | O => undef
  | S fuel =>
      c ← on_text (load fmt);
      if ctrue c then
        next ← (if c =? 37 then on_text (load (fmt + 1)) else mret 0);
        if (c =? 37) && ctrue next then
          r ← conversion (fmt + 1) args count;
          let '(fmt, args, count) := r : Z * list Z * Z in
          printf_loop fuel (fmt + 1) args count
        else
          output c;;
          count ← add_count count 1;
          printf_loop fuel (fmt + 1) args count
      else mret count
  end.

(** [output] is never NULL. *)
Definition do_printf (fmt : Z) (args : list Z) : ST pk Z :=
  if fmt =? 0 then mret (-1) else walking_t (λ fuel, printf_loop fuel fmt args 0).
End printf.

(** The string in the buffer, up to its terminator. *)
Fixpoint buf_string (b : list Z) : list Z :=
  match b with
  | [] => []
  | c :: b => if c =? 0 then [] else c :: buf_string b
  end.

Definition printk_vroute (level fmt : Z) (args : list Z) : ST pk Z :=
  modify (λ s, set_buf (printk_buf s) 0 512 s);;
  cnt ← do_printf buf_putc fmt args;
  p ← gets printk_buf_ptr;
  buf_store p 0;;
  b ← gets printk_buf;
  on_log (log_write_str level (Some (buf_string b)));;
  mret cnt.

Definition STDOUT_FD : Z := 1.
Definition STDERR_FD : Z := 2.
Definition KLOG_ERR : Z := 3.

Definition vfprintk (fd fmt : Z) (args : list Z) : ST pk Z :=
  if fmt =? 0 then mret (-1)
  else printk_vroute (if fd =? STDERR_FD then KLOG_ERR else KLOG_INFO) fmt args.
Definition vprintk (fmt : Z) (args : list Z) : ST pk Z := vfprintk STDOUT_FD fmt args.
Definition fprintk (fd fmt : Z) (args : list Z) : ST pk Z := vfprintk fd fmt args.
Definition printk (fmt : Z) (args : list Z) : ST pk Z := vprintk fmt args.

Fixpoint simple_loop (fuel : nat) (fmt : Z) : ST pk unit :=
  match fuel with
  | O => undef
  | S fuel =>
      c ← on_text (load fmt);
      if ctrue c then
        modify (λ s, {| text := text s; printk_buf := printk_buf s;
          printk_buf_ptr := printk_buf_ptr s; printk_buf_rem := printk_buf_rem s;
          log := log s; serial := serial s ++ [c] |});;
        simple_loop fuel (fmt + 1)
      else mret tt
  end.
Definition printk_simple (fmt : Z) : ST pk Z :=
  if fmt =? 0 then mret (-1) else walking_t (λ fuel, simple_loop fuel fmt);; mret 0.

Definition printk_init : ST pk unit := on_log log_init.

End Printk.
