(* ===== verification/PrintkThm.v ===== *)
(** * Formatted output: properties

    [renders] says what a format produces from its arguments; the loop over the
    format follows it, the buffer keeps the first 511 characters, and the log
    receives the string in the buffer. *)
From stdpp Require Import base gmap list option numbers strings.
From Stdlib Require Import ZArith Lia.
From S2P Require Import Prelude Spinlock CString CStringThm CStringCopy CStringClaims Dtb DtbThm Klog KlogThm Printk.
Import CString Klog Printk.
#[local] Open Scope Z_scope.

(** ** Numbers *)

(** The digits of a number, least significant first, and as printed. *)
Fixpoint digs (fuel : nat) (base : Z) (f : Z → Z) (val : Z) : list Z :=
  match fuel with
  | O => []
  | S fuel => if 0 <? val then f (val mod base) :: digs fuel base f (val / base) else []
  end.
Definition number (base : Z) (f : Z → Z) (val : Z) : list Z :=
  if val =? 0 then [48] else rev (digs 23 base f val).
Definition dec : Z → list Z := number 10 (λ d, 48 + d).
Definition hex : Z → list Z := number 16 hex_char.
Definition signed (val : Z) : list Z := if val <? 0 then 45 :: dec (- val) else dec val.

Lemma digs_length fuel base f val k :
  1 < base → 0 ≤ val < base ^ Z.of_nat k → (length (digs fuel base f val) ≤ k)%nat.
Proof.
  intros Hb. revert val k. induction fuel as [|fuel IH]; intros val k Hv; simpl; [lia|].
  destruct (Z.ltb_spec 0 val); simpl; [|lia]. destruct k as [|k]; [simpl in Hv; lia|].
  apply le_n_S, IH. replace (Z.of_nat (S k)) with (Z.of_nat k + 1) in Hv by lia.
  rewrite Z.pow_add_r in Hv by lia. split; [apply Z.div_pos; lia|apply Z.div_lt_upper_bound; lia].
Qed.

Lemma digs_value fuel base f g val :
  1 < base → (∀ d, 0 ≤ d < base → g (f d) = d) → 0 ≤ val < base ^ Z.of_nat fuel →
  horner base g (rev (digs fuel base f val)) = val.
Proof.
  intros Hb Hg. revert val. induction fuel as [|fuel IH]; intros val Hv; simpl.
  - unfold horner. simpl in *. lia.
  - destruct (Z.ltb_spec 0 val) as [H|H]; [|unfold horner; simpl; lia]. simpl.
    pose proof (Z.div_mod val base ltac:(lia)). pose proof (Z.mod_pos_bound val base ltac:(lia)).
    rewrite horner_snoc, Hg by lia. rewrite IH; [lia|].
    replace (Z.of_nat (S fuel)) with (Z.of_nat fuel + 1) in Hv by lia.
    rewrite Z.pow_add_r in Hv by lia. split; [apply Z.div_pos; lia|apply Z.div_lt_upper_bound; lia].
Qed.

Lemma pow_dec : 2 ^ 64 < 10 ^ Z.of_nat 23.
Proof. reflexivity. Qed.
Lemma pow_hex : 2 ^ 64 < 16 ^ Z.of_nat 23.
Proof. reflexivity. Qed.

Definition hex_digit_val (c : Z) : Z := if c <? 58 then c - 48 else c - 87.

(** What is printed reads back as the number. *)
Lemma dec_value val : 0 ≤ val < 2 ^ 64 → horner 10 dec_digit (dec val) = val.
Proof.
  intros Hv. unfold dec, number. destruct (Z.eqb_spec val 0) as [->|]; [done|].
  pose proof pow_dec. apply digs_value; [lia|intros d Hd; unfold dec_digit; lia|lia].
Qed.
Lemma hex_chars_value val : 0 ≤ val < 2 ^ 64 → horner 16 hex_digit_val (hex val) = val.
Proof.
  intros Hv. unfold hex, number. destruct (Z.eqb_spec val 0) as [->|]; [done|].
  pose proof pow_hex. apply digs_value; [lia| |lia]. intros d Hd. unfold hex_digit_val, hex_char.
  destruct (Z.ltb_spec d 10); [destruct (Z.ltb_spec (48 + d) 58)|destruct (Z.ltb_spec (97 + d - 10) 58)]; lia.
Qed.

(** ** The buffer *)

(** [o] has been put out since the buffer was reset: its first 511 characters
    are in the buffer. *)
Record printed (s0 s : pk) (o : list Z) : Prop := {
  pr_buf : Z.of_nat (length (printk_buf s)) = 512;
  pr_ptr : printk_buf_ptr s = Z.min 511 (zlen o);
  pr_rem : printk_buf_rem s = 512 - printk_buf_ptr s;
  pr_take : take (Z.to_nat (printk_buf_ptr s)) (printk_buf s) = take 511 o;
  pr_rest : text s = text s0 ∧ log s = log s0 ∧ serial s = serial s0;
}.

Lemma zlen_snoc (o : list Z) c : zlen (o ++ [c]) = zlen o + 1.
Proof. unfold zlen. rewrite length_app. simpl. lia. Qed.

Lemma wp_buf_store s i c (Q : unit → pk → Prop) :
  0 ≤ i < Z.of_nat (length (printk_buf s)) →
  Q tt (set_buf (<[Z.to_nat i:=c]> (printk_buf s)) (printk_buf_ptr s) (printk_buf_rem s) s) →
  wp (buf_store i c) Q s.
Proof.
  intros Hi HQ. unfold buf_store. apply wp_bind, wp_gets.
  destruct (Z.leb_spec 0 i), (Z.ltb_spec i (Z.of_nat (length (printk_buf s)))); try lia. simpl.
  by apply wp_modify.
Qed.

Lemma wp_buf_putc s0 s o c (Q : unit → pk → Prop) :
  printed s0 s o → (∀ s', printed s0 s' (o ++ [c]) → Q tt s') → wp (buf_putc c) Q s.
Proof.
  intros [Hb Hp Hr Ht Hrest] HQ. unfold buf_putc. apply wp_bind, wp_gets.
  assert (0 ≤ zlen o) by (unfold zlen; lia).
  apply wp_when; intros Hc.
  - assert (Hlt : zlen o < 511) by lia. assert (Hp' : printk_buf_ptr s = zlen o) by lia.
    apply wp_bind, wp_gets, wp_bind, wp_buf_store; [lia|]. apply wp_modify, HQ.
    split; simpl; rewrite ?length_insert, ?zlen_snoc; [done|lia|lia| |done].
    rewrite Hp' in *. unfold zlen in *. rewrite Nat2Z.id in *.
    replace (Z.to_nat (Z.of_nat (length o) + 1)) with (S (length o)) by lia.
    rewrite (take_S_r _ _ c) by (apply list_lookup_insert_eq; lia).
    rewrite take_insert_ge, Ht by lia. rewrite !(take_ge (_ : list Z) 511) by (rewrite ?length_app; simpl; lia).
    done.
  - apply HQ. split; [done|rewrite zlen_snoc; lia|done| |done].
    rewrite Ht. rewrite take_app_le; [done|]. unfold zlen in *. lia.
Qed.

Section format.
Context (s0 : pk).
Let m := text s0.

Lemma wp_on_text {A} s o (c : ST mem A) (Q : A → pk → Prop) :
  printed s0 s o → wp c (λ a m', m' = m ∧ Q a s) m → wp (on_text c) Q s.
Proof.
  intros Hp H. apply wp_zoom. destruct Hp as [_ _ _ _ (Et & _)]. rewrite Et.
  eapply wp_mono; [exact H|]. intros a m' [-> HQ]. unfold m. rewrite <-Et. by destruct s.
Qed.

Lemma wp_char s o p c (Q : Z → pk → Prop) :
  printed s0 s o → m !! p = Some c → Q c s → wp (on_text (load p)) Q s.
Proof. intros Hp Hc HQ. eapply wp_on_text; [done|]. by eapply wp_load. Qed.

Lemma wp_add_count s count n (Q : Z → pk → Prop) :
  count + n < 2 ^ 31 → Q (count + n) s → wp (add_count count n) Q s.
Proof.
  intros H HQ. unfold add_count. destruct (Z.ltb_spec (count + n) (2 ^ 31)); [|lia]. by apply wp_ret.
Qed.

Lemma wp_put_all cs s o count (Q : Z → pk → Prop) :
  printed s0 s o → count + zlen cs < 2 ^ 31 →
  (∀ s', printed s0 s' (o ++ cs) → Q (count + zlen cs) s') → wp (put_all buf_putc cs count) Q s.
Proof.
  revert s o count. induction cs as [|c cs IH]; intros s o count Hp Hc HQ; simpl.
  - apply wp_ret. specialize (HQ s). rewrite app_nil_r in HQ. unfold zlen in HQ. simpl in HQ.
    rewrite Z.add_0_r in HQ. by apply HQ.
  - assert (Hz : zlen (c :: cs) = 1 + zlen cs) by (unfold zlen; simpl; lia).
    assert (0 ≤ zlen cs) by (unfold zlen; lia).
    apply wp_bind, (wp_buf_putc s0 s o); [done|]. intros s1 Hp1.
    apply wp_bind, wp_add_count; [lia|]. apply (IH s1 (o ++ [c])); [done|lia|].
    intros s2 Hp2. rewrite <-app_assoc in Hp2. specialize (HQ s2 Hp2).
    by replace (count + 1 + zlen cs) with (count + zlen (c :: cs)) by lia.
Qed.

(** The digit loops, in decimal and in hexadecimal. *)
Lemma wp_push_dec fuel cap val buf s (Q : list Z → pk → Prop) :
  0 ≤ val → zlen buf + zlen (digs fuel 10 (λ d, 48 + d) val) ≤ cap → val < 10 ^ Z.of_nat fuel →
  Q (buf ++ digs fuel 10 (λ d, 48 + d) val) s → wp (push_dec (S fuel) cap val buf) Q s.
Proof.
  revert val buf. induction fuel as [|fuel IH]; intros val buf Hv Hc Hf HQ; simpl.
  - assert (val = 0) as -> by (simpl in Hf; lia). simpl in *. rewrite app_nil_r in HQ. by apply wp_ret.
  - simpl in Hc, HQ. destruct (Z.ltb_spec 0 val); [|rewrite app_nil_r in HQ; by apply wp_ret].
    assert (Hz : ∀ c l, zlen (c :: l) = 1 + zlen l) by (intros; unfold zlen; simpl; lia). rewrite Hz in Hc.
    assert (0 ≤ zlen (digs fuel 10 (λ d, 48 + d) (val / 10))) by (unfold zlen; lia).
    fold (zlen buf). destruct (Z.ltb_spec (zlen buf) cap); [|lia].
    apply IH; [apply Z.div_pos; lia|rewrite zlen_snoc; lia| |by rewrite <-app_assoc].
    replace (Z.of_nat (S fuel)) with (Z.of_nat fuel + 1) in Hf by lia.
    rewrite Z.pow_add_r in Hf by lia. apply Z.div_lt_upper_bound; lia.
Qed.

Lemma wp_push_hex fuel cap val buf s (Q : list Z → pk → Prop) :
  0 ≤ val → zlen buf + zlen (digs fuel 16 hex_char val) ≤ cap → val < 16 ^ Z.of_nat fuel →
  Q (buf ++ digs fuel 16 hex_char val) s → wp (push_hex (S fuel) cap val buf) Q s.
Proof.
  revert val buf. induction fuel as [|fuel IH]; intros val buf Hv Hc Hf HQ; simpl.
  - assert (val = 0) as -> by (simpl in Hf; lia). simpl in *. rewrite app_nil_r in HQ. by apply wp_ret.
  - simpl in Hc, HQ. destruct (Z.ltb_spec 0 val); [|rewrite app_nil_r in HQ; by apply wp_ret].
    assert (Hz : ∀ c l, zlen (c :: l) = 1 + zlen l) by (intros; unfold zlen; simpl; lia). rewrite Hz in Hc.
    assert (0 ≤ zlen (digs fuel 16 hex_char (val / 16))) by (unfold zlen; lia).
    fold (zlen buf). destruct (Z.ltb_spec (zlen buf) cap); [|lia].
    change 15 with (2 ^ 4 - 1). rewrite land_ones_mod, Z.shiftr_div_pow2 by lia. change (2 ^ 4) with 16.
    apply IH; [apply Z.div_pos; lia|rewrite zlen_snoc; lia| |by rewrite <-app_assoc].
    replace (Z.of_nat (S fuel)) with (Z.of_nat fuel + 1) in Hf by lia.
    rewrite Z.pow_add_r in Hf by lia. apply Z.div_lt_upper_bound; lia.
Qed.

Lemma wp_put_dec cap val count s o (Q : Z → pk → Prop) :
  printed s0 s o → 0 ≤ val < 2 ^ 64 → val < 10 ^ cap → 0 < cap → count + zlen (dec val) < 2 ^ 31 →
  (∀ s', printed s0 s' (o ++ dec val) → Q (count + zlen (dec val)) s') →
  wp (put_dec buf_putc cap val count) Q s.
Proof.
  intros Hp Hv Hcap H0 Hc HQ. unfold put_dec, dec, number in *. apply wp_bind.
  destruct (Z.eqb_spec val 0) as [->|Hne]; [apply wp_ret; by apply (wp_put_all [48] s o)|].
  unfold digit_fuel. pose proof pow_dec. apply (wp_push_dec 23); [lia| |lia|by apply (wp_put_all _ s o)].
  pose proof (digs_length 23 10 (λ d, 48 + d) val (Z.to_nat cap)) as Hl.
  rewrite Z2Nat.id in Hl by lia. specialize (Hl ltac:(lia) ltac:(lia)). change (zlen []) with 0. unfold zlen. lia.
Qed.

Lemma wp_put_hex cap val count s o (Q : Z → pk → Prop) :
  printed s0 s o → 0 ≤ val < 2 ^ 64 → val < 16 ^ cap → 0 < cap → count + zlen (hex val) < 2 ^ 31 →
  (∀ s', printed s0 s' (o ++ hex val) → Q (count + zlen (hex val)) s') →
  wp (put_hex buf_putc cap val count) Q s.
Proof.
  intros Hp Hv Hcap H0 Hc HQ. unfold put_hex, hex, number in *. apply wp_bind.
  destruct (Z.eqb_spec val 0) as [->|Hne]; [apply wp_ret; by apply (wp_put_all [48] s o)|].
  unfold digit_fuel. pose proof pow_hex. apply (wp_push_hex 23); [lia| |lia|by apply (wp_put_all _ s o)].
  pose proof (digs_length 23 16 hex_char val (Z.to_nat cap)) as Hl.
  rewrite Z2Nat.id in Hl by lia. specialize (Hl ltac:(lia) ltac:(lia)). change (zlen []) with 0. unfold zlen. lia.
Qed.

Lemma wp_put_signed w cap val count s o (Q : Z → pk → Prop) :
  printed s0 s o → - 2 ^ (w - 1) < val < 2 ^ (w - 1) → 2 ^ (w - 1) ≤ 2 ^ 63 → 2 ^ (w - 1) ≤ 10 ^ cap →
  0 < cap → 0 ≤ count → count + zlen (signed val) < 2 ^ 31 →
  (∀ s', printed s0 s' (o ++ signed val) → Q (count + zlen (signed val)) s') →
  wp (put_signed buf_putc w cap val count) Q s.
Proof.
  intros Hp Hv H63 Hcap H0 Hc0 Hc HQ. unfold put_signed, signed in *.
  destruct (Z.ltb_spec val 0); [|apply (wp_put_dec _ _ _ s o); auto; lia].
  assert (Hz : zlen (45 :: dec (- val)) = 1 + zlen (dec (- val))) by (unfold zlen; simpl; lia).
  assert (0 ≤ zlen (dec (- val))) by (unfold zlen; lia).
  apply wp_bind, (wp_buf_putc s0 s o); [done|]. intros s1 Hp1. apply wp_bind, wp_add_count; [lia|].
  rewrite (proj2 (Z.eqb_neq _ _)) by lia.
  apply (wp_put_dec _ _ _ s1 (o ++ [45])); [done|lia|lia|done|lia|].
  intros s2 Hp2. rewrite <-app_assoc in Hp2. specialize (HQ s2 Hp2).
  by replace (count + 1 + zlen (dec (- val))) with (count + zlen (45 :: dec (- val))) by lia.
Qed.

Lemma wp_put_str str p fuel count s o (Q : Z → pk → Prop) :
  printed s0 s o → cstr m p str → (length str < fuel)%nat → count + zlen str < 2 ^ 31 →
  (∀ s', printed s0 s' (o ++ str) → Q (count + zlen str) s') → wp (put_str buf_putc fuel p count) Q s.
Proof.
  revert p fuel count s o. induction str as [|c str IH]; intros p [|fuel] count s o Hp Hs Hf Hc HQ;
    simpl in Hf; try lia; simpl.
  - apply cstr_nil in Hs. apply wp_bind, (wp_char s o p 0); [done..|]. simpl. apply wp_ret.
    specialize (HQ s). rewrite app_nil_r in HQ. unfold zlen in HQ. simpl in HQ.
    rewrite Z.add_0_r in HQ. by apply HQ.
  - apply cstr_cons in Hs as (Hch & Hz & Hs). apply wp_bind, (wp_char s o p c); [done..|].
    assert (Hzl : zlen (c :: str) = 1 + zlen str) by (unfold zlen; simpl; lia).
    assert (0 ≤ zlen str) by (unfold zlen; lia). rewrite nonzero_true by done.
    apply wp_bind, (wp_buf_putc s0 s o); [done|]. intros s1 Hp1. apply wp_bind, wp_add_count; [lia|].
    apply (IH _ _ _ s1 (o ++ [c])); [done|done|lia|lia|].
    intros s2 Hp2. rewrite <-app_assoc in Hp2. specialize (HQ s2 Hp2).
    by replace (count + 1 + zlen str) with (count + zlen (c :: str)) by lia.
Qed.
End format.

(** ** Formats *)

(** [conv f args f' args' o]: the conversion that follows a percent sign at the
    start of [f] puts out [o] and leaves [f'] and [args']. *)
Inductive conv (m : mem) : list Z → list Z → list Z → list Z → list Z → Prop :=
  | C_u f v a : conv m (117 :: f) (v :: a) f a (dec (u32 v))
  | C_d f v a : - 2 ^ 31 < s32 v → conv m (100 :: f) (v :: a) f a (signed (s32 v))
  | C_llu f v a : conv m (108 :: 108 :: 117 :: f) (v :: a) f a (dec (u64 v))
  | C_lld f v a : - 2 ^ 63 < s64 v → conv m (108 :: 108 :: 100 :: f) (v :: a) f a (signed (s64 v))
  | C_l f a : take 2 f ≠ [108; 117] → take 2 f ≠ [108; 100] → conv m (108 :: f) a f a []
  | C_x f v a : conv m (120 :: f) (v :: a) f a (hex (u32 v))
  | C_p f v a : conv m (112 :: f) (v :: a) f a (48 :: 120 :: hex (u64 v))
  | C_s f v a str : v ≠ 0 → cstr m v str → conv m (115 :: f) (v :: a) f a str
  | C_null f a : conv m (115 :: f) (0 :: a) f a (lit "(null)")
  | C_c f v a : conv m (99 :: f) (v :: a) f a [u8 v]
  | C_percent f a : conv m (37 :: f) a f a [37]
  | C_other c f a : c ∉ [117; 100; 108; 120; 112; 115; 99; 37] → conv m (c :: f) a f a [37; c].

(** [renders f args o]: the format [f] puts out [o]. *)
Inductive renders (m : mem) : list Z → list Z → list Z → Prop :=
  | R_nil a : renders m [] a []
  | R_last a : renders m [37] a [37]
  | R_char c f a o : c ≠ 37 → renders m f a o → renders m (c :: f) a (c :: o)
  | R_conv f a f' a' o1 o2 : conv m f a f' a' o1 → renders m f' a' o2 → renders m (37 :: f) a (o1 ++ o2).

Lemma u32_range x : 0 ≤ u32 x < 2 ^ 32.
Proof. apply Z.mod_pos_bound. lia. Qed.
Lemma u64_word x : 0 ≤ u64 x < 2 ^ 64.
Proof. apply Z.mod_pos_bound. lia. Qed.
Lemma s32_range x : - 2 ^ 31 ≤ s32 x < 2 ^ 31.
Proof.
  unfold s32. pose proof (Z.mod_pos_bound x (2 ^ 32) ltac:(lia)).
  destruct (Z.ltb_spec (x mod 2 ^ 32) (2 ^ 31)); lia.
Qed.
Lemma s64_range x : - 2 ^ 63 ≤ s64 x < 2 ^ 63.
Proof.
  unfold s64. pose proof (Z.mod_pos_bound x (2 ^ 64) ltac:(lia)).
  destruct (Z.ltb_spec (x mod 2 ^ 64) (2 ^ 63)); lia.
Qed.

Lemma zlen_cons1 (c : Z) l : zlen (c :: l) = 1 + zlen l.
Proof. unfold zlen. simpl. lia. Qed.
Lemma zlen_pos (l : list Z) : 0 ≤ zlen l.
Proof. unfold zlen. lia. Qed.

Lemma wp_walking_t {A} (loop : nat → ST pk A) (Q : A → pk → Prop) s :
  wp (loop (S (size (text s)))) Q s → wp (walking_t loop) Q s.
Proof. done. Qed.

Section loop.
Context (s0 : pk).
Let m := text s0.

(** A character of the format. *)
Lemma fmt_char p c f : cstr m p (c :: f) → m !! p = Some c ∧ nonzero c ∧ cstr m (p + 1) f.
Proof. apply cstr_cons. Qed.

(** Deciding the tests of a character against literals. *)
Ltac skip_tests := repeat (lazymatch goal with
  | |- context [?a =? ?b] => first [change (a =? b) with true|change (a =? b) with false]; cbn [andb]; cbv iota end).

(** Reading the character of the conversion and its argument. *)
Ltac conv_char :=
  lazymatch goal with
  | Hp : printed s0 ?s ?o, Hf : cstr m ?p (?c :: _) |- wp (on_text (load ?p) ≫= _) _ _ =>
      let Hch := fresh "Hch" in
      apply fmt_char in Hf as (Hch & _ & Hf); apply wp_bind, (wp_char s0 s o p c _ Hp Hch); skip_tests
  end.
Ltac conv_arg := apply wp_bind; eapply wp_deref; [reflexivity|].

Definition conv_post (f' a' o1 : list Z) (count : Z) (o : list Z) (Q : Z * list Z * Z → pk → Prop) : Prop :=
  ∀ p' s', cstr m (p' + 1) f' → printed s0 s' (o ++ o1) → Q (p', a', count + zlen o1) s'.

(** [%llu], [%lld], and [%l] before anything else, which puts out nothing. *)
Lemma wp_conv_l f a f' a' o1 p count s o (Q : Z * list Z * Z → pk → Prop) :
  conv m (108 :: f) a f' a' o1 → printed s0 s o → cstr m p (108 :: f) → 0 ≤ count →
  count + zlen o1 < 2 ^ 31 → conv_post f' a' o1 count o Q → wp (conversion buf_putc p a count) Q s.
Proof.
  intros Hc Hp Hf H0 Hn HQ. unfold conversion. conv_char.
  assert (E2 : p + 2 = p + 1 + 1) by lia. rewrite !E2. clear E2.
  inversion Hc as [| |f1 v a1| f1 v a1 Hv|f1 a1 N1 N2| | | | | | |c f1 a1 Hn1]; subst.
  - conv_char. conv_char. conv_arg. pose proof (u64_word v).
    apply wp_bind, (wp_put_dec s0 24 _ _ s o); [done|lia|lia|lia|done|].
    intros s' Hs'. apply wp_ret. by apply HQ.
  - conv_char. conv_char. conv_arg. pose proof (s64_range v).
    apply wp_bind, (wp_put_signed s0 64 24 _ _ s o); [done|split; simpl; lia|simpl; lia|simpl; lia|lia|done|done|].
    intros s' Hs'. apply wp_ret. by apply HQ.
  - assert (Hend : ∀ s', printed s0 s' o → Q (p, a', count) s').
    { intros s' Hs'. specialize (HQ p s' Hf). rewrite app_nil_r in HQ. change (zlen []) with 0 in HQ.
      rewrite Z.add_0_r in HQ. by apply HQ. }
    destruct f' as [|c f1]; [apply cstr_nil in Hf; apply wp_bind, (wp_char s0 s o _ _ _ Hp Hf); skip_tests;
      apply wp_bind, wp_ret; apply wp_ret; by apply Hend|].
    apply fmt_char in Hf as (Hch1 & _ & Hf'). apply wp_bind, (wp_char s0 s o _ _ _ Hp Hch1).
    destruct (Z.eqb_spec c 108) as [->|Hne]; [|apply wp_bind, wp_ret; apply wp_ret; by apply Hend].
    cbn [andb]. destruct f1 as [|d f1].
    { apply cstr_nil in Hf'. apply wp_bind, (wp_char s0 s o _ _ _ Hp Hf'). skip_tests. apply wp_ret. by apply Hend. }
    apply fmt_char in Hf' as (Hch2 & _ & _). apply wp_bind, (wp_char s0 s o _ _ _ Hp Hch2).
    destruct (Z.eqb_spec d 117) as [->|]; [done|]. destruct (Z.eqb_spec d 100) as [->|]; [done|].
    apply wp_ret. by apply Hend.
  - exfalso. apply Hn1. set_solver.
Qed.

Lemma wp_conversion f a f' a' o1 p count s o (Q : Z * list Z * Z → pk → Prop) :
  conv m f a f' a' o1 → printed s0 s o → cstr m p f → 0 ≤ count → count + zlen o1 < 2 ^ 31 →
  conv_post f' a' o1 count o Q → wp (conversion buf_putc p a count) Q s.
Proof.
  intros Hc Hp Hf H0 Hn HQ. pose proof Hc as Hc'. destruct Hc; try (by eapply wp_conv_l);
    unfold conversion; clear Hc'.
  - conv_char. conv_arg. pose proof (u32_range v).
    apply wp_bind, (wp_put_dec s0 12 _ _ s o); [done|lia|lia|lia|done|]. intros s' Hs'. apply wp_ret. by apply HQ.
  - conv_char. conv_arg. pose proof (s32_range v).
    apply wp_bind, (wp_put_signed s0 32 12 _ _ s o); [done|split; simpl; lia|simpl; lia|simpl; lia|lia|done|done|].
    intros s' Hs'. apply wp_ret. by apply HQ.
  - conv_char. conv_arg. pose proof (u32_range v).
    apply wp_bind, (wp_put_hex s0 9 _ _ s o); [done|lia|lia|lia|done|]. intros s' Hs'. apply wp_ret. by apply HQ.
  - conv_char. conv_arg. pose proof (u64_word v). pose proof (zlen_pos (hex (u64 v))).
    rewrite !zlen_cons1 in Hn.
    apply wp_bind, (wp_buf_putc s0 s o); [done|]. intros s1 Hs1.
    apply wp_bind, (wp_buf_putc s0 s1 _ _ _ Hs1). intros s2 Hs2. apply wp_bind, wp_add_count; [lia|].
    apply wp_bind, (wp_put_hex s0 17 _ _ s2 _ _ Hs2); [lia|lia|lia|lia|]. intros s' Hs'. apply wp_ret.
    rewrite <-!app_assoc in Hs'. specialize (HQ p s' Hf Hs'). rewrite !zlen_cons1 in HQ.
    by replace (count + 2 + zlen (hex (u64 v))) with (count + (1 + (1 + zlen (hex (u64 v))))) by lia.
  - conv_char. conv_arg. rewrite (proj2 (Z.eqb_neq v 0)) by done. apply wp_bind.
    assert (Et : text s = m) by apply Hp. apply wp_walking_t. rewrite Et.
    apply (wp_put_str s0 str v (S (size m)) _ s o); [done|done|apply cstr_size in H1; lia|done|].
    intros s' Hs'. apply wp_ret. by apply HQ.
  - conv_char. conv_arg. skip_tests.
    apply wp_bind, (wp_put_all s0 _ s o); [done..|]. intros s' Hs'. apply wp_ret. by apply HQ.
  - conv_char. conv_arg. apply wp_bind, (wp_buf_putc s0 s o); [done|]. intros s1 Hs1.
    apply wp_bind, wp_add_count; [done|]. apply wp_ret. by apply HQ.
  - conv_char. apply wp_bind, (wp_buf_putc s0 s o); [done|]. intros s1 Hs1.
    apply wp_bind, wp_add_count; [done|]. apply wp_ret. by apply HQ.
  - rewrite !not_elem_of_cons in H. destruct H as (N1 & N2 & N3 & N4 & N5 & N6 & N7 & N8 & _).
    apply fmt_char in Hf as (Hch & _ & Hf). apply wp_bind, (wp_char s0 s o p c _ Hp Hch).
    repeat (rewrite (proj2 (Z.eqb_neq c _)) by done). change (zlen [37; c]) with 2 in Hn.
    apply wp_bind, (wp_buf_putc s0 s o); [done|]. intros s1 Hs1.
    apply wp_bind, (wp_buf_putc s0 s1 _ _ _ Hs1). intros s2 Hs2. apply wp_bind, wp_add_count; [lia|].
    apply wp_ret. rewrite <-app_assoc in Hs2. by apply HQ.
Qed.

Lemma conv_shorter f a f' a' o1 : conv m f a f' a' o1 → (length f' < length f)%nat.
Proof. destruct 1; simpl; lia. Qed.

Lemma conv_head f a f' a' o1 p : conv m f a f' a' o1 → cstr m p f → ∃ c, m !! p = Some c ∧ nonzero c.
Proof. destruct 1; intros (Hc & Hz & _)%fmt_char; eauto. Qed.

Lemma wp_printf_loop f a out fuel p count s o (Q : Z → pk → Prop) :
  renders m f a out → printed s0 s o → cstr m p f → (length f < fuel)%nat → 0 ≤ count →
  count + zlen out < 2 ^ 31 → (∀ s', printed s0 s' (o ++ out) → Q (count + zlen out) s') →
  wp (printf_loop buf_putc fuel p a count) Q s.
Proof.
  intros Hr. revert fuel p count s o. induction Hr as [a|a|c f a out Hc Hr IH|f a f' a' o1 o2 Hc Hr IH];
    intros [|fuel] p count s o Hp Hf Hfuel H0 Hn HQ; simpl in Hfuel; try lia; cbn [printf_loop].
  - apply cstr_nil in Hf. apply wp_bind, (wp_char s0 s o _ _ _ Hp Hf). apply wp_ret.
    specialize (HQ s). rewrite app_nil_r in HQ. change (zlen []) with 0 in HQ. rewrite Z.add_0_r in HQ. by apply HQ.
  - apply fmt_char in Hf as (Hch & _ & Hf). apply cstr_nil in Hf. apply wp_bind, (wp_char s0 s o _ _ _ Hp Hch).
    skip_tests. apply wp_bind, (wp_char s0 s o _ _ _ Hp Hf). cbn [ctrue negb]. 
    apply wp_bind, (wp_buf_putc s0 s o); [done|]. intros s1 Hs1. apply wp_bind, wp_add_count; [done|].
    destruct fuel as [|fuel]; [lia|]. cbn [printf_loop]. apply wp_bind, (wp_char s0 s1 _ _ _ _ Hs1 Hf). apply wp_ret.
    by apply HQ.
  - apply fmt_char in Hf as (Hch & Hz & Hf). apply wp_bind, (wp_char s0 s o _ _ _ Hp Hch).
    rewrite nonzero_true, (proj2 (Z.eqb_neq c 37)) by done. apply wp_bind, wp_ret. cbn [andb].
    rewrite zlen_cons1 in *. pose proof (zlen_pos out).
    apply wp_bind, (wp_buf_putc s0 s o); [done|]. intros s1 Hs1. apply wp_bind, wp_add_count; [lia|].
    apply (IH fuel _ _ s1 _ Hs1); [done|lia|lia|lia|]. intros s2 Hs2. rewrite <-app_assoc in Hs2.
    specialize (HQ s2 Hs2). by replace (count + 1 + zlen out) with (count + (1 + zlen out)) by lia.
  - apply fmt_char in Hf as (Hch & _ & Hf). apply wp_bind, (wp_char s0 s o _ _ _ Hp Hch). skip_tests.
    destruct (conv_head _ _ _ _ _ _ Hc Hf) as (c & Hc1 & Hz). apply wp_bind, (wp_char s0 s o _ _ _ Hp Hc1).
    rewrite nonzero_true by done. unfold zlen in Hn, HQ. rewrite length_app, Nat2Z.inj_add in Hn, HQ.
    fold (zlen o1) (zlen o2) in Hn, HQ. pose proof (zlen_pos o1). pose proof (zlen_pos o2).
    pose proof (conv_shorter _ _ _ _ _ Hc). cbn [andb ctrue].
    apply wp_bind, (wp_conversion _ _ _ _ _ _ _ _ _ _ Hc Hp Hf); [lia|lia|].
    intros p' s1 Hf1 Hs1. apply (IH fuel _ _ s1 _ Hs1); [done|lia|lia|lia|]. intros s2 Hs2.
    rewrite <-app_assoc in Hs2. specialize (HQ s2 Hs2).
    by replace (count + zlen o1 + zlen o2) with (count + (zlen o1 + zlen o2)) by lia.
Qed.
End loop.

(** ** The message *)

Lemma buf_string_nul l r : buf_string (l ++ 0 :: r) = buf_string l.
Proof. induction l as [|c l IH]; simpl; [done|]. by destruct (c =? 0); [|rewrite IH]. Qed.

(** The string in the buffer once it is terminated. *)
Lemma printed_string s0 s o :
  printed s0 s o →
  buf_string (<[Z.to_nat (printk_buf_ptr s):=0]> (printk_buf s)) = buf_string (take 511 o).
Proof.
  intros [Hb Hp _ Ht _]. assert (0 ≤ zlen o) by (unfold zlen; lia).
  rewrite insert_take_drop by lia. rewrite Ht. apply buf_string_nul.
Qed.

Lemma wp_vfprintk_rest fd fmt args f out s recs :
  let level := if fd =? STDERR_FD then KLOG_ERR else KLOG_INFO in
  fmt ≠ 0 → cstr (text s) fmt f → renders (text s) f args out → zlen out < 2 ^ 31 →
  Z.of_nat (length (printk_buf s)) = 512 → klog_ok (log s) recs → level ≤ klog_level (log s) →
  wp (vfprintk fd fmt args) (λ n s', n = zlen out ∧ text s' = text s ∧ serial s' = serial s ∧
    klog_ok (log s') (write_spec level (buf_string (take 511 out)) recs) ∧
    console (log s') = console (log s) ++ console_out (log s) level (buf_string (take 511 out)) ∧
    Z.of_nat (length (printk_buf s')) = 512 ∧ same_rest (log s) (log s')) s.
Proof.
  intros level Hf0 Hf Hr Hn Hb Hlog Hlev. unfold vfprintk. rewrite (proj2 (Z.eqb_neq fmt 0)) by done.
  fold level. unfold printk_vroute. apply wp_bind, wp_modify.
  set (s1 := set_buf (printk_buf s) 0 512 s).
  assert (Hp : printed s1 s1 []) by (by split).
  apply wp_bind. unfold do_printf. rewrite (proj2 (Z.eqb_neq fmt 0)) by done.
  apply wp_walking_t, (wp_printf_loop s1 f args out _ fmt 0 s1 []);
    [done|done|done|apply cstr_size in Hf; simpl; lia|lia|done|].
  intros s2 Hp2. simpl in Hp2. rewrite Z.add_0_l. pose proof (printed_string _ _ _ Hp2) as Hstr.
  pose proof Hp2 as [Hb2 Hptr _ _ (Et & El & Es)]. pose proof (zlen_pos out).
  apply wp_bind, wp_gets. apply wp_bind, wp_buf_store; [lia|].
  apply wp_bind, wp_gets. cbn [printk_buf set_buf]. rewrite Hstr.
  apply wp_bind, wp_zoom. cbn [log set_buf]. rewrite El. change (log s1) with (log s).
  eapply wp_mono; [by apply wp_write|]. cbv beta. intros r l' (_ & Hok & Hsame & Hcon).
  apply wp_ret. cbn [text serial log printk_buf set_buf].
  by rewrite length_insert.
Qed.

Lemma wp_vfprintk fd fmt args f out s recs :
  let level := if fd =? STDERR_FD then KLOG_ERR else KLOG_INFO in
  fmt ≠ 0 → cstr (text s) fmt f → renders (text s) f args out → zlen out < 2 ^ 31 →
  Z.of_nat (length (printk_buf s)) = 512 → klog_ok (log s) recs → level ≤ klog_level (log s) →
  wp (vfprintk fd fmt args) (λ n s', n = zlen out ∧ text s' = text s ∧ serial s' = serial s ∧
    klog_ok (log s') (write_spec level (buf_string (take 511 out)) recs) ∧
    console (log s') = console (log s) ++ console_out (log s) level (buf_string (take 511 out)) ∧
    Z.of_nat (length (printk_buf s')) = 512) s.
Proof.
  intros level Hf0 Hf Hr Hn Hb Hlog Hlev. eapply wp_mono; [by apply (wp_vfprintk_rest fd fmt args f out s recs)|].
  cbv beta. intros n s' H. by destruct H as (? & ? & ? & ? & ? & ? & _).
Qed.

(** A state in which messages of both descriptors reach the log. *)
Record pk_ok (s : pk) (recs : list record) : Prop := {
  pk_buf : Z.of_nat (length (printk_buf s)) = 512;
  pk_log : klog_ok (log s) recs;
  pk_level : KLOG_INFO ≤ klog_level (log s);
}.

Definition level_of (fd : Z) : Z := if fd =? STDERR_FD then KLOG_ERR else KLOG_INFO.
(** The records after a message. *)
Definition said (fd : Z) (out : list Z) (recs : list record) : list record :=
  write_spec (level_of fd) (buf_string (take 511 out)) recs.

Lemma wp_said fd fmt args f out s recs (Q : Z → pk → Prop) :
  fmt ≠ 0 → cstr (text s) fmt f → renders (text s) f args out → zlen out < 2 ^ 31 → pk_ok s recs →
  (∀ s', text s' = text s → pk_ok s' (said fd out recs) → Q (zlen out) s') →
  wp (vfprintk fd fmt args) Q s.
Proof.
  intros Hf0 Hf Hr Hn [Hb Hlog Hlev] HQ. assert (Hl : level_of fd ≤ KLOG_INFO) by (unfold level_of; by case_match).
  eapply wp_mono; [apply (wp_vfprintk_rest fd fmt args f out s recs); [done..|fold (level_of fd); lia]|].
  cbv beta. intros n s' (-> & Ht & _ & Hlog' & _ & Hb' & Hsame). apply HQ; [done|].
  split; [done|done|]. destruct Hsame as (E & _). by rewrite E.
Qed.

(** C29: formatted output at a level that the log does not filter out.  For a format
    and arguments whose rendering is [out], [fprintk] returns the length of the
    rendering, and appends one record to the log: its level is that of the
    descriptor and its text the first 511 characters of the rendering (up to a
    NUL character, if one was put out).  The numbers in a rendering read back as
    the numbers that were passed. *)
Theorem fprintk_correct (fd fmt : Z) (args f out : list Z) (s : pk) (recs : list record) :
  let level := if fd =? STDERR_FD then KLOG_ERR else KLOG_INFO in
  fmt ≠ 0 → cstr (text s) fmt f → renders (text s) f args out → zlen out < 2 ^ 31 →
  Z.of_nat (length (printk_buf s)) = 512 → klog_ok (log s) recs → level ≤ klog_level (log s) →
  wp (fprintk fd fmt args) (λ n s', n = zlen out ∧ text s' = text s ∧ serial s' = serial s ∧
    klog_ok (log s') (write_spec level (buf_string (take 511 out)) recs) ∧
    console (log s') = console (log s) ++ console_out (log s) level (buf_string (take 511 out)) ∧
    Z.of_nat (length (printk_buf s')) = 512) s ∧
  (∀ v, 0 ≤ v < 2 ^ 64 →
    horner 10 dec_digit (dec v) = v ∧ horner 16 hex_digit_val (hex v) = v).
Proof.
  intros level Hf0 Hf Hr Hn Hb Hlog Hlev. split; [by apply (wp_vfprintk fd fmt args f)|].
  intros v Hv. split; [by apply dec_value|by apply hex_chars_value].
Qed.

(** "n=%d %x" at 2000. *)
Definition demo_fmt : list Z := lit "n=%d %x".
Definition demo_pk : pk := {|
  text := upd 2000 (demo_fmt ++ [0]) ∅; printk_buf := replicate (Z.to_nat 512) 0;
  printk_buf_ptr := 0; printk_buf_rem := 0; log := demo_log; serial := [] |}.
#[global] Arguments demo_pk : simpl never.

Lemma demo_renders : renders (text demo_pk) demo_fmt [2 ^ 32 - 42; 255] (lit "n=-42 ff").
Proof.
  change demo_fmt with (110 :: 61 :: 37 :: 100 :: 32 :: 37 :: 120 :: []).
  change (lit "n=-42 ff") with (110 :: 61 :: (signed (s32 (2 ^ 32 - 42)) ++ (32 :: (hex (u32 255) ++ [])))).
  apply R_char; [discriminate|]. apply R_char; [discriminate|].
  eapply R_conv; [apply C_d; reflexivity|]. apply R_char; [discriminate|].
  eapply R_conv; [apply C_x|]. apply R_nil.
Qed.

Lemma fprintk_correct_witness :
  wp (fprintk 1 2000 [2 ^ 32 - 42; 255]) (λ n s', n = 8 ∧ text s' = text demo_pk ∧ serial s' = [] ∧
    klog_ok (log s') (write_spec 6 (lit "n=-42 ff") []) ∧
    console (log s') = [] ++ console_out demo_log 6 (lit "n=-42 ff") ∧
    Z.of_nat (length (printk_buf s')) = 512) demo_pk.
Proof.
  refine (proj1 (fprintk_correct 1 2000 [2 ^ 32 - 42; 255] demo_fmt (lit "n=-42 ff") demo_pk [] _ _ demo_renders _ _ _ _)).
  - discriminate.
  - split; [apply upd_bytes|apply lit_nonzero; vm_compute; reflexivity].
  - reflexivity.
  - reflexivity.
  - exact demo_log_ok.
  - discriminate.
Defined.

(** The least [int] cannot be printed: its negation overflows. *)
Lemma printk_int_min count s : put_signed buf_putc 32 12 (- 2 ^ 31) count s = None.
Proof.
  unfold put_signed. change (- 2 ^ 31 <? 0) with true. change (- 2 ^ 31 =? - 2 ^ (32 - 1)) with true.
  unfold mbind, st_bind.
  destruct (buf_putc 45 s) as [[[] s']|]; [|done]. by destruct (add_count count 1 s') as [[]|].
Qed.
