(* ===== verification/Frames.v ===== *)
(** * What the kernel heap asks of physical memory

    mm/vmalloc.c takes single frames from the page allocator, which the page
    tables share.  [FrameOps] lists the two calls.  [FrameLaws] states what the
    heap relies on: for every set of frames held outside the tables there is a
    version of the page-table laws whose invariant protects that set, taking a
    frame adds a new one to the set, and giving one back removes it. *)
From stdpp Require Import base gmap option numbers.
From S2P Require Import Prelude MmuIface.
#[local] Open Scope Z_scope.

Class FrameOps (M : Type) := {
  frame_alloc : ST M Z;
  frame_free : Z → ST M unit;
}.

Class FrameLaws (M : Type) `{MmuOps M, FrameOps M} := {
  (** the page-table laws while the frames of a set are held *)
  holding : gset Z → MmuLaws M;
  leaf_at : M → Z → option Z;
  holding_walk D m p : @mmu_walk M _ (holding D) m p = leaf_at m p;
  (** how many frames can still be taken *)
  frames_left : M → nat;
  holding_left D m : @mmu_left M _ (holding D) m = frames_left m;

  frame_alloc_law D m :
    @mmu_inv M _ (holding D) m →
    wp frame_alloc (λ r m',
      mmu_ttbr1 m' = mmu_ttbr1 m ∧ (∀ p, leaf_at m' p = leaf_at m p) ∧
      (r = 0 ∧ @mmu_inv M _ (holding D) m' ∧ frames_left m = 0%nat ∧ frames_left m' = 0%nat ∨
       r ≠ 0 ∧ r ∉ D ∧ is_u64 r ∧ r mod 4096 = 0 ∧ @mmu_inv M _ (holding ({[r]} ∪ D)) m' ∧
       frames_left m' = Nat.pred (frames_left m))) m;
  frame_free_law D m a :
    @mmu_inv M _ (holding D) m → a ∈ D →
    wp (frame_free a) (λ _ m',
      mmu_ttbr1 m' = mmu_ttbr1 m ∧ (∀ p, leaf_at m' p = leaf_at m p) ∧
      @mmu_inv M _ (holding (D ∖ {[a]})) m' ∧
      (frames_left m' = S (frames_left m) ∨ frames_left m = 0%nat ∧ frames_left m' = 0%nat)) m;
}.
