(* ===== verification/FramesMmu.v ===== *)
(** * The page tables and the page allocator implement the heap's interface

    A frame that is held is an allocated page that no table occupies.  New
    tables occupy free pages, so the table operations keep held frames. *)
From stdpp Require Import base gmap list option numbers.
From S2P Require Import Prelude Spinlock Pmm MmuIface Mmu MmuThm Frames.
#[local] Open Scope Z_scope.
Import Mmu.

#[export] Instance mmu_frames : FrameOps mmu :=
  {| frame_alloc := on_pmm Pmm.pmm_alloc_page; frame_free a := on_pmm (Pmm.pmm_free_page a) |}.

(** The frames of [D] are allocated, and not table pages. *)
Definition held (own : gmap Z nat) (D : gset Z) (s : mmu) : Prop :=
  ∀ a, a ∈ D → own !! a = None ∧ a ≠ 0 ∧ pmm_page (pmm_st s) a.
Definition inv_held (D : gset Z) (s : mmu) : Prop :=
  ∃ own, tables_ok s own ∧ (ttbr1_el1 s ≠ 0 → own !! ttbr1_el1 s = Some 3%nat) ∧ held own D s.

Lemma held_grows own own' D s s' :
  held own D s → grows s own own' → pmm_le (pmm_st s) (pmm_st s') → held own' D s'.
Proof.
  intros H [_ Hfresh] Hle a Ha. destruct (H a Ha) as (Hn & H0 & Hp).
  split_and!; [|done|by eapply pmm_page_mono]. destruct (own' !! a) as [n|] eqn:Hn'; [|done].
  exfalso. by apply (Hfresh a Hn).
Qed.

Lemma inv_held_inv D s : inv_held D s → inv s.
Proof. intros (own & Hok & Hr & _). by exists own. Qed.

Lemma inv_held_issued D s is' : inv_held D s → inv_held D (set_issued is' s).
Proof. intros (own & [H1 H2 H3 H4] & Hr & Hh). by exists own. Qed.

(** Table operations under the stronger invariant: what [mmu_laws] says of the
    translations, and [inv_held] again. *)
Lemma wp_inv_held {A} (m : ST mmu A) D s (P : A → mmu → Prop) :
  wp m (λ a s', inv s' ∧ P a s') s → wp m (λ _ s', inv_held D s') s →
  wp m (λ a s', inv_held D s' ∧ P a s') s.
Proof.
  intros H1 H2. eapply wp_mono; [apply (wp_conj _ _ _ _ H1 H2)|].
  intros a s' ([_ HP] & Hi). by split.
Qed.

Lemma map_held D s va pa attrs :
  inv_held D s → ttbr1_el1 s ≠ 0 → is_u64 va →
  wp (mmu_map_page (ttbr1_el1 s) va pa attrs) (λ _ s', inv_held D s') s.
Proof.
  intros (own & Hok & Hr & Hh) Htt Hva. specialize (Hr Htt).
  eapply wp_mono; [apply (wp_mmu_map_page s own); [done|done|done|apply leaf_map_valid]|].
  simpl. intros r s' (own' & Hok' & Hgr & Hreg & _).
  pose proof Hreg as (_ & _ & _ & _ & _ & Ht1 & _ & Hle). exists own'. split_and!; [done| |].
  - intros _. rewrite Ht1. eapply lookup_weaken; [exact Hr|apply Hgr].
  - by eapply held_grows.
Qed.

Lemma unmap_held D s va :
  inv_held D s → ttbr1_el1 s ≠ 0 → is_u64 va →
  wp (mmu_unmap_page (ttbr1_el1 s) va) (λ _ s', inv_held D s') s.
Proof.
  intros (own & Hok & Hr & Hh) Htt Hva. specialize (Hr Htt).
  eapply wp_mono; [by apply (wp_mmu_unmap_page s own)|].
  simpl. intros r s' (Hok' & Hreg & _).
  pose proof Hreg as (_ & _ & _ & _ & _ & Ht1 & _ & Hle). exists own. split_and!; [done| |].
  - intros _. by rewrite Ht1.
  - by eapply held_grows; [|apply grows_refl|].
Qed.

Lemma update_held D s va attrs :
  inv_held D s → ttbr1_el1 s ≠ 0 → is_u64 va →
  wp (mmu_update_page_attrs (ttbr1_el1 s) va attrs) (λ _ s', inv_held D s') s.
Proof.
  intros (own & Hok & Hr & Hh) Htt Hva. specialize (Hr Htt).
  eapply wp_mono; [by apply (wp_mmu_update_page_attrs s own)|].
  simpl. intros r s' (Hok' & Hreg & _).
  pose proof Hreg as (_ & _ & _ & _ & _ & Ht1 & _ & Hle). exists own. split_and!; [done| |].
  - intros _. by rewrite Ht1.
  - by eapply held_grows; [|apply grows_refl|].
Qed.

#[export] Program Instance held_laws (D : gset Z) : MmuLaws mmu :=
  {| mmu_inv := inv_held D; mmu_walk := walk1; mmu_left := left_of |}.
Next Obligation.
  intros D s va pa attrs Hi Htt Hva Hpa Hat. apply wp_inv_held; [|by apply map_held].
  by apply (mmu_map_law (MmuLaws := mmu_laws)); [eapply inv_held_inv|..].
Qed.
Next Obligation.
  intros D s va Hi Htt Hva. apply wp_inv_held; [|by apply unmap_held].
  by apply (mmu_unmap_law (MmuLaws := mmu_laws)); [eapply inv_held_inv|..].
Qed.
Next Obligation.
  intros D s va attrs Hi Htt Hva Hat. apply wp_inv_held; [|by apply update_held].
  by apply (mmu_update_law (MmuLaws := mmu_laws)); [eapply inv_held_inv|..].
Qed.
Next Obligation.
  intros D s va size Hi Hreg. simpl. unfold cache_flush_range. apply wp_bind, wp_line_loop; [done|].
  apply wp_modify. split_and!; [|done..]. by apply inv_held_issued, inv_held_issued.
Qed.
Next Obligation.
  intros D s va size Hi Hreg. simpl. unfold icache_invalidate_range.
  apply wp_bind, wp_line_loop; [done|]. apply wp_bind, wp_modify, wp_modify.
  split_and!; [|done..]. by do 3 apply inv_held_issued.
Qed.
Next Obligation.
  intros D s va size Hi Hreg. simpl. apply wp_tlb_flush_range; [done|].
  split_and!; [|done..]. by apply inv_held_issued.
Qed.

(** ** Taking and returning frames *)

Lemma tables_pmm s own p' :
  tables_ok s own → (∀ a, pmm_page (pmm_st s) a → pmm_page p' a) → Pmm.pmm_ok p' →
  tables_ok (set_pmm p' s) own.
Proof.
  intros [_ Ho He Hi] Hm Hp. split; simpl; [done| |done|done].
  intros a n Ha. by eapply Hm, Ho.
Qed.

Lemma frame_alloc_held D s :
  inv_held D s →
  wp frame_alloc (λ r s', mmu_ttbr1 s' = mmu_ttbr1 s ∧ (∀ p, walk1 s' p = walk1 s p) ∧
    (r = 0 ∧ inv_held D s' ∧ left_of s = 0%nat ∧ left_of s' = 0%nat ∨
     r ≠ 0 ∧ r ∉ D ∧ is_u64 r ∧ r mod 4096 = 0 ∧ inv_held ({[r]} ∪ D) s' ∧
     left_of s' = Nat.pred (left_of s))) s.
Proof.
  intros (own & Hok & Hr & Hh). pose proof Hok as [Hp Ho _ _]. apply wp_zoom.
  eapply wp_mono; [apply (Pmm.wp_pmm_alloc_run _ 1 Hp); lia|].
  simpl. intros a p' [Hp' Hpost]. split_and!; [done|done|]. pose proof (alloc_post_frames _ _ _ Hp Hpost) as Hleft.
  destruct Hpost as [(p & _ & [Hrun _] & Ha & Hps & _)|(-> & -> & _)].
  2:{ left. destruct Hleft as [(_ & Hl1 & Hl2)|[? _]]; [|done]. split_and!; [done| |exact Hl1|exact Hl2].
      exists own. split_and!; [by destruct Hok|done|done]. }
  pose proof (pages_set_le _ _ _ _ Hps) as Hle. destruct Hrun as (H1 & H2 & H3).
  assert (Hfree : ¬ pmm_page (pmm_st s) a).
  { intros (q & Hq & Haq & Hb). assert (q = p) as -> by lia. rewrite H3 in Hb; [done|lia]. }
  assert (Hpg : pmm_page p' a).
  { destruct Hps. exists p. rewrite ps_base, ps_total. split_and!; [lia|lia|done|].
    rewrite ps_bits by lia. destruct (Z.leb_spec p p), (Z.ltb_spec p (p + 1)); try lia. done. }
  assert (Hok' : tables_ok (set_pmm p' s) own).
  { apply tables_pmm; [done| |done]. intros b. by apply pmm_page_mono. }
  assert (Hh' : held own D (set_pmm p' s)) by (by eapply held_grows; [|apply grows_refl|]).
  destruct Hleft as [(-> & Hl1 & Hl2)|[Ha0 Hl]]; [left; split_and!; [done|by exists own|exact Hl1|exact Hl2]|right].
  pose proof (pmm_page_al _ _ Hp' Hpg) as [Hal Hu]. split_and!; [done| |exact Hu|done| |exact Hl].
  - intros HaD. apply Hfree. by apply Hh.
  - exists own. split_and!; [done|done|]. intros b [->%elem_of_singleton|Hb]%elem_of_union; [|by apply Hh'].
    split_and!; [|done|exact Hpg]. destruct (own !! a) as [n|] eqn:Hn; [|done]. exfalso. by eapply Hfree, Ho.
Qed.

(** Giving an allocated page back makes one more free. *)
Lemma freed_page_frames s s' a p :
  Pmm.pmm_ok s → Pmm.pmm_ok s' → 0 ≤ p < Pmm.pmm_pages_total s → a = Pmm.pmm_mem_base s + p * 4096 → a ≠ 0 →
  Pmm.page_alloc s p = true →
  (if Pmm.free_args_ok s a 1
   then Pmm.pages_set s s' ((a - Pmm.pmm_mem_base s) / 4096)
          (Z.min ((a - Pmm.pmm_mem_base s) / 4096 + 1) (Pmm.pmm_pages_total s)) false
   else s' = s) →
  frames_of s' = S (frames_of s) ∨ frames_of s = 0%nat ∧ frames_of s' = 0%nat.
Proof.
  intros [_ _ (Hb0 & Hbal & _) [Hsz Hend] Htot Hts Hf] [_ _ _ _ _ _ Hf'] Hp Ha Ha0 Hpb Hpost.
  assert (Hargs : Pmm.free_args_ok s a 1 = true).
  { unfold Pmm.free_args_ok. rewrite !andb_true_iff, !negb_true_iff, !Z.eqb_neq, Z.leb_le, Z.ltb_lt, Z.eqb_eq.
    split_and!; [done|done|lia|lia|]. rewrite Ha, Z.mod_add by lia. done. }
  rewrite Hargs in Hpost. replace ((a - Pmm.pmm_mem_base s) / 4096) with p in Hpost.
  2:{ rewrite Ha. replace (Pmm.pmm_mem_base s + p * 4096 - Pmm.pmm_mem_base s) with (p * 4096) by lia. by rewrite Z.div_mul. }
  destruct Hpost as [_ _ E1 _ E2 E3]. unfold frames_of. rewrite E1.
  destruct (Z.eqb_spec (Pmm.pmm_mem_base s) 0) as [|_]; [by right|left]. rewrite Hf, Hf'. unfold Pmm.free_pages. rewrite E2.
  set (f i := negb (Pmm.page_alloc s i)). set (n := Z.to_nat (Pmm.pmm_pages_total s)).
  rewrite (countb_ext _ (λ i, if i =? p then true else f i)).
  2:{ intros j Hj. unfold f. rewrite E3 by lia.
      destruct (Z.leb_spec p j), (Z.ltb_spec j (Z.min (p + 1) (Pmm.pmm_pages_total s))), (Z.eqb_spec j p); simpl; try done; lia. }
  rewrite (countb_update f _ 0 n p); [pose proof (countb_range f 0 n); lia|lia| |unfold f; by rewrite Hpb|by rewrite Z.eqb_refl].
  intros j Hj. by rewrite (proj2 (Z.eqb_neq j p)).
Qed.

Lemma frame_free_held D s a :
  inv_held D s → a ∈ D →
  wp (frame_free a) (λ _ s', mmu_ttbr1 s' = mmu_ttbr1 s ∧ (∀ p, walk1 s' p = walk1 s p) ∧
    inv_held (D ∖ {[a]}) s' ∧ (left_of s' = S (left_of s) ∨ left_of s = 0%nat ∧ left_of s' = 0%nat)) s.
Proof.
  intros (own & Hok & Hr & Hh) Ha. pose proof Hok as [Hp Ho _ _]. apply wp_zoom.
  destruct (Hh a Ha) as (Hno & Ha0 & Hpg). pose proof (pmm_page_al _ _ Hp Hpg) as [Hal Hu].
  destruct Hpg as (p & Hpr & Hpa & Hpb). pose proof Hp as [_ _ (Hb0 & Hbal & _) [Hsz Hend] Htot Hts _].
  eapply wp_mono; [apply (Pmm.wp_pmm_free_pages _ a 1 Hp); lia|]. simpl. intros [] p' [Hp' Hpost].
  split_and!; [done|done| |].
  2:{ by apply (freed_page_frames _ _ a p Hp Hp'). }
  assert (Hkeep : ∀ b, b ≠ a → pmm_page (pmm_st s) b → pmm_page p' b).
  { intros b Hne (q & Hq & Hbq & Hqb). destruct (Pmm.free_args_ok _ _ _).
    - destruct Hpost as [_ _ E1 _ E2 E3]. exists q. rewrite E1, E2. split_and!; [lia|lia|done|].
      rewrite E3 by lia. rewrite Hpa in *.
      replace (Pmm.pmm_mem_base (pmm_st s) + p * 4096 - Pmm.pmm_mem_base (pmm_st s)) with (p * 4096) by lia.
      rewrite Z.div_mul by lia.
      destruct (Z.leb_spec p q), (Z.ltb_spec q (Z.min (p + 1) (Pmm.pmm_pages_total (pmm_st s)))); simpl; try done.
      assert (q = p) as -> by lia. lia.
    - subst p'. by exists q. }
  exists own. split_and!; [|done|].
  - destruct Hok as [_ _ He Hi]. split; simpl; [done| |done|done].
    intros b n Hb. apply Hkeep; [congruence|by eapply Ho].
  - intros b [Hb Hne]%elem_of_difference. rewrite elem_of_singleton in Hne.
    destruct (Hh b Hb) as (? & ? & ?). split_and!; [done|done|by apply Hkeep].
Qed.

#[export] Instance mmu_frame_laws : FrameLaws mmu := {|
  holding := held_laws;
  leaf_at := walk1;
  holding_walk D m p := eq_refl;
  frames_left := left_of;
  holding_left D m := eq_refl;
  frame_alloc_law := frame_alloc_held;
  frame_free_law := frame_free_held;
|}.
