(* ===== verification/Vmalloc.v ===== *)
(** * The kernel heap (mm/vmalloc.c): translation

    State: the lock and interrupt mask, the pool of 512 block descriptors with
    their links, the list of free address ranges, the bump pointer, the list of
    unused descriptors with the function-local [initialized] flag, the lines
    printed by [vmalloc_stats], and the region manager the heap maps with. *)
From stdpp Require Import base gmap list option numbers.
From S2P Require Import Prelude Spinlock RBHeap MmuIface Frames Vmm.
#[local] Open Scope Z_scope.

Module Vmalloc.
Import Vmm.

Definition VMALLOC_START : Z := 0xFFFFFF8080000000.
Definition VMALLOC_END : Z := 0xFFFFFF80C0000000.
Definition GUARD_SIZE : Z := 4096.
Definition FREE_POOL_CAP : nat := 512.

(** [free_block_t] *)
Record block := Block {
  b_va : Z;
  b_size : Z;
  b_next : ptr;
  b_prev : ptr;
}.
Definition set_b_va (v : Z) (b : block) : block := Block v (b_size b) (b_next b) (b_prev b).
Definition set_b_size (v : Z) (b : block) : block := Block (b_va b) v (b_next b) (b_prev b).
Definition set_b_next (v : ptr) (b : block) : block := Block (b_va b) (b_size b) v (b_prev b).
Definition set_b_prev (v : ptr) (b : block) : block := Block (b_va b) (b_size b) (b_next b) v.

Record kheap (M : Type) := {
  vmalloc_lock : Z;
  vmalloc_daif : Z;
  free_pool : gmap Z block;
  free_list : ptr;
  vmalloc_next : Z;
  free_pool_list : ptr;
  pool_initialized : bool;
  printed : list (Z * Z * Z);
  vm : vmm M;
}.
#[global] Arguments vmalloc_lock {M}.
#[global] Arguments vmalloc_daif {M}.
#[global] Arguments free_pool {M}.
#[global] Arguments free_list {M}.
#[global] Arguments vmalloc_next {M}.
#[global] Arguments free_pool_list {M}.
#[global] Arguments pool_initialized {M}.
#[global] Arguments printed {M}.
#[global] Arguments vm {M}.

Section kheap.
Context {M : Type} `{!MmuOps M, !FrameOps M}.
Implicit Types (s : kheap M) (p : ptr).

Definition set_lock (v : Z) s : kheap M :=
  {| vmalloc_lock := v; vmalloc_daif := vmalloc_daif s; free_pool := free_pool s;
     free_list := free_list s; vmalloc_next := vmalloc_next s; free_pool_list := free_pool_list s;
     pool_initialized := pool_initialized s; printed := printed s; vm := vm s |}.
Definition set_daif (v : Z) s : kheap M :=
  {| vmalloc_lock := vmalloc_lock s; vmalloc_daif := v; free_pool := free_pool s;
     free_list := free_list s; vmalloc_next := vmalloc_next s; free_pool_list := free_pool_list s;
     pool_initialized := pool_initialized s; printed := printed s; vm := vm s |}.
Definition set_pool (v : gmap Z block) s : kheap M :=
  {| vmalloc_lock := vmalloc_lock s; vmalloc_daif := vmalloc_daif s; free_pool := v;
     free_list := free_list s; vmalloc_next := vmalloc_next s; free_pool_list := free_pool_list s;
     pool_initialized := pool_initialized s; printed := printed s; vm := vm s |}.
Definition set_free_list (v : ptr) s : kheap M :=
  {| vmalloc_lock := vmalloc_lock s; vmalloc_daif := vmalloc_daif s; free_pool := free_pool s;
     free_list := v; vmalloc_next := vmalloc_next s; free_pool_list := free_pool_list s;
     pool_initialized := pool_initialized s; printed := printed s; vm := vm s |}.
Definition set_vmalloc_next (v : Z) s : kheap M :=
  {| vmalloc_lock := vmalloc_lock s; vmalloc_daif := vmalloc_daif s; free_pool := free_pool s;
     free_list := free_list s; vmalloc_next := v; free_pool_list := free_pool_list s;
     pool_initialized := pool_initialized s; printed := printed s; vm := vm s |}.
Definition set_pool_list (v : ptr) s : kheap M :=
  {| vmalloc_lock := vmalloc_lock s; vmalloc_daif := vmalloc_daif s; free_pool := free_pool s;
     free_list := free_list s; vmalloc_next := vmalloc_next s; free_pool_list := v;
     pool_initialized := pool_initialized s; printed := printed s; vm := vm s |}.
Definition set_initialized (v : bool) s : kheap M :=
  {| vmalloc_lock := vmalloc_lock s; vmalloc_daif := vmalloc_daif s; free_pool := free_pool s;
     free_list := free_list s; vmalloc_next := vmalloc_next s; free_pool_list := free_pool_list s;
     pool_initialized := v; printed := printed s; vm := vm s |}.
Definition set_printed (v : list (Z * Z * Z)) s : kheap M :=
  {| vmalloc_lock := vmalloc_lock s; vmalloc_daif := vmalloc_daif s; free_pool := free_pool s;
     free_list := free_list s; vmalloc_next := vmalloc_next s; free_pool_list := free_pool_list s;
     pool_initialized := pool_initialized s; printed := v; vm := vm s |}.
Definition set_vm (v : vmm M) s : kheap M :=
  {| vmalloc_lock := vmalloc_lock s; vmalloc_daif := vmalloc_daif s; free_pool := free_pool s;
     free_list := free_list s; vmalloc_next := vmalloc_next s; free_pool_list := free_pool_list s;
     pool_initialized := pool_initialized s; printed := printed s; vm := v |}.

#[export] Instance heap_has_lock : HasLock (kheap M) :=
  {| lk_word := vmalloc_lock; lk_set_word := set_lock |}.
#[export] Instance heap_has_daif : HasDaif (kheap M) :=
  {| lk_daif := vmalloc_daif; lk_set_daif := set_daif |}.

Definition on_vm {A} (m : ST (vmm M) A) : ST (kheap M) A := zoom vm set_vm m.
(** [pmm_alloc_page] and [pmm_free_page]; the page allocator is part of the
    state the page tables live in. *)
Definition pmm_alloc_page : ST (kheap M) Z := on_vm (on_mmu frame_alloc).
Definition pmm_free_page (pa : Z) : ST (kheap M) unit := on_vm (on_mmu (frame_free pa)).

Definition vmalloc_init : ST (kheap M) unit := spinlock_init.

(** ** Descriptors *)

Definition load (p : ptr) : ST (kheap M) block := λ s,
  match p with
  | Some a => match free_pool s !! a with Some b => Some (b, s) | None => None end
  | None => None
  end.
(** [p->f] and [p->f = v] *)
Definition brd {A} (f : block → A) p : ST (kheap M) A := b ← load p; mret (f b).
Definition bwr (f : block → block) p : ST (kheap M) unit :=
  b ← load p; a ← deref p; modify (λ s, set_pool (<[a := f b]> (free_pool s)) s).

Definition init_pool : ST (kheap M) unit :=
  for_each FREE_POOL_CAP 0 (λ i,
    pl ← gets free_pool_list;
    bwr (set_b_next pl) (Some i);;
    modify (set_pool_list (Some i))).

Definition alloc_block : ST (kheap M) ptr :=
  pl ← gets free_pool_list;
  empty ← (if is_null pl then
             ini ← gets pool_initialized;
             when (negb ini) (init_pool;; modify (set_initialized true));;
             pl ← gets free_pool_list;
             mret (is_null pl)
           else mret false);
  if (empty : bool) then mret None
  else
    blk ← gets free_pool_list;
    n ← brd b_next blk;
    modify (set_pool_list n);;
    bwr (set_b_prev None) blk;;
    bwr (set_b_next None) blk;;
    mret blk.

Definition free_block (blk : ptr) : ST (kheap M) unit :=
  pl ← gets free_pool_list;
  bwr (set_b_next pl) blk;;
  modify (set_pool_list blk).

(** ** coalesce_free_list *)

(** [if (p->prev) p->prev->next = p->next; else free_list = p->next;
    if (p->next) p->next->prev = p->prev;] *)
Definition unlink p : ST (kheap M) unit :=
  pv ← brd b_prev p;
  nx ← brd b_next p;
  (if is_null pv then modify (set_free_list nx) else bwr (set_b_next nx) pv);;
  nx ← brd b_next p;
  if is_null nx then mret tt
  else pv ← brd b_prev p; bwr (set_b_prev pv) nx.

(** [a->va + a->size == b->va] *)
Definition abuts (a b : ptr) : ST (kheap M) bool :=
  va ← brd b_va a; sz ← brd b_size a; vb ← brd b_va b;
  mret (u64 (va + sz) =? vb).

(** [a->size += b->size] *)
Definition grow (a b : ptr) : ST (kheap M) unit :=
  sb ← brd b_size b;
  bwr (λ x, set_b_size (u64 (b_size x + sb)) x) a.

(** The body of [while (next)]: the [cur], [next] and [changed] it leaves. *)
Definition merge_body (cur next : ptr) (changed : bool) : ST (kheap M) (ptr * ptr * bool) :=
  cn ← abuts cur next;
  if (cn : bool) then
    grow cur next;;
    unlink cur;;
    unlink next;;
    tmp ← brd b_next next;
    free_block next;;
    mret (cur, tmp, true)
  else
    nc ← abuts next cur;
    if (nc : bool) then
      grow next cur;;
      unlink next;;
      unlink cur;;
      tmp ← brd b_next next;
      free_block cur;;
      mret (next, tmp, true)
    else
      n ← brd b_next next;
      mret (cur, n, changed).

(** [while (next)]: the final [cur] and [changed]. *)
Fixpoint merge_loop (fuel : nat) (cur next : ptr) (changed : bool) : ST (kheap M) (ptr * bool) :=
  match fuel with
  | O => undef
  | S fuel =>
      if is_null next then mret (cur, changed)
      else
        r ← merge_body cur next changed;
        merge_loop fuel r.1.1 r.1.2 r.2
  end.

(** The body of [while (cur)]: the [cur] and [changed] it leaves; [n] bounds
    the inner loop. *)
Definition scan_body (n : nat) (cur : ptr) (changed : bool) : ST (kheap M) (ptr * bool) :=
  next ← brd b_next cur;
  r ← merge_loop n cur next changed;
  cur ← brd b_next r.1;
  mret (cur, r.2).

(** [while (cur)]: the final [changed]. *)
Fixpoint scan_loop (n fuel : nat) (cur : ptr) (changed : bool) : ST (kheap M) bool :=
  match fuel with
  | O => undef
  | S fuel =>
      if is_null cur then mret changed
      else
        r ← scan_body n cur changed;
        scan_loop n fuel r.1 r.2
  end.

(** [while (changed)] *)
Fixpoint change_loop (n fuel : nat) : ST (kheap M) unit :=
  match fuel with
  | O => undef
  | S fuel =>
      cur ← gets free_list;
      changed ← scan_loop n n cur false;
      if (changed : bool) then change_loop n fuel else mret tt
  end.

(** [coalesce_free_list] with at most [n] iterations of each of the three loops. *)
Definition coalesce_with (n : nat) : ST (kheap M) unit :=
  fl ← gets free_list;
  if is_null fl then mret tt else change_loop n n.

(** A list has at most 512 blocks, and a pass that changes nothing is the
    last. *)
Definition coalesce_fuel : nat := S FREE_POOL_CAP.
Definition coalesce_free_list : ST (kheap M) unit := coalesce_with coalesce_fuel.

(** ** Address ranges *)

(** The [free_block_t **] of the search: the list head, or a [next] field. *)
Inductive blink := BHead | BNext (p : ptr).
Definition write_blink (k : blink) (v : ptr) : ST (kheap M) unit :=
  match k with BHead => modify (set_free_list v) | BNext p => bwr (set_b_next v) p end.

(** [while (cur)]: the final [best] and [best_prev]. *)
Fixpoint best_loop (fuel : nat) (size : Z) (prev : blink) (cur best : ptr) (best_prev : blink)
    : ST (kheap M) (ptr * blink) :=
  match fuel with
  | O => undef
  | S fuel =>
      if is_null cur then mret (best, best_prev)
      else
        cs ← brd b_size cur;
        better ← (if size <=? cs then
                    if is_null best then mret true
                    else bs ← brd b_size best; mret (cs <? bs)
                  else mret false);
        n ← brd b_next cur;
        if (better : bool) then best_loop fuel size (BNext cur) n cur prev
        else best_loop fuel size (BNext cur) n best best_prev
  end.

Definition find_free_space (size : Z) : ST (kheap M) Z :=
  flags ← spinlock_lock_irqsave;
  fl ← gets free_list;
  r ← best_loop (S FREE_POOL_CAP) size BHead fl None BHead;
  let '(best, best_prev) := r in
  if negb (is_null best) then
    va ← brd b_va best;
    bs ← brd b_size best;
    (if bs =? size then
       n ← brd b_next best;
       write_blink best_prev n;;
       n ← brd b_next best;
       when (negb (is_null n)) (pv ← brd b_prev best; bwr (set_b_prev pv) n);;
       free_block best
     else
       bwr (λ b, set_b_va (u64 (b_va b + size)) b) best;;
       bwr (λ b, set_b_size (u64 (b_size b - size)) b) best);;
    spinlock_unlock_irqrestore flags;;
    mret va
  else
    vn ← gets vmalloc_next;
    if VMALLOC_END <? u64 (vn + size) then
      spinlock_unlock_irqrestore flags;;
      mret 0
    else
      modify (set_vmalloc_next (u64 (vn + size)));;
      spinlock_unlock_irqrestore flags;;
      mret vn.

Definition add_free_space_with (fuel : nat) (va size : Z) : ST (kheap M) unit :=
  flags ← spinlock_lock_irqsave;
  blk ← alloc_block;
  if is_null blk then spinlock_unlock_irqrestore flags
  else
    bwr (set_b_va va) blk;;
    bwr (set_b_size size) blk;;
    fl ← gets free_list;
    bwr (set_b_next fl) blk;;
    bwr (set_b_prev None) blk;;
    when (negb (is_null fl)) (bwr (set_b_prev blk) fl);;
    modify (set_free_list blk);;
    coalesce_with fuel;;
    spinlock_unlock_irqrestore flags.
Definition add_free_space : Z → Z → ST (kheap M) unit := add_free_space_with coalesce_fuel.

(** ** vmalloc and vfree *)

Definition GUARD_ATTRS : Z := VMM_ATTR_PXN.
Definition DATA_ATTRS : Z :=
  Z.lor (Z.lor (Z.lor VMM_ATTR_R VMM_ATTR_W) VMM_ATTR_NORMAL) VMM_ATTR_PXN.

Definition pages_of (size : Z) : Z := u64 (size + 4095) / 4096.

(** [vmm_map] and [vmm_unmap] with the result dropped. *)
Definition map_ (va pa size attrs : Z) : ST (kheap M) unit :=
  _ ← on_vm (vmm_map va pa size attrs); mret tt.
Definition unmap_ (va size : Z) : ST (kheap M) unit :=
  _ ← on_vm (vmm_unmap va size); mret tt.

(** [vmm_virt_to_phys(va, &pa); vmm_unmap(va, 4096); pmm_free_page(pa);] *)
Definition drop_page (va : Z) : ST (kheap M) unit :=
  r ← on_vm (vmm_virt_to_phys va true);
  pa ← deref (snd r);
  unmap_ va 4096;;
  pmm_free_page pa.
Definition drop_pages (n data_va : Z) : ST (kheap M) unit :=
  for_each (Z.to_nat n) 0 (λ j, drop_page (u64 (data_va + j * 4096))).

(** The way out once the guard page [guard1] is mapped. *)
Definition unwind (base_va guard1 total_size : Z) : ST (kheap M) unit :=
  unmap_ base_va GUARD_SIZE;;
  pmm_free_page guard1;;
  add_free_space base_va total_size.

(** The address as an integer; 0 is [NULL]. *)
Definition vmalloc (size : Z) : ST (kheap M) Z :=
  if size =? 0 then mret 0
  else
    let pages := pages_of size in
    let data_size := u64 (pages * 4096) in
    let total_size := u64 (data_size + 2 * GUARD_SIZE) in
    base_va ← find_free_space total_size;
    if base_va =? 0 then mret 0
    else
      guard1 ← pmm_alloc_page;
      if guard1 =? 0 then add_free_space base_va total_size;; mret 0
      else
        map_ base_va guard1 GUARD_SIZE GUARD_ATTRS;;
        let data_va := u64 (base_va + GUARD_SIZE) in
        r ← for_ret (Z.to_nat pages) 0 (λ i,
          page ← pmm_alloc_page;
          if page =? 0 then
            drop_pages i data_va;;
            unwind base_va guard1 total_size;;
            mret (Some 0)
          else
            map_ (u64 (data_va + i * 4096)) page 4096 DATA_ATTRS;;
            mret None);
        match (r : option Z) with
        | Some v => mret v
        | None =>
            guard2 ← pmm_alloc_page;
            if guard2 =? 0 then
              drop_pages pages data_va;;
              unwind base_va guard1 total_size;;
              mret 0
            else
              map_ (u64 (data_va + data_size)) guard2 GUARD_SIZE GUARD_ATTRS;;
              mret data_va
        end.

(** [if (vmm_virt_to_phys(va, &pa) == 0) { vmm_unmap; pmm_free_page }] *)
Definition free_mapped (va : Z) : ST (kheap M) unit :=
  r ← on_vm (vmm_virt_to_phys va true);
  when (fst r =? 0) (
    pa ← deref (snd r);
    unmap_ va 4096;;
    pmm_free_page pa).

(** [fuel] bounds each loop of the merge at the end. *)
Definition vfree_with (fuel : nat) (ptr0 size : Z) : ST (kheap M) unit :=
  if (ptr0 =? 0) || (size =? 0) then mret tt
  else
    let pages := pages_of size in
    let data_size := u64 (pages * 4096) in
    let data_va := ptr0 in
    let base_va := u64 (data_va - GUARD_SIZE) in
    let total_size := u64 (data_size + 2 * GUARD_SIZE) in
    for_each (Z.to_nat pages) 0 (λ i, free_mapped (u64 (data_va + i * 4096)));;
    free_mapped base_va;;
    free_mapped (u64 (data_va + data_size));;
    add_free_space_with fuel base_va total_size.
Definition vfree : Z → Z → ST (kheap M) unit := vfree_with coalesce_fuel.

(** ** vmalloc_stats *)

Fixpoint stats_loop (fuel : nat) (cur : ptr) (total_free block_count : Z) : ST (kheap M) (Z * Z) :=
  match fuel with
  | O => undef
  | S fuel =>
      if is_null cur then mret (total_free, block_count)
      else
        sz ← brd b_size cur;
        n ← brd b_next cur;
        stats_loop fuel n (u64 (total_free + sz)) (block_count + 1)
  end.

Definition vmalloc_stats : ST (kheap M) unit :=
  flags ← spinlock_lock_irqsave;
  fl ← gets free_list;
  r ← stats_loop (S FREE_POOL_CAP) fl 0 0;
  let '(total_free, block_count) := r in
  vn ← gets vmalloc_next;
  let used := u64 (vn - VMALLOC_START) in
  modify (λ s, set_printed (printed s ++ [(used / 1024, total_free / 1024, block_count)]) s);;
  spinlock_unlock_irqrestore flags.

End kheap.
End Vmalloc.
