(* ===== verification/VmallocThm.v ===== *)
(** * The kernel heap: free address ranges

    The free list is a doubly linked segment over the descriptor pool, and the
    unused descriptors a chain through the same [next] fields.  At the level of
    address ranges [find_free_space] takes the least range that is large enough,
    or moves the bump pointer, and [add_free_space] puts a range in front,
    provided that it abuts no free range. *)
From stdpp Require Import base gmap list option numbers sorting.
From S2P Require Import Prelude Spinlock RBHeap MmuIface Frames Vmm Vmalloc.
#[local] Open Scope Z_scope.
Import Vmalloc.

(** ** Segments *)

(** A range [(va, size)], and a descriptor with its range. *)
Notation range := (Z * Z)%type (only parsing).
Notation desc := (Z * (Z * Z))%type (only parsing).

(** The descriptors [l] from [p], with [pp] before them and [qn] after them. *)
Fixpoint dseg (m : gmap Z block) (pp p : ptr) (l : list desc) (qn : ptr) : Prop :=
  match l with
  | [] => p = qn
  | (a, (va, sz)) :: l =>
      p = Some a ∧ ∃ n, m !! a = Some (Block va sz n pp) ∧ dseg m (Some a) n l qn
  end.

(** The last descriptor of a segment, or what comes before it. *)
Definition endp (pp : ptr) (l : list desc) : ptr :=
  match last l with Some e => Some e.1 | None => pp end.

Lemma endp_cons pp e l : endp pp (e :: l) = endp (Some e.1) l.
Proof. unfold endp. rewrite last_cons. by destruct (last l). Qed.
Lemma endp_snoc pp l e : endp pp (l ++ [e]) = Some e.1.
Proof. unfold endp. by rewrite last_snoc. Qed.

Lemma dseg_app m pp p l1 l2 qn :
  dseg m pp p (l1 ++ l2) qn ↔ ∃ j, dseg m pp p l1 j ∧ dseg m (endp pp l1) j l2 qn.
Proof.
  revert pp p. induction l1 as [|[a [va sz]] l1 IH]; intros pp p; simpl.
  - split; [intros H; by exists p|by intros (j & -> & H)].
  - setoid_rewrite IH. setoid_rewrite endp_cons. naive_solver.
Qed.

Lemma dseg_frame m m' pp p l qn :
  (∀ a, a ∈ l.*1 → m' !! a = m !! a) → dseg m pp p l qn → dseg m' pp p l qn.
Proof.
  revert pp p. induction l as [|[a [va sz]] l IH]; intros pp p Heq; simpl; [done|].
  intros (-> & n & Ha & Hl). split; [done|]. exists n. split; [by rewrite Heq by left|].
  apply IH; [|done]. intros b Hb. apply Heq. by right.
Qed.

(** Reading and rewriting members of a segment. *)
Lemma dseg_load m pp p l qn e :
  dseg m pp p l qn → e ∈ l → ∃ b, m !! e.1 = Some b ∧ b_va b = e.2.1 ∧ b_size b = e.2.2.
Proof.
  intros Hl (l1 & l2 & ->)%list_elem_of_split. apply dseg_app in Hl as (j & _ & Hl).
  destruct e as [a [va sz]]. destruct Hl as (_ & n & Ha & _). by eexists.
Qed.

Lemma dseg_resize m pp p l1 a va sz l2 qn :
  dseg m pp p (l1 ++ (a, (va, sz)) :: l2) qn → a ∉ l1.*1 ++ l2.*1 →
  ∃ b, m !! a = Some b ∧ b_va b = va ∧ b_size b = sz ∧
    ∀ b', b_next b' = b_next b → b_prev b' = b_prev b →
      dseg (<[a := b']> m) pp p (l1 ++ (a, (b_va b', b_size b')) :: l2) qn.
Proof.
  rewrite elem_of_app. intros Hl Ha. apply dseg_app in Hl as (j & Hl1 & -> & n & Hb & Hl2).
  eexists. split; [exact Hb|]. split; [done|]. split; [done|]. intros b' Hn Hp.
  apply dseg_app. exists (Some a). split.
  - eapply dseg_frame; [|exact Hl1]. intros c Hc. apply lookup_insert_ne. intros ->. by apply Ha; left.
  - split; [done|]. exists n. rewrite lookup_insert_eq. split.
    + destruct b'; simpl in *. by subst.
    + eapply dseg_frame; [|exact Hl2]. intros c Hc. apply lookup_insert_ne. intros ->. by apply Ha; right.
Qed.

Lemma dseg_retarget m pp p l e j j' :
  dseg m pp p (l ++ [e]) j → e.1 ∉ l.*1 →
  ∃ b, m !! e.1 = Some b ∧ dseg (<[e.1 := set_b_next j' b]> m) pp p (l ++ [e]) j'.
Proof.
  destruct e as [a [va sz]]. cbn [fst snd]. intros Hl Ha. apply dseg_app in Hl as (k & Hl & -> & n & Hb & ->).
  eexists. split; [exact Hb|]. apply dseg_app. exists (Some a). split.
  - eapply dseg_frame; [|exact Hl]. intros c Hc. apply lookup_insert_ne. by intros ->.
  - split; [done|]. exists j'. by rewrite lookup_insert_eq.
Qed.

Lemma dseg_rehead m pp pp' p e l qn :
  dseg m pp p (e :: l) qn → e.1 ∉ l.*1 →
  p = Some e.1 ∧ ∃ b, m !! e.1 = Some b ∧ dseg (<[e.1 := set_b_prev pp' b]> m) pp' p (e :: l) qn.
Proof.
  destruct e as [a [va sz]]. cbn [fst snd]. intros (-> & n & Hb & Hl) Ha. split; [done|].
  eexists. split; [exact Hb|]. split; [done|]. exists n. split; [by rewrite lookup_insert_eq|].
  eapply dseg_frame; [|exact Hl]. intros c Hc. apply lookup_insert_ne. by intros ->.
Qed.

(** Unused descriptors are linked by [next] alone. *)
Fixpoint unused (m : gmap Z block) (p : ptr) (l : list Z) : Prop :=
  match l with
  | [] => p = None
  | a :: l => p = Some a ∧ ∃ b, m !! a = Some b ∧ unused m (b_next b) l
  end.

Lemma unused_frame m m' p l :
  (∀ a, a ∈ l → m' !! a = m !! a) → unused m p l → unused m' p l.
Proof.
  revert p. induction l as [|a l IH]; intros p Heq; simpl; [done|].
  intros (-> & b & Ha & Hl). split; [done|]. exists b. split; [by rewrite Heq by left|].
  apply IH; [|done]. intros c Hc. apply Heq. by right.
Qed.

(** ** Ranges *)

Definition range_ok (r : range) : Prop := 0 ≤ r.1 ∧ 0 < r.2 ∧ r.1 + r.2 < 2 ^ 64.
Definition range_end (r : range) : Z := r.1 + r.2.
(** Neither range ends where the other begins. *)
Definition clear_of (r t : range) : Prop := range_end r ≠ t.1 ∧ range_end t ≠ r.1.
Fixpoint all_clear (F : list range) : Prop :=
  match F with
  | [] => True
  | r :: F => Forall (clear_of r) F ∧ all_clear F
  end.

Section kheap.
Context {M : Type} `{!MmuOps M, !FrameOps M}.
Implicit Types (s : kheap M).

Record pool_rep s (els : list desc) (free : list Z) : Prop := {
  hp_list : dseg (free_pool s) None (free_list s) els None;
  hp_unused : unused (free_pool s) (free_pool_list s) free;
  hp_all : els.*1 ++ free ≡ₚ (if pool_initialized s then seqZ 0 512 else []);
  hp_pool : ∀ i, 0 ≤ i < 512 → is_Some (free_pool s !! i);
  hp_ranges : Forall range_ok els.*2;
}.

Definition ranges_rep s (F : list range) : Prop := ∃ els free, pool_rep s els free ∧ els.*2 = F.

(** What the list code leaves alone. *)
Definition same_rest s s' : Prop :=
  vmalloc_lock s' = vmalloc_lock s ∧ vmalloc_daif s' = vmalloc_daif s ∧
  vmalloc_next s' = vmalloc_next s ∧ printed s' = printed s ∧ vm s' = vm s.

#[export] Instance same_rest_po : PreOrder same_rest.
Proof.
  unfold same_rest. split; [by intros s|]. intros s1 s2 s3 (?&?&?&?&?) (?&?&?&?&?).
  repeat split; congruence.
Qed.

Lemma hp_nodup s els free : pool_rep s els free → NoDup (els.*1 ++ free).
Proof.
  intros H. rewrite (hp_all _ _ _ H). destruct (pool_initialized s); [apply NoDup_seqZ|constructor].
Qed.

Lemma hp_length s els free : pool_rep s els free → (length els + length free ≤ 512)%nat.
Proof.
  intros H. pose proof (Permutation_length (hp_all _ _ _ H)) as Hl.
  rewrite length_app, length_fmap in Hl. rewrite Hl.
  destruct (pool_initialized s); [rewrite length_seqZ|simpl]; lia.
Qed.

(** ** Descriptor accesses *)

Lemma wp_brd {A} (f : block → A) s a b (Q : A → kheap M → Prop) :
  free_pool s !! a = Some b → Q (f b) s → wp (brd f (Some a)) Q s.
Proof. intros Ha HQ. exists (f b), s. unfold brd, load, mbind, st_bind. by rewrite Ha. Qed.

Lemma wp_bwr f s a b (Q : unit → kheap M → Prop) :
  free_pool s !! a = Some b → Q tt (set_pool (<[a := f b]> (free_pool s)) s) →
  wp (bwr f (Some a)) Q s.
Proof.
  intros Ha HQ. eexists tt, _. split; [|exact HQ].
  unfold bwr, load, mbind, st_bind. by rewrite Ha.
Qed.

(** ** The descriptor pool *)

(** [init_pool] strings all descriptors together. *)
Definition pool_upto s (n : Z) s' : Prop :=
  same_rest s s' ∧ free_list s' = free_list s ∧ pool_initialized s' = pool_initialized s ∧
  unused (free_pool s') (free_pool_list s') (reverse (seqZ 0 n)) ∧
  (∀ i, 0 ≤ i < 512 → is_Some (free_pool s' !! i)).

Lemma wp_init_pool s (Q : unit → kheap M → Prop) :
  free_pool_list s = None → (∀ i, 0 ≤ i < 512 → is_Some (free_pool s !! i)) →
  (∀ s', pool_upto s 512 s' → Q tt s') → wp init_pool Q s.
Proof.
  intros Hpl Hdom HQ. unfold init_pool. apply (wp_for_each (pool_upto s)).
  - split_and!; [done|done|done|by rewrite Hpl|done].
  - intros j s1 Hj (Hrest & Hfl & Hini & Hun & Hd). apply wp_bind, wp_gets, wp_bind.
    destruct (Hd j) as [b Hb]; [unfold FREE_POOL_CAP in Hj; lia|].
    eapply wp_bwr; [exact Hb|]. apply wp_modify. split_and!; [done|done|done| |].
    + rewrite seqZ_app by lia. change (seqZ (0 + j) 1) with [j]. rewrite reverse_snoc. simpl. split; [done|].
      eexists. split; [by rewrite lookup_insert_eq|]. simpl.
      eapply unused_frame; [|exact Hun]. intros a Ha. rewrite elem_of_reverse, elem_of_seqZ in Ha.
      apply lookup_insert_ne. lia.
    + intros i Hi. simpl. rewrite lookup_insert_is_Some'. right. by apply Hd.
  - intros s1 H. apply HQ. exact H.
Qed.

(** A state with one descriptor, [a], taken out of the pool. *)
Record drawn s (els : list desc) (a : Z) (free : list Z) : Prop := {
  dr_list : dseg (free_pool s) None (free_list s) els None;
  dr_unused : unused (free_pool s) (free_pool_list s) free;
  dr_all : els.*1 ++ a :: free ≡ₚ seqZ 0 512;
  dr_ini : pool_initialized s = true;
  dr_pool : ∀ i, 0 ≤ i < 512 → is_Some (free_pool s !! i);
}.

Lemma drawn_nodup s els a free : drawn s els a free → NoDup (els.*1 ++ a :: free).
Proof. intros H. rewrite (dr_all _ _ _ _ H). apply NoDup_seqZ. Qed.

Lemma drawn_fresh s els a free : drawn s els a free → a ∉ els.*1 ∧ a ∉ free ∧ 0 ≤ a < 512.
Proof.
  intros H. pose proof (drawn_nodup _ _ _ _ H) as Hnd.
  apply list.NoDup_app in Hnd as (_ & Hd & Hnd). apply list.NoDup_cons in Hnd as [Hf _].
  split_and!; [intros Ha; apply (Hd a Ha); by left|done| |];
    assert (Ha : a ∈ seqZ 0 512) by (rewrite <-(dr_all _ _ _ _ H), elem_of_app; right; by left);
    apply elem_of_seqZ in Ha; lia.
Qed.

Lemma drawn_load s els a free : drawn s els a free → ∃ b, free_pool s !! a = Some b.
Proof. intros H. apply (dr_pool _ _ _ _ H). by apply (drawn_fresh _ _ _ _ H). Qed.

(** Writing the descriptor that is out does not disturb the lists. *)
Lemma drawn_write s els a free b :
  drawn s els a free → drawn (set_pool (<[a := b]> (free_pool s)) s) els a free.
Proof.
  intros H. destruct (drawn_fresh _ _ _ _ H) as (Hl & Hf & Hr). destruct H as [Hli Hun Hall Hini Hd].
  split; simpl; [| |done|done|].
  - eapply dseg_frame; [|exact Hli]. intros c Hc. apply lookup_insert_ne. by intros ->.
  - eapply unused_frame; [|exact Hun]. intros c Hc. apply lookup_insert_ne. by intros ->.
  - intros i Hi. rewrite lookup_insert_is_Some'. right. by apply Hd.
Qed.

Lemma drawn_intro s els a free :
  pool_rep s els (a :: free) → pool_initialized s = true →
  ∃ b, free_pool s !! a = Some b ∧ free_pool_list s = Some a ∧
    drawn (set_pool_list (b_next b) s) els a free.
Proof.
  intros H Hini. destruct H as [Hli (Hpl & b & Hb & Hun) Hall Hd _]. rewrite Hini in Hall.
  exists b. by split_and!.
Qed.

Lemma wp_alloc_block s els free (Q : ptr → kheap M → Prop) :
  pool_rep s els free →
  (pool_initialized s = true → free = [] → Q None s) →
  (∀ s' a free', drawn s' els a free' → same_rest s s' → free_list s' = free_list s → Q (Some a) s') →
  wp alloc_block Q s.
Proof.
  intros H Hnone Hsome. unfold alloc_block.
  assert (Htake : ∀ s1 a free', pool_rep s1 els (a :: free') → pool_initialized s1 = true →
    same_rest s s1 → free_list s1 = free_list s →
    wp (blk ← gets free_pool_list; n ← brd b_next blk; modify (set_pool_list n);;
        bwr (set_b_prev None) blk;; bwr (set_b_next None) blk;; mret blk) Q s1).
  { intros s1 a free' H1 Hini Hrest Hfl. destruct (drawn_intro _ _ _ _ H1 Hini) as (b & Hb & Hpl & Hdr).
    apply wp_bind, wp_gets. rewrite Hpl. apply wp_bind. eapply wp_brd; [exact Hb|].
    apply wp_bind, wp_modify, wp_bind. eapply wp_bwr; [exact Hb|].
    apply (drawn_write _ _ _ _ (set_b_prev None b)) in Hdr. apply wp_bind.
    eapply wp_bwr; [simpl; by rewrite lookup_insert_eq|].
    apply (drawn_write _ _ _ _ (set_b_next None (set_b_prev None b))) in Hdr.
    apply wp_ret. eapply Hsome; [exact Hdr| |exact Hfl]. etrans; [exact Hrest|]. by repeat split. }
  apply wp_bind, wp_gets, wp_bind. destruct free as [|a free'].
  - pose proof (hp_unused _ _ _ H) as Hpl. simpl in Hpl. rewrite Hpl. simpl.
    apply wp_bind, wp_gets. destruct (pool_initialized s) eqn:Hini; simpl.
    + apply wp_bind, wp_ret. apply wp_bind, wp_gets, wp_ret. rewrite Hpl. simpl.
      apply wp_ret. by apply Hnone.
    + pose proof (hp_all _ _ _ H) as Hnil. rewrite Hini, app_nil_r in Hnil.
      symmetry in Hnil. apply Permutation_nil, fmap_nil_inv in Hnil. subst els.
      apply wp_bind, wp_bind, (wp_init_pool s); [exact Hpl|apply (hp_pool _ _ _ H)|].
      intros s1 (Hrest & Hfl & _ & Hun & Hd). apply wp_modify, wp_bind, wp_gets, wp_ret.
      change (seqZ 0 512) with (seqZ 0 511 ++ [511]) in Hun. rewrite reverse_snoc in Hun.
      assert (H1 : pool_rep (set_initialized true s1) [] (511 :: reverse (seqZ 0 511))).
      { split; simpl; [by rewrite Hfl; apply (hp_list _ _ _ H)|exact Hun| |done|constructor].
        rewrite reverse_Permutation. apply Permutation_cons_append. }
      change (free_pool_list (set_initialized true s1)) with (free_pool_list s1).
      destruct Hun as [-> _]. simpl. by eapply Htake.
  - pose proof (hp_unused _ _ _ H) as [Hpl _]. rewrite Hpl. simpl. apply wp_ret.
    eapply Htake; [exact H| |done|done].
    pose proof (hp_all _ _ _ H) as Hall. destruct (pool_initialized s); [done|].
    symmetry in Hall. apply Permutation_nil, app_eq_nil in Hall as [_ ?]. done.
Qed.

(** Putting a descriptor back. *)
Lemma wp_free_block s els a free (Q : unit → kheap M → Prop) :
  drawn s els a free → Forall range_ok els.*2 →
  (∀ s', pool_rep s' els (a :: free) → same_rest s s' → Q tt s') →
  wp (free_block (Some a)) Q s.
Proof.
  intros Hdr Hok HQ. unfold free_block. apply wp_bind, wp_gets, wp_bind.
  destruct (drawn_load _ _ _ _ Hdr) as [b Hb]. eapply wp_bwr; [exact Hb|]. apply wp_modify.
  apply (drawn_write _ _ _ _ (set_b_next (free_pool_list s) b)) in Hdr.
  destruct Hdr as [Hli Hun Hall Hini Hd]. simpl in *. apply HQ; [|by repeat split].
  split; simpl; [done| |by rewrite Hini|done|done].
  split; [done|]. eexists. split; [by rewrite lookup_insert_eq|]. done.
Qed.

(** ** The best fit *)

(** The field through which a list is continued after [l]. *)
Definition link_after (l : list desc) : blink :=
  match endp None l with Some a => BNext (Some a) | None => BHead end.

Lemma link_after_snoc l e : link_after (l ++ [e]) = BNext (Some e.1).
Proof. unfold link_after. by rewrite endp_snoc. Qed.

(** The least descriptor of at least [size] bytes, and the link to it. *)
Definition candidate (size : Z) (l : list desc) (best : option desc) (k : blink) : Prop :=
  match best with
  | None => ∀ e, e ∈ l → e.2.2 < size
  | Some b => ∃ l1 l2, l = l1 ++ b :: l2 ∧ k = link_after l1 ∧ size ≤ b.2.2 ∧
      ∀ e, e ∈ l → size ≤ e.2.2 → b.2.2 ≤ e.2.2
  end.

Lemma candidate_keep size l best k e :
  candidate size l best k → (size ≤ e.2.2 → ∃ b, best = Some b ∧ b.2.2 ≤ e.2.2) →
  candidate size (l ++ [e]) best k.
Proof.
  destruct best as [b|]; simpl.
  - intros (l1 & l2 & -> & -> & Hs & Hmin) He. exists l1, (l2 ++ [e]).
    split_and!; [by rewrite <-app_assoc|done|done|].
    intros e' [?| ->%list_elem_of_singleton]%elem_of_app Hs'; [by apply Hmin|].
    destruct (He Hs') as (? & [= <-] & ?). done.
  - intros Hl He e' [?| ->%list_elem_of_singleton]%elem_of_app; [by apply Hl|].
    destruct (Z.lt_ge_cases e.2.2 size) as [|Hge]; [done|]. destruct (He Hge) as (? & ? & _). done.
Qed.

Lemma candidate_new size l best k e :
  candidate size l best k → size ≤ e.2.2 → (∀ b, best = Some b → e.2.2 < b.2.2) →
  candidate size (l ++ [e]) (Some e) (link_after l).
Proof.
  intros Hc Hs Hb. exists l, []. split_and!; [done|done|done|].
  intros e' [He'| ->%list_elem_of_singleton]%elem_of_app Hs'; [|done]. destruct best as [b|]; simpl in Hc.
  - destruct Hc as (l1 & l2 & _ & _ & _ & Hmin). specialize (Hb b eq_refl). specialize (Hmin _ He' Hs'). lia.
  - specialize (Hc _ He'). lia.
Qed.

Lemma wp_best_loop fuel s size l1 l2 cur best k (Q : ptr * blink → kheap M → Prop) :
  dseg (free_pool s) None (free_list s) (l1 ++ l2) None →
  dseg (free_pool s) (endp None l1) cur l2 None →
  candidate size l1 best k → (length l2 < fuel)%nat →
  (∀ best' k', candidate size (l1 ++ l2) best' k' → Q (fst <$> best', k') s) →
  wp (best_loop fuel size (link_after l1) cur (fst <$> best) k) Q s.
Proof.
  intros Hall. revert l1 l2 cur best k Hall. induction fuel as [|fuel IH]; intros l1 l2 cur best k Hall Hl Hc Hlen HQ; [lia|].
  simpl. destruct l2 as [|[a [va sz]] l2].
  { simpl in Hl. subst cur. simpl. apply wp_ret, HQ. by rewrite app_nil_r. }
  destruct Hl as (-> & n & Ha & Hl). simpl. apply wp_bind. eapply wp_brd; [exact Ha|]. simpl.
  assert (Hall' : dseg (free_pool s) None (free_list s) ((l1 ++ [(a, (va, sz))]) ++ l2) None)
    by by rewrite <-app_assoc.
  assert (Hnext : ∀ best' k', candidate size (l1 ++ [(a, (va, sz))]) best' k' →
    wp (best_loop fuel size (BNext (Some a)) n (fst <$> best') k') Q s).
  { intros best' k' Hc'. replace (BNext (Some a)) with (link_after (l1 ++ [(a, (va, sz))])) by apply link_after_snoc.
    apply (IH _ l2); [done| |done| |].
    - by rewrite endp_snoc.
    - simpl in Hlen. lia.
    - intros b'' k''. rewrite <-app_assoc. apply HQ. }
  apply wp_bind. destruct (Z.leb_spec size sz) as [Hle|Hgt]; simpl.
  - destruct best as [b|]; simpl.
    + destruct Hc as (m1 & m2 & -> & Hk & Hs & Hmin).
      destruct (dseg_load _ _ _ _ _ b Hall) as (bb & Hb & _ & Hbs).
      { rewrite elem_of_app. left. rewrite elem_of_app. right. by left. }
      apply wp_bind. eapply wp_brd; [exact Hb|]. rewrite Hbs. apply wp_ret, wp_bind.
      eapply wp_brd; [exact Ha|]. simpl. destruct (Z.ltb_spec sz b.2.2) as [Hlt|Hge].
      * apply (Hnext (Some (a, (va, sz)))). apply (candidate_new _ _ (Some b) k); [by exists m1, m2|done|].
        by intros ? [= <-].
      * apply (Hnext (Some b)). apply candidate_keep; [by exists m1, m2|]. intros _. by exists b.
    + apply wp_ret, wp_bind. eapply wp_brd; [exact Ha|]. simpl.
      apply (Hnext (Some (a, (va, sz)))). by apply (candidate_new _ _ None k).
  - apply wp_ret, wp_bind. eapply wp_brd; [exact Ha|]. simpl. apply Hnext.
    apply candidate_keep; [done|]. simpl. lia.
Qed.

(** [*link = v] for the link that follows [l1]. *)
Lemma wp_write_blink s l1 l2 j v (Q : unit → kheap M → Prop) :
  dseg (free_pool s) None (free_list s) l1 j → NoDup (l1.*1 ++ l2) →
  (∀ m fl, dseg m None fl l1 v → (∀ c, c ∈ l2 → m !! c = free_pool s !! c) →
     (∀ c, is_Some (free_pool s !! c) → is_Some (m !! c)) →
     Q tt (set_pool m (set_free_list fl s))) →
  wp (write_blink (link_after l1) v) Q s.
Proof.
  intros Hl Hnd HQ. destruct l1 as [|e l1 _] using rev_ind.
  - apply wp_modify. specialize (HQ (free_pool s) v). apply HQ; [done|done|done].
  - rewrite link_after_snoc. rewrite fmap_app in Hnd.
    apply list.NoDup_app in Hnd as (Hnd1 & Hd & Hnd2). apply list.NoDup_app in Hnd1 as (_ & Hd1 & _).
    destruct (dseg_retarget _ _ _ _ _ _ v Hl) as (b & Hb & Hseg).
    { intros Ha. apply (Hd1 _ Ha). by left. }
    eapply wp_bwr; [exact Hb|].
    replace (set_pool (<[e.1:=set_b_next v b]> (free_pool s)) s)
      with (set_pool (<[e.1:=set_b_next v b]> (free_pool s)) (set_free_list (free_list s) s)) by by destruct s.
    apply HQ; [done| |].
    + intros c Hc. apply lookup_insert_ne. intros <-. apply (Hd e.1); [|done].
      apply elem_of_app. right. by left.
    + intros c Hc. rewrite lookup_insert_is_Some'. by right.
Qed.

(** Taking [e] out of the middle of the list. *)
Lemma wp_cut s l1 e l2 free (rest : ST (kheap M) unit) (Q : unit → kheap M → Prop) :
  pool_rep s (l1 ++ e :: l2) free →
  (∀ s', drawn s' (l1 ++ l2) e.1 free → same_rest s s' → wp rest Q s') →
  wp (n ← brd b_next (Some e.1);
      write_blink (link_after l1) n;;
      n ← brd b_next (Some e.1);
      when (negb (is_null n)) (pv ← brd b_prev (Some e.1); bwr (set_b_prev pv) n);;
      rest) Q s.
Proof.
  destruct e as [a [va sz]]. cbn [fst]. intros H HQ. pose proof (hp_nodup _ _ _ H) as Hnd.
  pose proof (hp_ranges _ _ _ H) as Hok. rewrite fmap_app, fmap_cons in Hok.
  assert (Hini : pool_initialized s = true).
  { pose proof (hp_all _ _ _ H) as Hall. destruct (pool_initialized s); [done|].
    symmetry in Hall. apply Permutation_nil in Hall. rewrite fmap_app in Hall. by destruct (l1.*1). }
  destruct H as [Hli Hun Hall Hd _]. rewrite Hini in Hall.
  apply dseg_app in Hli as (j & Hl1 & Hj & n & Ha & Hl2). subst j.
  assert (Hnd' : NoDup (l1.*1 ++ (a :: l2.*1 ++ free))).
  { rewrite fmap_app, fmap_cons, <-app_assoc in Hnd. exact Hnd. }
  assert (Hall' : (l1 ++ l2).*1 ++ a :: free ≡ₚ seqZ 0 512).
  { rewrite <-Hall. rewrite !fmap_app, fmap_cons. simpl. solve_Permutation. }
  apply wp_bind. eapply wp_brd; [exact Ha|]. simpl. apply wp_bind.
  apply (wp_write_blink s l1 (a :: l2.*1 ++ free) (Some a) n); [exact Hl1|exact Hnd'|].
  intros m fl Hl1' Hsame Hdom. apply wp_bind.
  assert (Ham : m !! a = Some (Block va sz n (endp None l1))) by (rewrite Hsame by left; exact Ha).
  eapply wp_brd; [exact Ham|]. simpl.
  apply list.NoDup_app in Hnd' as (_ & Hd1 & Hnd2). apply list.NoDup_cons in Hnd2 as [Ha2 Hnd2].
  assert (Hl2m : dseg m (Some a) n l2 None).
  { eapply dseg_frame; [|exact Hl2]. intros c Hc. apply Hsame. right. apply elem_of_app. by left. }
  assert (Hunm : unused m (free_pool_list s) free).
  { eapply unused_frame; [|exact Hun]. intros c Hc. apply Hsame. right. apply elem_of_app. by right. }
  assert (Hfin : ∀ m', dseg m' None fl (l1 ++ l2) None → unused m' (free_pool_list s) free →
    (∀ c, is_Some (m !! c) → is_Some (m' !! c)) → wp rest Q (set_pool m' (set_free_list fl s))).
  { intros m' Hm' Hu' Hd'. apply HQ; [|by repeat split]. split; simpl; [done|done|done|done|].
    intros i Hi. by apply Hd', Hdom, Hd. }
  destruct l2 as [|e' l2].
  - simpl in Hl2m. subst n. simpl. apply wp_bind, wp_ret, Hfin; [|done|done]. by rewrite app_nil_r.
  - apply list.NoDup_app in Hnd2 as (Hnd2 & Hd2 & _).
    apply list.NoDup_cons in Hnd2 as [He' _].
    destruct (dseg_rehead _ _ (endp None l1) _ _ _ _ Hl2m He') as (-> & b' & Hb' & Hseg).
    simpl. apply wp_bind, wp_bind. eapply wp_brd; [exact Ham|]. eapply wp_bwr; [exact Hb'|]. simpl.
    apply Hfin.
    + apply dseg_app. exists (Some e'.1). split; [|exact Hseg].
      eapply dseg_frame; [|exact Hl1']. intros c Hc. apply lookup_insert_ne. intros <-.
      apply (Hd1 e'.1 Hc). right. by left.
    + eapply unused_frame; [|exact Hunm]. intros c Hc. apply lookup_insert_ne. intros <-.
      apply (Hd2 e'.1); [by left|done].
    + intros c Hc. rewrite lookup_insert_is_Some'. by right.
Qed.

(** ** find_free_space *)

(** What a request of [size] bytes does to the free ranges [F] and the bump
    pointer [vn]: the least range that is large enough gives its front part;
    failing that, the bump pointer moves. *)
Inductive take (size : Z) (F : list range) (vn : Z) : Z → list range → Z → Prop :=
  | take_best F1 va sz F2 :
      F = F1 ++ (va, sz) :: F2 → size ≤ sz → (∀ r, r ∈ F → size ≤ r.2 → sz ≤ r.2) →
      take size F vn va
        (F1 ++ (if sz =? size then [] else [(va + size, sz - size)]) ++ F2) vn
  | take_bump :
      (∀ r, r ∈ F → r.2 < size) → vn + size ≤ VMALLOC_END → take size F vn vn F (vn + size).

Definition exhausted (size : Z) (F : list range) (vn : Z) : Prop :=
  (∀ r, r ∈ F → r.2 < size) ∧ VMALLOC_END < vn + size.

(** The list code runs inside the lock. *)
Definition locked s : kheap M := set_lock 1 (set_daif (Z.lor (vmalloc_daif s) DAIF_I) s).

Lemma wp_heap_lock {A} (body : Z → ST (kheap M) A) (Q : A → kheap M → Prop) s :
  vmalloc_lock s = 0 → wp (body (vmalloc_daif s)) Q (locked s) →
  wp (flags ← spinlock_lock_irqsave; body flags) Q s.
Proof. intros Hl H. apply wp_bind, wp_lock_irqsave; [intros v; exact Hl|exact H]. Qed.

Definition unlocked flags s : kheap M := set_daif flags (set_lock 0 s).

(** The states an operation on the ranges can end in. *)
Record heap_step s (F' : list range) (vn' : Z) s' : Prop := {
  hs_ranges : ranges_rep s' F';
  hs_next : vmalloc_next s' = vn';
  hs_lock : vmalloc_lock s' = 0;
  hs_daif : vmalloc_daif s' = vmalloc_daif s;
  hs_printed : printed s' = printed s;
  hs_vm : vm s' = vm s;
}.

Lemma rep_locked s els free : pool_rep s els free → pool_rep (locked s) els free.
Proof. by intros [? ? ? ? ?]. Qed.

Lemma step_unlock s s1 els free F' vn' :
  pool_rep s1 els free → els.*2 = F' →
  vmalloc_next s1 = vn' → printed s1 = printed s → vm s1 = vm s →
  heap_step s F' vn' (unlocked (vmalloc_daif s) s1).
Proof. intros [? ? ? ? ?] HF Hn Hp Hv. split; try done. exists els, free. by split. Qed.

Lemma unlocked_locked s : vmalloc_lock s = 0 → unlocked (vmalloc_daif s) (locked s) = s.
Proof. destruct s. simpl. by intros ->. Qed.

Lemma wp_heap_unlock flags (Q : unit → kheap M → Prop) s :
  Q tt (unlocked flags s) → wp (spinlock_unlock_irqrestore flags) Q s.
Proof. intros H. by apply wp_unlock_irqrestore. Qed.

Lemma ranges_split (l1 : list desc) a r l2 :
  (l1 ++ (a, r) :: l2).*2 = l1.*2 ++ r :: l2.*2.
Proof. by rewrite fmap_app, fmap_cons. Qed.

Lemma wp_find_free_space s F size (Q : Z → kheap M → Prop) :
  ranges_rep s F → vmalloc_lock s = 0 → 0 < size → 0 ≤ vmalloc_next s → vmalloc_next s + size < 2 ^ 64 →
  (∀ base F' vn' s', take size F (vmalloc_next s) base F' vn' → heap_step s F' vn' s' → Q base s') →
  (exhausted size F (vmalloc_next s) → Q 0 s) →
  wp (find_free_space size) Q s.
Proof.
  intros (els & free & Hrep & HF) Hlk Hsz Hvn Hov Hok Hno. unfold find_free_space.
  apply wp_heap_lock; [done|]. apply rep_locked in Hrep. apply wp_bind, wp_gets, wp_bind.
  pose proof (hp_length _ _ _ Hrep) as Hlen. pose proof (hp_list _ _ _ Hrep) as Hli.
  apply (wp_best_loop (S FREE_POOL_CAP) (locked s) size [] els (free_list (locked s)) None BHead);
    [exact Hli|exact Hli|by intros e He%elem_of_nil|unfold FREE_POOL_CAP; lia|].
  intros best k Hc. simpl in Hc. simpl app in Hc. destruct best as [[a [va sz]]|]; simpl.
  - destruct Hc as (l1 & l2 & Hels & -> & Hle & Hmin). cbn [snd] in *. subst els.
    rewrite ranges_split in HF.
    assert (Hleast : ∀ r, r ∈ F → size ≤ r.2 → sz ≤ r.2).
    { intros r Hr Hs. rewrite <-HF, <-(ranges_split l1 a) in Hr. apply list_elem_of_fmap in Hr as (e & -> & He).
      by apply (Hmin e He). }
    pose proof (take_best size F (vmalloc_next s) l1.*2 va sz l2.*2 (eq_sym HF) Hle Hleast) as Htake.
    pose proof (hp_nodup _ _ _ Hrep) as Hnd. pose proof (hp_ranges _ _ _ Hrep) as Hro.
    rewrite ranges_split in Hro. rewrite Forall_app, list.Forall_cons in Hro. destruct Hro as (Hro1 & Hrv & Hro2).
    assert (Hal : a ∉ l1.*1 ++ l2.*1).
    { rewrite fmap_app, fmap_cons in Hnd. apply list.NoDup_app in Hnd as (Hnd & _ & _).
      apply list.NoDup_app in Hnd as (_ & Hd1 & Hnd). apply list.NoDup_cons in Hnd as [Ha2 _].
      intros [Ha|Ha]%elem_of_app; [|done]. apply (Hd1 a Ha). by left. }
    destruct (dseg_resize _ _ _ _ _ _ _ _ _ Hli Hal) as (b & Hb & Hbva & Hbsz & Hupd).
    apply wp_bind. eapply wp_brd; [exact Hb|]. apply wp_bind. eapply wp_brd; [exact Hb|].
    rewrite Hbva, Hbsz. apply wp_bind. destruct (Z.eqb_spec sz size) as [->|Hne].
    + apply (wp_cut (locked s) l1 (a, (va, size)) l2 free (free_block (Some a))); [exact Hrep|].
      intros s1 Hdr Hrest1. apply (wp_free_block s1 _ _ _ _ Hdr); [rewrite fmap_app; by apply Forall_app|].
      intros s2 Hrep2 Hrest2. apply wp_bind, wp_heap_unlock, wp_ret. 
      eapply Hok; [exact Htake|]. assert (Hrest : same_rest (locked s) s2) by by etrans.
      destruct Hrest as (_ & _ & Hn2 & Hp2 & Hv2).
      eapply step_unlock; [exact Hrep2|by rewrite fmap_app|done|done|done].
    + apply wp_bind. eapply wp_bwr; [exact Hb|]. eapply wp_bwr; [simpl; apply lookup_insert_eq|].
      simpl. rewrite insert_insert_eq. apply wp_bind, wp_heap_unlock, wp_ret.
      destruct Hrv as (Hr1 & Hr2 & Hr3). simpl in Hr1, Hr2, Hr3.
      specialize (Hupd (set_b_size (u64 (sz - size)) (set_b_va (u64 (va + size)) b)) eq_refl eq_refl).
      simpl in Hupd. unfold u64 in Hupd. rewrite !(wrap_small 64) in Hupd by lia.
      eapply Hok; [exact Htake|].
      eapply (step_unlock s _ (l1 ++ (a, (va + size, sz - size)) :: l2) free); [|by rewrite ranges_split|done|done|done].
      unfold u64. rewrite Hbva, Hbsz, !(wrap_small 64) by lia.
      apply Z.eqb_neq in Hne. split; simpl.
      * exact Hupd.
      * eapply unused_frame; [|apply (hp_unused _ _ _ Hrep)]. intros c Hc. apply lookup_insert_ne.
        intros <-. apply list.NoDup_app in Hnd as (_ & Hd & _). apply (Hd a); [|done].
        rewrite fmap_app, elem_of_app, fmap_cons. right. by left.
      * pose proof (hp_all _ _ _ Hrep) as Hall. rewrite fmap_app, fmap_cons in *. exact Hall.
      * intros i Hi. rewrite lookup_insert_is_Some'. right. by apply (hp_pool _ _ _ Hrep).
      * rewrite ranges_split. apply Forall_app; split; [done|]. constructor; [|done].
        unfold range_ok. simpl. lia.
  - apply wp_bind, wp_gets. change (vmalloc_next (locked s)) with (vmalloc_next s).
    unfold u64. rewrite (wrap_small 64) by lia.
    assert (Hall : ∀ r, r ∈ F → r.2 < size).
    { intros r Hr. rewrite <-HF in Hr. apply list_elem_of_fmap in Hr as (e & -> & He). by apply Hc. }
    destruct (Z.ltb_spec VMALLOC_END (vmalloc_next s + size)) as [Hend|Hend].
    + apply wp_bind, wp_heap_unlock, wp_ret. rewrite unlocked_locked by done. by apply Hno.
    + apply wp_bind, wp_modify, wp_bind, wp_heap_unlock, wp_ret.
      eapply Hok; [by apply take_bump|]. eapply (step_unlock s _ els free); [|done|done|done|done].
      by destruct Hrep.
Qed.

(** ** coalesce_free_list on ranges that do not touch *)

Lemma wp_abuts s a b ra rb ba bb (Q : bool → kheap M → Prop) :
  free_pool s !! a = Some ba → free_pool s !! b = Some bb →
  (b_va ba, b_size ba) = ra → (b_va bb, b_size bb) = rb → range_ok ra →
  Q (range_end ra =? rb.1) s → wp (abuts (Some a) (Some b)) Q s.
Proof.
  intros Ha Hb <- <- (H1 & H2 & H3) HQ. unfold abuts. simpl in *.
  apply wp_bind. eapply wp_brd; [exact Ha|]. apply wp_bind. eapply wp_brd; [exact Ha|].
  apply wp_bind. eapply wp_brd; [exact Hb|]. apply wp_ret. unfold u64.
  rewrite (wrap_small 64) by lia. exact HQ.
Qed.

Lemma wp_merge_clear fuel s a ba pp p l ch (Q : ptr * bool → kheap M → Prop) :
  free_pool s !! a = Some ba → range_ok (b_va ba, b_size ba) →
  dseg (free_pool s) pp p l None → Forall range_ok l.*2 →
  Forall (clear_of (b_va ba, b_size ba)) l.*2 → (length l < fuel)%nat →
  Q (Some a, ch) s → wp (merge_loop fuel (Some a) p ch) Q s.
Proof.
  intros Ha Hoka Hl Hok Hcl Hlen HQ. revert pp p l Hl Hok Hcl Hlen.
  induction fuel as [|fuel IH]; intros pp p l Hl Hok Hcl Hlen; [lia|].
  cbn [merge_loop]. destruct l as [|[b [vb sb]] l].
  { simpl in Hl. subst p. simpl. by apply wp_ret. }
  destruct Hl as (-> & n & Hb & Hl). rewrite fmap_cons, list.Forall_cons in Hok, Hcl.
  destruct Hok as [Hokb Hok], Hcl as [[Hc1 Hc2] Hcl]. cbn [is_null snd fst] in *.
  apply wp_bind. unfold merge_body. apply wp_bind.
  eapply (wp_abuts s a b); [exact Ha|exact Hb|done|done|done|]. rewrite (proj2 (Z.eqb_neq _ _)) by done.
  apply wp_bind. eapply (wp_abuts s b a); [exact Hb|exact Ha|done|done|done|].
  rewrite (proj2 (Z.eqb_neq _ _)) by done.
  apply wp_bind. eapply wp_brd; [exact Hb|]. apply wp_ret. simpl.
  eapply (IH (Some b) n l); [done|done|done|]. simpl in Hlen. lia.
Qed.

Lemma wp_scan_clear n fuel s pp p l ch (Q : bool → kheap M → Prop) :
  dseg (free_pool s) pp p l None → Forall range_ok l.*2 → all_clear l.*2 →
  (length l < fuel)%nat → (length l < n)%nat → Q ch s → wp (scan_loop n fuel p ch) Q s.
Proof.
  revert pp p l. induction fuel as [|fuel IH]; intros pp p l Hl Hok Hcl Hlen Hn HQ; [lia|].
  cbn [scan_loop]. destruct l as [|[a [va sz]] l].
  { simpl in Hl. subst p. simpl. by apply wp_ret. }
  destruct Hl as (-> & nx & Ha & Hl). rewrite fmap_cons, list.Forall_cons in Hok.
  destruct Hok as [Hoka Hok], Hcl as [Hca Hcl]. cbn [is_null]. simpl in Hlen, Hn.
  apply wp_bind, wp_bind. eapply wp_brd; [exact Ha|]. apply wp_bind.
  eapply (wp_merge_clear n s a); [exact Ha|done|exact Hl|done|done|lia|].
  apply wp_bind. eapply wp_brd; [exact Ha|]. apply wp_ret. simpl. eapply IH; [exact Hl|done|done|lia|lia|done].
Qed.

Lemma wp_coalesce_clear s els free (Q : unit → kheap M → Prop) :
  pool_rep s els free → all_clear els.*2 → Q tt s → wp coalesce_free_list Q s.
Proof.
  intros H Hcl HQ. unfold coalesce_free_list, coalesce_fuel, coalesce_with. apply wp_bind, wp_gets.
  destruct (is_null (free_list s)); [by apply wp_ret|].
  pose proof (hp_length _ _ _ H). unfold FREE_POOL_CAP. generalize dependent 512%nat. intros cap Hcap.
  cbn [change_loop]. apply wp_bind, wp_gets, wp_bind.
  eapply wp_scan_clear; [apply (hp_list _ _ _ H)|apply (hp_ranges _ _ _ H)|done|lia|lia|].
  by apply wp_ret.
Qed.

(** ** add_free_space *)

(** With all 512 descriptors in use the range is forgotten. *)
Definition give (r : range) (F : list range) : list range :=
  if (length F <? 512)%nat then r :: F else F.

Lemma wp_link_front s els a free va size (rest : ST (kheap M) unit) (Q : unit → kheap M → Prop) :
  drawn s els a free → Forall range_ok els.*2 → range_ok (va, size) →
  (∀ s', pool_rep s' ((a, (va, size)) :: els) free → same_rest s s' → wp rest Q s') →
  wp (bwr (set_b_va va) (Some a);;
      bwr (set_b_size size) (Some a);;
      fl ← gets free_list;
      bwr (set_b_next fl) (Some a);;
      bwr (set_b_prev None) (Some a);;
      when (negb (is_null fl)) (bwr (set_b_prev (Some a)) fl);;
      modify (set_free_list (Some a));;
      rest) Q s.
Proof.
  intros Hdr Hok Hr HQ. destruct (drawn_fresh _ _ _ _ Hdr) as (Hal & Haf & Hrange).
  pose proof (drawn_nodup _ _ _ _ Hdr) as Hnd.
  destruct (drawn_load _ _ _ _ Hdr) as [b Hb].
  apply wp_bind. eapply wp_bwr; [exact Hb|].
  apply wp_bind. eapply wp_bwr; [simpl; apply lookup_insert_eq|]. apply wp_bind, wp_gets.
  apply wp_bind. eapply wp_bwr; [simpl; apply lookup_insert_eq|].
  apply wp_bind. eapply wp_bwr; [simpl; apply lookup_insert_eq|]. simpl. rewrite !insert_insert_eq.
  apply (drawn_write _ _ _ _ (Block va size (free_list s) None)) in Hdr.
  change (set_b_prev None _) with (Block va size (free_list s) None).
  set (m := <[a := Block va size (free_list s) None]> (free_pool s)) in *.
  destruct Hdr as [Hli Hun Hall Hini Hd]. simpl in Hli, Hun, Hini, Hd.
  assert (Hma : m !! a = Some (Block va size (free_list s) None)) by apply lookup_insert_eq.
  assert (Hfin : ∀ m', m' !! a = Some (Block va size (free_list s) None) →
    dseg m' (Some a) (free_list s) els None → unused m' (free_pool_list s) free →
    (∀ i, 0 ≤ i < 512 → is_Some (m' !! i)) →
    wp rest Q (set_free_list (Some a) (set_pool m' s))).
  { intros m' Ha' Hs' Hu' Hd'. apply HQ; [|by repeat split]. split; simpl; [|done| |done|].
    - split; [done|]. exists (free_list s). by split.
    - rewrite Hini, <-Hall. solve_Permutation.
    - rewrite list.Forall_cons. by split. }
  destruct els as [|[c [vc sc]] els].
  - simpl in Hli. apply wp_bind. rewrite Hli. simpl. apply wp_ret, wp_bind, wp_modify. simpl.
    replace (set_pool m (set_pool m (set_pool m s))) with (set_pool m s) by done.
    rewrite <-Hli. by apply Hfin.
  - rewrite fmap_cons, <-app_comm_cons, list.NoDup_cons in Hnd. destruct Hnd as [Hc Hnd]. cbn [fst] in Hc.
    assert (Hce : c ∉ els.*1) by (intros Hc'; apply Hc, elem_of_app; by left).
    destruct (dseg_rehead _ _ (Some a) _ _ _ _ Hli Hce) as (Hfl & b' & Hb' & Hseg). cbn [fst] in Hfl, Hb', Hseg.
    apply wp_bind. rewrite Hfl. simpl. eapply wp_bwr; [exact Hb'|]. apply wp_bind, wp_modify. simpl.
    rewrite Hfl in Hfin. apply (Hfin (<[c:=set_b_prev (Some a) b']> m)).
    + rewrite lookup_insert_ne; [by rewrite Hma, Hfl|]. intros <-. apply Hal. by left.
    + by rewrite <-Hfl.
    + eapply unused_frame; [|exact Hun]. intros x Hx. apply lookup_insert_ne. intros <-.
      apply Hc, elem_of_app. right. by right.
    + intros i Hi. rewrite lookup_insert_is_Some'. right. by apply Hd.
Qed.

Lemma wp_add_free_space s F va size (Q : unit → kheap M → Prop) :
  ranges_rep s F → vmalloc_lock s = 0 → range_ok (va, size) →
  all_clear F → Forall (clear_of (va, size)) F →
  (∀ s', heap_step s (give (va, size) F) (vmalloc_next s) s' → Q tt s') →
  wp (add_free_space va size) Q s.
Proof.
  intros (els & free & Hrep & HF) Hlk Hr Hcl Hnew HQ. unfold add_free_space, add_free_space_with.
  apply wp_heap_lock; [done|]. apply rep_locked in Hrep. apply wp_bind.
  pose proof (Permutation_length (hp_all _ _ _ Hrep)) as Hlen. rewrite length_app, length_fmap in Hlen.
  assert (HlF : length F = length els) by (by rewrite <-HF, length_fmap).
  apply (wp_alloc_block (locked s) els free); [exact Hrep| |].
  - intros Hini Hfree. simpl. apply wp_heap_unlock. rewrite unlocked_locked by done. apply HQ.
    rewrite Hini, Hfree, length_seqZ in Hlen. simpl in Hlen. unfold give.
    rewrite (proj2 (Nat.ltb_ge _ _)) by lia. split; try done. exists els, free. split; [|done].
    by destruct Hrep.
  - intros s1 a free' Hdr (_ & _ & Hn1 & Hp1 & Hv1) Hfl. cbn [is_null].
    pose proof (Permutation_length (dr_all _ _ _ _ Hdr)) as Hlen'.
    rewrite length_app, length_fmap, length_seqZ in Hlen'. simpl in Hlen'.
    apply (wp_link_front s1 els a free' va size (coalesce_free_list;; spinlock_unlock_irqrestore (vmalloc_daif s)));
      [exact Hdr|apply (hp_ranges _ _ _ Hrep)|done|].
    intros s2 Hrep2 (_ & _ & Hn2 & Hp2 & Hv2). apply wp_bind.
    apply (wp_coalesce_clear s2 _ _ _ Hrep2); [rewrite fmap_cons, HF; by split|].
    apply wp_heap_unlock, HQ. eapply step_unlock; [exact Hrep2| | | |].
    + unfold give. rewrite (proj2 (Nat.ltb_lt _ _)) by lia. by rewrite fmap_cons, HF.
    + rewrite Hn2. exact Hn1.
    + rewrite Hp2. exact Hp1.
    + rewrite Hv2. exact Hv1.
Qed.

(** ** vmalloc_stats *)

Lemma wp_stats_loop fuel s pp p l tot cnt (Q : Z * Z → kheap M → Prop) :
  dseg (free_pool s) pp p l None → (length l < fuel)%nat →
  Q (foldl (λ t r, u64 (t + snd r)) tot l.*2, cnt + Z.of_nat (length l)) s →
  wp (stats_loop fuel p tot cnt) Q s.
Proof.
  revert pp p l tot cnt. induction fuel as [|fuel IH]; intros pp p l tot cnt Hl Hlen HQ; [lia|].
  cbn [stats_loop]. destruct l as [|[a [va sz]] l].
  { simpl in Hl. subst p. simpl. apply wp_ret. by rewrite Z.add_0_r in HQ. }
  destruct Hl as (-> & n & Ha & Hl). cbn [is_null]. simpl in Hlen, HQ.
  apply wp_bind. eapply wp_brd; [exact Ha|]. apply wp_bind. eapply wp_brd; [exact Ha|]. simpl.
  eapply IH; [exact Hl|lia|]. by replace (cnt + 1 + Z.of_nat (length l)) with (cnt + Z.of_nat (S (length l))) by lia.
Qed.

End kheap.
