(* ===== verification/VmallocMap.v ===== *)
(** * The kernel heap: pages

    The heap maps single pages through the region manager and owns the frames
    behind them.  [vabs D v l]: the manager tracks the regions [l] while the
    frames of [D] are held outside the page tables. *)
From stdpp Require Import base gmap list option numbers sorting.
From S2P Require Import Prelude Spinlock RBHeap RBTree MmuIface Frames Vmm VmmTree VmmThm Vmalloc VmallocThm.
#[local] Open Scope Z_scope.
Import Vmm Vmalloc.

(** ** Disjoint regions *)

Lemma regions_cover l v w va :
  regions l → v ∈ l → w ∈ l →
  vma_va v ≤ va < vma_end v → vma_va w ≤ va < vma_end w → v = w.
Proof.
  induction l as [|x l IH]; [by intros _ ?%elem_of_nil|].
  rewrite regions_cons. intros (Hx & Hl & Hb) Hv Hw Hiv Hiw.
  apply elem_of_cons in Hv as [->|Hv], Hw as [->|Hw]; [done| | |by apply IH].
  - specialize (Hb _ Hw). unfold before in Hb. lia.
  - specialize (Hb _ Hv). unfold before in Hb. lia.
Qed.

Lemma translate_known l w va :
  regions l → w ∈ l → vma_va w ≤ va < vma_end w → vma_pa w + (va - vma_va w) < 2 ^ 64 →
  translate_spec va l = vma_pa w + (va - vma_va w).
Proof.
  intros Hreg Hw Hva Hpa. pose proof (regions_ok _ _ Hreg Hw) as Hok.
  unfold translate_spec. destruct (List.find _ l) as [v|] eqn:Hf.
  - apply find_some in Hf as [Hv%list_elem_of_In [H1%Z.leb_le H2%Z.ltb_lt]%andb_prop].
    rewrite (regions_cover l v w va Hreg Hv Hw) by done.
    unfold u64. destruct Hok as [? ? ? ? ? [? ?]]. rewrite (wrap_small 64); [done|]. lia.
  - apply list_elem_of_In in Hw. pose proof (List.find_none _ _ Hf w Hw) as Hno. cbv beta in Hno.
    apply andb_false_iff in Hno as [Hno%Z.leb_gt|Hno%Z.ltb_ge]; lia.
Qed.

Lemma vinsert_perm v l : vinsert v l ≡ₚ v :: l.
Proof.
  induction l as [|w l IH]; simpl; [done|]. destruct (_ <? _); [done|].
  rewrite IH. apply Permutation_swap.
Qed.

(** The regions without one of them. *)
Lemma remove_region l w :
  regions l → w ∈ l → w :: filter (λ v, vma_va v ≠ vma_va w) l ≡ₚ l.
Proof.
  intros Hreg (A & B & ->)%list_elem_of_split. rewrite filter_out by done.
  apply Permutation_middle.
Qed.

Section pages.
Context {M : Type} `{MO : !MmuOps M, FO : !FrameOps M, FL : !FrameLaws M}.
Implicit Types (v : vmm M) (m : M) (D : gset Z).

Definition vabs D v (l : list vma) : Prop := @vmm_abs M _ (holding D) v l.

Lemma vabs_regions D v l : vabs D v l → regions l.
Proof. intros (t & free & H & <-). apply (pr_regions _ _ _ _ (vr_pool _ _ _ H)). Qed.

Lemma vabs_inv D v l : vabs D v l → @mmu_inv M _ (holding D) (mmu v).
Proof. intros (t & free & H & _). apply (vr_mmu _ _ _ H). Qed.

Lemma vabs_mmu D D' v l m :
  vabs D v l → @mmu_inv M _ (holding D') m → vabs D' (set_mmu m v) l.
Proof. intros (t & free & [H1 H2 _] & Hl) Hm. exists t, free. split; [by split|done]. Qed.

(** What an operation on the page of [va] does to the tables. *)
Definition page_step (va : Z) (P : option Z → option Z → Prop) m m' : Prop :=
  mmu_ttbr1 m' = mmu_ttbr1 m ∧ (∀ p, p ≠ vpn va → leaf_at m' p = leaf_at m p) ∧
  (mmu_ttbr1 m ≠ 0 → P (leaf_at m (vpn va)) (leaf_at m' (vpn va))).

Lemma page_at_0 va : is_u64 va → page_at va 0 = vpn va.
Proof. intros Hva. unfold page_at, u64. by rewrite Z.add_0_r, (wrap_small 64). Qed.

Lemma page_step_intro k D va inside (P : option Z → option Z → Prop) m m' :
  is_u64 va → @tables_step M _ (holding D) k va 4096 inside m m' →
  (inside m' 0 → P (leaf_at m (vpn va)) (leaf_at m' (vpn va))) → page_step va P m m'.
Proof.
  intros Hva (_ & Htt & _ & Hout & Hin) HP. split_and!; [done| |].
  - intros p Hp. rewrite <-!(holding_walk D). apply Hout. intros i Hi.
    assert (i = 0) as -> by (change (4096 / 4096) with 1 in Hi; lia). by rewrite page_at_0.
  - intros Htt0. apply HP, Hin; [done|]. by change (4096 / 4096) with 1.
Qed.

(** ** Mapping, unmapping and translating one page *)

(** A page that should be mapped is, or, if [excuse] holds, is as it was. *)
Definition mapped_or_same (excuse : Prop) (pa attrs : Z) (old new : option Z) : Prop :=
  new = Some (leaf_map pa (pte_attrs_of attrs)) ∨ new = old ∧ excuse.
(** The excuse: no frame was left for a table. *)
Definition full m : Prop := frames_left m = 0%nat.
Definition anyhow m : Prop := True.

Lemma wp_map_page D v l va pa attrs (Q : Z → vmm M → Prop) :
  vabs D v l → (length l < 256)%nat → 0 ≤ va → va + 4096 < 2 ^ 64 → va mod 4096 = 0 →
  is_u64 pa → pa mod 4096 = 0 → (∀ w, w ∈ l → meets va 4096 w = false) →
  (∀ v' l', vabs D v' l' → l' ≡ₚ Vma va pa 4096 attrs :: l →
     page_step va (mapped_or_same (full (mmu v')) pa attrs) (mmu v) (mmu v') →
     (frames_left (mmu v') ≤ frames_left (mmu v) ≤ frames_left (mmu v') + 3)%nat → Q 0 v') →
  wp (vmm_map va pa 4096 attrs) Q v.
Proof.
  intros H Hlen Hva Hend Hal Hpa Hpal Hmeet HQ. assert (Hvu : is_u64 va) by (unfold is_u64; lia).
  eapply wp_mono; [apply (@wp_vmm_map M _ (holding D) v l va pa 4096 attrs); (done || lia)|].
  intros r v' (-> & Habs & _ & _ & Htab). unfold map_spec in *.
  rewrite !(proj2 (aligned_spec _)) in * by done.
  assert (Hex : existsb (meets va 4096) l = false).
  { apply not_true_iff_false. rewrite existsb_exists. intros (w & Hw%list_elem_of_In & Hm).
    by rewrite Hmeet in Hm. }
  rewrite Hex in *. simpl in *. apply (HQ v' (vinsert (Vma va pa 4096 attrs) l)).
  - exact Habs.
  - apply vinsert_perm.
  - eapply (page_step_intro 3 D); [done|by apply Htab|]. unfold mapped_at, mapped_or_same.
    rewrite page_at_0, !holding_walk, holding_left by done.
    intros Hm. destruct Hm as [Hm|[Hm Hf]]; [lia| |right; by split].
    left. rewrite Hm. do 2 f_equal. unfold u64. rewrite Z.add_0_r. by apply (wrap_small 64).
  - destruct (Htab eq_refl) as (_ & _ & Hl & _). by rewrite !holding_left in Hl.
Qed.

Lemma wp_unmap_page D v l w (Q : Z → vmm M → Prop) :
  vabs D v l → w ∈ l → vma_size w = 4096 →
  (∀ v' l', vabs D v' l' → w :: l' ≡ₚ l →
     page_step (vma_va w) (λ _ new, new = None) (mmu v) (mmu v') → Q 0 v') →
  wp (vmm_unmap (vma_va w) 4096) Q v.
Proof.
  intros H Hw Hsz HQ. pose proof (vabs_regions _ _ _ H) as Hreg.
  pose proof (regions_ok _ _ Hreg Hw) as [H1 H2 H3 H4 _ _].
  assert (Hvu : is_u64 (vma_va w)) by (unfold is_u64; unfold vma_end in H3; lia).
  eapply wp_mono; [apply (@wp_vmm_unmap M _ (holding D) v l (vma_va w) 4096 H)|].
  intros r v' (-> & Habs & _ & _ & Htab). unfold unmap_spec in *.
  rewrite !(proj2 (aligned_spec _)) in * by done.
  rewrite (exact_found l w) in * by done. rewrite Hsz in *. simpl in *.
  apply (HQ v' _ Habs); [by apply remove_region|].
  eapply (page_step_intro 0 D); [done|by apply Htab|]. cbv beta.
  by rewrite page_at_0, holding_walk by done.
Qed.

Lemma wp_phys_page D v l w (Q : Z * option Z → vmm M → Prop) :
  vabs D v l → w ∈ l → Q (0, Some (vma_pa w)) v →
  wp (vmm_virt_to_phys (vma_va w) true) Q v.
Proof.
  intros H Hw HQ. pose proof (vabs_regions _ _ _ H) as Hreg.
  pose proof (regions_ok _ _ Hreg Hw) as [H1 H2 H3 _ _ [H4 H5]]. unfold vma_end in H3.
  eapply wp_mono; [apply (@wp_vmm_virt_to_phys M _ (holding D) v l (vma_va w) H); unfold is_u64; lia|].
  intros r v' [-> ->]. rewrite (translate_known l w) by (done || unfold vma_end; lia).
  by rewrite Z.sub_diag, Z.add_0_r.
Qed.

(** ** Frames *)

(** A step that leaves every entry alone. *)
Definition same_leaves m m' : Prop := mmu_ttbr1 m' = mmu_ttbr1 m ∧ ∀ p, leaf_at m' p = leaf_at m p.

Lemma wp_frame_alloc D v l (Q : Z → vmm M → Prop) :
  vabs D v l →
  (∀ m, vabs D (set_mmu m v) l → same_leaves (mmu v) m → full (mmu v) → full m → Q 0 (set_mmu m v)) →
  (∀ r m, r ≠ 0 → r ∉ D → is_u64 r → r mod 4096 = 0 → vabs ({[r]} ∪ D) (set_mmu m v) l →
     same_leaves (mmu v) m → frames_left m = Nat.pred (frames_left (mmu v)) → Q r (set_mmu m v)) →
  wp (on_mmu frame_alloc) Q v.
Proof.
  intros H H0 H1. apply wp_zoom. eapply wp_mono; [apply (frame_alloc_law D (mmu v)), (vabs_inv _ _ _ H)|].
  intros r m (Htt & Hleaf & [(-> & Hinv & Hl1 & Hl2)|(Hr & HrD & Hru & Hral & Hinv & Hl)]).
  - by apply H0; [eapply vabs_mmu|..].
  - by apply H1; [..|by eapply vabs_mmu| |].
Qed.

Lemma wp_frame_free D v l a (Q : unit → vmm M → Prop) :
  vabs D v l → a ∈ D →
  (∀ m, vabs (D ∖ {[a]}) (set_mmu m v) l → same_leaves (mmu v) m →
     Q tt (set_mmu m v)) →
  wp (on_mmu (frame_free a)) Q v.
Proof.
  intros H Ha HQ. apply wp_zoom. eapply wp_mono; [apply (frame_free_law D (mmu v)); [apply (vabs_inv _ _ _ H)|done]|].
  intros [] m (Htt & Hleaf & Hinv & _). by apply HQ; [by eapply vabs_mmu|].
Qed.

(** ** A block of pages

    An allocation is a run of [n] pages from [base], guard pages at both ends.
    [ps] lists the pages that are mapped, by index, with their frames. *)

Definition attr_of (n k : Z) : Z :=
  if (k =? 0) || (k =? n - 1) then GUARD_ATTRS else DATA_ATTRS.
Definition page_region_of (n base : Z) (kp : Z * Z) : vma :=
  Vma (base + kp.1 * 4096) kp.2 4096 (attr_of n kp.1).

Fixpoint numbered (k : Z) (frs : list Z) : list (Z * Z) :=
  match frs with
  | [] => []
  | pa :: frs => (k, pa) :: numbered (k + 1) frs
  end.

Lemma numbered_app k f1 f2 :
  numbered k (f1 ++ f2) = numbered k f1 ++ numbered (k + Z.of_nat (length f1)) f2.
Proof.
  revert k. induction f1 as [|pa f1 IH]; intros k; simpl; [by rewrite Z.add_0_r|].
  rewrite IH. do 3 f_equal. lia.
Qed.

Lemma numbered_index k frs kp : kp ∈ numbered k frs → k ≤ kp.1 < k + Z.of_nat (length frs).
Proof.
  revert k. induction frs as [|pa frs IH]; intros k; simpl; [by intros ?%elem_of_nil|].
  intros [->|Hin]%elem_of_cons; simpl; [lia|]. specialize (IH _ Hin). lia.
Qed.

Lemma numbered_frames k frs : (numbered k frs).*2 = frs.
Proof. revert k. induction frs as [|pa frs IH]; intros k; simpl; [done|]. by rewrite IH. Qed.

Lemma numbered_nodup k frs : NoDup (numbered k frs).*1.
Proof.
  revert k. induction frs as [|pa frs IH]; intros k; simpl; constructor; [|apply IH].
  intros (kp & Hk & Hin)%list_elem_of_fmap. apply numbered_index in Hin. lia.
Qed.

(** Page numbers of a block are distinct. *)
Definition block_ok (base n : Z) : Prop :=
  0 ≤ base ∧ base mod 4096 = 0 ∧ 0 ≤ n ∧ base + n * 4096 < 2 ^ 64 ∧ n * 4096 ≤ 2 ^ 48.

Lemma block_page_u64 base n k : block_ok base n → 0 ≤ k < n → is_u64 (base + k * 4096).
Proof. unfold block_ok, is_u64. lia. Qed.

Lemma block_page_inj base n j k :
  block_ok base n → 0 ≤ j < n → 0 ≤ k < n →
  vpn (base + j * 4096) = vpn (base + k * 4096) → j = k.
Proof.
  intros Hb Hj Hk Heq. pose proof (block_page_u64 _ _ _ Hb Hj) as Hju.
  pose proof (block_page_u64 _ _ _ Hb Hk) as Hku. destruct Hb as (H1 & H2 & H3 & H4 & H5).
  apply (page_at_inj base (n * 4096) j k); rewrite ?Z.div_mul by lia; try lia.
  unfold page_at, u64. unfold is_u64 in *. by rewrite !(wrap_small 64).
Qed.

(** The tables against those of an earlier state [m0]: [P] relates the two
    leaf entries of each page of the block; other pages did not change. *)
Definition span_step (base n : Z) (P : Z → option Z → option Z → Prop) m0 m : Prop :=
  mmu_ttbr1 m = mmu_ttbr1 m0 ∧
  (∀ p, (∀ k, 0 ≤ k < n → p ≠ vpn (base + k * 4096)) → leaf_at m p = leaf_at m0 p) ∧
  (mmu_ttbr1 m0 ≠ 0 → ∀ k, 0 ≤ k < n →
     P k (leaf_at m0 (vpn (base + k * 4096))) (leaf_at m (vpn (base + k * 4096)))).

Lemma span_same base n P m0 m m' : span_step base n P m0 m → same_leaves m m' → span_step base n P m0 m'.
Proof.
  intros (Htt & Hout & Hin) (Htt' & Hl). split_and!; [congruence| |].
  - intros p Hp. rewrite Hl. by apply Hout.
  - intros H0 k Hk. rewrite Hl. by apply Hin.
Qed.

Lemma span_mono base n (P P' : Z → option Z → option Z → Prop) m0 m :
  (∀ k old new, 0 ≤ k < n → P k old new → P' k old new) → span_step base n P m0 m → span_step base n P' m0 m.
Proof. intros HP (Htt & Hout & Hin). split_and!; [done|done|]. intros H0 k Hk. by apply HP, Hin. Qed.

Lemma span_page base n (P P' : Z → option Z → option Z → Prop) R m0 m m' k :
  block_ok base n → 0 ≤ k < n → span_step base n P m0 m → page_step (base + k * 4096) R m m' →
  (∀ j old new, j ≠ k → P j old new → P' j old new) →
  (∀ old mid new, P k old mid → R mid new → P' k old new) → span_step base n P' m0 m'.
Proof.
  intros Hb Hk (Htt & Hout & Hin) (Htt' & Hout' & Hin') Hoth Hself. split_and!; [congruence| |].
  - intros p Hp. rewrite Hout' by by apply Hp. by apply Hout.
  - intros H0 j Hj. destruct (decide (j = k)) as [->|Hjk].
    + eapply Hself; [by apply Hin|]. apply Hin'. congruence.
    + rewrite Hout'; [by apply Hoth, Hin|]. intros Heq. by apply Hjk, (block_page_inj base n).
Qed.

(** The pages [ps] of the block are mapped to frames held beyond [D], on top of
    the regions [l]; the entries of the other pages are as [gone] says. *)
Definition leaf_of (n : Z) (gone : option Z → option Z → Prop) (excuse : Prop) (ps : list (Z * Z))
    (k : Z) (old new : option Z) : Prop :=
  (∀ pa, (k, pa) ∈ ps → mapped_or_same excuse pa (attr_of n k) old new) ∧
  ((∀ pa, (k, pa) ∉ ps) → gone old new).

Record owns (gone : option Z → option Z → Prop) (excuse : M → Prop) D l base n m0 ps v : Prop := {
  ow_nodup : NoDup ps.*2;
  ow_fresh : ∀ pa, pa ∈ ps.*2 → pa ∉ D;
  ow_regs : ∃ l', vabs (list_to_set ps.*2 ∪ D) v l' ∧ l' ≡ₚ (page_region_of n base <$> ps) ++ l;
  ow_tabs : span_step base n (leaf_of n gone (excuse (mmu v)) ps) m0 (mmu v);
}.

Lemma leaf_of_weaken n (gone gone' : option Z → option Z → Prop) (e e' : Prop) ps k old new :
  (gone old new → gone' old new) → (e → e') → leaf_of n gone e ps k old new → leaf_of n gone' e' ps k old new.
Proof.
  intros Hg He [Hin Hout]. split; [|intros Hk; by apply Hg, Hout].
  intros pa Hpa. destruct (Hin pa Hpa) as [?|[? ?]]; [by left|right; auto].
Qed.
Lemma owns_gone (gone gone' : option Z → option Z → Prop) excuse D l base n m0 ps v :
  (∀ old new, gone old new → gone' old new) → owns gone excuse D l base n m0 ps v → owns gone' anyhow D l base n m0 ps v.
Proof.
  intros Hg [H1 H2 H3 H4]. split; [done|done|done|]. eapply span_mono; [|exact H4].
  intros k old new _. by apply leaf_of_weaken; [apply Hg|].
Qed.

Lemma owns_start gone excuse D l base n v :
  (∀ o, gone o o) → vabs D v l → owns gone excuse D l base n (mmu v) [] v.
Proof.
  intros Hg H. split; [constructor|by intros pa ?%elem_of_nil| |].
  - exists l. split; [|done]. simpl. by rewrite union_empty_l_L.
  - split_and!; [done|done|]. intros _ k Hk. split; [by intros pa ?%elem_of_nil|]. intros _. apply Hg.
Qed.

(** Mapping: pages without a frame are as they were, and every page took at most
    its frame and three tables. *)
Definition mapping D l base n m0 ps v : Prop :=
  owns (λ old new, new = old) full D l base n m0 ps v ∧
  (frames_left m0 ≤ frames_left (mmu v) + 4 * length ps)%nat.

Lemma mapping_start D l base n v : vabs D v l → mapping D l base n (mmu v) [] v.
Proof. intros H. split; [by apply owns_start|lia]. Qed.

(** Mapping one more page. *)
Lemma owns_map D l base n m0 ps v v' v'' l' l'' k pa m :
  mapping D l base n m0 ps v → block_ok base n → 0 ≤ k < n → (∀ f, (k, f) ∉ ps) →
  pa ∉ list_to_set ps.*2 ∪ D → l' ≡ₚ (page_region_of n base <$> ps) ++ l →
  same_leaves (mmu v) m → v' = set_mmu m v →
  vabs ({[pa]} ∪ (list_to_set ps.*2 ∪ D)) v'' l'' → l'' ≡ₚ page_region_of n base (k, pa) :: l' →
  page_step (base + k * 4096) (mapped_or_same (full (mmu v'')) pa (attr_of n k)) m (mmu v'') →
  frames_left m = Nat.pred (frames_left (mmu v)) →
  (frames_left (mmu v'') ≤ frames_left m ≤ frames_left (mmu v'') + 3)%nat →
  mapping D l base n m0 (ps ++ [(k, pa)]) v''.
Proof.
  intros [[Hnd Hfr _ Htab] Hleft] Hb Hk Hnew Hpa Hl' Hm -> Habs Hl'' Hstep Hl1 Hl2.
  rewrite not_elem_of_union, elem_of_list_to_set in Hpa. destruct Hpa as [Hps HD].
  assert (Hfull : full (mmu v) → full (mmu v'')) by (unfold full; lia).
  split; [|rewrite length_app; simpl; lia]. split.
  - rewrite fmap_app. apply list.NoDup_app. split_and!; [done| |apply NoDup_singleton].
    intros f Hf ->%list_elem_of_singleton. done.
  - intros f. rewrite fmap_app, elem_of_app. intros [?| ->%list_elem_of_singleton]; [by apply Hfr|done].
  - exists l''. split.
    + replace (list_to_set (ps ++ [(k, pa)]).*2 ∪ D)
        with ({[pa]} ∪ (list_to_set ps.*2 ∪ D) : gset Z); [done|].
      rewrite fmap_app, list_to_set_app_L. simpl. set_solver.
    + rewrite Hl'', Hl', fmap_app. simpl. rewrite <-app_assoc. apply Permutation_middle.
  - eapply (span_page base n _ _ _ m0 m _ k Hb Hk); [by eapply span_same|exact Hstep| |].
    + intros j old new Hj [Hin Hout]. split.
      * intros f. rewrite elem_of_app, list_elem_of_singleton. intros [Hf|[=]]; [|done].
        destruct (Hin f Hf) as [?|[? ?]]; [by left|right; auto].
      * intros Hno. apply Hout. intros f Hf. apply (Hno f), elem_of_app. by left.
    + intros old mid new [_ Hout] Hm'. specialize (Hout Hnew). cbv beta in Hout. subst mid. split.
      * intros f. rewrite elem_of_app, list_elem_of_singleton. intros [Hf|[= ->]]; [by destruct (Hnew f)|done].
      * intros Hno. exfalso. apply (Hno pa), elem_of_app. right. by left.
Qed.

(** Unmapping one page and returning its frame. *)
Lemma owns_drop gone D l base n m0 ps ps' v v' v'' l' l'' k pa m :
  (∀ old, gone old None) →
  owns gone anyhow D l base n m0 ps v → block_ok base n → 0 ≤ k < n → NoDup ps.*1 → ps ≡ₚ (k, pa) :: ps' →
  l' ≡ₚ (page_region_of n base <$> ps) ++ l →
  page_region_of n base (k, pa) :: l'' ≡ₚ l' →
  page_step (base + k * 4096) (λ _ new, new = None) (mmu v) (mmu v') → 
  same_leaves (mmu v') m → v'' = set_mmu m v' →
  vabs ((list_to_set ps.*2 ∪ D) ∖ {[pa]}) v'' l'' →
  owns gone anyhow D l base n m0 ps' v''.
Proof.
  intros Hgone [Hnd Hfr _ Htab] Hb Hk Hnk Hps Hl' Hl'' Hstep Hm -> Habs.
  assert (Hps2 : ps.*2 ≡ₚ pa :: ps'.*2) by (by rewrite Hps).
  assert (Hps1 : ps.*1 ≡ₚ k :: ps'.*1) by (by rewrite Hps).
  rewrite Hps1, list.NoDup_cons in Hnk. destruct Hnk as [Hnk _].
  assert (Hpad : pa ∉ D) by (apply Hfr; rewrite Hps2; by left).
  rewrite Hps2, list.NoDup_cons in Hnd. destruct Hnd as [Hpa Hnd]. split.
  - done.
  - intros f Hf. apply Hfr. rewrite Hps2. by right.
  - exists l''. split.
    + replace (list_to_set ps'.*2 ∪ D) with ((list_to_set ps.*2 ∪ D) ∖ {[pa]} : gset Z); [done|].
      apply leibniz_equiv. intros f. rewrite elem_of_difference, !elem_of_union, !elem_of_list_to_set, elem_of_singleton.
      rewrite Hps2, elem_of_cons. split; [tauto|]. intros Hf. split; [tauto|]. intros ->. tauto.
    + apply (Permutation_cons_inv (a := page_region_of n base (k, pa))).
      rewrite Hl'', Hl', Hps. done.
  - eapply span_same; [|exact Hm].
    eapply (span_page base n _ _ _ m0 _ _ k Hb Hk); [exact Htab|exact Hstep| |].
    + intros j old new Hj [Hin Hout]. split.
      * intros f Hf. apply Hin. rewrite Hps. by right.
      * intros Hno. apply Hout. intros f. rewrite Hps. intros [[=]|Hf]%elem_of_cons; [done|by apply (Hno f)].
    + intros old mid new _ ->. split; [|by intros _].
      intros f Hf. exfalso. apply Hnk, list_elem_of_fmap. by exists (k, f).
Qed.

(** ** The steps of vmalloc and vfree *)
Implicit Types (s : kheap M).

Definition meets_none (va size : Z) (l : list vma) : Prop := ∀ w, w ∈ l → meets va size w = false.

Lemma page_free n base l ps k :
  block_ok base n → 0 ≤ k < n → meets_none base (n * 4096) l → k ∉ ps.*1 →
  (∀ kp, kp ∈ ps → 0 ≤ kp.1 < n) →
  meets_none (base + k * 4096) 4096 ((page_region_of n base <$> ps) ++ l).
Proof.
  intros Hb Hk Hl Hnew Hps w [Hw|Hw]%elem_of_app; unfold meets, vma_end.
  - apply list_elem_of_fmap in Hw as ([j pa] & -> & Hj). simpl.
    assert (j ≠ k) by (intros ->; apply Hnew, list_elem_of_fmap; by exists (k, pa)).
    apply andb_false_iff. rewrite Z.ltb_ge, Z.ltb_ge. lia.
  - specialize (Hl w Hw). unfold meets, vma_end in Hl. apply andb_false_iff in Hl.
    rewrite !Z.ltb_ge in Hl. apply andb_false_iff. rewrite !Z.ltb_ge. lia.
Qed.

Lemma wp_fill_page {A} D l base n m0 ps s k addr attr (X : ST (kheap M) A) (K : Z → ST (kheap M) A)
    (Q : A → kheap M → Prop) :
  mapping D l base n m0 ps (vm s) → block_ok base n → 0 ≤ k < n →
  meets_none base (n * 4096) l → k ∉ ps.*1 → (∀ kp, kp ∈ ps → 0 ≤ kp.1 < n) →
  (length ps + length l < 256)%nat → addr = base + k * 4096 → attr = attr_of n k →
  (∀ v, mapping D l base n m0 ps v → (frames_left m0 ≤ 4 * length ps)%nat → wp X Q (set_vm v s)) →
  (∀ pa v, pa ≠ 0 → mapping D l base n m0 (ps ++ [(k, pa)]) v → wp (K pa) Q (set_vm v s)) →
  wp (page ← pmm_alloc_page;
      if page =? 0 then X else map_ addr page 4096 attr;; K page) Q s.
Proof.
  intros Hmap Hb Hk Hl Hnew Hidx Hlen -> -> HX HK. pose proof Hmap as [Hown Hleft]. destruct (ow_regs _ _ _ _ _ _ _ _ _ Hown) as (l' & Habs & Hl').
  apply wp_bind, wp_zoom, (wp_frame_alloc _ _ _ _ Habs).
  { intros m Habs' Hm Hf1 Hf2. unfold full in Hf1, Hf2. apply HX; [|lia]. destruct Hown as [H1 H2 _ H4].
    split; [|simpl; lia]. split; [done|done|by exists l'|]. eapply span_same; [|exact Hm].
    eapply span_mono; [|exact H4]. intros j old new _. by apply leaf_of_weaken. }
  intros pa m Hpa HpD Hpu Hpal Habs' Hm Hl1. rewrite (proj2 (Z.eqb_neq _ _)) by done.
  pose proof (block_page_u64 _ _ _ Hb Hk) as Hu. pose proof Hb as (Hb1 & Hb2 & Hb3 & Hb4 & _).
  apply wp_bind, wp_bind, wp_zoom.
  eapply (wp_map_page _ _ l'); [exact Habs'| | | | |done|done| |].
  - rewrite Hl', length_app, length_fmap. lia.
  - unfold is_u64 in Hu. lia.
  - lia.
  - rewrite Z.mod_add by lia. done.
  - intros w. rewrite Hl'. by apply page_free.
  - intros v' l'' Habs'' Hl'' Hstep Hl2. apply wp_ret.
    apply HK; [done|]. eapply (owns_map D l base n m0 ps (vm s) _ v' l' l'' k pa m);
      [exact Hmap|done|done| |exact HpD|exact Hl'|exact Hm|reflexivity|exact Habs''|exact Hl''|exact Hstep|exact Hl1|exact Hl2].
    intros f Hf. apply Hnew, list_elem_of_fmap. by exists (k, f).
Qed.

(** Unmapping page [k] and returning its frame, whatever the code around the
    two calls. *)
Lemma wp_unmap_free gone D l base n m0 ps ps' s k pa addr (Q : unit → kheap M → Prop) :
  (∀ old, gone old None) →
  owns gone anyhow D l base n m0 ps (vm s) → block_ok base n → 0 ≤ k < n → NoDup ps.*1 → ps ≡ₚ (k, pa) :: ps' →
  addr = base + k * 4096 →
  (∀ v, owns gone anyhow D l base n m0 ps' v → Q tt (set_vm v s)) →
  wp (unmap_ addr 4096;; pmm_free_page pa) Q s.
Proof.
  intros Hgone Hown Hb Hk Hnk Hps -> HQ. destruct (ow_regs _ _ _ _ _ _ _ _ _ Hown) as (l' & Habs & Hl').
  assert (Hin : page_region_of n base (k, pa) ∈ l').
  { rewrite Hl', Hps. simpl. by left. }
  apply wp_bind, wp_bind, wp_zoom.
  apply (wp_unmap_page _ _ _ _ _ Habs Hin eq_refl). intros v1 l1 Habs1 Hl1 Hstep. apply wp_ret.
  apply wp_zoom. apply (wp_frame_free _ _ _ pa _ Habs1).
  { rewrite elem_of_union, elem_of_list_to_set, Hps. left. simpl. by left. }
  intros m Habs2 Hm. apply HQ.
  eapply (owns_drop gone D l base n m0 ps ps' (vm s) v1 _ l' l1 k pa m);
    [done|exact Hown|done|done|done|done|exact Hl'|exact Hl1|exact Hstep|exact Hm|reflexivity|exact Habs2].
Qed.

Lemma wp_phys_of gone D l base n m0 ps s k pa addr (Q : Z * option Z → kheap M → Prop) :
  owns gone anyhow D l base n m0 ps (vm s) → (k, pa) ∈ ps → addr = base + k * 4096 →
  Q (0, Some pa) s → wp (on_vm (vmm_virt_to_phys addr true)) Q s.
Proof.
  intros Hown Hin -> HQ. destruct (ow_regs _ _ _ _ _ _ _ _ _ Hown) as (l' & Habs & Hl').
  apply wp_zoom. apply (wp_phys_page _ _ _ (page_region_of n base (k, pa)) _ Habs).
  - rewrite Hl', elem_of_app. left. apply list_elem_of_fmap. by exists (k, pa).
  - assert (Hs : set_vm (vm s) s = s) by (by destruct s). by rewrite Hs.
Qed.

Lemma wp_drop_page gone D l base n m0 ps ps' s k pa addr (Q : unit → kheap M → Prop) :
  (∀ old, gone old None) →
  owns gone anyhow D l base n m0 ps (vm s) → block_ok base n → 0 ≤ k < n → NoDup ps.*1 → ps ≡ₚ (k, pa) :: ps' →
  addr = base + k * 4096 →
  (∀ v, owns gone anyhow D l base n m0 ps' v → Q tt (set_vm v s)) →
  wp (drop_page addr) Q s ∧ wp (free_mapped addr) Q s.
Proof.
  intros Hgone Hown Hb Hk Hnk Hps Haddr HQ.
  assert (Hin : (k, pa) ∈ ps) by (rewrite Hps; by left).
  split; apply wp_bind; eapply wp_phys_of; eauto; cbn [fst snd].
  - apply wp_bind. eapply wp_deref; [reflexivity|]. by eapply wp_unmap_free.
  - simpl. apply wp_bind. eapply wp_deref; [reflexivity|]. by eapply wp_unmap_free.
Qed.

(** A loop that drops the consecutive pages [j], [j + 1], ... *)
Lemma wp_drop_pages_loop gone D l base n m0 body frs rest off j s (Q : unit → kheap M → Prop) :
  (∀ old, gone old None) →
  owns gone anyhow D l base n m0 (numbered (off + j) frs ++ rest) (vm s) → block_ok base n →
  0 ≤ off + j → off + j + Z.of_nat (length frs) ≤ n → NoDup (numbered (off + j) frs ++ rest).*1 →
  (∀ i, body i = drop_page (u64 (base + (off + i) * 4096)) ∨
        body i = free_mapped (u64 (base + (off + i) * 4096))) →
  (∀ v, owns gone anyhow D l base n m0 rest v → Q tt (set_vm v s)) →
  wp (for_each (length frs) j body) Q s.
Proof.
  intros Hgone Hown Hb Hlo Hhi Hnd Hbody HQ. revert j s Hown Hlo Hhi Hnd HQ.
  induction frs as [|pa frs IH]; intros j s Hown Hlo Hhi Hnd HQ; cbn [for_each length].
  { apply wp_ret. simpl in Hown. assert (Hs : set_vm (vm s) s = s) by (by destruct s).
    rewrite <-Hs. by apply HQ. }
  simpl in Hown, Hnd, Hhi. apply list.NoDup_cons in Hnd as Hnd'. destruct Hnd' as [_ Hnd'].
  assert (Haddr : u64 (base + (off + j) * 4096) = base + (off + j) * 4096).
  { unfold u64. apply (wrap_small 64), (block_page_u64 _ n); [done|lia]. }
  apply wp_bind.
  destruct (wp_drop_page gone D l base n m0 (numbered (off + j) (pa :: frs) ++ rest)
    (numbered (off + j + 1) frs ++ rest) s (off + j) pa
    (u64 (base + (off + j) * 4096)) (λ _ s', wp (for_each (length frs) (j + 1) body) Q s'))
    as [H1 H2]; [done|exact Hown|done|lia|exact Hnd|done|done| |].
  - intros v Hv. replace (off + j + 1) with (off + (j + 1)) in * by lia. apply IH; [exact Hv|lia|lia|exact Hnd'|].
    intros v' Hv'. exact (HQ v' Hv').
  - destruct (Hbody j) as [->| ->]; [exact H1|exact H2].
Qed.

End pages.
