(* ===== verification/VmallocAlloc.v ===== *)
(** * The kernel heap: vmalloc and vfree

    The heap's invariant: free ranges and the space above the bump pointer lie
    in the heap's window, do not touch each other, and meet no region that the
    manager tracks.  An allocation is a block of pages with a guard page at
    either end, each page a region of its own, mapped to a frame of its own. *)
From stdpp Require Import base gmap list option numbers sorting.
From S2P Require Import Prelude Spinlock RBHeap RBTree MmuIface Frames Vmm VmmTree VmmThm Vmalloc VmallocThm VmallocMap.
#[local] Open Scope Z_scope.
Import Vmm Vmalloc.

Lemma u64_add_l x y : u64 (u64 x + y) = u64 (x + y).
Proof. unfold u64. apply Zplus_mod_idemp_l. Qed.

(** ** Windows *)

Definition in_window (vn : Z) (r : range) : Prop :=
  VMALLOC_START ≤ r.1 ∧ 0 < r.2 ∧ range_end r ≤ vn ∧ r.1 mod 4096 = 0 ∧ r.2 mod 4096 = 0.
(** Disjoint, with space in between. *)
Definition separate (r t : range) : Prop := range_end r < t.1 ∨ range_end t < r.1.
Fixpoint separated (F : list range) : Prop :=
  match F with
  | [] => True
  | r :: F => Forall (separate r) F ∧ separated F
  end.

Lemma separate_sym r t : separate r t → separate t r.
Proof. unfold separate. tauto. Qed.

Lemma separated_app F1 F2 :
  separated (F1 ++ F2) ↔ separated F1 ∧ separated F2 ∧ ∀ r t, r ∈ F1 → t ∈ F2 → separate r t.
Proof.
  induction F1 as [|x F1 IH]; simpl.
  - split; [|tauto]. intros H. split_and!; [done|done|]. by intros r t ?%elem_of_nil.
  - rewrite IH, Forall_app, !list.Forall_forall. setoid_rewrite elem_of_cons. naive_solver.
Qed.

Lemma separated_clear F : separated F → Forall (λ r, 0 < r.2) F → all_clear F.
Proof.
  induction F as [|r F IH]; simpl; [done|]. intros [Hr HF] [Hp Hpos]%list.Forall_cons.
  split; [|by apply IH]. rewrite list.Forall_forall in *. intros t Ht. specialize (Hr t Ht). specialize (Hpos t Ht).
  unfold separate, clear_of, range_end in *. lia.
Qed.

Section alloc.
Context {M : Type} `{MO : !MmuOps M, FO : !FrameOps M, FL : !FrameLaws M}.
Implicit Types (s : kheap M) (D : gset Z) (l : list vma) (F : list range).

Record heap_ok s F D l : Prop := {
  hk_ranges : ranges_rep s F;
  hk_lock : vmalloc_lock s = 0;
  hk_next : VMALLOC_START ≤ vmalloc_next s ≤ VMALLOC_END ∧ vmalloc_next s mod 4096 = 0;
  hk_window : Forall (in_window (vmalloc_next s)) F;
  hk_sep : separated F;
  hk_unmapped : ∀ r, r ∈ F → meets_none r.1 r.2 l;
  hk_above : meets_none (vmalloc_next s) (VMALLOC_END - vmalloc_next s) l;
  hk_vm : vabs D (vm s) l;
}.

(** What [find_free_space] hands out under the invariant. *)
Record block_taken s F l (n base : Z) F' (vn' : Z) : Prop := {
  bt_block : block_ok base n;
  bt_window : in_window vn' (base, n * 4096);
  bt_next : VMALLOC_START ≤ vn' ≤ VMALLOC_END ∧ vn' mod 4096 = 0;
  bt_free : meets_none base (n * 4096) l;
  bt_rest_window : Forall (in_window vn') F';
  bt_rest_sep : separated F';
  bt_rest_free : ∀ r, r ∈ F' → meets_none r.1 r.2 l ∧ (range_end r ≤ base ∨ base + n * 4096 ≤ r.1);
  bt_above : meets_none vn' (VMALLOC_END - vn') l;
}.

Lemma meets_none_sub va size va' size' l :
  va ≤ va' → va' + size' ≤ va + size → meets_none va size l → meets_none va' size' l.
Proof.
  intros H1 H2 H w Hw. specialize (H w Hw). unfold meets in *. apply andb_false_iff in H.
  rewrite !Z.ltb_ge in H. apply andb_false_iff. rewrite !Z.ltb_ge. lia.
Qed.

Lemma window_bounds : 0 < VMALLOC_START ∧ VMALLOC_END < 2 ^ 64 ∧ VMALLOC_END - VMALLOC_START ≤ 2 ^ 48.
Proof. vm_compute. split_and!; congruence. Qed.

Lemma take_block s F D l n base F' vn' :
  heap_ok s F D l → 0 < n → take (n * 4096) F (vmalloc_next s) base F' vn' →
  block_taken s F l n base F' vn'.
Proof.
  intros [_ _ [[Hn1 Hn2] Hnal] Hwin Hsep Hun Hab _] Hn Htake.
  pose proof window_bounds as (W1 & W2 & W3). pose proof (Z.mod_mul n 4096 ltac:(lia)) as Hnm.
  inversion Htake as [F1 va sz F2 HF Hle Hmin|Hsmall Hroom]; subst.
  - apply Forall_app in Hwin as [Hwin1 [Hw Hwin2]%list.Forall_cons].
    pose proof Hw as (Hw1 & Hw2 & Hw3 & Hw4 & Hw5). unfold range_end in Hw3. simpl in *.
    apply separated_app in Hsep as (Hs1 & [Hs Hs2] & Hs12). rewrite list.Forall_forall in Hs.
    assert (Hin : (base, sz) ∈ F1 ++ (base, sz) :: F2) by (apply elem_of_app; right; by left).
    set (mid := if sz =? n * 4096 then [] else [(base + n * 4096, sz - n * 4096)]).
    assert (Hmid : ∀ r, r ∈ mid → sz ≠ n * 4096 ∧ r = (base + n * 4096, sz - n * 4096)).
    { intros r. unfold mid. destruct (Z.eqb_spec sz (n * 4096)); [by intros ?%elem_of_nil|].
      by intros ->%list_elem_of_singleton. }
    assert (Hmidsep : ∀ r t, r ∈ mid → separate (base, sz) t → separate r t).
    { intros r t [Hne ->]%Hmid. unfold separate, range_end. simpl. lia. }
    assert (Hmal : (base + n * 4096) mod 4096 = 0) by (by rewrite Z.mod_add by lia).
    assert (Hsal : (sz - n * 4096) mod 4096 = 0) by (rewrite Zminus_mod, Hnm, Hw5; done).
    split.
    + unfold block_ok. lia.
    + unfold in_window, range_end. simpl. lia.
    + done.
    + eapply meets_none_sub; [| |apply (Hun _ Hin)]; simpl; lia.
    + apply Forall_app. split; [done|]. apply Forall_app. split; [|done].
      apply list.Forall_forall. intros r [Hne ->]%Hmid. unfold in_window, range_end. simpl. lia.
    + apply separated_app. split_and!; [done| |].
      * apply separated_app. split_and!; [unfold mid; by destruct (_ =? _)|done|].
        intros r t Hr Ht. by apply (Hmidsep r t Hr), Hs.
      * intros r t Hr [Ht|Ht]%elem_of_app; [|apply Hs12; [done|by right]].
        apply separate_sym, (Hmidsep t r Ht), separate_sym, Hs12; [done|by left].
    + intros r [Hr|[Hr|Hr]%elem_of_app]%elem_of_app.
      * split; [apply Hun, elem_of_app; by left|]. pose proof (Hs12 r (base, sz) Hr ltac:(by left)) as Hd.
        unfold separate, range_end in *. simpl in *. lia.
      * apply Hmid in Hr as [Hne ->]. unfold range_end. simpl. split; [|lia].
        eapply meets_none_sub; [| |apply (Hun _ Hin)]; simpl; lia.
      * split; [apply Hun, elem_of_app; right; by right|]. pose proof (Hs r Hr) as Hd.
        unfold separate, range_end in *. simpl in *. lia.
    + done.
  - split.
    + unfold block_ok. lia.
    + unfold in_window, range_end. simpl. lia.
    + split; [lia|]. by rewrite Z.mod_add by lia.
    + eapply meets_none_sub; [| |exact Hab]; lia.
    + eapply Forall_impl; [exact Hwin|]. intros r (H1 & H2 & H3 & H4 & H5). unfold in_window. lia.
    + done.
    + intros r Hr. split; [by apply Hun|]. rewrite list.Forall_forall in Hwin.
      destruct (Hwin r Hr) as (_ & _ & ? & _). lia.
    + eapply meets_none_sub; [| |exact Hab]; lia.
Qed.

(** ** Handing a block back *)

Lemma owns_perm gone excuse D l base n m0 ps ps' v :
  ps ≡ₚ ps' → owns gone excuse D l base n m0 ps v → owns gone excuse D l base n m0 ps' v.
Proof.
  intros Hp [H1 H2 (l' & H3 & H4) H5].
  assert (Hp2 : ps.*2 ≡ₚ ps'.*2) by (by rewrite Hp). split.
  - by rewrite <-Hp2.
  - intros pa. rewrite <-Hp2. apply H2.
  - exists l'. split; [|by rewrite <-Hp].
    replace (list_to_set ps'.*2 : gset Z) with (list_to_set ps.*2 : gset Z); [done|].
    apply leibniz_equiv. by rewrite Hp2.
  - eapply span_mono; [|exact H5]. intros k old new _. unfold leaf_of. setoid_rewrite Hp. done.
Qed.

(** All pages gone: the manager is where it was. *)
Lemma owns_nil gone excuse D l base n m0 v :
  owns gone excuse D l base n m0 [] v → ∃ l', vabs D v l' ∧ l' ≡ₚ l.
Proof. intros [_ _ (l' & H & Hl) _]. simpl in *. rewrite union_empty_l_L in H. by exists l'. Qed.

Lemma meets_none_perm va size l l' : l ≡ₚ l' → meets_none va size l → meets_none va size l'.
Proof. intros Hp H w. rewrite <-Hp. apply H. Qed.

(** Sorted lists of the same regions are equal. *)
Lemma regions_perm l l' : regions l → regions l' → l ≡ₚ l' → l = l'.
Proof.
  intros [Hs Hok] [Hs' Hok'] Hp. apply (StronglySorted_unique_strong before); [|done|done|done].
  rewrite list.Forall_forall in Hok, Hok'. intros x y Hx Hy Hxy Hyx.
  pose proof (vo_size _ (Hok x Hx)). pose proof (vo_size _ (Hok' y Hy)).
  unfold before, vma_end in *. lia.
Qed.

Lemma wp_add_block s F D l base n v (Q : unit → kheap M → Prop) :
  ranges_rep s F → vmalloc_lock s = 0 →
  VMALLOC_START ≤ vmalloc_next s ≤ VMALLOC_END ∧ vmalloc_next s mod 4096 = 0 →
  Forall (in_window (vmalloc_next s)) F → separated F →
  (∀ r, r ∈ F → meets_none r.1 r.2 l) → meets_none (vmalloc_next s) (VMALLOC_END - vmalloc_next s) l →
  in_window (vmalloc_next s) (base, n * 4096) → meets_none base (n * 4096) l →
  Forall (separate (base, n * 4096)) F → vabs D v l →
  (∀ s', heap_ok s' (give (base, n * 4096) F) D l → vmalloc_next s' = vmalloc_next s →
     vmalloc_daif s' = vmalloc_daif s → vm s' = v → Q tt s') →
  wp (add_free_space base (n * 4096)) Q (set_vm v s).
Proof.
  intros Hr Hlk Hn Hwin Hsep Hun Hab Hw Hmeet Hnew Hv HQ. pose proof window_bounds as (W1 & W2 & W3).
  assert (Hpos : Forall (λ r : range, 0 < r.2) F).
  { eapply Forall_impl; [exact Hwin|]. intros r (_ & H & _). exact H. }
  pose proof Hw as (Hw1 & Hw2 & Hw3 & _). unfold range_end in Hw3. simpl in Hw1, Hw2, Hw3.
  apply (wp_add_free_space (set_vm v s) F base (n * 4096)).
  - destruct Hr as (els & free & [? ? ? ? ?] & HF). by exists els, free.
  - done.
  - unfold range_ok. simpl. lia.
  - by apply separated_clear.
  - rewrite list.Forall_forall in *. intros t Ht. specialize (Hnew t Ht). specialize (Hpos t Ht).
    unfold separate, clear_of, range_end in *. simpl in *. lia.
  - intros s' [H1 H2 H3 H4 _ H6]. simpl in H2. apply HQ; [|done|done|done].
    assert (Hgive : ∀ P : range → Prop, P (base, n * 4096) → Forall P F → Forall P (give (base, n * 4096) F)).
    { intros P HP HF. unfold give. destruct (_ <? _)%nat; [by constructor|done]. }
    split; rewrite ?H2; try done.
    + by apply Hgive.
    + unfold give. by destruct (_ <? _)%nat.
    + apply list.Forall_forall, Hgive; [done|]. by apply list.Forall_forall.
    + rewrite H6. done.
Qed.

Lemma wp_seq2 {A} (a b : ST (kheap M) unit) (c : ST (kheap M) A) Q s :
  wp (a;; b) (λ _, wp c Q) s → wp (a;; b;; c) Q s.
Proof.
  intros H. apply wp_bind. destruct H as (u & s' & Hm & Hc). unfold mbind, st_bind in Hm.
  destruct (a s) as [[[] s1]|] eqn:Ha; [|done]. exists tt, s1. split; [done|].
  apply wp_bind. exists u, s'. by split.
Qed.

(** The failure path once the guard page [g] and the pages [frs] are mapped. *)
Lemma wp_undo {A} (x : A) s D l base n m0 g frs v (Q : A → kheap M → Prop) :
  let gone old new := new = old ∨ new = None in
  block_ok base n → Z.of_nat (length frs) < n →
  mapping D l base n m0 (numbered 0 (g :: frs)) v →
  (∀ v', vabs D v' l → span_step base n (λ _, gone) m0 (mmu v') →
     wp (add_free_space base (n * 4096)) (λ _, Q x) (set_vm v' s)) →
  vabs D (vm s) l →
  wp (drop_pages (Z.of_nat (length frs)) (u64 (base + GUARD_SIZE));;
      unwind base g (n * 4096);; mret x) Q (set_vm v s).
Proof.
  intros gone Hb Hlen [Hown _] Hadd Habs. pose proof Hb as (Hb1 & Hb2 & _ & Hb4 & _).
  assert (Hgone : ∀ old, gone old None) by (by right).
  apply (owns_gone _ gone) in Hown; [|by left].
  apply (owns_perm _ _ _ _ _ _ _ _ (numbered (1 + 0) frs ++ [(0, g)])) in Hown;
    [|simpl; apply Permutation_cons_append].
  assert (Hnd : NoDup (numbered (1 + 0) frs ++ [(0, g)]).*1).
  { rewrite fmap_app. simpl. rewrite <-Permutation_cons_append. apply (numbered_nodup 0 (g :: frs)). }
  apply wp_bind. unfold drop_pages. rewrite Nat2Z.id.
  eapply (wp_drop_pages_loop gone D l base n m0 _ frs [(0, g)] 1 0); [done|exact Hown|done|lia|lia|exact Hnd| |].
  { intros i. left. rewrite u64_add_l.
    by replace (base + GUARD_SIZE + i * 4096) with (base + (1 + i) * 4096) by (unfold GUARD_SIZE; lia). }
  intros v1 Hown1. apply wp_bind. unfold unwind. apply wp_seq2.
  eapply (wp_unmap_free gone D l base n m0 [(0, g)] [] _ 0 g base); [done|exact Hown1|done|lia| |done|lia|].
  { simpl. apply NoDup_singleton. }
  intros v2 Hown2. destruct (owns_nil _ _ _ _ _ _ _ _ Hown2) as (l' & Habs' & Hl').
  rewrite (regions_perm l' l) in Habs'; [|by eapply vabs_regions|by eapply vabs_regions|done].
  eapply wp_mono; [apply (Hadd v2 Habs')|].
  - eapply span_mono; [|apply (ow_tabs _ _ _ _ _ _ _ _ _ Hown2)].
    intros k old new _ [_ Hout]. apply Hout. by intros pa ?%elem_of_nil.
  - intros [] s' HQ. by apply wp_ret.
Qed.

(** ** vmalloc *)

(** How [vmalloc] ends for a block of [n] pages, guards included: no address
    range; too few frames for the pages and their tables, with the range handed
    back; or a block. *)
Definition vmalloc_post s F D l (n r : Z) s' : Prop :=
  r = 0 ∧ s' = s ∧ exhausted (n * 4096) F (vmalloc_next s) ∨
  ∃ base F' vn', take (n * 4096) F (vmalloc_next s) base F' vn' ∧ vmalloc_next s' = vn' ∧
    (r = 0 ∧ (frames_left (mmu (vm s)) < 4 * Z.to_nat n)%nat ∧ heap_ok s' (give (base, n * 4096) F') D l ∧
       span_step base n (λ _ old new, new = old ∨ new = None) (mmu (vm s)) (mmu (vm s')) ∨
     ∃ frs l', r = base + GUARD_SIZE ∧ Z.of_nat (length frs) = n ∧ NoDup frs ∧ (∀ pa, pa ∈ frs → pa ∉ D) ∧
       heap_ok s' F' (list_to_set frs ∪ D) l' ∧ l' ≡ₚ (page_region_of n base <$> numbered 0 frs) ++ l ∧
       span_step base n (leaf_of n (λ old new, new = old) (full (mmu (vm s'))) (numbered 0 frs)) (mmu (vm s)) (mmu (vm s')) ∧
       (frames_left (mmu (vm s)) ≤ frames_left (mmu (vm s')) + 4 * Z.to_nat n)%nat).

Lemma block_regions_outside n base frs va size :
  Z.of_nat (length frs) = n → va + size ≤ base ∨ base + n * 4096 ≤ va →
  meets_none va size (page_region_of n base <$> numbered 0 frs).
Proof.
  intros Hn Hout w (kp & -> & Hk)%list_elem_of_fmap. apply numbered_index in Hk.
  unfold meets, vma_end, page_region_of. simpl. apply andb_false_iff. rewrite !Z.ltb_ge. lia.
Qed.

Lemma meets_none_app va size l1 l2 :
  meets_none va size l1 → meets_none va size l2 → meets_none va size (l1 ++ l2).
Proof. intros H1 H2 w [Hw|Hw]%elem_of_app; [by apply H1|by apply H2]. Qed.

Lemma vmalloc_done s s1 F D l n base F' vn' frs v :
  heap_ok s F D l → take (n * 4096) F (vmalloc_next s) base F' vn' → 0 < n →
  heap_step s F' vn' s1 → Z.of_nat (length frs) = n →
  mapping D l base n (mmu (vm s)) (numbered 0 frs) v →
  vmalloc_post s F D l n (base + GUARD_SIZE) (set_vm v s1).
Proof.
  intros Hok Htake Hn [Hr Hnx Hlk Hda Hpr Hvm] Hlen [[Hnd Hfr (l' & Habs & Hl') Htab] Hcost].
  rewrite <-(length_fmap snd (numbered 0 frs)), numbered_frames in Hcost.
  rewrite numbered_frames in *. destruct (take_block _ _ _ _ _ _ _ _ Hok Hn Htake).
  right. exists base, F', vn'. split; [done|]. split; [exact Hnx|]. right. exists frs, l'.
  split_and!; [done|done|done|done| |done|done|cbn [vm set_vm]; lia].
  assert (Hnew : ∀ va size, va + size ≤ base ∨ base + n * 4096 ≤ va → meets_none va size l → meets_none va size l').
  { intros va size Hout Hm. eapply meets_none_perm; [symmetry; exact Hl'|].
    apply meets_none_app; [by apply block_regions_outside|done]. }
  split; simpl; rewrite ?Hnx; try done.
  - destruct Hr as (els & free & [? ? ? ? ?] & HF). by exists els, free.
  - intros r Hr'. destruct (bt_rest_free0 r Hr') as [Hm Hd]. apply Hnew; [|done].
    unfold range_end in Hd. lia.
  - apply Hnew; [|done]. destruct bt_window0 as (_ & _ & Hw & _). unfold range_end in Hw. simpl in Hw. lia.
Qed.

Lemma vmalloc_undone s s1 F D l n base F' vn' v (Q : Z → kheap M → Prop) :
  heap_ok s F D l → take (n * 4096) F (vmalloc_next s) base F' vn' → 0 < n →
  heap_step s F' vn' s1 → Forall (separate (base, n * 4096)) F' →
  vabs D v l → span_step base n (λ _ old new, new = old ∨ new = None) (mmu (vm s)) (mmu v) →
  (frames_left (mmu (vm s)) < 4 * Z.to_nat n)%nat →
  (∀ s', vmalloc_post s F D l n 0 s' → Q 0 s') →
  wp (add_free_space base (n * 4096)) (λ _, Q 0) (set_vm v s1).
Proof.
  intros Hok Htake Hn [Hr Hnx Hlk Hda Hpr Hvm] Hsep Habs Htab Hfew HQ.
  destruct (take_block _ _ _ _ _ _ _ _ Hok Hn Htake).
  apply (wp_add_block s1 F' D l); rewrite ?Hnx; try done.
  - intros r Hr'. by apply bt_rest_free0.
  - intros s' Hok' Hn' _ Hv'. apply HQ. right. exists base, F', vn'. split; [done|]. split; [exact Hn'|].
    left. split_and!; [done|done|done|]. by rewrite Hv'.
Qed.

(** Pages of the block that serves a request. *)
Definition block_for (size : Z) : Z := pages_of size + 2.

(** A size up to which no address computation of the heap wraps. *)
Definition sane (size : Z) : Prop := 0 < size ∧ pages_of size * 4096 ≤ 2 ^ 38.

Lemma pages_of_nonneg size : 0 ≤ pages_of size.
Proof. apply Z.div_pos; [|lia]. unfold u64. apply Z.mod_pos_bound. lia. Qed.

Lemma pages_of_ceil size : 0 ≤ size → size + 4095 < 2 ^ 64 → pages_of size = (size + 4095) / 4096.
Proof. intros H1 H2. unfold pages_of, u64. rewrite (wrap_small 64); [done|lia]. Qed.

Lemma size_words size :
  sane size →
  u64 (pages_of size * 4096) = pages_of size * 4096 ∧
  u64 (u64 (pages_of size * 4096) + 2 * GUARD_SIZE) = block_for size * 4096.
Proof.
  intros [_ Hs]. pose proof (pages_of_nonneg size).
  assert (Hd : u64 (pages_of size * 4096) = pages_of size * 4096) by (apply (wrap_small 64); lia).
  split; [done|]. rewrite Hd. unfold u64, GUARD_SIZE, block_for. rewrite (wrap_small 64); lia.
Qed.

Lemma numbered_length k frs : length (numbered k frs) = length frs.
Proof. rewrite <-(numbered_frames k frs) at 2. by rewrite length_fmap. Qed.

(** The data pages: an invariant of the mapping loop. *)
Definition mapped_so_far s1 D l base n m0 g (i : Z) s' : Prop :=
  ∃ frs v, s' = set_vm v s1 ∧ Z.of_nat (length frs) = i ∧
    mapping D l base n m0 (numbered 0 (g :: frs)) v.

Lemma numbered_fill g frs k :
  Z.of_nat (length frs) = k → ∀ pa, numbered 0 (g :: frs) ++ [(1 + k, pa)] = numbered 0 (g :: frs ++ [pa]).
Proof.
  intros Hk pa. change (g :: frs ++ [pa]) with ((g :: frs) ++ [pa]). rewrite numbered_app.
  replace (0 + Z.of_nat (length (g :: frs))) with (1 + k) by (simpl; lia). done.
Qed.

Lemma vmalloc_index n l g frs :
  Z.of_nat (length l) + n ≤ 256 → Z.of_nat (length frs) < n - 1 →
  1 + Z.of_nat (length frs) ∉ (numbered 0 (g :: frs)).*1 ∧
  (∀ kp, kp ∈ numbered 0 (g :: frs) → 0 ≤ kp.1 < n) ∧
  (length (numbered 0 (g :: frs)) + length l < 256)%nat.
Proof.
  intros Hroom Hlen. pose proof (numbered_frames 0 (g :: frs)) as Hfl. apply (f_equal length) in Hfl.
  rewrite length_fmap in Hfl. split_and!.
  - intros (kp & Hk & Hin)%list_elem_of_fmap. apply numbered_index in Hin. simpl in Hin. lia.
  - intros kp Hin%numbered_index. simpl in Hin. lia.
  - simpl in Hfl |- *. lia.
Qed.

(** One run of [vmalloc] from the moment the address range is reserved. *)
Section run.
Variables (s s1 : kheap M) (F F' : list range) (D : gset Z) (l : list vma) (n base vn' : Z).
Hypothesis Hok : heap_ok s F D l.
Hypothesis Htake : take (n * 4096) F (vmalloc_next s) base F' vn'.
Hypothesis Hstep : heap_step s F' vn' s1.
Hypothesis Hn : 2 ≤ n.
Hypothesis Hsep : Forall (separate (base, n * 4096)) F'.
Hypothesis Hroom : Z.of_nat (length l) + n ≤ 256.

Notation mapped ps v := (mapping D l base n (mmu (vm s)) ps v).

Lemma run_block : block_ok base n ∧ meets_none base (n * 4096) l ∧ VMALLOC_START ≤ base.
Proof.
  destruct (take_block s F D l n base F' vn' Hok ltac:(lia) Htake) as [Hb Hw _ Hf _ _ _ _].
  split_and!; [done|done|]. by destruct Hw.
Qed.

Lemma run_nothing v :
  mapped [] v → vabs D v l ∧ span_step base n (λ _ old new, new = old ∨ new = None) (mmu (vm s)) (mmu v).
Proof.
  intros [Hown _]. pose proof (hk_vm _ _ _ _ Hok) as Hvm. destruct (owns_nil _ _ _ _ _ _ _ _ Hown) as (l' & Habs & Hl').
  rewrite (regions_perm l' l) in Habs; [|by eapply vabs_regions|by eapply vabs_regions|done]. split; [done|].
  eapply span_mono; [|apply (ow_tabs _ _ _ _ _ _ _ _ _ Hown)].
  intros k old new _ [_ Hout]. left. apply Hout. by intros pa ?%elem_of_nil.
Qed.

Lemma run_start : mapped [] (vm s1).
Proof.
  rewrite (hs_vm _ _ _ _ Hstep). apply mapping_start, (hk_vm _ _ _ _ Hok).
Qed.

(** Failing with the guard page and some data pages mapped. *)
Lemma run_undo {A} (x : A) g frs v (Q : A → kheap M → Prop) :
  Z.of_nat (length frs) < n → (frames_left (mmu (vm s)) < 4 * Z.to_nat n)%nat → mapped (numbered 0 (g :: frs)) v →
  (∀ s', vmalloc_post s F D l n 0 s' → Q x s') →
  wp (drop_pages (Z.of_nat (length frs)) (u64 (base + GUARD_SIZE));;
      unwind base g (n * 4096);; mret x) Q (set_vm v s1).
Proof.
  intros Hlen Hfew Hown HQ. destruct run_block as (Hb & _ & _).
  apply (wp_undo x s1 D l base n (mmu (vm s)) g frs v Q); [done|done|done| |].
  - intros v' Hv' Htab. eapply wp_mono.
    + apply (vmalloc_undone s s1 F D l n base F' vn' v' (λ _ s', vmalloc_post s F D l n 0 s')); done || lia.
    + intros [] s'. apply HQ.
  - rewrite (hs_vm _ _ _ _ Hstep). apply (hk_vm _ _ _ _ Hok).
Qed.

(** An iteration of the mapping loop. *)
Lemma run_iteration g frs v :
  Z.of_nat (length frs) < n - 2 → mapped (numbered 0 (g :: frs)) v →
  wp (page ← pmm_alloc_page;
      if page =? 0 then
        drop_pages (Z.of_nat (length frs)) (u64 (base + GUARD_SIZE));;
        unwind base g (n * 4096);;
        mret (Some 0)
      else
        map_ (u64 (u64 (base + GUARD_SIZE) + Z.of_nat (length frs) * 4096)) page 4096 DATA_ATTRS;;
        mret None)
    (λ r s', match r with
             | Some v => v = 0 ∧ vmalloc_post s F D l n 0 s'
             | None => ∃ frs' v', s' = set_vm v' s1 ∧ length frs' = S (length frs) ∧
                 mapped (numbered 0 (g :: frs')) v'
             end) (set_vm v s1).
Proof.
  intros Hlen Hown. destruct run_block as (Hb & Hf & _). pose proof Hb as (Hb1 & _ & _ & Hb4 & _).
  destruct (vmalloc_index n l g frs Hroom ltac:(lia)) as (Hi1 & Hi2 & Hi3).
  eapply (wp_fill_page D l base n (mmu (vm s)) (numbered 0 (g :: frs)) (set_vm v s1) (1 + Z.of_nat (length frs)));
    try done; try lia.
  - rewrite u64_add_l. unfold u64, GUARD_SIZE. rewrite (wrap_small 64); lia.
  - unfold attr_of. rewrite !(proj2 (Z.eqb_neq _ _)) by lia. done.
  - intros v' Hown' Hfew. rewrite numbered_length in Hfew. apply (run_undo (Some 0) g frs v'); [lia|simpl in Hfew; lia|done|]. intros s' H. by split.
  - intros pa v' _ Hown'. apply wp_ret. exists (frs ++ [pa]), v'. split_and!; [done|rewrite length_app; simpl; lia|].
    by rewrite <-(numbered_fill g frs (Z.of_nat (length frs))).
Qed.

(** The second guard page. *)
Lemma run_guard g frs v :
  Z.of_nat (length frs) = n - 2 → mapped (numbered 0 (g :: frs)) v →
  wp (guard2 ← pmm_alloc_page;
      if guard2 =? 0 then
        drop_pages (n - 2) (u64 (base + GUARD_SIZE));;
        unwind base g (n * 4096);;
        mret 0
      else
        map_ (u64 (u64 (base + GUARD_SIZE) + (n - 2) * 4096)) guard2 GUARD_SIZE GUARD_ATTRS;;
        mret (u64 (base + GUARD_SIZE))) (vmalloc_post s F D l n) (set_vm v s1).
Proof.
  intros Hlen Hown. destruct run_block as (Hb & Hf & _). pose proof Hb as (Hb1 & _ & _ & Hb4 & _).
  destruct (vmalloc_index n l g frs Hroom ltac:(lia)) as (Hi1 & Hi2 & Hi3). rewrite <-Hlen.
  change GUARD_SIZE with 4096 at 3.
  eapply (wp_fill_page D l base n (mmu (vm s)) (numbered 0 (g :: frs)) (set_vm v s1) (1 + Z.of_nat (length frs)));
    try done; try lia.
  - rewrite u64_add_l. unfold u64, GUARD_SIZE. rewrite (wrap_small 64); lia.
  - unfold attr_of. rewrite (proj2 (Z.eqb_eq (1 + Z.of_nat (length frs)) (n - 1))) by lia. by rewrite orb_true_r.
  - intros v' Hown' Hfew. rewrite numbered_length in Hfew. apply (run_undo 0 g frs v'); [lia|simpl in Hfew; lia|done|]. done.
  - intros pa v' _ Hown'. apply wp_ret.
    replace (u64 (base + GUARD_SIZE)) with (base + GUARD_SIZE)
      by (symmetry; apply (wrap_small 64); unfold GUARD_SIZE; lia).
    apply (vmalloc_done s s1 F D l n base F' vn' (g :: frs ++ [pa])); [done|done|lia|done| |].
    + simpl. rewrite length_app. simpl. lia.
    + by rewrite <-(numbered_fill g frs (Z.of_nat (length frs))).
Qed.
End run.

Lemma wp_vmalloc s F D l size :
  heap_ok s F D l → sane size → Z.of_nat (length l) + block_for size ≤ 256 →
  (∀ base F' vn', take (block_for size * 4096) F (vmalloc_next s) base F' vn' →
     Forall (separate (base, block_for size * 4096)) F') →
  wp (vmalloc size) (vmalloc_post s F D l (block_for size)) s.
Proof.
  intros Hok Hsize Hroom Hsep. pose proof (pages_of_nonneg size) as Hp1.
  destruct (size_words _ Hsize) as [Hds Hts]. destruct Hsize as [Hs0 Hp2]. pose proof window_bounds as (W1 & W2 & W3).
  pose proof Hok as [Hr Hlk [Hn1 Hn2] _ _ _ _ _].
  unfold vmalloc. destruct (Z.eqb_spec size 0) as [?|_]; [lia|]. cbv zeta. rewrite Hts, Hds.
  set (n := block_for size) in *. assert (Hn : pages_of size = n - 2) by (unfold n, block_for; lia).
  clearbody n. rewrite Hn in *. apply wp_bind. apply (wp_find_free_space s F (n * 4096)); [done|done|lia|lia| | |].
  { unfold VMALLOC_END in Hn1. lia. }
  2:{ intros Hex. rewrite Z.eqb_refl. apply wp_ret. by left. }
  intros base F' vn' s1 Htake Hstep. specialize (Hsep base F' vn' Htake).
  destruct (run_block s F F' D l n base vn' Hok Htake ltac:(lia)) as (Hb & Hfree & Hw).
  rewrite (proj2 (Z.eqb_neq base 0)) by lia. assert (Hn2' : 2 ≤ n) by lia.
  assert (Hs1 : set_vm (vm s1) s1 = s1) by by destruct s1. rewrite <-Hs1.
  eapply (wp_fill_page D l base n (mmu (vm s)) [] (set_vm (vm s1) s1) 0 base GUARD_ATTRS); try done.
  { by eapply (run_start s s1 F F' D l n base vn'). }
  { lia. }
  { by intros ?%elem_of_nil. }
  { by intros kp ?%elem_of_nil. }
  { simpl. lia. }
  { lia. }
  { intros v Hown Hfew. cbn [length] in Hfew. destruct (run_nothing _ _ _ _ _ _ Hok _ Hown) as [Hv Htab].
    apply wp_bind. eapply wp_mono.
    - apply (vmalloc_undone s s1 F D l n base F' vn' v (λ _ s', vmalloc_post s F D l n 0 s')); done || lia.
    - intros [] s' H. by apply wp_ret. }
  intros g v Hg Hown. apply wp_bind.
  apply (wp_for_ret (mapped_so_far s1 D l base n (mmu (vm s)) g)).
  - exists [], v. by split_and!.
  - intros j s2 Hj (frs & v' & -> & Hlen & Hown').
    rewrite <-Hlen. eapply wp_mono.
    + apply (run_iteration s s1 F F' D l n base vn' Hok Htake Hstep Hn2' Hsep Hroom g frs v'); [lia|done].
    + intros [r|] s3; [intros [-> H]; by apply wp_ret|].
      intros (frs' & v'' & -> & Hl' & Hown''). exists frs', v''. split_and!; [done|lia|done].
  - intros s2 (frs & v' & -> & Hlen & Hown').
    apply (run_guard s s1 F F' D l n base vn' Hok Htake Hstep Hn2' Hsep Hroom g frs v'); [lia|done].
Qed.

(** ** vfree *)

(** A live block: its pages are regions of the manager, on frames held. *)
Record live s D l (n base : Z) (frs : list Z) l0 : Prop := {
  lv_block : block_ok base n;
  lv_window : in_window (vmalloc_next s) (base, n * 4096);
  lv_length : Z.of_nat (length frs) = n;
  lv_nodup : NoDup frs;
  lv_held : ∀ pa, pa ∈ frs → pa ∈ D;
  lv_regions : l ≡ₚ (page_region_of n base <$> numbered 0 frs) ++ l0;
}.

Lemma numbered_full k frs j : k ≤ j < k + Z.of_nat (length frs) → ∃ pa, (j, pa) ∈ numbered k frs.
Proof.
  revert k. induction frs as [|pa frs IH]; intros k Hj; simpl in *; [lia|].
  destruct (decide (j = k)) as [->|]; [exists pa; by left|].
  destruct (IH (k + 1)) as [pa' Hpa]; [lia|]. exists pa'. by right.
Qed.

Lemma regions_nodup l : regions l → NoDup l.
Proof.
  induction l as [|v l IH]; [constructor|]. rewrite regions_cons. intros (Hv & Hl & Hb).
  constructor; [|by apply IH]. intros Hin. specialize (Hb v Hin). pose proof (vo_size _ Hv).
  unfold before, vma_end in Hb. lia.
Qed.

(** Other regions lie outside the block. *)
Lemma live_outside s D l n base frs l0 :
  vabs D (vm s) l → live s D l n base frs l0 → meets_none base (n * 4096) l0.
Proof.
  intros Hv [Hb (_ & Hn0 & _) Hlen _ _ Hreg] w Hw. simpl in Hn0. pose proof (vabs_regions _ _ _ Hv) as Hr.
  assert (Hwl : w ∈ l) by (rewrite Hreg; apply elem_of_app; by right).
  pose proof (regions_ok _ _ Hr Hwl) as [_ W2 _ _ _ _]. apply not_true_iff_false. intros Hm.
  unfold meets in Hm. apply andb_prop in Hm as [H1%Z.ltb_lt H2%Z.ltb_lt]. unfold vma_end in *.
  set (x := Z.max base (vma_va w)). set (k := (x - base) / 4096).
  assert (Hk : 0 ≤ k < n).
  { subst k. split; [apply Z.div_pos; lia|]. apply Z.div_lt_upper_bound; lia. }
  destruct (numbered_full 0 frs k) as [pa Hpa]; [lia|].
  set (v := page_region_of n base (k, pa)).
  assert (Hvr : v ∈ page_region_of n base <$> numbered 0 frs) by (apply list_elem_of_fmap; by exists (k, pa)).
  assert (Hvl : v ∈ l) by (rewrite Hreg; apply elem_of_app; by left).
  pose proof (Z.div_mod (x - base) 4096 ltac:(lia)) as Hdm. pose proof (Z.mod_pos_bound (x - base) 4096 ltac:(lia)).
  assert (Hkx : base + k * 4096 ≤ x < base + k * 4096 + 4096) by (fold k in Hdm; lia).
  assert (Heq : v = w).
  { apply (regions_cover l v w x Hr Hvl Hwl); unfold vma_end; simpl; lia. }
  pose proof (regions_nodup _ Hr) as Hnd. rewrite Hreg in Hnd. apply list.NoDup_app in Hnd as (_ & Hd & _).
  apply (Hd v Hvr). by rewrite Heq.
Qed.

Lemma live_owns s D l n base frs l0 :
  vabs D (vm s) l → live s D l n base frs l0 →
  owns (λ _ new, new = None) anyhow (D ∖ list_to_set frs) l0 base n (mmu (vm s)) (numbered 0 frs) (vm s).
Proof.
  intros Hv [Hb _ Hlen Hnd Hin Hreg]. split; rewrite ?numbered_frames.
  - done.
  - intros pa Hpa. rewrite elem_of_difference, elem_of_list_to_set. tauto.
  - exists l. split; [|done]. replace (list_to_set frs ∪ D ∖ list_to_set frs) with D; [done|].
    apply leibniz_equiv. intros pa. rewrite elem_of_union, elem_of_difference, elem_of_list_to_set.
    destruct (decide (pa ∈ frs)); naive_solver.
  - split_and!; [done|done|]. intros _ k Hk. split; [by right|]. intros Hno.
    destruct (numbered_full 0 frs k) as [pa Hpa]; [lia|]. by destruct (Hno pa).
Qed.

Lemma wp_seq_assoc {A} (a b : ST (kheap M) unit) (c : ST (kheap M) A) Q s :
  wp a (λ _, wp b (λ _, wp c Q)) s → wp (a;; b;; c) Q s.
Proof. intros H. apply wp_bind. eapply wp_mono; [exact H|]. intros [] s' Hb. by apply wp_bind. Qed.

(** [vfree] up to the return of the address range. *)
Definition release (ptr0 size : Z) : ST (kheap M) unit :=
  let data_size := u64 (pages_of size * 4096) in
  for_each (Z.to_nat (pages_of size)) 0 (λ i, free_mapped (u64 (ptr0 + i * 4096)));;
  free_mapped (u64 (ptr0 - GUARD_SIZE));;
  free_mapped (u64 (ptr0 + data_size)).

Lemma vfree_release fuel base size :
  sane size → 0 ≤ base → base + GUARD_SIZE < 2 ^ 64 → ∀ s,
  vfree_with fuel (base + GUARD_SIZE) size s =
  (release (base + GUARD_SIZE) size;; add_free_space_with fuel base (block_for size * 4096)) s.
Proof.
  intros Hsize Hb Hb2 s. destruct (size_words _ Hsize) as [Hds Hts]. unfold vfree_with, release.
  rewrite (proj2 (Z.eqb_neq _ 0)) by (unfold GUARD_SIZE in *; lia). rewrite (proj2 (Z.eqb_neq size 0)) by (destruct Hsize; lia).
  cbn [orb]. cbv zeta. rewrite Hts. replace (u64 (base + GUARD_SIZE - GUARD_SIZE)) with base
    by (symmetry; unfold u64; rewrite (wrap_small 64); unfold GUARD_SIZE in *; lia).
  unfold mbind, st_bind. destruct (for_each _ _ _ s) as [[[] s1]|]; [|done].
  by destruct (free_mapped base s1) as [[[] s2]|].
Qed.

Lemma wp_release s F D l size base frs l0 :
  heap_ok s F D l → sane size → live s D l (block_for size) base frs l0 →
  wp (release (base + GUARD_SIZE) size) (λ _ s', ∃ v l', s' = set_vm v s ∧ l' ≡ₚ l0 ∧
    vabs (D ∖ list_to_set frs) v l' ∧
    span_step base (block_for size) (λ _ _ new, new = None) (mmu (vm s)) (mmu v)) s.
Proof.
  intros Hok Hsize Hlive. pose proof (pages_of_nonneg size) as Hp1.
  destruct (size_words _ Hsize) as [Hds Hts]. destruct Hsize as [Hs0 Hp2].
  pose proof (hk_vm _ _ _ _ Hok) as Hvm. pose proof (live_owns _ _ _ _ _ _ _ Hvm Hlive) as Hown.
  pose proof (live_outside _ _ _ _ _ _ _ Hvm Hlive) as Hout.
  destruct Hlive as [Hb Hw Hlen Hnd Hin Hreg]. pose proof Hw as (Hw1 & _). simpl in Hw1.
  pose proof window_bounds as (W1 & _). pose proof Hb as (Hb1 & _ & _ & Hb4 & _).
  unfold release. cbv zeta. rewrite Hds.
  replace (u64 (base + GUARD_SIZE - GUARD_SIZE)) with base
    by (symmetry; unfold u64; rewrite (wrap_small 64); lia).
  set (n := block_for size) in *. assert (Hn : pages_of size = n - 2) by (unfold n, block_for; lia).
  clearbody n. rewrite Hn in *.
  destruct frs as [|g frs] using list_rect; [simpl in Hlen; lia|].
  destruct frs as [|g2 frs _] using rev_ind; [simpl in Hlen; lia|]. clear IHfrs.
  assert (Hfl : Z.of_nat (length frs) = n - 2) by (simpl in Hlen; rewrite length_app in Hlen; simpl in Hlen; lia).
  rewrite <-(numbered_fill g frs (n - 2) Hfl) in Hown.
  set (D0 := D ∖ list_to_set (g :: frs ++ [g2])) in *.
  set (tail := [(0, g); (1 + (n - 2), g2)]).
  apply (owns_perm _ _ _ _ _ _ _ _ (numbered (1 + 0) frs ++ tail)) in Hown.
  2:{ apply (Permutation_middle (numbered 1 frs) [(1 + (n - 2), g2)] (0, g)). }
  assert (Hidx : NoDup (numbered (1 + 0) frs ++ tail).*1).
  { eapply NoDup_Permutation_proper; [|apply (numbered_nodup 0 (g :: frs ++ [g2]))].
    rewrite <-(numbered_fill g frs (n - 2) Hfl). apply fmap_Permutation. symmetry.
    apply (Permutation_middle (numbered 1 frs) [(1 + (n - 2), g2)] (0, g)). }
  rewrite <-Hfl at 1. rewrite Nat2Z.id. apply wp_bind.
  eapply (wp_drop_pages_loop (λ _ new, new = None) D0 l0 base n (mmu (vm s)) _ frs tail 1 0);
    [done|exact Hown|done|lia|lia|exact Hidx| |].
  { intros i. right.
    by replace (base + GUARD_SIZE + i * 4096) with (base + (1 + i) * 4096) by (unfold GUARD_SIZE; lia). }
  rewrite fmap_app in Hidx. apply list.NoDup_app in Hidx as (_ & _ & Hidx).
  intros v1 Hown1. apply wp_bind.
  apply (wp_drop_page (λ _ new, new = None) D0 l0 base n (mmu (vm s)) tail [(1 + (n - 2), g2)] _ 0 g base
    (λ _ s', wp _ _ s')); [done|exact Hown1|done|lia|exact Hidx|done|lia|].
  intros v2 Hown2.
  apply (wp_drop_page (λ _ new, new = None) D0 l0 base n (mmu (vm s)) [(1 + (n - 2), g2)] [] _ (1 + (n - 2)) g2);
    [done|exact Hown2|done|lia|apply NoDup_singleton|done| |].
  { unfold u64, GUARD_SIZE. rewrite (wrap_small 64); lia. }
  intros v3 Hown3. destruct (owns_nil _ _ _ _ _ _ _ _ Hown3) as (l' & Habs & Hl').
  exists v3, l'. split; [done|]. split; [done|]. split; [exact Habs|].
  eapply span_mono; [|apply (ow_tabs _ _ _ _ _ _ _ _ _ Hown3)].
  intros k old new _ [_ Hgone]. apply Hgone. by intros pa ?%elem_of_nil.
Qed.

Lemma wp_vfree s F D l size base frs l0 :
  heap_ok s F D l → sane size → live s D l (block_for size) base frs l0 →
  Forall (separate (base, block_for size * 4096)) F →
  wp (vfree (base + GUARD_SIZE) size) (λ _ s',
    (∃ l', l' ≡ₚ l0 ∧ heap_ok s' (give (base, block_for size * 4096) F) (D ∖ list_to_set frs) l') ∧
    vmalloc_next s' = vmalloc_next s ∧
    span_step base (block_for size) (λ _ _ new, new = None) (mmu (vm s)) (mmu (vm s'))) s.
Proof.
  intros Hok Hsize Hlive Hsep. pose proof Hlive as [Hb Hw _ _ _ Hreg]. pose proof Hb as (Hb1 & _ & _ & Hb4 & _).
  pose proof (pages_of_nonneg size) as Hp. unfold vfree.
  assert (Heq : ∀ Q, wp (release (base + GUARD_SIZE) size;; add_free_space base (block_for size * 4096)) Q s →
    wp (vfree_with coalesce_fuel (base + GUARD_SIZE) size) Q s).
  { intros Q H. unfold wp. rewrite vfree_release; [exact H|done|done|unfold GUARD_SIZE, block_for in *; lia]. }
  apply Heq, wp_bind. clear Heq. eapply wp_mono; [by eapply wp_release|]. intros [] s1 (v & l' & -> & Hl' & Habs & Htab).
  pose proof (live_outside _ _ _ _ _ _ _ (hk_vm _ _ _ _ Hok) Hlive) as Hout.
  assert (Hsub : ∀ va sz, meets_none va sz l → meets_none va sz l').
  { intros va sz H w Hw'. apply H. rewrite Hreg, elem_of_app, <-Hl'. by right. }
  destruct Hok as [Hr Hlk Hnx Hwin Hs Hun Hab _].
  apply (wp_add_block s F (D ∖ list_to_set frs) l' base (block_for size) v); try done.
  - intros r Hr'. by apply Hsub, Hun.
  - by apply Hsub.
  - eapply meets_none_perm; [symmetry; exact Hl'|done].
  - intros s' Hok' Hn' _ Hv'. split; [by exists l'|]. split; [done|]. by rewrite Hv'.
Qed.

End alloc.
