(* ===== verification/VmallocHang.v ===== *)
(** * The kernel heap: merging never ends

    [coalesce_free_list] unlinks both of two abutting blocks, puts one back to
    the unused descriptors, and goes on from the other, whose [next] still leads
    there.  The scan thus runs into the unused descriptors, which are all empty
    and at address 0, so that any two of them abut.  This file shows that the
    inner loop then returns to an earlier state, and so never ends; which states
    a call of [vfree] goes through at the heads of the two inner loops; and what
    an allocation that succeeds changes. *)
From stdpp Require Import base gmap list option numbers.
From S2P Require Import Prelude Spinlock RBHeap MmuIface Frames Vmm Vmalloc VmallocThm VmallocMap VmallocAlloc.
#[local] Open Scope Z_scope.
Import Vmalloc.

Section hang.
Context {M : Type} `{MO : !MmuOps M, FO : !FrameOps M}.
Implicit Types (s : kheap M) (c : ptr * ptr * bool).

(** [k] iterations of the inner loop, none of which is the last. *)
Fixpoint merge_iter (k : nat) c : ST (kheap M) (ptr * ptr * bool) :=
  match k with
  | O => mret c
  | S k => if is_null c.1.2 then undef else c ← merge_body c.1.1 c.1.2 c.2; merge_iter k c
  end.

Lemma merge_iter_app a b c s c' s' :
  merge_iter (a + b) c s = Some (c', s') →
  ∃ c1 s1, merge_iter a c s = Some (c1, s1) ∧ merge_iter b c1 s1 = Some (c', s').
Proof.
  revert c s. induction a as [|a IH]; intros c s H; [by exists c, s|].
  cbn [merge_iter Nat.add] in *. destruct (is_null c.1.2); [done|].
  apply st_bind_inv in H as (c1 & s1 & Hb & H). destruct (IH _ _ H) as (c2 & s2 & H1 & H2).
  exists c2, s2. split; [|done]. unfold mbind, st_bind. by rewrite Hb.
Qed.

Lemma merge_iter_trans a b c s c1 s1 :
  merge_iter a c s = Some (c1, s1) → merge_iter (a + b) c s = merge_iter b c1 s1.
Proof.
  revert c s. induction a as [|a IH]; intros c s H.
  - by injection H as <- <-.
  - cbn [merge_iter Nat.add] in *. destruct (is_null c.1.2); [done|].
    apply st_bind_inv in H as (c2 & s2 & Hb & H). unfold mbind, st_bind. rewrite Hb. by apply IH.
Qed.

Lemma merge_iter_loop k n c s c' s' :
  merge_iter k c s = Some (c', s') →
  merge_loop (k + n) c.1.1 c.1.2 c.2 s = merge_loop n c'.1.1 c'.1.2 c'.2 s'.
Proof.
  revert c s. induction k as [|k IH]; intros c s H.
  - cbn in H. by injection H as <- <-.
  - cbn [merge_iter] in H. cbn [merge_loop Nat.add]. destruct (is_null c.1.2); [done|].
    apply st_bind_inv in H as (c1 & s1 & Hb & H). unfold mbind, st_bind. rewrite Hb. by apply IH.
Qed.

(** A loop that comes back to a state it was in goes on for ever. *)
Lemma merge_cycle k c s n :
  (0 < k)%nat → merge_iter k c s = Some (c, s) → merge_loop n c.1.1 c.1.2 c.2 s = None.
Proof.
  intros Hk Hc. induction n as [n IH] using lt_wf_ind. destruct (Nat.lt_ge_cases n k) as [Hlt|Hge].
  - replace k with (n + (k - n))%nat in Hc by lia.
    apply merge_iter_app in Hc as (c1 & s1 & H1 & _). replace n with (n + 0)%nat by lia.
    by rewrite (merge_iter_loop _ _ _ _ _ _ H1).
  - replace n with (k + (n - k))%nat by lia. rewrite (merge_iter_loop _ _ _ _ _ _ Hc). apply IH. lia.
Qed.

Lemma merge_lasso a k c s c1 s1 n :
  merge_iter a c s = Some (c1, s1) → (0 < k)%nat → merge_iter k c1 s1 = Some (c1, s1) →
  merge_loop n c.1.1 c.1.2 c.2 s = None.
Proof.
  intros Ha Hk Hc. destruct (Nat.lt_ge_cases n a) as [Hlt|Hge].
  - replace a with (n + (a - n))%nat in Ha by lia.
    apply merge_iter_app in Ha as (c2 & s2 & H2 & _). replace n with (n + 0)%nat by lia.
    by rewrite (merge_iter_loop _ _ _ _ _ _ H2).
  - replace n with (a + (n - a))%nat by lia. rewrite (merge_iter_loop _ _ _ _ _ _ Ha).
    by eapply merge_cycle.
Qed.

(** ** What the list code does not touch *)

Definition keeps {A} (m : ST (kheap M) A) : Prop := ∀ s a s', m s = Some (a, s') → same_rest s s'.

Lemma keeps_bind {A B} (m : ST (kheap M) A) (k : A → ST (kheap M) B) :
  keeps m → (∀ a, keeps (k a)) → keeps (m ≫= k).
Proof. intros Hm Hk s b s' (a & s1 & H1 & H2)%st_bind_inv. etrans; [by eapply Hm|by eapply Hk]. Qed.
Lemma keeps_ret {A} (a : A) : keeps (mret a).
Proof. by intros s b s' [= _ <-]. Qed.
Lemma keeps_gets {A} (f : kheap M → A) : keeps (gets f).
Proof. by intros s b s' [= _ <-]. Qed.
Lemma keeps_load p : keeps (load p).
Proof. intros s b s' H. unfold load in H. destruct p as [a|]; [|done]. destruct (free_pool s !! a); [|done]. by injection H as _ <-. Qed.
Lemma keeps_brd {A} (f : block → A) p : keeps (brd f p).
Proof. apply keeps_bind; [apply keeps_load|]. intros b. apply keeps_ret. Qed.
Lemma brd_pure {A} (f : block → A) p s a s' : brd f p s = Some (a, s') → s' = s.
Proof.
  intros (b & s1 & H & [= _ <-])%st_bind_inv. unfold load in H. destruct p as [q|]; [|done].
  destruct (free_pool s !! q); [|done]. by injection H as _ <-.
Qed.
Lemma keeps_bwr f p : keeps (bwr f p).
Proof.
  apply keeps_bind; [apply keeps_load|]. intros b. apply keeps_bind.
  - intros s a s' H. unfold deref in H. destruct p; [|done]. by injection H as _ <-.
  - intros a s u s' [= _ <-]. by repeat split.
Qed.
Lemma keeps_free_list v : keeps (modify (set_free_list v)).
Proof. intros s u s' [= _ <-]. by repeat split. Qed.
Lemma keeps_pool_list v : keeps (modify (set_pool_list v)).
Proof. intros s u s' [= _ <-]. by repeat split. Qed.
Lemma keeps_undef {A} : keeps (undef (A := A)).
Proof. by intros s a s'. Qed.
#[local] Hint Resolve keeps_ret keeps_gets keeps_brd keeps_bwr keeps_free_list keeps_pool_list keeps_undef : keeps.

Ltac keep :=
  repeat match goal with
  | |- keeps (_ ≫= _) => apply keeps_bind; [|intros ?]
  | |- keeps (if ?b then _ else _) => destruct b
  end; auto with keeps.

Lemma keeps_merge_body cur next ch : keeps (merge_body cur next ch).
Proof. unfold merge_body, abuts, grow, unlink, free_block. keep. Qed.
#[local] Hint Resolve keeps_merge_body : keeps.

Lemma keeps_merge_iter k c : keeps (merge_iter k c).
Proof. revert c. induction k as [|k IH]; intros c; cbn [merge_iter]; keep. Qed.

(** ** More fuel, same result *)

Lemma merge_mono n m cur next ch s r :
  (n ≤ m)%nat → merge_loop n cur next ch s = Some r → merge_loop m cur next ch s = Some r.
Proof.
  revert m cur next ch s. induction n as [|n IH]; intros m cur next ch s Hle H; [done|].
  destruct m as [|m]; [lia|]. cbn [merge_loop] in *. destruct (is_null next); [done|].
  apply st_bind_inv in H as (c & s1 & Hb & H). unfold mbind, st_bind. rewrite Hb. apply IH; [lia|done].
Qed.

Lemma merge_agree n m cur next ch s r1 r2 :
  merge_loop n cur next ch s = Some r1 → merge_loop m cur next ch s = Some r2 → r1 = r2.
Proof.
  intros H1 H2. apply (merge_mono _ (n `max` m)) in H1; [|lia].
  apply (merge_mono _ (n `max` m)) in H2; [|lia]. congruence.
Qed.

Lemma scan_body_agree n m cur ch s r1 r2 :
  scan_body n cur ch s = Some r1 → scan_body m cur ch s = Some r2 → r1 = r2.
Proof.
  intros (nx & s1 & Hn & H1)%st_bind_inv (nx' & s1' & Hn' & H2)%st_bind_inv.
  rewrite Hn in Hn'. injection Hn' as <- <-.
  apply st_bind_inv in H1 as (r & s2 & Hm & H1). apply st_bind_inv in H2 as (r' & s2' & Hm' & H2).
  pose proof (merge_agree _ _ _ _ _ _ _ _ Hm Hm') as [= <- <-]. congruence.
Qed.

(** One block of a scan that ends, whatever the fuel. *)
Lemma scan_step m n fuel cur ch s cur1 ch1 s1 x :
  is_null cur = false → scan_body m cur ch s = Some (cur1, ch1, s1) →
  scan_loop n fuel cur ch s = Some x → ∃ fuel', scan_loop n fuel' cur1 ch1 s1 = Some x.
Proof.
  intros Hc Hb H. destruct fuel as [|fuel]; [done|]. cbn [scan_loop] in H. rewrite Hc in H.
  apply st_bind_inv in H as ([cur2 ch2] & s2 & Hb' & H).
  pose proof (scan_body_agree _ _ _ _ _ _ _ Hb Hb') as [= <- <- <-]. by exists fuel.
Qed.

(** A block whose merging never ends. *)
Lemma scan_stuck n fuel cur ch s nx :
  is_null cur = false → brd b_next cur s = Some (nx, s) → merge_loop n cur nx ch s = None →
  scan_loop n fuel cur ch s = None.
Proof.
  intros Hc Hn Hm. destruct fuel as [|fuel]; [done|]. cbn [scan_loop]. rewrite Hc.
  unfold scan_body, mbind, st_bind. by rewrite Hn, Hm.
Qed.

Lemma coalesce_scan n s r :
  is_null (free_list s) = false → coalesce_with n s = Some r →
  ∃ fuel x, scan_loop n fuel (free_list s) false s = Some x.
Proof.
  intros Hfl H. unfold coalesce_with in H. apply st_bind_inv in H as (fl & s0 & [= <- <-] & H).
  rewrite Hfl in H. destruct n as [|n]; [done|]. cbn [change_loop] in H.
  apply st_bind_inv in H as (cur & s0 & [= <- <-] & H).
  apply st_bind_inv in H as (ch & s0 & H & _). by exists (S n), (ch, s0).
Qed.

(** ** The whole call *)

(** [add_free_space] up to the call of [coalesce_free_list]. *)
Definition add_front (va size : Z) : ST (kheap M) ptr :=
  _ ← spinlock_lock_irqsave;
  blk ← alloc_block;
  bwr (set_b_va va) blk;;
  bwr (set_b_size size) blk;;
  fl ← gets free_list;
  bwr (set_b_next fl) blk;;
  bwr (set_b_prev None) blk;;
  when (negb (is_null fl)) (bwr (set_b_prev blk) fl);;
  modify (set_free_list blk);;
  mret blk.

Ltac run_bind H :=
  let a := fresh "a" in let t := fresh "t" in let Ha := fresh "Ha" in
  apply st_bind_inv in H as (a & t & Ha & H).

Lemma add_front_coalesce n va size s blk s1 :
  is_null blk = false → add_front va size s = Some (blk, s1) → coalesce_with n s1 = None →
  add_free_space_with n va size s = None.
Proof.
  intros Hblk H Hc. unfold add_front in H. do 9 run_bind H. injection H as -> ->.
  unfold add_free_space_with, mbind, st_bind. rewrite Ha, Ha0, Hblk, Ha1, Ha2, Ha3, Ha4, Ha5, Ha6, Ha7.
  by rewrite Hc.
Qed.

(** ** The states a call goes through *)

(** [vfree p size], called in [s], comes to the test of [while (cur)] with [cur]
    and [changed] as given. *)
Inductive at_scan (p size : Z) s : ptr → bool → kheap M → Prop :=
  | at_scan_first t0 blk t :
      release p size s = Some (tt, t0) → is_null blk = false →
      add_front (u64 (p - GUARD_SIZE)) (u64 (u64 (pages_of size * 4096) + 2 * GUARD_SIZE)) t0 = Some (blk, t) →
      is_null (free_list t) = false → at_scan p size s (free_list t) false t
  | at_scan_next n cur ch t cur' ch' t' :
      at_scan p size s cur ch t → is_null cur = false →
      scan_body n cur ch t = Some (cur', ch', t') → at_scan p size s cur' ch' t'.

(** It comes to the test of [while (next)], for a [cur] that is given, after [k]
    iterations of that loop. *)
Inductive at_merge (p size : Z) s : nat → ptr * ptr * bool → kheap M → Prop :=
  | at_merge_first cur next ch t :
      at_scan p size s cur ch t → is_null cur = false → brd b_next cur t = Some (next, t) →
      at_merge p size s 0 (cur, next, ch) t
  | at_merge_next k c t c' t' :
      at_merge p size s k c t → is_null c.1.2 = false →
      merge_body c.1.1 c.1.2 c.2 t = Some (c', t') → at_merge p size s (S k) c' t'.

Lemma at_merge_iter p size s k c t j c' t' :
  at_merge p size s k c t → merge_iter j c t = Some (c', t') → at_merge p size s (k + j) c' t'.
Proof.
  revert k c t. induction j as [|j IH]; intros k c t H Hj.
  - injection Hj as <- <-. by rewrite Nat.add_0_r.
  - cbn [merge_iter] in Hj. destruct (is_null c.1.2) eqn:Hn; [done|].
    apply st_bind_inv in Hj as (c1 & t1 & Hb & Hj). rewrite <-Nat.add_succ_comm.
    eapply IH; [|exact Hj]. by eapply at_merge_next.
Qed.

(** An endless loop comes to every count of iterations. *)
Lemma merge_cycle_goes_on k c s n :
  (0 < k)%nat → merge_iter k c s = Some (c, s) → ∃ c' s', merge_iter n c s = Some (c', s').
Proof.
  intros Hk Hc. induction n as [n IH] using lt_wf_ind. destruct (Nat.lt_ge_cases n k) as [Hlt|Hge].
  - replace k with (n + (k - n))%nat in Hc by lia. apply merge_iter_app in Hc as (c1 & s1 & H1 & _). by exists c1, s1.
  - destruct (IH (n - k)%nat) as (c1 & s1 & H1); [lia|]. exists c1, s1.
    replace n with (k + (n - k))%nat by lia. by rewrite (merge_iter_trans _ _ _ _ _ _ Hc).
Qed.

Lemma merge_lasso_goes_on a k c s c1 s1 n :
  merge_iter a c s = Some (c1, s1) → (0 < k)%nat → merge_iter k c1 s1 = Some (c1, s1) →
  ∃ c' s', merge_iter n c s = Some (c', s').
Proof.
  intros Ha Hk Hc. destruct (Nat.lt_ge_cases n a) as [Hlt|Hge].
  - replace a with (n + (a - n))%nat in Ha by lia. apply merge_iter_app in Ha as (c2 & s2 & H2 & _). by exists c2, s2.
  - destruct (merge_cycle_goes_on k c1 s1 (n - a) Hk Hc) as (c2 & s2 & H2). exists c2, s2.
    replace n with (a + (n - a))%nat by lia. by rewrite (merge_iter_trans _ _ _ _ _ _ Ha).
Qed.

(** ** An allocation that succeeds *)

(** [vmalloc] touches the free ranges only to take its range, and to return it
    when it fails. *)
Definition vm_only {A} (m : ST (kheap M) A) : Prop := ∀ s a s', m s = Some (a, s') → s' = set_vm (vm s') s.

Lemma vm_only_ret {A} (a : A) : vm_only (mret a).
Proof. intros s b s' [= _ <-]. by destruct s. Qed.
Lemma vm_only_bind {A B} (m : ST (kheap M) A) (k : A → ST (kheap M) B) :
  vm_only m → (∀ a, vm_only (k a)) → vm_only (m ≫= k).
Proof.
  intros Hm Hk s b s' (a & s1 & H1 & H2)%st_bind_inv. apply Hm in H1. apply Hk in H2. by rewrite H2, H1.
Qed.
Lemma vm_only_on_vm {A} (m : ST (Vmm.vmm M) A) : vm_only (on_vm m).
Proof. intros s a s' H. unfold on_vm, zoom in H. destruct (m (vm s)) as [[b v]|]; [|done]. by injection H as _ <-. Qed.
Lemma vm_only_map va pa size attrs : vm_only (map_ va pa size attrs).
Proof. apply vm_only_bind; [apply vm_only_on_vm|intros r; apply vm_only_ret]. Qed.
Lemma vm_only_alloc : vm_only pmm_alloc_page.
Proof. apply vm_only_on_vm. Qed.

(** A computation that has changed no more than the regions, or has come out
    with an answer that is not [ok]. *)
Definition vm_only_if {A} (ok : A → Prop) (m : ST (kheap M) A) : Prop :=
  ∀ s a s', m s = Some (a, s') → ok a → s' = set_vm (vm s') s.

Lemma vm_only_any {A} (ok : A → Prop) (m : ST (kheap M) A) : vm_only m → vm_only_if ok m.
Proof. intros H s a s' Hm _. by eapply H. Qed.
Lemma vm_only_if_bind {A B} (ok : B → Prop) (m : ST (kheap M) A) (k : A → ST (kheap M) B) :
  vm_only m → (∀ a, vm_only_if ok (k a)) → vm_only_if ok (m ≫= k).
Proof.
  intros Hm Hk s b s' (a & s1 & H1 & H2)%st_bind_inv Hok. apply Hm in H1. by rewrite (Hk _ _ _ _ H2 Hok), H1.
Qed.
(** The ways out that give everything back. *)
Definition never {A} (ok : A → Prop) (m : ST (kheap M) A) : Prop := ∀ s a s', m s = Some (a, s') → ¬ ok a.
Lemma vm_only_never {A} (ok : A → Prop) (m : ST (kheap M) A) : never ok m → vm_only_if ok m.
Proof. intros H s a s' Hm Ha. by destruct (H _ _ _ Hm). Qed.
Lemma never_ret {A} (ok : A → Prop) (a : A) : ¬ ok a → never ok (mret (M := ST (kheap M)) a).
Proof. by intros H s b s' [= <- _]. Qed.
Lemma never_bind {A B} (ok : B → Prop) (m : ST (kheap M) A) (k : A → ST (kheap M) B) :
  (∀ a, never ok (k a)) → never ok (m ≫= k).
Proof. intros Hk s b s' (a & s1 & _ & H)%st_bind_inv. by eapply Hk. Qed.

Lemma vm_only_if_then {A B} (ok1 : A → Prop) `{∀ a, Decision (ok1 a)} (ok : B → Prop) (m : ST (kheap M) A)
    (k : A → ST (kheap M) B) :
  vm_only_if ok1 m → (∀ a, ok1 a → vm_only_if ok (k a)) → (∀ a, ¬ ok1 a → never ok (k a)) →
  vm_only_if ok (m ≫= k).
Proof.
  intros Hm Hk Hn s b s' (a & s1 & H1 & H2)%st_bind_inv Hok. destruct (decide (ok1 a)) as [Ha|Ha].
  - by rewrite (Hk _ Ha _ _ _ H2 Hok), (Hm _ _ _ H1 Ha).
  - by destruct (Hn _ Ha _ _ _ H2).
Qed.

Lemma vm_only_for_ret n i (body : Z → ST (kheap M) (option Z)) :
  (∀ j, vm_only_if (λ r, r ≠ Some 0) (body j)) → vm_only_if (λ r, r ≠ Some 0) (for_ret n i body).
Proof.
  intros Hb. revert i. induction n as [|n IH]; intros i.
  { apply vm_only_any, vm_only_ret. }
  intros s r s' H Hr. change (for_ret (S n) i body) with
    (r ← body i; match r with Some v => mret (Some v) | None => for_ret n (i + 1) body end) in H.
  apply st_bind_inv in H as ([v|] & s1 & H1 & H).
  - injection H as <- <-. by apply (Hb i _ _ _ H1).
  - by rewrite (IH _ _ _ _ H Hr), (Hb i _ _ _ H1).
Qed.

Lemma vmalloc_success size s r s' :
  vmalloc size s = Some (r, s') → r ≠ 0 →
  ∃ base s1, find_free_space (u64 (u64 (pages_of size * 4096) + 2 * GUARD_SIZE)) s = Some (base, s1) ∧
    s' = set_vm (vm s') s1.
Proof.
  unfold vmalloc. destruct (size =? 0); [by intros [= <- _]|]. cbv zeta. intros H Hr.
  apply st_bind_inv in H as (base & s1 & Hf & H). exists base, s1. split; [exact Hf|]. clear Hf.
  destruct (base =? 0); [by injection H as <- _|]. revert s1 r s' H Hr.
  assert (Hguard : ∀ X Y va, vm_only_if (λ r, r ≠ 0)
    (g ← pmm_alloc_page; if g =? 0 then (X : ST (kheap M) unit);; (Y : ST (kheap M) unit);; mret 0
     else map_ va g GUARD_SIZE GUARD_ATTRS;; mret (u64 (base + GUARD_SIZE)))).
  { intros X Y va. apply vm_only_if_bind; [apply vm_only_alloc|]. intros g. destruct (g =? 0).
    - apply vm_only_never; repeat (apply never_bind; intros ?); apply never_ret; auto.
    - apply vm_only_any, vm_only_bind; [apply vm_only_map|]. intros _. apply vm_only_ret. }
  assert (Hok : ∀ m, vm_only_if (λ r, r ≠ 0) m → ∀ s1 r s', m s1 = Some (r, s') → r ≠ 0 → s' = set_vm (vm s') s1).
  { intros m Hm s1 r s' H Hr. by eapply Hm. }
  apply Hok. clear Hok. apply vm_only_if_bind; [apply vm_only_alloc|]. intros g1.
  destruct (g1 =? 0); [apply vm_only_never; repeat (apply never_bind; intros ?); apply never_ret; auto|].
  apply vm_only_if_bind; [apply vm_only_map|]. intros _.
  apply (vm_only_if_then (λ r, r ≠ Some 0)).
  - apply vm_only_for_ret. intros j. apply vm_only_if_bind; [apply vm_only_alloc|]. intros pg. destruct (pg =? 0).
    + apply vm_only_never; repeat (apply never_bind; intros ?); apply never_ret; auto.
    + apply vm_only_any, vm_only_bind; [apply vm_only_map|]. intros _. apply vm_only_ret.
  - intros [w|] _; [apply vm_only_any, vm_only_ret|]. apply Hguard.
  - intros [w|] Hw; [|by destruct Hw]. apply never_ret. intros Hw'. apply Hw. intros [= ->]. by apply Hw'.
Qed.

End hang.
