(* ===== verification/VmallocClaims.v ===== *)
(** * The kernel heap: the properties *)
From stdpp Require Import base gmap list option numbers sorting.
From S2P Require Import Prelude Spinlock Pmm RBHeap RBTree MmuIface Frames Vmm VmmTree VmmThm Mmu MmuThm VmmClaims FramesMmu Vmalloc VmallocThm VmallocMap VmallocAlloc VmallocHang.
#[local] Open Scope Z_scope.
Import Vmalloc.

Definition run_state {S A} (m : ST S A) (s : S) : S :=
  match m s with Some (_, s') => s' | None => s end.

Lemma run_state_eq {S A} (m : ST S A) s a s' : m s = Some (a, s') → run_state m s = s'.
Proof. unfold run_state. by intros ->. Qed.

(** ** A heap in use for the first time *)

Definition static_pool : gmap Z block := list_to_map ((λ i, (i, Block 0 0 None None)) <$> seqZ 0 512).

(** The heap over a region manager [v], with the bump pointer at [vn]. *)
Definition boot_heap {M} (vn : Z) (v : Vmm.vmm M) : kheap M := {|
  vmalloc_lock := 0; vmalloc_daif := 0; free_pool := static_pool; free_list := None;
  vmalloc_next := vn; free_pool_list := None; pool_initialized := false; printed := []; vm := v |}.

Lemma static_pool_dom i : 0 ≤ i < 512 → is_Some (static_pool !! i).
Proof.
  intros Hi. unfold static_pool. exists (Block 0 0 None None).
  apply elem_of_list_to_map_1.
  - rewrite <-list_fmap_compose. rewrite (list_fmap_ext _ id); [|done]. rewrite list_fmap_id. apply NoDup_seqZ.
  - apply list_elem_of_fmap. exists i. split; [done|]. apply elem_of_seqZ. lia.
Qed.

Section boot.
Context {M : Type} `{MO : !MmuOps M, FO : !FrameOps M, FL : !FrameLaws M}.

Lemma boot_heap_ok v D : vabs D v [] → heap_ok (boot_heap VMALLOC_START v) [] D [].
Proof.
  intros Hv. pose proof window_bounds as (W1 & W2 & W3). split; simpl; try done.
  - exists [], []. split; [|done]. split; simpl; [done|done|done|apply static_pool_dom|constructor].
  - by intros r ?%elem_of_nil.
  - by intros w ?%elem_of_nil.
Qed.

(** ** Allocate, then free *)

Lemma post_live (s s' : kheap M) F D l n r base F' vn' frs l' :
  heap_ok s F D l → 0 < n → take (n * 4096) F (vmalloc_next s) base F' vn' → vmalloc_next s' = vn' →
  Z.of_nat (length frs) = n → NoDup frs → l' ≡ₚ (page_region_of n base <$> numbered 0 frs) ++ l →
  r = base + GUARD_SIZE → live s' (list_to_set frs ∪ D) l' n base frs l.
Proof.
  intros Hok Hn Htake Hnx Hlen Hnd Hl' ->. destruct (take_block _ _ _ _ _ _ _ _ Hok Hn Htake).
  split; [done|by rewrite Hnx|done|done| |done].
  intros pa Hpa. rewrite elem_of_union, elem_of_list_to_set. by left.
Qed.

Lemma wp_alloc_free (s : kheap M) F D l size :
  heap_ok s F D l → sane size → Z.of_nat (length l) + block_for size ≤ 256 →
  (∀ base F' vn', take (block_for size * 4096) F (vmalloc_next s) base F' vn' →
     Forall (separate (base, block_for size * 4096)) F') →
  wp (r ← vmalloc size; vfree r size) (λ _ s',
    s' = s ∨ ∃ base F' vn', take (block_for size * 4096) F (vmalloc_next s) base F' vn' ∧
      vmalloc_next s' = vn' ∧ heap_ok s' (give (base, block_for size * 4096) F') D l) s.
Proof.
  intros Hok Hsz Hroom Hsep. pose proof (pages_of_nonneg size) as Hp.
  apply wp_bind. eapply wp_mono; [by apply (wp_vmalloc s F D l size)|].
  intros r s1 [(-> & -> & _)|(base & F' & vn' & Htake & Hnx & Hcase)]; [apply wp_ret; by left|].
  specialize (Hsep base F' vn' Htake).
  destruct Hcase as [(-> & _ & Hok' & _)|(frs & l' & -> & Hlen & Hnd & Hfr & Hok' & Hl' & _)].
  { apply wp_ret. right. by exists base, F', vn'. }
  eapply wp_mono; [eapply (wp_vfree s1 F' _ l' size base frs l Hok' Hsz); [|exact Hsep]|].
  { eapply post_live; try done. unfold block_for. lia. }
  intros [] s2 ((l2 & Hl2 & Hok2) & Hn2 & _). right. exists base, F', vn'. split; [done|]. split; [congruence|].
  rewrite <-(regions_perm l2 l); [|eapply vabs_regions, hk_vm, Hok2|eapply vabs_regions, hk_vm, Hok|done].
  replace D with ((list_to_set frs ∪ D) ∖ list_to_set frs); [done|].
  apply leibniz_equiv. intros pa. rewrite elem_of_difference, elem_of_union, elem_of_list_to_set.
  split; [tauto|]. intros HD. split; [by right|]. intros Hin. by apply (Hfr pa).
Qed.
End boot.

(** ** Two neighbours freed in reverse order *)

(** Running to a given result, as a test. *)
Definition returns {S A} `{EqDecision A} (m : ST S A) (a : A) (s : S) : bool :=
  match m s with Some (b, _) => bool_decide (b = a) | None => false end.

Lemma returns_run {S A} `{EqDecision A} (m : ST S A) a s :
  returns m a s = true → m s = Some (a, run_state m s).
Proof.
  unfold returns, run_state. destruct (m s) as [[b s']|]; [|done]. by intros ->%bool_decide_eq_true.
Qed.

#[export] Instance block_eq_dec : EqDecision block.
Proof. solve_decision. Defined.

Section neighbours.
Context {M : Type} `{MO : !MmuOps M, FO : !FrameOps M}.
Variable v : Vmm.vmm M.

(** After allocating one page and then four, 12 and 24 KiB with the guards: the
    sizes of a task structure and of its stack. *)
Definition two_blocks : kheap M := boot_heap (VMALLOC_START + 0x9000) v.
Definition freed_one : kheap M := run_state (add_free_space (VMALLOC_START + 0x3000) 0x6000) two_blocks.
Definition freed_two : kheap M := run_state (add_front VMALLOC_START 0x3000) freed_one.
Definition scanned (p : Z) (ch : bool) (s : kheap M) : kheap M :=
  run_state (scan_body coalesce_fuel (Some p) ch) s.
(** The state after three blocks of the scan, and 1024 iterations later. *)
Definition scanned3 : kheap M := scanned 509 true (scanned 511 true (scanned 510 false freed_two)).
Definition looping : kheap M := run_state (merge_iter 1024 (Some 508, Some 511, true)) scanned3.

Definition same_lists (s s' : kheap M) : bool :=
  bool_decide (free_pool s = free_pool s') && bool_decide (free_list s = free_list s') &&
  bool_decide (free_pool_list s = free_pool_list s') && eqb (pool_initialized s) (pool_initialized s').

Lemma same_lists_eq s s' : same_lists s s' = true → same_rest s s' → s = s'.
Proof.
  intros H (H1 & H2 & H3 & H4 & H5). unfold same_lists in H.
  repeat apply andb_prop in H as [H ?]. rewrite !bool_decide_eq_true in *.
  destruct s, s'; simpl in *. f_equal; try congruence. by apply eqb_prop.
Qed.

Lemma add_first : returns (add_free_space (VMALLOC_START + 0x3000) 0x6000) tt two_blocks = true.
Proof. vm_compute. reflexivity. Qed.
Lemma add_second : returns (add_front VMALLOC_START 0x3000) (Some 510) freed_one = true.
Proof. vm_compute. reflexivity. Qed.
Lemma scan_from : bool_decide (free_list freed_two = Some 510) = true.
Proof. vm_compute. reflexivity. Qed.
Lemma scan_first : returns (scan_body coalesce_fuel (Some 510) false) (Some 511, true) freed_two = true.
Proof. vm_compute. reflexivity. Qed.
Lemma scan_second :
  returns (scan_body coalesce_fuel (Some 511) true) (Some 509, true) (scanned 510 false freed_two) = true.
Proof. vm_compute. reflexivity. Qed.
Lemma scan_third :
  returns (scan_body coalesce_fuel (Some 509) true) (Some 508, true)
    (scanned 511 true (scanned 510 false freed_two)) = true.
Proof. vm_compute. reflexivity. Qed.
Lemma scan_fourth : returns (brd b_next (Some 508)) (Some 511) scanned3 = true.
Proof. vm_compute. reflexivity. Qed.
Lemma enter_loop : returns (merge_iter 1024 (Some 508, Some 511, true)) (Some 508, Some 509, true) scanned3 = true.
Proof. vm_compute. reflexivity. Qed.
Lemma once_around : returns (merge_iter 1022 (Some 508, Some 509, true)) (Some 508, Some 509, true) looping = true.
Proof. vm_compute. reflexivity. Qed.
Lemma same_again : same_lists looping (run_state (merge_iter 1022 (Some 508, Some 509, true)) looping) = true.
Proof. vm_compute. reflexivity. Qed.

Lemma run_first : scan_body coalesce_fuel (Some 510) false freed_two = Some (Some 511, true, scanned 510 false freed_two).
Proof. exact (returns_run _ _ _ scan_first). Qed.
Lemma run_second :
  scan_body coalesce_fuel (Some 511) true (scanned 510 false freed_two)
  = Some (Some 509, true, scanned 511 true (scanned 510 false freed_two)).
Proof. exact (returns_run _ _ _ scan_second). Qed.
Lemma run_third :
  scan_body coalesce_fuel (Some 509) true (scanned 511 true (scanned 510 false freed_two))
  = Some (Some 508, true, scanned3).
Proof. exact (returns_run _ _ _ scan_third). Qed.
Lemma run_fourth : brd b_next (Some 508) scanned3 = Some (Some 511, scanned3).
Proof. rewrite <-(brd_pure _ _ _ _ _ (returns_run _ _ _ scan_fourth)) at 2. exact (returns_run _ _ _ scan_fourth). Qed.
Lemma front_first :
  add_free_space_with coalesce_fuel (VMALLOC_START + 0x3000) 0x6000 two_blocks = Some (tt, freed_one).
Proof. exact (returns_run _ _ _ add_first). Qed.
Lemma front_second : add_front VMALLOC_START 0x3000 freed_one = Some (Some 510, freed_two).
Proof. exact (returns_run _ _ _ add_second). Qed.

#[local] Opaque two_blocks freed_one freed_two scanned scanned3 looping.

Lemma fourth_block_hangs n : merge_loop n (Some 508) (Some 511) true scanned3 = None.
Proof.
  pose proof (returns_run _ _ _ enter_loop) as Henter. pose proof (returns_run _ _ _ once_around) as Haround.
  pose proof (same_lists_eq _ _ same_again (keeps_merge_iter _ _ _ _ _ Haround)) as Heq.
  rewrite <-Heq in Haround.
  apply (merge_lasso 1024 1022 (Some 508, Some 511, true) scanned3 (Some 508, Some 509, true) looping);
    [exact Henter|lia|exact Haround].
Qed.

Lemma freed_two_hangs n : coalesce_with n freed_two = None.
Proof.
  pose proof (proj1 (bool_decide_eq_true _) scan_from) as H0.
  destruct (coalesce_with n freed_two) as [r|] eqn:H; [exfalso|done].
  apply coalesce_scan in H as (f0 & x & H); [|by rewrite H0]. rewrite H0 in H.
  destruct (scan_step _ _ _ (Some 510) _ _ _ _ _ _ eq_refl run_first H) as [f1 H1].
  destruct (scan_step _ _ _ (Some 511) _ _ _ _ _ _ eq_refl run_second H1) as [f2 H2].
  destruct (scan_step _ _ _ (Some 509) _ _ _ _ _ _ eq_refl run_third H2) as [f3 H3].
  by rewrite (scan_stuck n f3 (Some 508) _ _ _ eq_refl run_fourth (fourth_block_hangs n)) in H3.
Qed.

Lemma add_hangs n : add_free_space_with n VMALLOC_START 0x3000 freed_one = None.
Proof. exact (add_front_coalesce n _ _ _ (Some 510) _ eq_refl front_second (freed_two_hangs n)). Qed.

Lemma both_eqb a b c d : (a =? b) && (c =? d) = true → a = b ∧ c = d.
Proof. intros [H1 H2]%andb_prop. split; by apply Z.eqb_eq. Qed.

(** The lock is held, and interrupts are masked, while the blocks are merged. *)
Lemma scanned3_locked :
  (vmalloc_lock scanned3 =? 1) && (Z.land (vmalloc_daif scanned3) DAIF_I =? DAIF_I) = true.
Proof. vm_compute. reflexivity. Qed.

Lemma first_base : u64 (VMALLOC_START + GUARD_SIZE - GUARD_SIZE) = VMALLOC_START.
Proof. vm_compute. reflexivity. Qed.
Lemma first_size : u64 (u64 (pages_of 4096 * 4096) + 2 * GUARD_SIZE) = 0x3000.
Proof. vm_compute. reflexivity. Qed.

(** A call of [vfree] that has released the pages of the first block. *)
Lemma merge_goes_on s k :
  release (VMALLOC_START + GUARD_SIZE) 4096 s = Some (tt, freed_one) →
  ∃ c t, at_merge (VMALLOC_START + GUARD_SIZE) 4096 s k c t ∧
    vmalloc_lock t = 1 ∧ Z.land (vmalloc_daif t) DAIF_I = DAIF_I.
Proof.
  intros Hrel. pose proof (proj1 (bool_decide_eq_true _) scan_from) as H0.
  pose proof (returns_run _ _ _ enter_loop) as Henter. pose proof (returns_run _ _ _ once_around) as Haround.
  pose proof (same_lists_eq _ _ same_again (keeps_merge_iter _ _ _ _ _ Haround)) as Heq. rewrite <-Heq in Haround.
  assert (Hit : ∃ c t, merge_iter k (Some 508, Some 511, true) scanned3 = Some (c, t)).
  { apply (merge_lasso_goes_on 1024 1022 (Some 508, Some 511, true) scanned3 (Some 508, Some 509, true) looping);
      [exact Henter|lia|exact Haround]. }
  destruct Hit as (c & t & Hk).
  exists c, t. split.
  - apply (at_merge_iter _ _ _ 0 (Some 508, Some 511, true) scanned3); [|exact Hk].
    apply (at_merge_first _ _ _ (Some 508)); [|done|exact run_fourth].
    refine (at_scan_next _ _ _ coalesce_fuel (Some 509) true _ (Some 508) true _ _ eq_refl run_third).
    refine (at_scan_next _ _ _ coalesce_fuel (Some 511) true _ (Some 509) true _ _ eq_refl run_second).
    refine (at_scan_next _ _ _ coalesce_fuel (Some 510) false _ (Some 511) true _ _ eq_refl run_first). rewrite <-H0.
    apply (at_scan_first _ _ _ freed_one (Some 510)); [exact Hrel|reflexivity| |rewrite H0; reflexivity].
    rewrite first_base, first_size. exact front_second.
  - destruct (keeps_merge_iter _ _ _ _ _ Hk) as (-> & -> & _).
    exact (both_eqb _ _ _ _ scanned3_locked).
Qed.

End neighbours.

(** ** Two neighbours allocated, and given back *)

Section other_vm.
Context {M : Type} `{MO : !MmuOps M, FO : !FrameOps M}.
Implicit Types (v : Vmm.vmm M) (s : kheap M).

Definition idle_heap vn s : bool :=
  (vmalloc_lock s =? 0) && (vmalloc_daif s =? 0) && (vmalloc_next s =? vn) && bool_decide (printed s = []).

Lemma idle_same_lists vn v' s s' :
  idle_heap vn s = true → idle_heap vn s' = true → vm s' = v' → same_lists (set_vm v' s) s' = true → set_vm v' s = s'.
Proof.
  unfold idle_heap. rewrite !andb_true_iff, !Z.eqb_eq, !bool_decide_eq_true.
  intros [[[H1 H2] H3] H4] [[[G1 G2] G3] G4] Hv H. apply same_lists_eq; [exact H|].
  unfold same_rest. simpl. repeat split; congruence.
Qed.

Lemma idle_lock_next vn s : idle_heap vn s = true → vmalloc_lock s = 0 ∧ vmalloc_next s = vn.
Proof. unfold idle_heap. rewrite !andb_true_iff, !Z.eqb_eq. tauto. Qed.

Lemma freed_one_idle v : idle_heap (VMALLOC_START + 0x9000) (freed_one v) = true.
Proof. vm_compute. reflexivity. Qed.
Lemma freed_one_vm v : vm (freed_one v) = v.
Proof. vm_compute. reflexivity. Qed.
Lemma freed_one_lists v v' : same_lists (set_vm v' (freed_one v)) (freed_one v') = true.
Proof. vm_compute. reflexivity. Qed.

(** The free list does not depend on the regions. *)
Lemma set_vm_freed_one v v' : set_vm v' (freed_one v) = freed_one v'.
Proof.
  exact (idle_same_lists _ _ _ _ (freed_one_idle v) (freed_one_idle v') (freed_one_vm v') (freed_one_lists v v')).
Qed.
End other_vm.

Section calls.
Context {M : Type} `{MO : !MmuOps M, FO : !FrameOps M, FL : !FrameLaws M}.
Implicit Types (s : kheap M) (v : Vmm.vmm M) (D : gset Z) (l : list Vmm.vma).

Lemma find_first vn size (v : Vmm.vmm M) :
  0 ≤ vn → 0 ≤ size → vn + size ≤ VMALLOC_END →
  find_free_space size (boot_heap vn v) = Some (vn, boot_heap (vn + size) v).
Proof.
  intros Hv Hs He. pose proof window_bounds as (_ & W2 & W3).
  assert (Hu : u64 (vn + size) = vn + size) by (unfold u64; rewrite (wrap_small 64); lia).
  assert (H : find_free_space size (boot_heap vn v) =
    (if VMALLOC_END <? u64 (vn + size) then spinlock_unlock_irqrestore 0;; mret 0
     else modify (set_vmalloc_next (u64 (vn + size)));; spinlock_unlock_irqrestore 0;; mret vn)
      (locked (boot_heap vn v))) by reflexivity.
  rewrite H, Hu. destruct (Z.ltb_spec VMALLOC_END (vn + size)); [lia|]. reflexivity.
Qed.

(** An allocation from fresh addresses with frames in plenty. *)
Lemma boot_alloc vn size n (v : Vmm.vmm M) D l :
  heap_ok (boot_heap vn v) [] D l → sane size → block_for size = n → Z.of_nat (length l) + n ≤ 256 →
  (4 * Z.to_nat n ≤ frames_left (Vmm.mmu v))%nat → vn + n * 4096 ≤ VMALLOC_END →
  ∃ v' frs l', vmalloc size (boot_heap vn v) = Some (vn + GUARD_SIZE, boot_heap (vn + n * 4096) v') ∧
    heap_ok (boot_heap (vn + n * 4096) v') [] (list_to_set frs ∪ D) l' ∧
    live (boot_heap (vn + n * 4096) v') (list_to_set frs ∪ D) l' n vn frs l ∧ (∀ pa, pa ∈ frs → pa ∉ D) ∧
    (frames_left (Vmm.mmu v) ≤ frames_left (Vmm.mmu v') + 4 * Z.to_nat n)%nat.
Proof.
  intros Hok Hsize <- Hroom Hfr Hend. pose proof (hk_next _ _ _ _ Hok) as [Hn1 _]. cbn [vmalloc_next boot_heap] in Hn1.
  pose proof window_bounds as (W1 & _). pose proof (pages_of_nonneg size) as Hp.
  assert (Hn : 0 < block_for size) by (unfold block_for; lia).
  destruct (wp_vmalloc _ [] D l size Hok Hsize Hroom) as (r & s' & Hrun & Hpost).
  { intros base F' vn' Ht. inversion Ht as [F1 va sz F2 HF|_ _]; [by destruct F1|constructor]. }
  destruct Hpost as [(_ & _ & Hx)|(base & F' & vn' & Htake & Hnx & [(_ & Hfew & _)|
    (frs & l' & -> & Hlen & Hnd & Hnew & Hok' & Hl' & _ & Hcost)])].
  { destruct Hx as [_ Hx]. cbn [vmalloc_next boot_heap] in Hx. lia. }
  { cbn [vm boot_heap] in Hfew. lia. }
  assert (base = vn ∧ F' = [] ∧ vn' = vn + block_for size * 4096) as (-> & -> & ->).
  { change (vmalloc_next (boot_heap vn v)) with vn in Htake.
    inversion Htake as [F1 va sz F2 HF|]; [by destruct F1|done]. }
  destruct (vmalloc_success _ _ _ _ Hrun) as (b1 & s1 & Hfind & Hs'); [unfold GUARD_SIZE; lia|].
  destruct (size_words _ Hsize) as [_ Hts]. rewrite Hts, find_first in Hfind by lia. injection Hfind as <- <-.
  exists (vm s'), frs, l'. change (set_vm (vm s') (boot_heap ?a v)) with (boot_heap a (vm s')) in Hs'.
  rewrite <-Hs'. split; [exact Hrun|]. split; [exact Hok'|]. split; [|by split].
  by eapply (post_live _ _ [] D l).
Qed.
Lemma then_run {A} (m : ST (kheap M) unit) (k : ST (kheap M) A) s s1 :
  m s = Some (tt, s1) → (m;; k) s = k s1.
Proof. intros H. unfold mbind, st_bind. by rewrite H. Qed.

Lemma run_tt_inj s s' : Some (tt, s) = Some (tt, s') → s' = s.
Proof. by intros [= ->]. Qed.

Lemma one_page : block_for 4096 * 4096 = 0x3000.
Proof. reflexivity. Qed.
Lemma four_pages : block_for 16384 * 4096 = 0x6000.
Proof. reflexivity. Qed.
Lemma set_vm_two_blocks v v' : set_vm v' (two_blocks v) = two_blocks v'.
Proof. reflexivity. Qed.
Lemma two_blocks_heap v : boot_heap (VMALLOC_START + 3 * 4096 + 6 * 4096) v = two_blocks v.
Proof. reflexivity. Qed.

#[local] Opaque two_blocks freed_one.

(** A block that is still live after another one is given back. *)
Lemma live_after s s' D l n base frs frs2 l' :
  live s D l n base frs [] → (∀ pa, pa ∈ frs2 → pa ∉ D) → vmalloc_next s ≤ vmalloc_next s' → l' ≡ₚ l →
  live s' ((list_to_set frs2 ∪ D) ∖ list_to_set frs2) l' n base frs [].
Proof.
  intros [Hb Hw Hlen Hnd Hheld Hreg] Hnew Hle Hl'. split; [exact Hb| |exact Hlen|exact Hnd| |by rewrite Hl'].
  - unfold in_window in *. lia.
  - intros pa Hpa. specialize (Hheld pa Hpa). pose proof (λ H, Hnew pa H Hheld). set_solver.
Qed.

(** The block of four pages, behind that of one, is given back. *)
Lemma second_freed s v D l frs l0 :
  s = two_blocks v → heap_ok s [] D l → live s D l 6 (VMALLOC_START + 0x3000) frs l0 →
  ∃ v' l', vfree (VMALLOC_START + 0x3000 + GUARD_SIZE) 16384 s = Some (tt, freed_one v') ∧ l' ≡ₚ l0 ∧
    heap_ok (freed_one v') [(VMALLOC_START + 0x3000, 0x6000)] (D ∖ list_to_set frs) l'.
Proof.
  intros -> Hok Hlive. assert (Hsize : sane 16384) by (split; [lia|by vm_compute]).
  destruct (wp_vfree _ [] D l 16384 _ frs l0 Hok Hsize Hlive ltac:(constructor)) as ([] & s' & Hrun & (l' & Hl' & Hok') & _).
  destruct (wp_release _ [] D l 16384 _ frs l0 Hok Hsize Hlive) as ([] & s1 & Hrel & v' & _ & -> & _).
  rewrite set_vm_two_blocks in Hrel.
  assert (Hs' : s' = freed_one v').
  { unfold vfree in Hrun. rewrite vfree_release in Hrun; [|exact Hsize|by vm_compute..].
    rewrite (then_run _ _ _ _ Hrel), four_pages, front_first in Hrun. exact (run_tt_inj _ _ Hrun). }
  exists v', l'. rewrite <-Hs'. rewrite four_pages in Hok'. split; [exact Hrun|]. split; [exact Hl'|exact Hok'].
Qed.

Lemma first_hangs v D l frs l0 F :
  heap_ok (freed_one v) F D l → live (freed_one v) D l 3 VMALLOC_START frs l0 →
  (∀ n, vfree_with n (VMALLOC_START + GUARD_SIZE) 4096 (freed_one v) = None) ∧
  ∀ k, ∃ c t, at_merge (VMALLOC_START + GUARD_SIZE) 4096 (freed_one v) k c t ∧
    vmalloc_lock t = 1 ∧ Z.land (vmalloc_daif t) DAIF_I = DAIF_I.
Proof.
  intros Hok Hlive. assert (Hsize : sane 4096) by (split; [lia|by vm_compute]).
  destruct (wp_release _ F D l 4096 _ frs l0 Hok Hsize Hlive) as ([] & s1 & Hrel & v' & _ & -> & _).
  rewrite set_vm_freed_one in Hrel. split.
  - intros n. rewrite vfree_release; [|exact Hsize|by vm_compute..]. rewrite (then_run _ _ _ _ Hrel), one_page. apply add_hangs.
  - intros k. by apply (merge_goes_on v').
Qed.

Lemma neighbours_hang v D :
  vabs D v [] → (36 ≤ frames_left (Vmm.mmu v))%nat →
  ∃ s1 s2,
    (p ← vmalloc 4096; q ← vmalloc 16384; mret (p, q)) (boot_heap VMALLOC_START v)
      = Some ((VMALLOC_START + GUARD_SIZE, VMALLOC_START + 0x3000 + GUARD_SIZE), s1) ∧
    vfree (VMALLOC_START + 0x3000 + GUARD_SIZE) 16384 s1 = Some (tt, s2) ∧ vmalloc_lock s2 = 0 ∧
    (∀ n, vfree_with n (VMALLOC_START + GUARD_SIZE) 4096 s2 = None) ∧
    ∀ k, ∃ c t, at_merge (VMALLOC_START + GUARD_SIZE) 4096 s2 k c t ∧
      vmalloc_lock t = 1 ∧ Z.land (vmalloc_daif t) DAIF_I = DAIF_I.
Proof.
  intros Hv Hfr. pose proof (boot_heap_ok v D Hv) as Hok.
  destruct (boot_alloc _ 4096 3 v D [] Hok) as (v1 & frs1 & l1 & Hrun1 & Hok1 & Hlive1 & Hnew1 & Hc1);
    [split; [lia|by vm_compute]|reflexivity|simpl; lia|lia|by vm_compute|].
  assert (Hlen1 : length l1 = 3%nat).
  { pose proof (Permutation_length (lv_regions _ _ _ _ _ _ _ Hlive1)) as Hl. rewrite length_app, length_fmap in Hl.
    rewrite <-(length_fmap snd (numbered 0 frs1)), numbered_frames in Hl.
    pose proof (lv_length _ _ _ _ _ _ _ Hlive1). simpl in Hl. lia. }
  destruct (boot_alloc _ 16384 6 v1 _ l1 Hok1) as (v2 & frs2 & l2 & Hrun2 & Hok2 & Hlive2 & Hnew2 & _);
    [split; [lia|by vm_compute]|reflexivity|lia|lia|by vm_compute|].
  rewrite two_blocks_heap in *.
  destruct (second_freed _ v2 _ _ _ _ eq_refl Hok2 Hlive2) as (v3 & l3 & Hfree & Hl3 & Hok3).
  destruct (first_hangs v3 _ _ frs1 [] _ Hok3) as [Hnone Hgoes].
  { apply (live_after (boot_heap (VMALLOC_START + 3 * 4096) v1) _ _ l1); [exact Hlive1|exact Hnew2| |exact Hl3].
    rewrite (proj2 (idle_lock_next _ _ (freed_one_idle v3))). cbn [vmalloc_next boot_heap]. lia. }
  exists (two_blocks v2), (freed_one v3). split; [|split; [exact Hfree|]].
  - unfold mbind, st_bind. rewrite Hrun1, Hrun2. reflexivity.
  - split; [|by split]. exact (proj1 (idle_lock_next _ _ (freed_one_idle v3))).
Qed.
End calls.

(** ** Sizes that wrap *)

Lemma wrapped_size size : 2 ^ 64 - 4096 < size < 2 ^ 64 → sane size ∧ pages_of size = 0.
Proof.
  intros Hs. assert (Hp : pages_of size = 0); [|split; [split; [lia|rewrite Hp; lia]|done]].
  unfold pages_of, u64. replace (size + 4095) with (size + 4095 - 2 ^ 64 + 1 * 2 ^ 64) by lia.
  rewrite Z.mod_add by lia. rewrite (wrap_small 64) by lia. apply Z.div_small. lia.
Qed.

(** A request larger than the window, 2^39 bytes or more, can wrap the sum that
    is compared with the end of the window: here it is granted, and the bump
    pointer leaves the window. *)
Lemma find_free_space_wraps {M} `{!MmuOps M, !FrameOps M} (v : Vmm.vmm M) :
  (λ r, (r.1, vmalloc_next r.2)) <$> find_free_space (2 ^ 40) (boot_heap VMALLOC_START v)
  = Some (VMALLOC_START, VMALLOC_START + 2 ^ 40 - 2 ^ 64).
Proof. vm_compute. reflexivity. Qed.

(** ** The properties *)
Section claims.
Context {M : Type} `{MO : !MmuOps M, FO : !FrameOps M, FL : !FrameLaws M}.
Implicit Types (s : kheap M) (D : gset Z) (l : list Vmm.vma) (F : list (Z * Z)).

(** C15: on a heap whose free ranges [F] do not touch, with room for the new regions
    in the region pool, [vmalloc] returns, and in one of three ways.  The
    window is exhausted: NULL, and nothing changed.  Or frames ran out, which
    needs fewer than four frames per page of the block, guards included, to be
    left at the call: NULL, every page unmapped again, every frame given back,
    the address range on the free list.  Or a block: its address range is the
    least free range that is large enough (its front part) or fresh; its pages,
    a guard page at either end, are regions of their own on top of the old ones,
    mapped to distinct frames that nobody held; with the upper tables installed
    each leaf entry is as asked for, or as before, the latter only if no frame is
    left when [vmalloc] returns; no other page changes, and four frames per page
    are spent at most. *)
Theorem vmalloc_correct s F D l size :
  heap_ok s F D l → sane size → Z.of_nat (length l) + block_for size ≤ 256 →
  (∀ base F' vn', take (block_for size * 4096) F (vmalloc_next s) base F' vn' →
     Forall (separate (base, block_for size * 4096)) F') →
  wp (vmalloc size) (vmalloc_post s F D l (block_for size)) s.
Proof. apply wp_vmalloc. Qed.

(** C16: [vfree] of a live block unmaps all its pages, guards included, removes
    exactly their regions from the region manager, gives exactly their frames
    back, and puts the address range on the free list, if it touches no range
    there. *)
Theorem vfree_correct s F D l size base frs l0 :
  heap_ok s F D l → sane size → live s D l (block_for size) base frs l0 →
  Forall (separate (base, block_for size * 4096)) F →
  wp (vfree (base + GUARD_SIZE) size) (λ _ s',
    (∃ l', l' ≡ₚ l0 ∧ heap_ok s' (give (base, block_for size * 4096) F) (D ∖ list_to_set frs) l') ∧
    vmalloc_next s' = vmalloc_next s ∧
    span_step base (block_for size) (λ _ _ new, new = None) (Vmm.mmu (vm s)) (Vmm.mmu (vm s'))) s.
Proof. apply wp_vfree. Qed.

(** C17: [vmalloc] followed by [vfree] of its result leaves the regions and the
    held frames as they were, whether the allocation succeeded or not; only
    the address range has moved to the free list. *)
Theorem vmalloc_vfree_roundtrip s F D l size :
  heap_ok s F D l → sane size → Z.of_nat (length l) + block_for size ≤ 256 →
  (∀ base F' vn', take (block_for size * 4096) F (vmalloc_next s) base F' vn' →
     Forall (separate (base, block_for size * 4096)) F') →
  wp (r ← vmalloc size; vfree r size) (λ _ s',
    s' = s ∨ ∃ base F' vn', take (block_for size * 4096) F (vmalloc_next s) base F' vn' ∧
      vmalloc_next s' = vn' ∧ heap_ok s' (give (base, block_for size * 4096) F') D l) s.
Proof. apply wp_alloc_free. Qed.

(** C40: on a heap in use for the first time, with no regions and at least 36
    frames left, a block of one page and one of four, the sizes of a task
    structure and of its stack, are 12 and 24 KiB long with their guards and
    abut.  Giving the second back works and releases the lock; giving the first
    back then never ends, whatever number of iterations is granted.  Where it
    spends them is the loop that merges a block with those after it: for every [k]
    the call gets to the test of that loop after [k] iterations of it, in a state
    that is defined, with the heap's lock held and interrupts masked. *)
Theorem vfree_neighbours_hang (v : Vmm.vmm M) D :
  vabs D v [] → (36 ≤ frames_left (Vmm.mmu v))%nat →
  ∃ s1 s2,
    (p ← vmalloc 4096; q ← vmalloc 16384; mret (p, q)) (boot_heap VMALLOC_START v)
      = Some ((VMALLOC_START + GUARD_SIZE, VMALLOC_START + 0x3000 + GUARD_SIZE), s1) ∧
    vfree (VMALLOC_START + 0x3000 + GUARD_SIZE) 16384 s1 = Some (tt, s2) ∧ vmalloc_lock s2 = 0 ∧
    (∀ n, vfree_with n (VMALLOC_START + GUARD_SIZE) 4096 s2 = None) ∧
    ∀ k, ∃ c t, at_merge (VMALLOC_START + GUARD_SIZE) 4096 s2 k c t ∧
      vmalloc_lock t = 1 ∧ Z.land (vmalloc_daif t) DAIF_I = DAIF_I.
Proof. apply neighbours_hang. Qed.

(** A size within 4095 of 2^64 wraps to a request of no page at all: when
    [vmalloc] succeeds, the address it returns is that of the guard page at
    the end of the block. *)
Theorem vmalloc_size_wraps s D l size :
  heap_ok s [] D l → 2 ^ 64 - 4096 < size < 2 ^ 64 → Z.of_nat (length l) + 2 ≤ 256 →
  wp (vmalloc size) (λ r s', r = 0 ∨
    ∃ D' l' g, heap_ok s' [] D' l' ∧ Vmm.Vma r g 4096 GUARD_ATTRS ∈ l') s.
Proof.
  intros Hok Hs Hroom. destruct (wrapped_size size Hs) as [Hsane Hp].
  eapply wp_mono; [apply (wp_vmalloc s [] D l size Hok Hsane)|].
  - unfold block_for. rewrite Hp. lia.
  - intros base F' vn' Ht. inversion Ht as [F1 va sz F2 HF|_ _]; [by destruct F1|constructor].
  - unfold block_for. rewrite Hp.
    intros r s' [(-> & _)|(base & F' & vn' & Ht & _ & [(-> & _)|(frs & l' & -> & Hlen & _ & _ & Hok' & Hl' & _)])];
      [by left|by left|right].
    destruct frs as [|g1 [|g2 [|]]]; simpl in Hlen; try lia.
    assert (F' = []) as -> by (inversion Ht as [F1 va sz F2 HF|_ _]; [by destruct F1|done]).
    exists (list_to_set [g1; g2] ∪ D), l', g2. split; [exact Hok'|]. rewrite Hl'. right. left.
Qed.
End claims.

(** ** Witnesses: the page tables and the page allocator of this library *)

Lemma demo_heap : ∃ v : Vmm.vmm Mmu.mmu, vabs ∅ v [].
Proof.
  destruct demo_boot as (v & (t & free & [H1 H2 _] & Hl) & Hm). exists v, t, free.
  split; [|exact Hl]. split; [exact H1|exact H2|]. rewrite Hm.
  exists {[demo_root := 3%nat]}. split_and!; [exact demo_tables|intros _; exact demo_own|].
  by intros a Ha%elem_of_empty.
Qed.

(** A first request takes fresh addresses. *)
Lemma first_take size base F' vn' :
  take size [] VMALLOC_START base F' vn' → Forall (separate (base, size)) F'.
Proof. intros Ht. inversion Ht as [F1 va sz F2 HF|_ _]; [by destruct F1|constructor]. Qed.

Lemma sane_page : sane 4096.
Proof. split; [lia|]. by vm_compute. Qed.

Lemma vmalloc_correct_witness :
  ∃ v : Vmm.vmm Mmu.mmu, wp (vmalloc 4096)
    (vmalloc_post (boot_heap VMALLOC_START v) [] ∅ [] 3) (boot_heap VMALLOC_START v).
Proof.
  destruct demo_heap as [v Hv]. exists v.
  exact (vmalloc_correct (boot_heap VMALLOC_START v) [] ∅ [] 4096 (boot_heap_ok v ∅ Hv) sane_page
    ltac:(by vm_compute) (first_take _)).
Defined.

Lemma vmalloc_vfree_roundtrip_witness :
  ∃ v : Vmm.vmm Mmu.mmu, wp (r ← vmalloc 4096; vfree r 4096) (λ _ s',
    s' = boot_heap VMALLOC_START v ∨ ∃ base F' vn', take (3 * 4096) [] VMALLOC_START base F' vn' ∧
      vmalloc_next s' = vn' ∧ heap_ok s' (give (base, 3 * 4096) F') ∅ []) (boot_heap VMALLOC_START v).
Proof.
  destruct demo_heap as [v Hv]. exists v.
  exact (vmalloc_vfree_roundtrip (boot_heap VMALLOC_START v) [] ∅ [] 4096 (boot_heap_ok v ∅ Hv) sane_page
    ltac:(by vm_compute) (first_take _)).
Defined.

Lemma vmalloc_size_wraps_witness :
  ∃ v : Vmm.vmm Mmu.mmu, wp (vmalloc (2 ^ 64 - 1)) (λ r s', r = 0 ∨
    ∃ D' l' g, heap_ok s' [] D' l' ∧ Vmm.Vma r g 4096 GUARD_ATTRS ∈ l') (boot_heap VMALLOC_START v).
Proof.
  destruct demo_heap as [v Hv]. exists v.
  apply (vmalloc_size_wraps (boot_heap VMALLOC_START v) ∅ [] (2 ^ 64 - 1) (boot_heap_ok v ∅ Hv));
    [split; reflexivity|by vm_compute].
Defined.

(** The first block of one page. *)
Definition demo_vmm : Vmm.vmm Mmu.mmu := run_state Vmm.vmm_init (bss demo_mmu).

Lemma demo_vmm_abs : vabs ∅ demo_vmm [].
Proof.
  destruct (wp_vmm_init (bss demo_mmu)) as (r & v & Hrun & _ & Habs & Hm & _);
    [done|apply bss_pool_dom|apply demo_inv|].
  pose proof (run_state_eq _ _ _ _ Hrun : demo_vmm = v) as ->. clear Hrun.
  destruct Habs as (t & free & [H1 H2 _] & Hl). exists t, free.
  split; [|exact Hl]. split; [exact H1|exact H2|]. rewrite Hm.
  exists {[demo_root := 3%nat]}. split_and!; [exact demo_tables|intros _; exact demo_own|].
  by intros a Ha%elem_of_empty.
Qed.

Lemma demo_vmalloc : returns (vmalloc 4096) (VMALLOC_START + 4096) (boot_heap VMALLOC_START demo_vmm) = true.
Proof. vm_compute. reflexivity. Qed.

Lemma demo_live :
  ∃ (s : kheap Mmu.mmu) F D l base frs,
    heap_ok s F D l ∧ live s D l (block_for 4096) base frs [] ∧ Forall (separate (base, block_for 4096 * 4096)) F.
Proof.
  pose proof (returns_run _ _ _ demo_vmalloc) as Hrun.
  pose proof (boot_heap_ok demo_vmm ∅ demo_vmm_abs) as Hok.
  assert (Hwp : wp (vmalloc 4096) (vmalloc_post (boot_heap VMALLOC_START demo_vmm) [] ∅ [] (block_for 4096))
    (boot_heap VMALLOC_START demo_vmm)).
  { apply wp_vmalloc; [exact Hok|exact sane_page|by vm_compute|exact (first_take _)]. }
  pose proof (wp_det _ _ _ _ _ Hwp Hrun) as Hpost. clear Hwp Hrun.
  destruct Hpost as [(Hr & _)|(base & F' & vn' & Htake & Hnx & [(Hr & _)|(frs & l' & Hr & Hlen & Hnd & _ & Hok' & Hl' & _)])].
  - vm_compute in Hr. discriminate Hr.
  - vm_compute in Hr. discriminate Hr.
  - eexists _, F', _, l', base, frs. split; [exact Hok'|]. split; [|by eapply first_take].
    eapply (post_live _ _ [] _ [] (block_for 4096)); [exact Hok|by vm_compute|exact Htake|exact Hnx|exact Hlen|exact Hnd|exact Hl'|exact Hr].
Qed.

Lemma vfree_correct_witness :
  ∃ (s : kheap Mmu.mmu) F D base frs, wp (vfree (base + GUARD_SIZE) 4096) (λ _ s',
    (∃ l', l' ≡ₚ [] ∧ heap_ok s' (give (base, block_for 4096 * 4096) F) (D ∖ list_to_set frs) l') ∧
    vmalloc_next s' = vmalloc_next s ∧
    span_step base (block_for 4096) (λ _ _ new, new = None) (Vmm.mmu (vm s)) (Vmm.mmu (vm s'))) s.
Proof.
  destruct demo_live as (s & F & D & l & base & frs & Hok & Hlive & Hsep). exists s, F, D, base, frs.
  exact (vfree_correct s F D l 4096 base frs [] Hok sane_page Hlive Hsep).
Defined.

Lemma demo_frames : (36 <=? frames_left (Vmm.mmu demo_vmm))%nat = true.
Proof. vm_compute. reflexivity. Qed.

Lemma vfree_neighbours_hang_witness :
  ∃ s1 s2,
    (p ← vmalloc 4096; q ← vmalloc 16384; mret (p, q)) (boot_heap VMALLOC_START demo_vmm)
      = Some ((VMALLOC_START + GUARD_SIZE, VMALLOC_START + 0x3000 + GUARD_SIZE), s1) ∧
    vfree (VMALLOC_START + 0x3000 + GUARD_SIZE) 16384 s1 = Some (tt, s2) ∧ vmalloc_lock s2 = 0 ∧
    (∀ n, vfree_with n (VMALLOC_START + GUARD_SIZE) 4096 s2 = None) ∧
    ∀ k, ∃ c t, at_merge (VMALLOC_START + GUARD_SIZE) 4096 s2 k c t ∧
      vmalloc_lock t = 1 ∧ Z.land (vmalloc_daif t) DAIF_I = DAIF_I.
Proof. exact (vfree_neighbours_hang demo_vmm ∅ demo_vmm_abs (proj1 (Nat.leb_le _ _) demo_frames)). Defined.
