(* ===== verification/Io.v ===== *)
(** * Accesses to devices

    The drivers read and write device registers and system registers.  A
    device is a function from everything that was done to it to the value of
    the next read, so that a theorem about all devices covers every behaviour
    of the hardware; what a driver does is the trace of its accesses, oldest
    first. *)
From stdpp Require Import base list option numbers strings.
From S2P Require Import Prelude.
#[local] Open Scope Z_scope.

Inductive sysreg :=
  | ICC_IAR1 | ICC_EOIR1 | ICC_PMR | ICC_IGRPEN1
  | CNTPCT | CNTFRQ | CNTP_TVAL | CNTP_CTL
  | ESR | FAR | ELR.

(** A 32-bit register in memory, or a system register. *)
Inductive reg := Mem32 (a : Z) | Sys (r : sysreg).

Inductive event :=
  | Rd (r : reg) (v : Z)
  | Wr (r : reg) (v : Z)
  | Dsb                            (* [dsb sy] *)
  | Unmask                         (* [msr daifclr, #2] *)
  | Mask                           (* [msr daifset, #0xF] *)
  | Hvc (x0 : Z)                   (* [hvc #0] *)
  | Hlt (x0 x1 : Z)                (* [hlt #0xF000] *)
  | Say (fmt : string) (args : list Z).  (* a message for the log *)

Abbreviation trace := (list event).
Definition device : Type := trace → reg → Z.

#[export] Instance sysreg_eq_dec : EqDecision sysreg.
Proof. solve_decision. Defined.
#[export] Instance reg_eq_dec : EqDecision reg.
Proof. solve_decision. Defined.

Definition emit (e : event) : ST trace unit := modify (λ tr, tr ++ [e]).

Section io.
Context (dev : device).

(** What a register of that width holds. *)
Definition reg_value (r : reg) (v : Z) : Z := match r with Mem32 _ => u32 v | Sys _ => u64 v end.

Definition reg_read (r : reg) : ST trace Z :=
  tr ← gets id;
  let v := reg_value r (dev tr r) in
  emit (Rd r v);;
  mret v.
Definition reg_write (r : reg) (v : Z) : ST trace unit := emit (Wr r v).
Definition mb : ST trace unit := emit Dsb.
Definition say (fmt : string) (args : list Z) : ST trace unit := emit (Say fmt args).

Lemma reg_value_range r v : 0 ≤ reg_value r v < 2 ^ 64.
Proof.
  unfold reg_value, u32, u64. pose proof (Z.mod_pos_bound v (2 ^ 32) eq_refl).
  pose proof (Z.mod_pos_bound v (2 ^ 64) eq_refl). destruct r; lia.
Qed.

Lemma wp_emit e (Q : unit → trace → Prop) tr : Q tt (tr ++ [e]) → wp (emit e) Q tr.
Proof. intros H. by apply wp_modify. Qed.
Lemma wp_reg_write r v (Q : unit → trace → Prop) tr : Q tt (tr ++ [Wr r v]) → wp (reg_write r v) Q tr.
Proof. apply wp_emit. Qed.
Lemma wp_mb (Q : unit → trace → Prop) tr : Q tt (tr ++ [Dsb]) → wp mb Q tr.
Proof. apply wp_emit. Qed.
Lemma wp_reg_read r (Q : Z → trace → Prop) tr :
  (∀ v, v = reg_value r (dev tr r) → Q v (tr ++ [Rd r v])) → wp (reg_read r) Q tr.
Proof. intros H. apply wp_bind, wp_gets, wp_bind, wp_emit, wp_ret. by apply H. Qed.
End io.
