(* ===== verification/Serial.v ===== *)
(** * The serial port (drivers/serial.c): translation

    State: the device tree the base address is looked up in, the base address,
    and the accesses to the registers of the PL011. *)
From stdpp Require Import base gmap list option numbers strings.
From S2P Require Import Prelude CString Dtb Io.
Import CString Dtb.
#[local] Open Scope Z_scope.

Module Serial.

Definition DEFAULT_UART_BASE : Z := 0x09000000.

Record uart := {
  udt : dtb;
  uart_base : Z;
  uio : trace;
}.
Definition set_base (b : Z) (s : uart) : uart := {| udt := udt s; uart_base := b; uio := uio s |}.
Definition on_dt {A} (m : ST dtb A) : ST uart A :=
  zoom udt (λ d s, {| udt := d; uart_base := uart_base s; uio := uio s |}) m.
Definition on_io {A} (m : ST trace A) : ST uart A :=
  zoom uio (λ t s, {| udt := udt s; uart_base := uart_base s; uio := t |}) m.

(** The registers; addresses are [uint64_t]. *)
Definition UARTDR (base : Z) : reg := Mem32 (u64 (base + 0x000)).
Definition UARTFR (base : Z) : reg := Mem32 (u64 (base + 0x018)).
Definition UARTLCR_H (base : Z) : reg := Mem32 (u64 (base + 0x02C)).
Definition UARTCR (base : Z) : reg := Mem32 (u64 (base + 0x030)).

Definition UARTFR_TXFF : Z := Z.shiftl 1 5.
Definition UARTFR_BUSY : Z := Z.shiftl 1 3.
Definition UARTCR_UARTEN : Z := Z.shiftl 1 0.
Definition UARTCR_TXE : Z := Z.shiftl 1 8.
Definition UARTCR_RXE : Z := Z.shiftl 1 9.
Definition UARTLCR_H_WLEN_8 : Z := Z.shiftl 3 5.

Section serial.
Context (dev : device).

Definition serial_init : ST uart unit :=
  r ← on_dt dtb_get_stdout_uart_base;
  (match r with
   | Some dtb_uart_base => when (ctrue dtb_uart_base) (modify (set_base dtb_uart_base))
   | None => mret tt
   end);;
  base ← gets uart_base;
  on_io (reg_write (UARTCR base) 0;; mb;;
         reg_write (UARTLCR_H base) UARTLCR_H_WLEN_8;; mb;;
         reg_write (UARTCR base) (Z.lor (Z.lor UARTCR_UARTEN UARTCR_TXE) UARTCR_RXE);; mb).

Definition UART_SPIN_MAX : Z := 1000000.
#[global] Arguments UART_SPIN_MAX : simpl never.

(** One iteration more than the loop can take. *)
Definition spin_fuel : nat := S (Z.to_nat UART_SPIN_MAX).
#[global] Arguments spin_fuel : simpl never.

Fixpoint wait_loop (fuel : nat) (base spins : Z) : ST trace unit :=
  match fuel with
  | O => undef
  | S fuel =>
      fr ← reg_read dev (UARTFR base);
      if ctrue (Z.land fr UARTFR_TXFF) then
        let spins := u32 (spins + 1) in
        if UART_SPIN_MAX <=? spins then mret tt
        else mb;; wait_loop fuel base spins
      else mret tt
  end.
Definition uart_wait_tx_space (base : Z) : ST trace unit := wait_loop spin_fuel base 0.

Definition serial_putc (c : Z) : ST uart unit :=
  base ← gets uart_base;
  on_io (
    when (c =? 10)
      (uart_wait_tx_space base;;
       reg_write (UARTDR base) 13;;
       mb);;
    uart_wait_tx_space base;;
    reg_write (UARTDR base) (u32 c);;
    mb).

(** [while ( *s) serial_putc( *s++)], over a reader of the string. *)
Fixpoint puts_loop (fuel : nat) (rd : Z → ST uart Z) (i : Z) : ST uart unit :=
  match fuel with
  | O => undef
  | S fuel =>
      c ← rd i;
      if ctrue c then serial_putc c;; puts_loop fuel rd (i + 1) else mret tt
  end.
Definition serial_puts (s : Z) : ST uart unit :=
  if s =? 0 then mret tt
  else λ st, puts_loop (S (size (ram (udt st)))) (λ i, on_dt (on_ram (load (s + i)))) 0 st.

(** A string literal, and a local array with a terminator. *)
Definition puts_lit (s : list Z) : ST uart unit :=
  puts_loop (S (length s)) (λ i, deref ((s ++ [0]) !! Z.to_nat i)) 0.
Definition puts_arr (a : arr) (p : Z) : ST uart unit :=
  puts_loop (S (length a)) (λ i, arr_get a (p + i)) 0.

(** [while (val > 0) { ...; *--p = ...; val >>= 4; }]: storing below the array
    is undefined, and a number of 64 bits takes at most 16 iterations. *)
Definition nibble_fuel : nat := 17.
Fixpoint nibbles (fuel : nat) (val p : Z) (buf : arr) : ST uart (Z * arr) :=
  match fuel with
  | O => undef
  | S fuel =>
      if 0 <? val then
        let digit := Z.land val 0xF in
        if 0 <? p then
          buf ← arr_put buf (p - 1) (if digit <? 10 then 48 + digit else 97 + digit - 10);
          nibbles fuel (Z.shiftr val 4) (p - 1) buf
        else undef
      else mret (p, buf)
  end.

Definition serial_print_hex (val : Z) : ST uart unit :=
  let buf : arr := replicate 20 None in
  let p := 19 in
  buf ← arr_put buf p 0;
  if val =? 0 then puts_lit (lit "0x0")
  else
    r ← nibbles nibble_fuel val p buf;
    puts_lit (lit "0x");;
    puts_arr r.2 r.1.
End serial.

End Serial.
