(* ===== verification/SerialThm.v ===== *)
(** * The serial port: proofs

    Whatever the device answers, sending a string terminates, and the bytes
    that reach the data register are those of the string with a carriage return
    before every line feed. *)
From stdpp Require Import base gmap list option numbers strings.
From S2P Require Import Prelude CString CStringThm CStringCopy Dtb DtbThm DtbUart DtbPath DtbTree PmmInitThm PmmInitClaims Printk PrintkThm Io Serial.
Import CString Dtb Printk(hex_char) Serial.
#[local] Open Scope Z_scope.

Lemma spin_max_val : UART_SPIN_MAX = 1000000.
Proof. reflexivity. Qed.
Lemma spin_fuel_val : Z.of_nat spin_fuel = UART_SPIN_MAX + 1.
Proof. unfold spin_fuel. rewrite Nat2Z.inj_succ, Z2Nat.id; [lia|]. by rewrite spin_max_val. Qed.

(** ** The shape of the accesses *)

Definition full (v : Z) : bool := Z.testbit v 5.

(** Reads of the flag register that found the FIFO full, each followed by a
    barrier. *)
Fixpoint busy_polls (base : Z) (vs : list Z) : trace :=
  match vs with
  | [] => []
  | v :: vs => Rd (UARTFR base) v :: Dsb :: busy_polls base vs
  end.

(** A wait: the last read found space, or was the millionth. *)
Definition waited (base : Z) (seg : trace) : Prop :=
  ∃ vs v, seg = busy_polls base vs ++ [Rd (UARTFR base) v] ∧ Forall (λ v, full v = true) vs ∧
    Z.of_nat (length vs) < UART_SPIN_MAX ∧
    (full v = false ∨ Z.of_nat (length vs) = UART_SPIN_MAX - 1).

(** The bytes, each after a wait and followed by a barrier. *)
Inductive transmits (base : Z) : list Z → trace → Prop :=
  | transmits_nil : transmits base [] []
  | transmits_cons b bs w seg :
      waited base w → transmits base bs seg →
      transmits base (b :: bs) (w ++ Wr (UARTDR base) b :: Dsb :: seg).

Definition crlf (s : list Z) : list Z := flat_map (λ c, if c =? 10 then [13; 10] else [c]) s.

(** The bytes written to the data register, and the number of reads of the flag
    register. *)
Definition written (base : Z) (seg : trace) : list Z :=
  flat_map (λ e, match e with Wr r v => if bool_decide (r = UARTDR base) then [v] else [] | _ => [] end) seg.
Definition is_poll (base : Z) (e : event) : bool :=
  match e with Rd r _ => bool_decide (r = UARTFR base) | _ => false end.
Fixpoint polls (base : Z) (seg : trace) : Z :=
  match seg with
  | [] => 0
  | e :: seg => (if is_poll base e then 1 else 0) + polls base seg
  end.

Lemma transmits_app base bs cs seg seg' :
  transmits base bs seg → transmits base cs seg' → transmits base (bs ++ cs) (seg ++ seg').
Proof.
  induction 1 as [|b bs w seg Hw _ IH]; intros H; [done|]. rewrite <-!app_comm_cons, <-app_assoc.
  simpl. constructor; auto.
Qed.
Lemma transmits_one base b w : waited base w → transmits base [b] (w ++ [Wr (UARTDR base) b; Dsb]).
Proof. intros Hw. apply (transmits_cons _ _ [] w []); [done|constructor]. Qed.

Lemma written_app base seg seg' : written base (seg ++ seg') = written base seg ++ written base seg'.
Proof. apply flat_map_app. Qed.
Lemma polls_app base seg seg' : polls base (seg ++ seg') = polls base seg + polls base seg'.
Proof. induction seg as [|e seg IH]; simpl; [done|]. rewrite IH. lia. Qed.

Lemma busy_counts base vs :
  written base (busy_polls base vs) = [] ∧ polls base (busy_polls base vs) = Z.of_nat (length vs).
Proof.
  induction vs as [|v vs [IH1 IH2]]; [done|]. cbn [busy_polls polls length]. split; [exact IH1|].
  unfold is_poll. rewrite bool_decide_true, IH2 by done. lia.
Qed.
Lemma waited_counts base w : waited base w → written base w = [] ∧ 1 ≤ polls base w ≤ UART_SPIN_MAX.
Proof.
  intros (vs & v & -> & _ & Hn & _). destruct (busy_counts base vs) as [E1 E2].
  rewrite written_app, polls_app, E1, E2. cbn [polls is_poll]. rewrite bool_decide_true by done.
  split; [done|lia].
Qed.

Lemma transmits_counts base bs seg : transmits base bs seg →
  written base seg = bs ∧ Z.of_nat (length bs) ≤ polls base seg ≤ UART_SPIN_MAX * Z.of_nat (length bs).
Proof.
  induction 1 as [|b bs w seg Hw _ (IH1 & IH2)]; [done|].
  destruct (waited_counts _ _ Hw) as [E1 E2]. rewrite written_app, polls_app, E1.
  cbn [written flat_map polls is_poll length app]. rewrite bool_decide_true by done.
  fold (written base seg). rewrite IH1. split; [done|]. rewrite Nat2Z.inj_succ. lia.
Qed.

(** ** The operations *)

Lemma txff_full v : 0 ≤ v → ctrue (Z.land v UARTFR_TXFF) = full v.
Proof. intros Hv. unfold ctrue, UARTFR_TXFF, full. by rewrite land_bit1_eqb, negb_involutive by done. Qed.

Section serial.
Context (dev : device).

Lemma wp_wait_loop base vs fuel spins tr (Q : unit → trace → Prop) :
  spins = Z.of_nat (length vs) → Forall (λ v, full v = true) vs →
  spins < UART_SPIN_MAX → UART_SPIN_MAX ≤ spins + Z.of_nat fuel →
  (∀ w, waited base w → Q tt (tr ++ w)) →
  wp (wait_loop dev fuel base spins) Q (tr ++ busy_polls base vs).
Proof.
  revert vs spins. induction fuel as [|fuel IH]; intros vs spins Hs Hvs Hlt Hf HQ; [lia|].
  cbn [wait_loop]. apply wp_bind, wp_reg_read. intros v Hv.
  assert (Hv0 : 0 ≤ v) by (subst v; apply reg_value_range).
  rewrite txff_full by done. rewrite <-app_assoc.
  destruct (full v) eqn:E.
  - unfold u32. rewrite Z.mod_small by (rewrite spin_max_val in *; lia).
    destruct (Z.leb_spec UART_SPIN_MAX (spins + 1)) as [Hle|Hgt].
    + apply wp_ret, HQ. exists vs, v. split_and!; [done|done|lia|right; lia].
    + apply wp_bind, wp_mb. rewrite <-!app_assoc. simpl.
      replace (busy_polls base vs ++ [Rd (UARTFR base) v; Dsb]) with (busy_polls base (vs ++ [v])).
      2: { clear. induction vs as [|x vs IH]; simpl; [done|]. by rewrite IH. }
      apply IH; [rewrite length_app; simpl; lia|by apply Forall_app; repeat constructor|lia|lia|done].
  - apply wp_ret, HQ. exists vs, v. split_and!; [done|done|lia|by left].
Qed.

Lemma wp_wait base tr (Q : unit → trace → Prop) :
  (∀ w, waited base w → Q tt (tr ++ w)) → wp (uart_wait_tx_space dev base) Q tr.
Proof.
  intros HQ. unfold uart_wait_tx_space. rewrite <-(app_nil_r tr).
  apply (wp_wait_loop base []); [done|constructor|by rewrite spin_max_val|rewrite spin_fuel_val; simpl; lia|done].
Qed.

(** The port after more accesses. *)
Definition accessed (s : uart) (seg : trace) : uart :=
  {| udt := udt s; uart_base := uart_base s; uio := uio s ++ seg |}.

Lemma accessed_nil s : accessed s [] = s.
Proof. destruct s. unfold accessed. simpl. by rewrite app_nil_r. Qed.
Lemma uart_accessed_app s seg seg' : accessed (accessed s seg) seg' = accessed s (seg ++ seg').
Proof. unfold accessed. simpl. by rewrite app_assoc. Qed.

Lemma wp_send base b tr (Q : unit → trace → Prop) :
  (∀ w, waited base w → Q tt (tr ++ w ++ [Wr (UARTDR base) b; Dsb])) →
  wp (uart_wait_tx_space dev base;; reg_write (UARTDR base) b;; mb) Q tr.
Proof.
  intros HQ. apply wp_bind, wp_wait. intros w Hw. apply wp_bind, wp_reg_write, wp_mb.
  rewrite <-!app_assoc. by apply HQ.
Qed.

Lemma wp_putc c s (Q : unit → uart → Prop) :
  byte c → (∀ seg, transmits (uart_base s) (crlf [c]) seg → Q tt (accessed s seg)) →
  wp (serial_putc dev c) Q s.
Proof.
  intros Hc HQ. unfold serial_putc. apply wp_bind, wp_gets, wp_zoom.
  assert (Hlast : ∀ tr seg, tr = uio s ++ seg →
    transmits (uart_base s) (if c =? 10 then [13] else []) seg →
    wp (uart_wait_tx_space dev (uart_base s);; reg_write (UARTDR (uart_base s)) (u32 c);; mb)
      (λ a t, Q a {| udt := udt s; uart_base := uart_base s; uio := t |}) tr).
  { intros tr seg -> Hseg. apply wp_send. intros w Hw. rewrite <-app_assoc. apply HQ.
    replace (crlf [c]) with ((if c =? 10 then [13] else []) ++ [u32 c]).
    - apply transmits_app; [done|]. by apply transmits_one.
    - unfold u32, byte in *. rewrite Z.mod_small by lia. simpl. by destruct (Z.eqb_spec c 10) as [->|]. }
  destruct (Z.eqb_spec c 10) as [->|Hne]; cbn [when].
  - apply wp_bind, wp_send. intros w Hw. by eapply Hlast, transmits_one.
  - apply wp_bind, wp_ret. eapply (Hlast _ []); [by rewrite app_nil_r|constructor].
Qed.

Lemma wp_puts_loop rd str fuel i s (Q : unit → uart → Prop) :
  Forall nonzero str → (length str < fuel)%nat →
  (∀ k c seg (P : Z → uart → Prop), (str ++ [0]) !! k = Some c →
    P c (accessed s seg) → wp (rd (i + Z.of_nat k)) P (accessed s seg)) →
  (∀ seg, transmits (uart_base s) (crlf str) seg → Q tt (accessed s seg)) →
  wp (puts_loop dev fuel rd i) Q s.
Proof.
  intros Hs. revert fuel i s. induction Hs as [|c str Hc Hs IH]; intros fuel i s Hf Hrd HQ;
    (destruct fuel as [|fuel]; [simpl in Hf; lia|]); simpl in Hf; cbn [puts_loop]; apply wp_bind.
  - pose proof (Hrd 0%nat 0 []) as H0. rewrite accessed_nil, Z.add_0_r in H0. apply H0; [done|].
    apply wp_ret. rewrite <-(accessed_nil s). apply HQ. constructor.
  - pose proof (Hrd 0%nat c []) as H0. rewrite accessed_nil, Z.add_0_r in H0. apply H0; [done|].
    rewrite nonzero_true by done. apply wp_bind, wp_putc; [unfold nonzero, byte in *; lia|].
    intros seg Hseg. apply IH; [lia| |].
    + intros k d seg' P Hk HP. rewrite uart_accessed_app in *.
      replace (i + 1 + Z.of_nat k) with (i + Z.of_nat (S k)) by lia. by apply (Hrd _ d).
    + intros seg' Hseg'. rewrite uart_accessed_app. apply HQ.
      change (crlf (c :: str)) with ((if c =? 10 then [13; 10] else [c]) ++ crlf str).
      apply transmits_app; [|done]. unfold crlf in Hseg. simpl in Hseg. by rewrite app_nil_r in Hseg.
Qed.

Lemma wp_serial_puts a str s (Q : unit → uart → Prop) :
  a ≠ 0 → cstr (ram (udt s)) a str →
  (∀ seg, transmits (uart_base s) (crlf str) seg → Q tt (accessed s seg)) → wp (serial_puts dev a) Q s.
Proof.
  intros Ha Hs HQ. unfold serial_puts. rewrite (proj2 (Z.eqb_neq a 0)) by done.
  apply (wp_puts_loop _ str); [apply Hs|by apply cstr_size in Hs; lia| |done].
  intros k c seg P Hk HP. apply wp_zoom, wp_on_ram, (wp_load _ _ c).
  - rewrite Z.add_0_l. by apply (proj1 Hs).
  - split; [done|]. by destruct s.
Qed.

Lemma wp_puts_lit str s (Q : unit → uart → Prop) :
  Forall nonzero str →
  (∀ seg, transmits (uart_base s) (crlf str) seg → Q tt (accessed s seg)) → wp (puts_lit dev str) Q s.
Proof.
  intros Hs HQ. apply (wp_puts_loop _ str); [done|lia| |done].
  intros k c seg P Hk HP. apply (wp_deref _ c); [|done]. by rewrite Z.add_0_l, Nat2Z.id.
Qed.
End serial.

(** ** Hexadecimal numbers *)

Lemma digs_enough n m base f val : 1 < base → 0 ≤ val < base ^ Z.of_nat n → (n ≤ m)%nat →
  digs m base f val = digs n base f val.
Proof.
  intros Hb. revert m val. induction n as [|n IH]; intros m val Hv Hm.
  - simpl in Hv. replace val with 0 by lia. by destruct m.
  - destruct m as [|m]; [lia|]. simpl. destruct (Z.ltb_spec 0 val); [|done]. f_equal.
    apply IH; [|lia]. rewrite Nat2Z.inj_succ, Z.pow_succ_r in Hv by lia.
    split; [apply Z.div_pos; lia|apply Z.div_lt_upper_bound; lia].
Qed.

(** The last cells of an array of 20 hold [s]. *)
Definition tail_is (a : arr) (p : Z) (s : list Z) : Prop :=
  0 ≤ p ∧ p + zlen s = 20 ∧ length a = 20%nat ∧
  ∀ k c, s !! k = Some c → a !! (Z.to_nat p + k)%nat = Some (Some c).

Lemma tail_put a p s c : tail_is a p s → 0 < p → tail_is (<[Z.to_nat (p - 1) := Some c]> a) (p - 1) (c :: s).
Proof.
  intros (Hp0 & Hp & Hl & Hs) H0. unfold tail_is, zlen in *. split_and!; [lia|cbn [length]; lia|by rewrite length_insert|].
  intros [|k] d Hk; simpl in Hk.
  - injection Hk as <-. rewrite Nat.add_0_r. rewrite list_lookup_insert_eq; [done|lia].
  - rewrite list_lookup_insert_ne by lia. rewrite <-(Hs k d Hk). f_equal. lia.
Qed.

Lemma wp_nibbles n fuel val p (buf : arr) s (st : uart) (Q : Z * arr → uart → Prop) :
  0 ≤ val < 16 ^ Z.of_nat n → (n < fuel)%nat → Z.of_nat n ≤ p → tail_is buf p s →
  (∀ p' buf', tail_is buf' p' (rev (digs n 16 hex_char val) ++ s) → Q (p', buf') st) →
  wp (nibbles fuel val p buf) Q st.
Proof.
  revert fuel val p buf s. induction n as [|n IH]; intros fuel val p buf s Hv Hf Hp Ht HQ;
    (destruct fuel as [|fuel]; [lia|]); cbn [nibbles digs] in *.
  - simpl in Hv. rewrite (proj2 (Z.ltb_ge 0 val)) by lia. by apply wp_ret, HQ.
  - destruct (Z.ltb_spec 0 val) as [H0|H0]; [|by apply wp_ret, HQ].
    rewrite (proj2 (Z.ltb_lt 0 p)) by lia. pose proof Ht as (_ & Hz & Hl & _). unfold zlen in Hz.
    change 15 with (2 ^ 4 - 1). rewrite land_ones_mod, Z.shiftr_div_pow2 by lia. change (2 ^ 4) with 16.
    apply wp_bind. unfold arr_put. rewrite (proj2 (Z.ltb_lt (p - 1) (Z.of_nat (length buf)))) by lia.
    apply wp_ret. rewrite Nat2Z.inj_succ, Z.pow_succ_r in Hv by lia. eapply IH; [|lia|lia|by apply tail_put; [|lia]|].
    + split; [apply Z.div_pos; lia|apply Z.div_lt_upper_bound; lia].
    + intros p' buf' H'. apply HQ. simpl. by rewrite <-app_assoc.
Qed.

Section hex.
Context (dev : device).

Lemma wp_puts_arr a p str s (Q : unit → uart → Prop) :
  Forall nonzero str → tail_is a p (str ++ [0]) →
  (∀ seg, transmits (uart_base s) (crlf str) seg → Q tt (accessed s seg)) → wp (puts_arr dev a p) Q s.
Proof.
  intros Hs (Hp0 & Hz & Hl & Hc) HQ. unfold zlen in Hz. rewrite length_app in Hz. simpl in Hz.
  apply (wp_puts_loop _ _ str); [done|lia| |done]. intros k c seg P Hk HP. unfold arr_get.
  apply (wp_deref _ c); [|done]. rewrite Z.add_0_l, Z2Nat.inj_add, Nat2Z.id by lia. by rewrite (Hc k c).
Qed.

Lemma hex_char_digit d : 0 ≤ d < 16 → nonzero (hex_char d) ∧ hex_char d ≠ 10.
Proof. unfold hex_char, nonzero. destruct (Z.ltb_spec d 10); lia. Qed.

Lemma hex_plain n val : Forall (λ c, nonzero c ∧ c ≠ 10) (digs n 16 hex_char val).
Proof.
  revert val. induction n as [|n IH]; intros val; simpl; [constructor|].
  destruct (0 <? val); constructor; [|done]. apply hex_char_digit, Z.mod_pos_bound. lia.
Qed.

Lemma crlf_plain s : Forall (λ c, nonzero c ∧ c ≠ 10) s → crlf s = s.
Proof.
  induction 1 as [|c s [_ Hc] _ IH]; [done|]. unfold crlf in *. simpl.
  rewrite IH. by rewrite (proj2 (Z.eqb_neq c 10)).
Qed.

Lemma wp_print_hex val s (Q : unit → uart → Prop) :
  0 ≤ val < 2 ^ 64 →
  (∀ seg, transmits (uart_base s) (lit "0x" ++ hex val) seg → Q tt (accessed s seg)) →
  wp (serial_print_hex dev val) Q s.
Proof.
  intros Hv HQ. unfold serial_print_hex, hex, number in *. apply wp_bind.
  set (buf := replicate 20 None : arr). assert (Hl : length buf = 20%nat) by done.
  unfold arr_put at 1. rewrite Hl. cbn [Z.ltb Z.compare Z.of_nat]. apply wp_ret.
  assert (Ht : tail_is (<[Z.to_nat 19 := Some 0]> buf) 19 [0]).
  { split_and!; [done|done|by rewrite length_insert|]. intros [|k] c Hk; [|done]. by injection Hk as <-. }
  destruct (Z.eqb_spec val 0) as [->|Hne].
  - apply wp_puts_lit; [lit_ok|]. intros seg. exact (HQ seg).
  - apply wp_bind, (wp_nibbles 16 nibble_fuel _ _ _ [0]); [done|unfold nibble_fuel; lia|lia|done|].
    clearbody buf. intros p' buf' H'. set (ds := digs 23 16 hex_char val) in *.
    assert (Ed : digs 16 16 hex_char val = ds) by (symmetry; apply digs_enough; [lia|done|lia]).
    rewrite Ed in H'. assert (Hp : Forall (λ c, nonzero c ∧ c ≠ 10) (rev ds)).
    { apply Forall_rev. subst ds. apply hex_plain. }
    apply wp_bind, wp_puts_lit; [lit_ok|]. intros seg Hseg.
    apply (wp_puts_arr _ _ (rev ds)); [eapply Forall_impl; [exact Hp|by intros ? []]|done|].
    intros seg' Hseg'. rewrite uart_accessed_app. apply HQ. apply transmits_app; [exact Hseg|].
    by rewrite crlf_plain in Hseg'.
Qed.
End hex.

(** ** Initialisation *)

(** Off, eight bits, on with both directions. *)
Definition init_accesses (base : Z) : trace :=
  [Wr (UARTCR base) 0; Dsb; Wr (UARTLCR_H base) 0x60; Dsb; Wr (UARTCR base) 0x301; Dsb].
Definition base_of (r : option Z) (old : Z) : Z :=
  match r with Some b => if b =? 0 then old else b | None => old end.

Lemma wp_serial_init s r (Q : unit → uart → Prop) :
  wp dtb_get_stdout_uart_base (λ r' d, r' = r ∧ d = udt s) (udt s) →
  Q tt (accessed (set_base (base_of r (uart_base s)) s) (init_accesses (base_of r (uart_base s)))) →
  wp serial_init Q s.
Proof.
  intros Hr HQ. unfold serial_init. apply wp_bind, wp_zoom.
  eapply wp_mono; [exact Hr|]. intros r' d [-> ->].
  replace {| udt := udt s; uart_base := uart_base s; uio := uio s |} with s by (by destruct s).
  apply wp_bind.
  apply (wp_mono _ (λ _ s', s' = set_base (base_of r (uart_base s)) s)).
  - destruct r as [b|]; [|apply wp_ret; by destruct s]. unfold when, ctrue, base_of.
    destruct (b =? 0); [apply wp_ret; by destruct s|by apply wp_modify].
  - intros [] ? ->. apply wp_bind, wp_gets, wp_zoom.
    apply wp_bind, wp_reg_write. apply wp_bind, wp_mb. apply wp_bind, wp_reg_write.
    apply wp_bind, wp_mb. apply wp_bind, wp_reg_write. apply wp_mb.
    rewrite <-!app_assoc. exact HQ.
Qed.

(** ** Claims *)

(** C37: sending a string to the serial port returns whatever the device answers,
    after at most a million polls of the flag register per byte; the bytes
    written to the data register are those of the string with a carriage return
    before every line feed, and each is written after a wait that saw room in
    the FIFO or gave up. *)
Theorem serial_puts_correct (dev : device) (s : uart) (a : Z) (str : list Z) :
  a ≠ 0 → cstr (ram (udt s)) a str →
  ∃ seg, serial_puts dev a s = Some (tt, accessed s seg) ∧
    transmits (uart_base s) (crlf str) seg ∧
    written (uart_base s) seg = crlf str ∧
    polls (uart_base s) seg ≤ UART_SPIN_MAX * Z.of_nat (length (crlf str)).
Proof.
  intros Ha Hs. destruct (wp_serial_puts dev a str s
    (λ _ s', ∃ seg, s' = accessed s seg ∧ transmits (uart_base s) (crlf str) seg) Ha Hs)
    as ([] & ? & E & seg & -> & Hseg); [eauto|].
  exists seg. destruct (transmits_counts _ _ _ Hseg). split_and!; [done|done|done|lia].
Qed.

(** Printing a number of 64 bits returns and sends 0x and its hexadecimal
    digits, which read back as the number. *)
Theorem serial_print_hex_correct (dev : device) (s : uart) (val : Z) :
  0 ≤ val < 2 ^ 64 →
  ∃ seg, serial_print_hex dev val s = Some (tt, accessed s seg) ∧
    written (uart_base s) seg = lit "0x" ++ hex val ∧
    CStringCopy.horner 16 hex_digit_val (hex val) = val.
Proof.
  intros Hv. destruct (wp_print_hex dev val s
    (λ _ s', ∃ seg, s' = accessed s seg ∧ transmits (uart_base s) (lit "0x" ++ hex val) seg) Hv)
    as ([] & ? & E & seg & -> & Hseg); [eauto|].
  exists seg. destruct (transmits_counts _ _ _ Hseg). split_and!; [done|done|by apply hex_chars_value].
Qed.

(** Initialising the port switches it off, selects eight data bits and
    switches it on, at the base address that the device tree gives for the
    console, or at the present one when the tree gives none or 0. *)
Theorem serial_init_correct (s : uart) (evs : list ev) (r : option Z) :
  blob (udt s) evs → (∀ n d, (n, d) ∈ g_als (p1 evs None sig0) → 0 ∈ d) → uart_spec evs = Ret r →
  serial_init s =
    Some (tt, accessed (set_base (base_of r (uart_base s)) s) (init_accesses (base_of r (uart_base s)))).
Proof.
  intros Hb Hals Hr. destruct (wp_serial_init s r (λ _ s', s' = accessed (set_base
    (base_of r (uart_base s)) s) (init_accesses (base_of r (uart_base s)))))
    as ([] & ? & E & ->); [by apply (wp_uart _ evs r)|done|done].
Qed.

(** ** A port *)

Definition demo_port : uart := {|
  udt := {| ram := upd 5000 (lit "ok" ++ [10; 0]) (list_to_map ((λ a, (a, 0)) <$> seqZ 5000 4));
            dtb_ptr := 0; boot_x0 := 0 |};
  uart_base := DEFAULT_UART_BASE; uio := [] |}.
(** A device whose FIFO is always full. *)
Definition stuck : device := λ _ _, 0x20.

Lemma serial_puts_correct_witness :
  ∃ seg, serial_puts stuck 5000 demo_port = Some (tt, accessed demo_port seg) ∧
    transmits DEFAULT_UART_BASE (crlf (lit "ok" ++ [10])) seg ∧
    written DEFAULT_UART_BASE seg = [111; 107; 13; 10] ∧ polls DEFAULT_UART_BASE seg ≤ UART_SPIN_MAX * 4.
Proof.
  apply (serial_puts_correct stuck demo_port 5000 (lit "ok" ++ [10])); [discriminate|].
  split; [apply upd_bytes|].
  apply Forall_app; split; [lit_ok|by repeat constructor].
Defined.

Lemma serial_print_hex_correct_witness :
  ∃ seg, serial_print_hex stuck 0xdeadbeef demo_port = Some (tt, accessed demo_port seg) ∧
    written DEFAULT_UART_BASE seg = lit "0x" ++ hex 0xdeadbeef ∧
    CStringCopy.horner 16 hex_digit_val (hex 0xdeadbeef) = 0xdeadbeef.
Proof. apply (serial_print_hex_correct stuck demo_port 0xdeadbeef). split; [discriminate|reflexivity]. Defined.

Lemma serial_init_correct_witness :
  let s := {| udt := blob_of demo_tree; uart_base := DEFAULT_UART_BASE; uio := [] |} in
  serial_init s = Some (tt, accessed (set_base 0x9000000 s) (init_accesses 0x9000000)).
Proof.
  intros s. apply (serial_init_correct s (flatten demo_tree) (Some 0x9000000)).
  - exact (blob_of_ok demo_tree eq_refl eq_refl).
  - intros n d Hn. vm_compute in Hn. apply elem_of_nil in Hn. destruct Hn.
  - vm_compute. reflexivity.
Defined.
