(* ===== verification/Gic.v ===== *)
(** * The interrupt controller (drivers/gic.c): translation

    State: the device tree the version is looked up in, the two base addresses,
    the version, and the accesses to the controller.  An access through a base
    address that was not set is undefined. *)
From stdpp Require Import base gmap list option numbers strings.
From S2P Require Import Prelude CString Dtb Io.
Import CString Dtb.
#[local] Open Scope Z_scope.

Module Gic.

Definition GICD_CTLR : Z := 0x000.
Definition GICD_ISENABLER : Z := 0x100.
Definition GICD_ICENABLER : Z := 0x180.
Definition GICC_CTLR : Z := 0x000.
Definition GICC_PMR : Z := 0x004.
Definition GICC_IAR : Z := 0x00C.
Definition GICC_EOIR : Z := 0x010.

Record gic := {
  gdt : dtb;
  gicd_base : Z;
  gicc_base : Z;
  gic_version : Z;
  gio : trace;
}.
Definition set_gicd (b : Z) (s : gic) : gic :=
  {| gdt := gdt s; gicd_base := b; gicc_base := gicc_base s; gic_version := gic_version s; gio := gio s |}.
Definition set_gicc (b : Z) (s : gic) : gic :=
  {| gdt := gdt s; gicd_base := gicd_base s; gicc_base := b; gic_version := gic_version s; gio := gio s |}.
Definition set_version (v : Z) (s : gic) : gic :=
  {| gdt := gdt s; gicd_base := gicd_base s; gicc_base := gicc_base s; gic_version := v; gio := gio s |}.
Definition on_gdt {A} (m : ST dtb A) : ST gic A :=
  zoom gdt (λ d s, {| gdt := d; gicd_base := gicd_base s; gicc_base := gicc_base s;
    gic_version := gic_version s; gio := gio s |}) m.
Definition on_io {A} (m : ST trace A) : ST gic A :=
  zoom gio (λ t s, {| gdt := gdt s; gicd_base := gicd_base s; gicc_base := gicc_base s;
    gic_version := gic_version s; gio := t |}) m.

(** [base[offset / 4]] for an array of 32-bit registers. *)
Definition cell (base offset : Z) : reg := Mem32 (u64 (base + 4 * (offset / 4))).

(** ** The version *)

(** [__builtin_bswap32]. *)
Definition bswap32_at (a : Z) : ST mem Z := be32_at a.

(** [s[0] == 'c' && s[1] == 'o' && ...]. *)
Fixpoint chars_are (s : Z) (cs : list Z) : ST mem bool :=
  match cs with
  | [] => mret true
  | c :: cs => x ← load s; if x =? c then chars_are (s + 1) cs else mret false
  end.

Fixpoint version_loop (fuel : nat) (fdt strings p : Z) : ST mem Z :=
  match fuel with
  | O => undef
  | S fuel =>
      token ← bswap32_at (fdt + p);
      let p := u32 (p + 4) in
      if token =? 1 then
        n ← name_len (fdt + p);
        version_loop fuel fdt strings (u32 (Z.land (p + n + 4) (Z.lnot 3)))
      else if token =? 3 then
        len ← bswap32_at (fdt + p);
        let p := u32 (p + 4) in
        nameoff ← bswap32_at (fdt + p);
        let p := u32 (p + 4) in
        let pname := strings + nameoff in
        compatible ← chars_are pname (lit "compatible" ++ [0]);
        v3 ← (if compatible : bool then chars_are (fdt + p) (lit "arm,gic-v3") else mret false);
        if v3 : bool then mret 3
        else version_loop fuel fdt strings (Z.land (u32 (u32 (p + len) + 3)) (u32 (Z.lnot 3)))
      else if token =? 2 then version_loop fuel fdt strings p
      else if token =? 9 then mret 2
      else mret 2
  end.

Definition gic_detect_version : ST dtb Z :=
  hdr ← dtb_get;
  if negb (ctrue hdr) then mret 2
  else on_ram (
    off_struct ← bswap32_at (hdr + hdr_off_dt_struct);
    off_strings ← bswap32_at (hdr + hdr_off_dt_strings);
    walking (λ fuel, version_loop fuel hdr (hdr + off_strings) off_struct)).

Section gic.
Context (dev : device).

Definition gicd_write (offset val : Z) : ST gic unit :=
  b ← gets gicd_base;
  if b =? 0 then undef else on_io (reg_write (cell b offset) val).
Definition gicc_read (offset : Z) : ST gic Z :=
  b ← gets gicc_base;
  if b =? 0 then undef else on_io (reg_read dev (cell b offset)).
Definition gicc_write (offset val : Z) : ST gic unit :=
  b ← gets gicc_base;
  if b =? 0 then undef else on_io (reg_write (cell b offset) val).

Definition gicv3_read_icc_iar1 : ST gic Z := v ← on_io (reg_read dev (Sys ICC_IAR1)); mret (u32 v).
Definition gicv3_write_icc_eoir1 (val : Z) : ST gic unit := on_io (reg_write (Sys ICC_EOIR1) val).
Definition gicv3_write_icc_pmr (val : Z) : ST gic unit := on_io (reg_write (Sys ICC_PMR) val).
Definition gicv3_write_icc_igrpen1 (val : Z) : ST gic unit := on_io (reg_write (Sys ICC_IGRPEN1) val).

(** ** Operations *)

Definition gic_init : ST gic unit :=
  v ← on_gdt gic_detect_version;
  modify (set_version v);;
  (if v =? 3 then
     on_io (say "GIC: Detected GICv3" []);;
     modify (set_gicd 0x08000000);;
     gicd_write GICD_CTLR 0;;
     gicd_write GICD_CTLR 0x37;;
     gicv3_write_icc_pmr 0xFF;;
     gicv3_write_icc_igrpen1 1;;
     on_io (emit Unmask)
   else
     on_io (say "GIC: Detected GICv2" []);;
     modify (set_gicd 0x08000000);;
     modify (set_gicc 0x08010000);;
     gicd_write GICD_CTLR 0;;
     for_each 32 0 (λ i, gicd_write (u32 (GICD_ICENABLER + i * 4)) 0xFFFFFFFF);;
     gicd_write GICD_CTLR 1;;
     gicc_write GICC_PMR 0xFF;;
     gicc_write GICC_CTLR 1;;
     on_io (emit Unmask));;
  on_io (say "GIC: initialized" []).

(** [irq] is an [int]; division and remainder are those of C on the numbers
    that pass the test. *)
Definition gic_enable_irq (irq : Z) : ST gic unit :=
  if (irq <? 0) || (1020 <=? irq) then mret tt
  else
    let reg := irq / 32 in
    let bit := irq mod 32 in
    gicd_write (u32 (GICD_ISENABLER + reg * 4)) (u32 (Z.shiftl 1 bit)).

Definition gic_disable_irq (irq : Z) : ST gic unit :=
  if (irq <? 0) || (1020 <=? irq) then mret tt
  else
    let reg := irq / 32 in
    let bit := irq mod 32 in
    gicd_write (u32 (GICD_ICENABLER + reg * 4)) (u32 (Z.shiftl 1 bit)).

Definition gic_ack_irq : ST gic Z :=
  v ← gets gic_version;
  if v =? 3 then gicv3_read_icc_iar1 else gicc_read GICC_IAR.

Definition gic_eoi_irq (irq : Z) : ST gic unit :=
  v ← gets gic_version;
  if v =? 3 then gicv3_write_icc_eoir1 irq else gicc_write GICC_EOIR irq.
End gic.

End Gic.
