(* ===== verification/GicThm.v ===== *)
(** * The interrupt controller: proofs

    The version comes from the compatible properties of the device tree; what
    the writes to the set-enable and clear-enable registers leave enabled is
    read off the trace. *)
From stdpp Require Import base gmap list option numbers strings.
From S2P Require Import Prelude CString CStringThm CStringCopy Dtb DtbThm DtbUart DtbPath DtbTree PmmInitThm PmmInitClaims Io Gic.
Import CString Dtb Gic.
#[local] Open Scope Z_scope.

(** ** The version *)

Lemma land_lnot3 x : Z.land x (Z.lnot 3) = x / 4 * 4.
Proof.
  rewrite <-Z.ldiff_land. change 3 with (Z.ones 2). rewrite Z.ldiff_ones_r by lia.
  by rewrite Z.shiftl_mul_pow2, Z.shiftr_div_pow2.
Qed.

(** The first string of a property. *)
Definition first_string (d : list Z) : list Z := take (span (λ c, negb (c =? 0)) d) d.

Definition is_v3 (n d : list Z) : bool :=
  bool_decide (n = lit "compatible") && has_prefix (lit "arm,gic-v3") (first_string d).

(** What the scan computes on the events of the blob. *)
Fixpoint version_of (evs : list ev) : Z :=
  match evs with
  | [] | ENop :: _ => 2
  | EProp n d :: evs => if is_v3 n d then 3 else version_of evs
  | _ :: evs => version_of evs
  end.

(** Compatible properties are lists of terminated strings. *)
Definition terminated (evs : list ev) : Prop := ∀ d, EProp (lit "compatible") d ∈ evs → 0 ∈ d.

Lemma wp_chars_name m s n l (Q : bool → mem → Prop) :
  cstr m s n → Forall nonzero l → Q (bool_decide (n = l)) m → wp (chars_are s (l ++ [0])) Q m.
Proof.
  intros Hn Hl. revert s n Hn. induction Hl as [|x l Hx Hl IH]; intros s n Hn HQ; cbn [chars_are app].
  - apply wp_bind. destruct n as [|c n].
    + apply (wp_load _ _ 0); [by apply cstr_nil|]. rewrite bool_decide_true in HQ by done. by apply wp_ret.
    + apply cstr_cons in Hn as (Hc & Hz & _). apply (wp_load _ _ c); [done|].
      rewrite nonzero_eqb by done. rewrite bool_decide_false in HQ by done. by apply wp_ret.
  - apply wp_bind. destruct n as [|c n].
    + apply (wp_load _ _ 0); [by apply cstr_nil|]. rewrite Z.eqb_sym, nonzero_eqb by done.
      rewrite bool_decide_false in HQ by done. by apply wp_ret.
    + apply cstr_cons in Hn as (Hc & Hz & Hn). apply (wp_load _ _ c); [done|].
      destruct (Z.eqb_spec c x) as [->|Hne].
      * apply (IH _ n); [done|]. erewrite bool_decide_ext; [exact HQ|]. split; [by intros ->|by intros [= ->]].
      * apply wp_ret. rewrite bool_decide_false in HQ; [done|congruence].
Qed.

Lemma first_string_cons c d : first_string (c :: d) = if c =? 0 then [] else c :: first_string d.
Proof. unfold first_string. cbn [span]. by destruct (c =? 0). Qed.

Lemma wp_chars_data m s d cs (Q : bool → mem → Prop) :
  bytes_at m s d → 0 ∈ d → Forall nonzero cs →
  Q (has_prefix cs (first_string d)) m → wp (chars_are s cs) Q m.
Proof.
  intros Hd Hz Hcs. revert s d Hd Hz. induction Hcs as [|x cs Hx Hcs IH]; intros s d Hd Hz HQ; cbn [chars_are].
  - by apply wp_ret.
  - destruct d as [|c d]; [by apply elem_of_nil in Hz|]. apply bytes_at_cons in Hd as [Hc Hd].
    rewrite first_string_cons in HQ. apply wp_bind, (wp_load _ _ c); [done|].
    destruct (Z.eqb_spec c x) as [->|Hne].
    + rewrite nonzero_eqb in HQ by done. apply elem_of_cons in Hz as [<-|Hz]; [by unfold nonzero in Hx; lia|].
      apply (IH _ d); [done..|]. unfold has_prefix in *. cbn [length take] in HQ.
      erewrite bool_decide_ext; [exact HQ|]. split; [by intros ->|by intros [= ->]].
    + apply wp_ret. unfold has_prefix in HQ. rewrite bool_decide_false in HQ; [done|].
      destruct (c =? 0); cbn [length take]; congruence.
Qed.

Section version.
Context (m : mem) (fdt strings : Z).

Lemma begin_step' p n evs : p mod 4 = 0 → block m fdt strings p (EBegin n :: evs) →
  u32 (Z.land (p + 4 + zlen n + 4) (Z.lnot 3)) = p + ev_size (EBegin n).
Proof.
  intros Hp Hb. rewrite land_lnot3, <-(u32_step _ _ _ _ _ _ (ev_size (EBegin n)) Hb)
    by (pose proof (ev_size_pos (EBegin n)); lia).
  f_equal. simpl. unfold pad4. Z.div_mod_to_equations. lia.
Qed.

Lemma prop_step' p n d evs : p mod 4 = 0 → block m fdt strings p (EProp n d :: evs) →
  Z.land (u32 (u32 (p + 12 + zlen d) + 3)) (u32 (Z.lnot 3)) = p + ev_size (EProp n d).
Proof.
  intros Hp Hb. pose proof (block_bound _ _ _ _ _ Hb) as [Hp0 _].
  destruct Hb as (_ & _ & Hb%block_bound). simpl in Hb. pose proof (pad4_range (zlen d)).
  assert (0 ≤ zlen d) by (unfold zlen; lia). unfold u32 at 2. rewrite (Z.mod_small (p + 12 + zlen d)) by lia.
  unfold u32 at 1. rewrite Z.mod_small by lia. unfold u32. change 3 with (2 ^ 2 - 1) at 2.
  rewrite (land_lnot_ones 32 2) by lia. change (2 ^ 2) with 4. simpl. unfold pad4 in *.
  Z.div_mod_to_equations. lia.
Qed.

Lemma wp_version_loop evs fuel p (Q : Z → mem → Prop) :
  block m fdt strings p evs → p mod 4 = 0 → terminated evs → (length evs < fuel)%nat →
  Q (version_of evs) m → wp (version_loop fuel fdt strings p) Q m.
Proof.
  revert evs p. induction fuel as [|fuel IH]; intros evs p Hb Hp Hterm Hf HQ; [lia|].
  assert (Hsize : ∀ e, ev_size e mod 4 = 0).
  { intros [n|n d| |]; simpl; try done; unfold pad4; Z.div_mod_to_equations; lia. }
  assert (Hnext : ∀ e, (p + ev_size e) mod 4 = 0).
  { intros e. specialize (Hsize e). Z.div_mod_to_equations. lia. }
  assert (Hrest : ∀ e evs', evs = e :: evs' → terminated evs').
  { intros e evs' -> d Hd. apply Hterm. by apply elem_of_cons; right. }
  cbn [version_loop]. unfold bswap32_at. destruct evs as [|[n|n d| |] evs]; simpl in Hf.
  - pose proof Hb as [Ht _]. apply wp_bind, (wp_be32_at _ _ _ _ Ht). by apply wp_ret.
  - pose proof Hb as ((Ht & Hn) & _ & Hb'). destruct (begin_step _ _ _ _ _ _ Hb) as [E4 _].
    apply wp_bind, (wp_be32_at _ _ _ _ Ht). simpl (_ =? _). cbv iota. rewrite E4.
    apply wp_bind, (wp_name_len m n); [done|]. rewrite (begin_step' _ _ _ Hp Hb).
    apply (IH evs); [done|apply (Hnext (EBegin n))|by eapply Hrest|lia|done].
  - pose proof Hb as ((Ht & Hl & (off & Hoff & Hn) & Hd & Hbd & Hmap) & Hp0 & Hb').
    destruct (prop_step _ _ _ _ _ _ _ Hb) as (E4 & E8 & E12 & _).
    apply wp_bind, (wp_be32_at _ _ _ _ Ht). simpl (_ =? _). cbv iota. rewrite E4.
    replace (p + 4 + 4) with (p + 8) by lia. rewrite E8. replace (p + 8 + 4) with (p + 12) by lia. rewrite E12.
    apply wp_bind, (wp_be32_at _ _ _ _ Hl). apply wp_bind, (wp_be32_at _ _ _ _ Hoff).
    rewrite (prop_step' _ _ _ _ Hp Hb).
    apply wp_bind, (wp_chars_name m _ n); [done|lit_ok|].
    assert (Hskip : Q (version_of evs) m → wp (version_loop fuel fdt strings (p + ev_size (EProp n d))) Q m).
    { intros HQ'. apply (IH evs); [done|apply (Hnext (EProp n d))|by eapply Hrest|lia|done]. }
    cbn [version_of] in HQ. unfold is_v3 in HQ.
    case_bool_decide as En; [|apply wp_bind, wp_ret; by apply Hskip]. subst n.
    apply wp_bind, (wp_chars_data m _ d); [done|apply Hterm; by left|lit_ok|].
    destruct (has_prefix _ _); [by apply wp_ret|by apply Hskip].
  - pose proof Hb as (Ht & _ & Hb'). pose proof (u32_step _ _ _ _ _ _ 4 Hb ltac:(simpl; lia)) as E4.
    apply wp_bind, (wp_be32_at _ _ _ _ Ht). simpl (_ =? _). cbv iota. rewrite E4.
    apply (IH evs); [done|apply (Hnext EEnd)|by eapply Hrest|lia|done].
  - pose proof Hb as (Ht & _). apply wp_bind, (wp_be32_at _ _ _ _ Ht). by apply wp_ret.
Qed.
End version.

(** The structure block starts at a multiple of four. *)
Definition aligned_blob (s : dtb) : Prop :=
  ∀ os, tok (ram s) (dtb_ptr s + hdr_off_dt_struct) os → os mod 4 = 0.

Lemma wp_detect s evs (Q : Z → dtb → Prop) :
  blob s evs → aligned_blob s → terminated evs → Q (version_of evs) s → wp gic_detect_version Q s.
Proof.
  intros [Hp Hm _ (os & ot & Hos & Hot & Hb)] Hal Hterm HQ. unfold gic_detect_version, dtb_get, bswap32_at.
  apply wp_bind, wp_gets. rewrite ptr_true by done. apply wp_on_ram.
  apply wp_bind, (wp_be32_at _ _ _ _ Hos). apply wp_bind, (wp_be32_at _ _ _ _ Hot).
  apply wp_walking, (wp_version_loop _ _ _ evs); [done|by apply Hal|done|apply block_fuel in Hb; lia|done].
Qed.

(** On the events of a tree the scan looks at every node. *)
Definition node_v3 (n : list Z * list prop) : bool := existsb (uncurry is_v3) n.2.
Definition tree_v3 (t : node) : bool := existsb node_v3 (nodes t).

Lemma version_props ps evs :
  version_of ((uncurry EProp <$> ps) ++ evs) = if existsb (uncurry is_v3) ps then 3 else version_of evs.
Proof.
  induction ps as [|[n d] ps IH]; [done|]. cbn [fmap list_fmap app version_of existsb uncurry].
  destruct (is_v3 n d); [done|exact IH].
Qed.

Lemma version_tree t evs : version_of (flatten t ++ evs) = if tree_v3 t then 3 else version_of evs.
Proof.
  revert evs. induction t as [n ps cs IH] using node_rect'. intros evs.
  cbn [flatten app version_of]. rewrite <-!app_assoc, version_props.
  unfold tree_v3. cbn [nodes existsb]. unfold node_v3 at 1. simpl snd.
  destruct (existsb (uncurry is_v3) ps); [done|]. cbn [orb].
  assert (Hcs : version_of (flat_map flatten cs ++ [EEnd] ++ evs) =
    if existsb node_v3 (flat_map nodes cs) then 3 else version_of evs).
  { induction IH as [|c cs Hc _ IHcs]; [done|]. cbn [flat_map]. rewrite <-app_assoc, Hc, IHcs, existsb_app.
    unfold tree_v3. by destruct (existsb node_v3 (nodes c)). }
  exact Hcs.
Qed.

(** ** The enable bits *)

Definition GICD : Z := 0x08000000.
Definition GICC : Z := 0x08010000.

Lemma cell_at base off : 0 ≤ base < 2 ^ 32 → 0 ≤ off < 2 ^ 32 → off mod 4 = 0 → cell base off = Mem32 (base + off).
Proof.
  intros Hb Ho Hm. unfold cell, u64. f_equal. replace (4 * (off / 4)) with off by (Z.div_mod_to_equations; lia).
  apply Z.mod_small. lia.
Qed.

(** What a write does to the enable bit of an interrupt. *)
Definition gate_step (irq : Z) (b : bool) (e : event) : bool :=
  match e with
  | Wr r v =>
      if Z.testbit v (irq mod 32) then
        if bool_decide (r = Mem32 (GICD + GICD_ISENABLER + 4 * (irq / 32))) then true
        else if bool_decide (r = Mem32 (GICD + GICD_ICENABLER + 4 * (irq / 32))) then false
        else b
      else b
  | _ => b
  end.
(** The enable bit after a trace that starts with bits [b0]. *)
Definition enabled (b0 : Z → bool) (tr : trace) (irq : Z) : bool := foldl (gate_step irq) (b0 irq) tr.

Lemma enabled_app b0 tr tr' irq : enabled b0 (tr ++ tr') irq = foldl (gate_step irq) (enabled b0 tr irq) tr'.
Proof. apply foldl_app. Qed.

(** Writing one bit of the register [off + 4 * k] of a bank. *)
Definition bank_write (off irq : Z) : event := Wr (cell GICD (u32 (off + irq / 32 * 4))) (u32 (Z.shiftl 1 (irq mod 32))).

Lemma bank_cell off k : off = GICD_ISENABLER ∨ off = GICD_ICENABLER → 0 ≤ k < 32 →
  cell GICD (u32 (off + k * 4)) = Mem32 (GICD + off + 4 * k).
Proof.
  intros Ho Hk. unfold GICD_ISENABLER, GICD_ICENABLER in Ho. unfold u32. rewrite Z.mod_small by lia.
  rewrite cell_at; [f_equal; lia|done|lia|]. destruct Ho as [-> | ->]; Z.div_mod_to_equations; lia.
Qed.

Lemma one_bit irq j : 0 ≤ irq → Z.testbit (u32 (Z.shiftl 1 (irq mod 32))) (j mod 32) = (j mod 32 =? irq mod 32).
Proof.
  intros Hi. pose proof (Z.mod_pos_bound irq 32 eq_refl). pose proof (Z.mod_pos_bound j 32 eq_refl).
  unfold u32. rewrite testbit_u, testbit_bit1 by lia. by rewrite (proj2 (Z.ltb_lt _ _)) by lia.
Qed.

Lemma gate_bank off irq j b :
  off = GICD_ISENABLER ∨ off = GICD_ICENABLER → 0 ≤ irq < 1024 → 0 ≤ j < 1024 →
  gate_step j b (bank_write off irq) = if j =? irq then off =? GICD_ISENABLER else b.
Proof.
  intros Ho Hi Hj. unfold bank_write, gate_step.
  assert (Hr : 0 ≤ irq / 32 < 32 ∧ 0 ≤ j / 32 < 32) by (Z.div_mod_to_equations; lia).
  rewrite bank_cell, one_bit by (done || lia).
  destruct (Z.eqb_spec j irq) as [->|Hne].
  - rewrite Z.eqb_refl. destruct Ho as [-> | ->]; [by rewrite bool_decide_true|].
    rewrite bool_decide_false by (unfold GICD_ICENABLER, GICD_ISENABLER; intros [= H]; lia).
    by rewrite bool_decide_true.
  - destruct (Z.eqb_spec (j mod 32) (irq mod 32)); [|done].
    assert (j / 32 ≠ irq / 32) by (Z.div_mod_to_equations; lia).
    unfold GICD_ICENABLER, GICD_ISENABLER in *.
    rewrite !bool_decide_false; [done|intros [= H']; lia..].
Qed.

(** ** The operations *)

(** The controller after more accesses. *)
Definition accessed (s : gic) (seg : trace) : gic :=
  {| gdt := gdt s; gicd_base := gicd_base s; gicc_base := gicc_base s; gic_version := gic_version s;
     gio := gio s ++ seg |}.

Lemma accessed_app s seg seg' : accessed (accessed s seg) seg' = accessed s (seg ++ seg').
Proof. unfold accessed. simpl. by rewrite app_assoc. Qed.

Lemma wp_emit_io e s (Q : unit → gic → Prop) : Q tt (accessed s [e]) → wp (on_io (emit e)) Q s.
Proof. intros HQ. apply wp_zoom, wp_emit, HQ. Qed.
Lemma wp_gicd_write off v s (Q : unit → gic → Prop) :
  gicd_base s ≠ 0 → Q tt (accessed s [Wr (cell (gicd_base s) off) v]) → wp (gicd_write off v) Q s.
Proof.
  intros Hb HQ. apply wp_bind, wp_gets. rewrite (proj2 (Z.eqb_neq _ 0)) by done. by apply wp_emit_io.
Qed.
Lemma wp_gicc_write off v s (Q : unit → gic → Prop) :
  gicc_base s ≠ 0 → Q tt (accessed s [Wr (cell (gicc_base s) off) v]) → wp (gicc_write off v) Q s.
Proof.
  intros Hb HQ. apply wp_bind, wp_gets. rewrite (proj2 (Z.eqb_neq _ 0)) by done. by apply wp_emit_io.
Qed.

(** All 32 clear-enable registers. *)
Definition clear_all : trace := (λ i, Wr (cell GICD (u32 (GICD_ICENABLER + i * 4))) 0xFFFFFFFF) <$> seqZ 0 32.
Definition init_accesses (v : Z) : trace :=
  if v =? 3 then
    [Say "GIC: Detected GICv3" []; Wr (cell GICD GICD_CTLR) 0; Wr (cell GICD GICD_CTLR) 0x37;
     Wr (Sys ICC_PMR) 0xFF; Wr (Sys ICC_IGRPEN1) 1; Unmask; Say "GIC: initialized" []]
  else
    [Say "GIC: Detected GICv2" []; Wr (cell GICD GICD_CTLR) 0] ++ clear_all ++
    [Wr (cell GICD GICD_CTLR) 1; Wr (cell GICC GICC_PMR) 0xFF; Wr (cell GICC GICC_CTLR) 1; Unmask;
     Say "GIC: initialized" []].

(** The controller after its initialisation. *)
Definition gic_up (v : Z) (s : gic) : gic :=
  accessed (set_version v (set_gicd GICD (if v =? 3 then s else set_gicc GICC s))) (init_accesses v).

Lemma foldl_clear irq b l : 0 ≤ irq < 1024 → (∀ k, k ∈ l → 0 ≤ k < 32) →
  foldl (gate_step irq) b ((λ i, Wr (cell GICD (u32 (GICD_ICENABLER + i * 4))) 0xFFFFFFFF) <$> l) =
  if bool_decide (irq / 32 ∈ l) then false else b.
Proof.
  intros Hi. revert b. induction l as [|k l IH]; intros b Hl; [done|]. cbn [fmap list_fmap foldl].
  rewrite IH by (intros; apply Hl; by right). assert (Hk : 0 ≤ k < 32) by (apply Hl; by left).
  assert (E : gate_step irq b (Wr (cell GICD (u32 (GICD_ICENABLER + k * 4))) 0xFFFFFFFF) =
    if bool_decide (irq / 32 = k) then false else b).
  { unfold gate_step. rewrite bank_cell by auto. change 0xFFFFFFFF with (Z.ones 32).
    rewrite Z.ones_spec_low by (apply Z.mod_pos_bound; lia). unfold GICD_ICENABLER, GICD_ISENABLER.
    assert (0 ≤ irq / 32 < 32) by (Z.div_mod_to_equations; lia).
    rewrite bool_decide_false by (intros [= Ha]; lia).
    apply (f_equal (λ c : bool, if c then false else b)), bool_decide_ext. split; [intros [= Ha]; lia|intros ->; f_equal; lia]. }
  rewrite E, (bool_decide_ext (irq / 32 ∈ k :: l) (irq / 32 = k ∨ irq / 32 ∈ l)) by apply elem_of_cons.
  rewrite bool_decide_or. by do 2 destruct (bool_decide _).
Qed.

Lemma init_masks irq b : 0 ≤ irq < 1024 → foldl (gate_step irq) b (init_accesses 2) = false.
Proof.
  intros Hi. unfold init_accesses. simpl (2 =? 3). cbv iota. rewrite !foldl_app. unfold clear_all.
  rewrite foldl_clear by (done || (intros k Hk%elem_of_seqZ; lia)).
  rewrite bool_decide_true by (apply elem_of_seqZ; Z.div_mod_to_equations; lia).
  assert (0 ≤ irq / 32 < 32) by (Z.div_mod_to_equations; lia).
  cbn [foldl gate_step]. rewrite !cell_at by done. unfold GICD, GICC, GICD_CTLR, GICC_PMR, GICC_CTLR, GICD_ISENABLER, GICD_ICENABLER.
  rewrite !bool_decide_false by (intros [= Ha]; lia). by repeat case_match.
Qed.

Lemma wp_gic_init s v (Q : unit → gic → Prop) :
  wp gic_detect_version (λ r d, r = v ∧ d = gdt s) (gdt s) → Q tt (gic_up v s) → wp gic_init Q s.
Proof.
  intros Hv HQ. unfold gic_init. apply wp_bind, wp_zoom. eapply wp_mono; [exact Hv|]. intros r d [-> ->].
  replace {| gdt := gdt s; gicd_base := _; gicc_base := _; gic_version := _; gio := _ |} with s by (by destruct s).
  apply wp_bind, wp_modify. unfold gic_up, init_accesses in HQ. destruct (v =? 3).
  - apply wp_bind. apply wp_bind, wp_emit_io. apply wp_bind, wp_modify.
    apply wp_bind, wp_gicd_write; [done|]. apply wp_bind, wp_gicd_write; [done|].
    apply wp_bind, wp_emit_io. apply wp_bind, wp_emit_io. apply wp_emit_io, wp_emit_io.
    unfold accessed in *. simpl in *. rewrite <-!app_assoc. exact HQ.
  - apply wp_bind. apply wp_bind, wp_emit_io. apply wp_bind, wp_modify. apply wp_bind, wp_modify.
    apply wp_bind, wp_gicd_write; [done|].
    set (s0 := accessed (set_gicc _ _) _).
    apply wp_bind, (wp_for_each (λ i s', s' = accessed s0 ((λ i, Wr (cell GICD (u32 (GICD_ICENABLER + i * 4))) 0xFFFFFFFF) <$> seqZ 0 i))).
    + unfold accessed. rewrite app_nil_r. by destruct s0.
    + intros j s' Hj ->. apply wp_gicd_write; [done|]. rewrite accessed_app. f_equal.
      by rewrite seqZ_app, fmap_app by lia.
    + intros s' ->. apply wp_bind, wp_gicd_write; [done|]. apply wp_bind, wp_gicc_write; [done|].
      apply wp_bind, wp_gicc_write; [done|]. apply wp_emit_io, wp_emit_io.
      subst s0. rewrite !accessed_app. unfold accessed in *. simpl gdt in *. simpl gio in *.
      rewrite <-!app_assoc in *. exact HQ.
Qed.

Lemma version_two evs : version_of evs ≠ 3 → version_of evs = 2.
Proof.
  induction evs as [|[n|n d| |] evs IH]; cbn [version_of]; try done. by destruct (is_v3 n d).
Qed.

Lemma wp_gate (off irq : Z) s (Q : unit → gic → Prop) :
  gicd_base s = GICD →
  Q tt (if (irq <? 0) || (1020 <=? irq) then s else accessed s [bank_write off irq]) →
  wp (if (irq <? 0) || (1020 <=? irq) then mret tt
      else gicd_write (u32 (off + irq / 32 * 4)) (u32 (Z.shiftl 1 (irq mod 32)))) Q s.
Proof.
  intros Hb HQ. destruct (_ || _); [by apply wp_ret|]. apply wp_gicd_write; [by rewrite Hb|].
  unfold bank_write in HQ. by rewrite Hb.
Qed.

Lemma gate_state off irq j b0 s :
  off = GICD_ISENABLER ∨ off = GICD_ICENABLER → 0 ≤ j < 1024 →
  enabled b0 (gio (if (irq <? 0) || (1020 <=? irq) then s else accessed s [bank_write off irq])) j =
  if (j =? irq) && (j <? 1020) then off =? GICD_ISENABLER else enabled b0 (gio s) j.
Proof.
  intros Ho Hj. destruct (Z.ltb_spec irq 0), (Z.leb_spec 1020 irq); cbn [orb]; try lia.
  1,2: by destruct (Z.eqb_spec j irq), (Z.ltb_spec j 1020); try lia.
  unfold accessed. cbn [gio]. rewrite enabled_app. cbn [foldl]. rewrite gate_bank by (done || lia).
  by destruct (Z.eqb_spec j irq), (Z.ltb_spec j 1020); try lia.
Qed.

(** ** Claims *)

(** On a device tree without NOP tokens the detected version is 3 exactly
    when some node has a compatible property whose first string starts with
    arm,gic-v3. *)
Theorem gic_detect_correct (s : dtb) (t : node) :
  blob s (flatten t) → aligned_blob s → terminated (flatten t) →
  gic_detect_version s = Some (if tree_v3 t then 3 else 2, s).
Proof.
  intros Hb Hal Hterm.
  destruct (wp_detect s _ (λ v s', v = version_of (flatten t) ∧ s' = s) Hb Hal Hterm)
    as (v & s' & E & -> & ->); [done|].
  rewrite E, <-(app_nil_r (flatten t)), version_tree. done.
Qed.

(** C36: initialising a version 2 controller disables all 1024 interrupts in the
    distributor, whatever was enabled, then enables both interfaces with the
    lowest priority mask, and unmasks interrupts after all that; for a version
    3 controller the accesses are those of [init_accesses]. *)
Theorem gic_init_correct (s : gic) (evs : list ev) :
  blob (gdt s) evs → aligned_blob (gdt s) → terminated evs →
  gic_init s = Some (tt, gic_up (version_of evs) s) ∧
  (version_of evs ≠ 3 → ∀ b0 irq, 0 ≤ irq < 1024 →
    enabled b0 (gio (gic_up (version_of evs) s)) irq = false).
Proof.
  intros Hb Hal Hterm. split.
  - destruct (wp_gic_init s (version_of evs) (λ _ s', s' = gic_up (version_of evs) s))
      as ([] & ? & E & ->); [by apply (wp_detect _ evs)|done|done].
  - intros ->%version_two b0 irq Hi. unfold gic_up, accessed. cbn [gio].
    rewrite enabled_app. by apply init_masks.
Qed.

(** Enabling or disabling an interrupt number below 1020 sets or clears
    exactly its enable bit in the distributor; other numbers change nothing. *)
Theorem gic_enable_correct (s : gic) (b0 : Z → bool) (irq j : Z) :
  gicd_base s = GICD → 0 ≤ j < 1024 →
  ∃ s1 s2, gic_enable_irq irq s = Some (tt, s1) ∧ gic_disable_irq irq s = Some (tt, s2) ∧
    enabled b0 (gio s1) j = enabled b0 (gio s) j || ((j =? irq) && (j <? 1020)) ∧
    enabled b0 (gio s2) j = enabled b0 (gio s) j && negb ((j =? irq) && (j <? 1020)).
Proof.
  intros Hb Hj.
  destruct (wp_gate GICD_ISENABLER irq s (λ _ s', enabled b0 (gio s') j =
    if (j =? irq) && (j <? 1020) then true else enabled b0 (gio s) j) Hb) as ([] & s1 & E1 & H1);
    [rewrite gate_state; auto|].
  destruct (wp_gate GICD_ICENABLER irq s (λ _ s', enabled b0 (gio s') j =
    if (j =? irq) && (j <? 1020) then false else enabled b0 (gio s) j) Hb) as ([] & s2 & E2 & H2);
    [rewrite gate_state; auto|].
  exists s1, s2. split; [exact E1|]. split; [exact E2|]. rewrite H1, H2.
  destruct (_ && _); simpl; [by rewrite orb_true_r, andb_false_r|by rewrite orb_false_r, andb_true_r].
Qed.

(** ** A controller *)

(** A blob at 0x48000000 that holds any events. *)
Definition blob_evs (evs : list ev) : dtb := {|
  ram := upd 0x48000000 (enc_blob evs) ∅; dtb_ptr := 0x48000000; boot_x0 := 0 |}.

Lemma blob_evs_ok evs :
  forallb ok_evb evs = true → (zlen (enc_blob evs) <? 2 ^ 32) = true →
  blob (blob_evs evs) evs ∧ aligned_blob (blob_evs evs).
Proof.
  intros Hok Hl. split; [apply enc_blob_ok; [by apply ok_evb_ok|done|lia|]; apply upd_bytes|].
  intros os Hos. assert (Hb : bytes_at (ram (blob_evs evs)) 0x48000000 (enc_blob evs)) by apply upd_bytes.
  unfold enc_blob in Hb. apply bytes_app in Hb as [_ Hb]. apply bytes_app in Hb as [_ Hb].
  apply bytes_app in Hb as [Hb _]. rewrite !zlen_be in Hb.
  assert (H40 : tok (ram (blob_evs evs)) (dtb_ptr (blob_evs evs) + hdr_off_dt_struct) 40) by (by split).
  by rewrite (tok_inj _ _ os 40 Hos H40).
Qed.

Definition terminatedb (evs : list ev) : bool :=
  forallb (λ e, match e with
                | EProp n d => negb (bool_decide (n = lit "compatible")) || bool_decide (0 ∈ d)
                | _ => true end) evs.
Lemma terminatedb_ok evs : terminatedb evs = true → terminated evs.
Proof.
  intros H d Hd. unfold terminatedb in H. rewrite forallb_forall in H.
  specialize (H _ (proj1 (list_elem_of_In _ _) Hd)). cbv beta iota in H.
  rewrite bool_decide_true in H by done. by apply bool_decide_eq_true_1 in H.
Qed.

Definition v3_node : node := Node (lit "intc@8000000") [(lit "compatible", lit "arm,gic-v3" ++ [0])] [].
Definition v3_tree : node := Node [] demo_props [demo_memory; v3_node; demo_uart].
Definition off_gic (d : dtb) : gic :=
  {| gdt := d; gicd_base := 0; gicc_base := 0; gic_version := 0; gio := [] |}.

Lemma gic_detect_correct_witness :
  gic_detect_version (blob_evs (flatten v3_tree)) = Some (3, blob_evs (flatten v3_tree)).
Proof.
  apply (gic_detect_correct (blob_evs (flatten v3_tree)) v3_tree).
  - apply (blob_evs_ok (flatten v3_tree)); vm_compute; reflexivity.
  - apply (blob_evs_ok (flatten v3_tree)); vm_compute; reflexivity.
  - apply terminatedb_ok. vm_compute. reflexivity.
Defined.

Lemma gic_init_correct_witness :
  let s := off_gic (blob_evs (flatten demo_tree)) in
  gic_init s = Some (tt, gic_up 2 s) ∧
  ∀ b0 irq, 0 ≤ irq < 1024 → enabled b0 (gio (gic_up 2 s)) irq = false.
Proof.
  intros s. destruct (gic_init_correct s (flatten demo_tree)) as [H1 H2].
  - apply (blob_evs_ok (flatten demo_tree)); vm_compute; reflexivity.
  - apply (blob_evs_ok (flatten demo_tree)); vm_compute; reflexivity.
  - apply terminatedb_ok. vm_compute. reflexivity.
  - split; [exact H1|]. apply H2. vm_compute. discriminate.
Defined.

Lemma gic_enable_correct_witness :
  let s := gic_up 2 (off_gic (blob_evs [])) in
  ∃ s1 s2, gic_enable_irq 30 s = Some (tt, s1) ∧ gic_disable_irq 30 s = Some (tt, s2) ∧
    enabled (λ _, false) (gio s1) 30 = enabled (λ _, false) (gio s) 30 || ((30 =? 30) && (30 <? 1020)) ∧
    enabled (λ _, false) (gio s2) 30 = enabled (λ _, false) (gio s) 30 && negb ((30 =? 30) && (30 <? 1020)).
Proof.
  intros s. apply (gic_enable_correct s (λ _, false) 30 30); [reflexivity|]. split; [discriminate|reflexivity].
Defined.

(** A NOP token, which the format allows anywhere between tokens and which the
    other parsers skip, ends the scan: a version 3 controller after it is taken
    for a version 2 one. *)
Lemma gic_nop_missed :
  let evs := EBegin [] :: ENop :: flatten v3_node ++ [EEnd] in
  blob (blob_evs evs) evs ∧ tree_v3 v3_node = true ∧ gic_detect_version (blob_evs evs) = Some (2, blob_evs evs).
Proof.
  intros evs. assert (H : blob (blob_evs evs) evs ∧ aligned_blob (blob_evs evs)) by (apply blob_evs_ok; vm_compute; reflexivity).
  destruct H as [Hb Hal]. split; [done|].
  split; [vm_compute; reflexivity|].
  destruct (wp_detect (blob_evs evs) evs (λ v s', v = version_of evs ∧ s' = blob_evs evs) Hb Hal)
    as (v & s' & E & -> & ->); [by apply terminatedb_ok; vm_compute|done|]. by rewrite E.
Qed.
