(* ===== verification/Irq.v ===== *)
(** * Interrupts and the timer (kernel/irq.c, kernel/irq_handler.c,
      drivers/timer.c): translation

    State: the interrupt controller with the trace of device accesses, the
    handler table, the variables of the timer, and the scheduler.  A handler is
    called through its address; the only one in the kernel is that of the
    timer, the others are a parameter.  The readings of the clock that the
    scheduler takes during an interrupt are arguments. *)
From stdpp Require Import base gmap list option numbers strings.
From S2P Require Import Prelude Panic TaskDef Sched Io Gic.
#[local] Open Scope Z_scope.
#[local] Open Scope panic_scope.

Module Irq.
Import Gic.

Definition MAX_IRQS : Z := 1024.

Record irq_desc := { handler : Z; hdev : Z }.
Definition no_handler : irq_desc := {| handler := 0; hdev := 0 |}.

Record kern := {
  kgic : gic;
  irq_table : list irq_desc;
  jiffies : Z;
  timer_freq : Z;
  ksched : Sched.sched;
}.
Definition set_gic (v : gic) (s : kern) : kern :=
  {| kgic := v; irq_table := irq_table s; jiffies := jiffies s; timer_freq := timer_freq s; ksched := ksched s |}.
Definition set_table (v : list irq_desc) (s : kern) : kern :=
  {| kgic := kgic s; irq_table := v; jiffies := jiffies s; timer_freq := timer_freq s; ksched := ksched s |}.
Definition set_jiffies (v : Z) (s : kern) : kern :=
  {| kgic := kgic s; irq_table := irq_table s; jiffies := v; timer_freq := timer_freq s; ksched := ksched s |}.
Definition set_freq (v : Z) (s : kern) : kern :=
  {| kgic := kgic s; irq_table := irq_table s; jiffies := jiffies s; timer_freq := v; ksched := ksched s |}.
Definition set_sched (v : Sched.sched) (s : kern) : kern :=
  {| kgic := kgic s; irq_table := irq_table s; jiffies := jiffies s; timer_freq := timer_freq s; ksched := v |}.
Definition on_gic {A} (m : ST gic A) : ST kern A := zoom kgic set_gic m.
Definition on_trace {A} (m : ST trace A) : ST kern A := on_gic (on_io m).
Definition on_sched {A} (m : Sched.PST A) : PS kern A := zoom ksched set_sched m.

(** ** The table *)

Definition irq_init : ST kern unit :=
  modify (set_table (replicate (Z.to_nat MAX_IRQS) no_handler)).

(** [irq_table[irq]] for an index that passed the tests. *)
Definition table_get (irq : Z) : ST kern irq_desc :=
  t ← gets irq_table; deref (t !! Z.to_nat irq).
Definition table_set (irq : Z) (d : irq_desc) : ST kern unit :=
  t ← gets irq_table;
  if irq <? Z.of_nat (length t) then modify (set_table (<[Z.to_nat irq := d]> t)) else undef.

Definition irq_install_handler (irq h d : Z) : ST kern Z :=
  if (irq <? 0) || (MAX_IRQS <=? irq) || (h =? 0) then mret (-1)
  else
    e ← table_get irq;
    if ctrue (handler e) then mret (-2)
    else table_set irq {| handler := h; hdev := d |};; mret 0.

Definition irq_uninstall_handler (irq : Z) : ST kern unit :=
  if (irq <? 0) || (MAX_IRQS <=? irq) then mret tt
  else table_set irq no_handler.

Definition irq_enable (irq : Z) : ST kern unit := on_gic (gic_enable_irq irq).
Definition irq_disable (irq : Z) : ST kern unit := on_gic (gic_disable_irq irq).

Section irq.
Context (dev : device).

(** ** The timer *)

Definition TIMER_IRQ : Z := 30.

Definition read_cntpct : ST kern Z := on_trace (reg_read dev (Sys CNTPCT)).
Definition read_cntfrq : ST kern Z := on_trace (reg_read dev (Sys CNTFRQ)).

(** Division by zero is undefined. *)
Definition udiv {S} (a b : Z) : ST S Z := if b =? 0 then undef else mret (a / b).

Definition get_ns : ST kern Z :=
  c ← read_cntpct;
  f ← read_cntfrq;
  udiv (u64 (c * 1000000000)) f.

Definition write_cntp_tval (val : Z) : ST kern unit := on_trace (reg_write (Sys CNTP_TVAL) val).
Definition write_cntp_ctl (val : Z) : ST kern unit := on_trace (reg_write (Sys CNTP_CTL) val).

Definition timer_irq_handler (now now' : Z) (ctx : cpu_context) (irq d : Z) : PS kern cpu_context :=
  modify (λ s, set_jiffies (u64 (jiffies s + 1)) s);;
  ctx ←! on_sched (Sched.schedule_preempt ctx now now');
  f ← gets timer_freq;
  write_cntp_tval (f / 100);;
  j ← gets jiffies;
  when (j mod 10 =? 0) (on_trace (say "." []));;
  pret ctx.

(** [timer_handler] is the address of [timer_irq_handler]. *)
Context (timer_handler : Z).

Definition timer_init (freq_hz : Z) : ST kern unit :=
  cntfrq ← read_cntfrq;
  modify (set_freq (u32 cntfrq));;
  f ← gets timer_freq;
  on_trace (say "Timer: frequency %u Hz, target %u Hz" [f; freq_hz]);;
  _ ← irq_install_handler TIMER_IRQ timer_handler 0;
  write_cntp_ctl 0;;
  q ← udiv f freq_hz;
  write_cntp_tval q;;
  write_cntp_ctl 1;;
  irq_enable TIMER_IRQ;;
  on_trace (say "Timer: initialized" []).

Definition timer_get_ticks : ST kern Z := gets jiffies.

(** The wait ends when the counter has advanced; [fuel] bounds the number of
    reads. *)
Fixpoint udelay_loop (fuel : nat) (start delta : Z) : ST kern unit :=
  match fuel with
  | O => undef
  | S fuel =>
      c ← read_cntpct;
      if u64 (c - start) <? delta then udelay_loop fuel start delta else mret tt
  end.
Definition udelay_ticks (us freq : Z) : Z := u64 (us * freq) / 1000000.
Definition timer_udelay (fuel : nat) (us : Z) : ST kern unit :=
  start ← read_cntpct;
  f ← gets timer_freq;
  udelay_loop fuel start (udelay_ticks us f).
Definition delay (fuel : nat) (ms : Z) : ST kern unit := timer_udelay fuel (u32 (ms * 1000)).
Definition delay_sec (fuel : nat) (s : Z) : ST kern unit := timer_udelay fuel (u32 (s * 1000000)).

(** ** Dispatch *)

Context (other : Z → cpu_context → Z → Z → PS kern cpu_context).

(** A call through the pointer [h]. *)
Definition call_handler (now now' h : Z) (ctx : cpu_context) (irq d : Z) : PS kern cpu_context :=
  if h =? timer_handler then timer_irq_handler now now' ctx irq d else other h ctx irq d.

Definition irq_dispatch (now now' : Z) (ctx : cpu_context) (irq : Z) : PS kern cpu_context :=
  if (irq <? 0) || (MAX_IRQS <=? irq) then pret ctx
  else
    e ← table_get irq;
    if ctrue (handler e) then call_handler now now' (handler e) ctx irq (hdev e) else pret ctx.

(** The frame of the interrupted task is [ctx]; the result is what it holds on
    return. *)
Definition handle_irq (now now' : Z) (ctx : cpu_context) : PS kern cpu_context :=
  irq ← on_gic (gic_ack_irq dev);
  ctx ←! (if irq <? 1020 then irq_dispatch now now' ctx (s32 irq) else pret ctx);
  on_gic (gic_eoi_irq irq);;
  pret ctx.
End irq.

End Irq.
