(* ===== verification/IrqThm.v ===== *)
(** * Interrupts and the timer: proofs *)
From stdpp Require Import base gmap list option numbers strings sorting.
From S2P Require Import Prelude Panic RBHeap TaskDef Eevdf EevdfThm EevdfClaims Sched SchedThm SchedClaims CString Dtb Io Gic GicThm Irq.
Import Sched Gic Irq.
#[local] Open Scope Z_scope.

(** The machine after more device accesses. *)
Definition after (k : kern) (seg : trace) : kern := set_gic (accessed (kgic k) seg) k.

Lemma after_after k seg seg' : after (after k seg) seg' = after k (seg ++ seg').
Proof. unfold after, set_gic. simpl. by rewrite accessed_app. Qed.

Lemma after_table t k seg : after (set_table t k) seg = set_table t (after k seg).
Proof. done. Qed.
Lemma after_freq f k seg : after (set_freq f k) seg = set_freq f (after k seg).
Proof. done. Qed.
Lemma after_fold k seg : set_gic (accessed (kgic k) seg) k = after k seg.
Proof. done. Qed.

Section accesses.
Context (dev : device).

Lemma wp_trace_emit e k (Q : unit → kern → Prop) : Q tt (after k [e]) → wp (on_trace (emit e)) Q k.
Proof. intros HQ. apply wp_zoom, wp_emit_io, HQ. Qed.

(** What a register holds now. *)
Definition value_at (k : kern) (r : reg) : Z := reg_value r (dev (gio (kgic k)) r).

Lemma wp_trace_read r k (Q : Z → kern → Prop) :
  Q (value_at k r) (after k [Rd r (value_at k r)]) → wp (on_trace (reg_read dev r)) Q k.
Proof. intros HQ. apply wp_zoom, wp_zoom, wp_reg_read. intros v ->. exact HQ. Qed.

(** ** Acknowledging *)

Definition iar (g : gic) : reg := if gic_version g =? 3 then Sys ICC_IAR1 else cell (gicc_base g) GICC_IAR.
Definition eoir (g : gic) : reg := if gic_version g =? 3 then Sys ICC_EOIR1 else cell (gicc_base g) GICC_EOIR.
(** The base address of the interface is set where it is used. *)
Definition gic_ready (g : gic) : Prop := gic_version g = 3 ∨ gicc_base g ≠ 0.

(** The interrupt that the controller reports next. *)
Definition pending (k : kern) : Z := u32 (value_at k (iar (kgic k))).

Lemma wp_ack k (Q : Z → kern → Prop) :
  gic_ready (kgic k) →
  Q (pending k) (after k [Rd (iar (kgic k)) (value_at k (iar (kgic k)))]) →
  wp (on_gic (gic_ack_irq dev)) Q k.
Proof.
  intros Hr HQ. apply wp_zoom. unfold gic_ack_irq, pending, value_at, iar in *.
  apply wp_bind, wp_gets. destruct (Z.eqb_spec (gic_version (kgic k)) 3) as [E|E].
  - apply wp_bind, wp_zoom, wp_reg_read. intros v ->. apply wp_ret. exact HQ.
  - destruct Hr as [Hr|Hr]; [done|]. apply wp_bind, wp_gets. rewrite (proj2 (Z.eqb_neq _ 0)) by done.
    apply wp_zoom, wp_reg_read. intros v ->.
    unfold reg_value, cell, u32 in HQ |- *. by rewrite Z.mod_mod in HQ.
Qed.

Lemma wp_eoi irq k (Q : unit → kern → Prop) :
  gic_ready (kgic k) → Q tt (after k [Wr (eoir (kgic k)) irq]) → wp (on_gic (gic_eoi_irq irq)) Q k.
Proof.
  intros Hr HQ. apply wp_zoom. unfold gic_eoi_irq, eoir in *. apply wp_bind, wp_gets.
  destruct (Z.eqb_spec (gic_version (kgic k)) 3) as [E|E]; [by apply wp_emit_io|].
  destruct Hr as [Hr|Hr]; [done|]. by apply wp_gicc_write.
Qed.
End accesses.

(** ** The table *)

Definition table_ok (k : kern) : Prop := length (irq_table k) = 1024%nat.

Lemma wp_table_get irq e k (Q : irq_desc → kern → Prop) :
  irq_table k !! Z.to_nat irq = Some e → Q e k → wp (table_get irq) Q k.
Proof. intros He HQ. apply wp_bind, wp_gets. by apply (wp_deref _ e). Qed.

Lemma wp_table_set irq d k (Q : unit → kern → Prop) :
  table_ok k → 0 ≤ irq < 1024 →
  Q tt (set_table (<[Z.to_nat irq := d]> (irq_table k)) k) → wp (table_set irq d) Q k.
Proof.
  intros Hk Hi HQ. apply wp_bind, wp_gets. rewrite (proj2 (Z.ltb_lt _ _)) by (rewrite Hk; lia). by apply wp_modify.
Qed.

(** The number returned, and whether the entry is written. *)
Definition install_result (k : kern) (irq h : Z) : Z :=
  if (irq <? 0) || (1024 <=? irq) || (h =? 0) then -1
  else match irq_table k !! Z.to_nat irq with
       | Some e => if handler e =? 0 then 0 else -2
       | None => -1
       end.

Lemma wp_install irq h d k (Q : Z → kern → Prop) :
  table_ok k →
  Q (install_result k irq h)
    (if install_result k irq h =? 0
     then set_table (<[Z.to_nat irq := {| handler := h; hdev := d |}]> (irq_table k)) k else k) →
  wp (irq_install_handler irq h d) Q k.
Proof.
  intros Hk HQ. unfold irq_install_handler, install_result, MAX_IRQS in *.
  destruct ((irq <? 0) || _ || _) eqn:E; [by apply wp_ret|].
  apply orb_false_elim in E as [[E1 E2]%orb_false_elim E3].
  apply Z.ltb_ge in E1. apply Z.leb_gt in E2.
  destruct (lookup_lt_is_Some_2 (irq_table k) (Z.to_nat irq)) as [e He]; [rewrite Hk; lia|].
  rewrite He in HQ. apply wp_bind, (wp_table_get _ e); [done|].
  unfold ctrue. destruct (handler e =? 0); cbn [negb]; [|by apply wp_ret].
  apply wp_bind, wp_table_set; [done|lia|]. by apply wp_ret.
Qed.

(** ** The tick *)

(** The dot that every tenth tick prints. *)
Definition dot (j : Z) : trace := if j mod 10 =? 0 then [Say "." []] else [].
Definition tick_accesses (k : kern) : trace :=
  Wr (Sys CNTP_TVAL) (timer_freq k / 100) :: dot (u64 (jiffies k + 1)).
(** The machine after a tick that left the scheduler in state [s']. *)
Definition ticked (k : kern) (s' : sched) : kern :=
  after (set_sched s' (set_jiffies (u64 (jiffies k + 1)) k)) (tick_accesses k).

Lemma pwp_tick now now' ctx irq d k (P Q : cpu_context → _ → Prop) :
  pwp (schedule_preempt ctx now now') P (ksched k) →
  (∀ r s', P r s' → Q r (ticked k s')) → pwp (timer_irq_handler now now' ctx irq d) Q k.
Proof.
  intros HP HQ. apply pwp_lift, wp_modify, pwp_bind, pwp_zoom.
  eapply pwp_mono; [exact HP|]. intros r s' Hr. apply pwp_lift, wp_gets, pwp_lift.
  apply wp_trace_emit. apply pwp_lift, wp_gets, pwp_lift.
  specialize (HQ _ _ Hr). unfold ticked, tick_accesses, dot in HQ. cbn [jiffies after set_sched set_gic set_jiffies] in *.
  destruct (_ =? 0); cbn [when].
  - apply wp_trace_emit, pwp_ret. rewrite after_after. exact HQ.
  - apply wp_ret, pwp_ret. exact HQ.
Qed.

(** Nothing runs yet: the scheduler leaves everything as it is. *)
Lemma preempt_nothing regs now now' s : current_task s = None →
  schedule_preempt regs now now' s = Some (Some regs, s).
Proof. intros H. unfold schedule_preempt, mbind, st_bind, gets. by rewrite H. Qed.

Section dispatch.
Context (dev : device) (th : Z) (other : Z → cpu_context → Z → Z → PS kern cpu_context).

Lemma pwp_dispatch now now' ctx irq e k (Q : cpu_context → kern → Prop) :
  0 ≤ irq < 1024 → irq_table k !! Z.to_nat irq = Some e →
  (if ctrue (handler e) then pwp (call_handler th other now now' (handler e) ctx irq (hdev e)) Q k else Q ctx k) →
  pwp (irq_dispatch th other now now' ctx irq) Q k.
Proof.
  intros Hi He HQ. unfold irq_dispatch, MAX_IRQS.
  rewrite (proj2 (Z.ltb_ge irq 0)), (proj2 (Z.leb_gt 1024 irq)) by lia. cbn [orb].
  apply pwp_lift, (wp_table_get _ e); [done|].
  destruct (ctrue (handler e)); [done|by apply pwp_ret].
Qed.

(** The handler that the pending interrupt runs, if any. *)
Definition target (k : kern) (v : Z) : option irq_desc :=
  if v <? 1020 then
    match irq_table k !! Z.to_nat v with
    | Some e => if handler e =? 0 then None else Some e
    | None => None
    end
  else None.

Definition ack_event (k : kern) : event := Rd (iar (kgic k)) (value_at dev k (iar (kgic k))).
Definition eoi_event (k : kern) : event := Wr (eoir (kgic k)) (pending dev k).

Lemma pwp_handle_irq now now' ctx k (R Q : cpu_context → kern → Prop) :
  gic_ready (kgic k) → table_ok k →
  let k1 := after k [ack_event k] in
  match target k (pending dev k) with
  | Some e => pwp (call_handler th other now now' (handler e) ctx (pending dev k) (hdev e)) R k1
  | None => R ctx k1
  end →
  (∀ r k', R r k' → gic_version (kgic k') = gic_version (kgic k) ∧ gicc_base (kgic k') = gicc_base (kgic k) ∧
    Q r (after k' [eoi_event k])) →
  pwp (handle_irq dev th other now now' ctx) Q k.
Proof.
  intros Hr Ht k1 HR HQ. apply pwp_lift, wp_ack; [done|]. apply pwp_bind.
  apply (pwp_mono _ R).
  - unfold target in HR. fold k1. assert (Hp : 0 ≤ pending dev k < 2 ^ 32) by (apply Z.mod_pos_bound; done).
    destruct (Z.ltb_spec (pending dev k) 1020) as [Hlt|]; [|by apply pwp_ret].
    assert (E : s32 (pending dev k) = pending dev k).
    { unfold s32. rewrite Z.mod_small by lia. by rewrite (proj2 (Z.ltb_lt _ _)) by lia. }
    destruct (lookup_lt_is_Some_2 (irq_table k) (Z.to_nat (pending dev k))) as [e He];
      [unfold table_ok in Ht; lia|].
    rewrite He in HR. rewrite E. apply (pwp_dispatch _ _ _ _ e); [lia|done|].
    unfold ctrue. by destruct (handler e =? 0).
  - intros r k' HR'. destruct (HQ _ _ HR') as (Ev & Eb & HQ'). apply pwp_lift, wp_eoi.
    + unfold gic_ready in *. by rewrite Ev, Eb.
    + apply pwp_ret. unfold eoi_event, eoir in *. by rewrite Ev, Eb.
Qed.
End dispatch.
