(* ===== verification/IrqClaims.v ===== *)
(** * Interrupts and the timer: properties *)
From stdpp Require Import base gmap list option numbers strings sorting.
From S2P Require Import Prelude Panic RBHeap TaskDef Eevdf EevdfThm EevdfClaims Sched SchedThm SchedClaims CString Dtb Io Gic GicThm Irq IrqThm.
Import Sched Gic Irq.
#[local] Open Scope Z_scope.

(** ** The counter *)

Section clock.
Context (dev : device).

(** Nanoseconds from the counter and its frequency, as computed. *)
Definition ns_of (c f : Z) : Z := u64 (c * 1000000000) / f.

(** The value of the [n]th of successive reads of the counter, and the trace
    before it. *)
Fixpoint reads (tr : trace) (n : nat) : trace :=
  match n with
  | O => tr
  | S n => let tr' := reads tr n in
           tr' ++ [Rd (Sys CNTPCT) (reg_value (Sys CNTPCT) (dev tr' (Sys CNTPCT)))]
  end.
Definition counter (tr : trace) (n : nat) : Z := reg_value (Sys CNTPCT) (dev (reads tr n) (Sys CNTPCT)).

(** The machine after [n] reads. *)
Definition waited_for (k : kern) (n : nat) : kern :=
  set_gic {| gdt := gdt (kgic k); gicd_base := gicd_base (kgic k); gicc_base := gicc_base (kgic k);
             gic_version := gic_version (kgic k); gio := reads (gio (kgic k)) n |} k.

Lemma waited_for_0 k : waited_for k 0 = k.
Proof. by destruct k as [[]]. Qed.

Lemma wp_read_cntpct k n (Q : Z → kern → Prop) :
  Q (counter (gio (kgic k)) n) (waited_for k (S n)) → wp (read_cntpct dev) Q (waited_for k n).
Proof. intros HQ. by apply wp_trace_read. Qed.

(** The counter never goes back, and gains at least one in [K] reads, during the
    first [n] reads. *)
Record advances (tr : trace) (K n : nat) : Prop := {
  adv_mono : ∀ i, (i < n)%nat → counter tr i ≤ counter tr (S i);
  adv_gain : ∀ i, (i + K ≤ n)%nat → counter tr i + 1 ≤ counter tr (i + K);
}.

Lemma adv_le tr K n i j : advances tr K n → (i ≤ j ≤ n)%nat → counter tr i ≤ counter tr j.
Proof.
  intros Ha [Hi Hj]. induction Hi as [|j Hi IH]; [lia|]. specialize (IH ltac:(lia)).
  pose proof (adv_mono _ _ _ Ha j ltac:(lia)). lia.
Qed.

Lemma adv_ticks tr K n d : advances tr K n → (d * K ≤ n)%nat → counter tr 0 + Z.of_nat d ≤ counter tr (d * K).
Proof.
  intros Ha. induction d as [|d IH]; intros Hd; [simpl; lia|].
  assert (E : (S d * K = d * K + K)%nat) by lia. rewrite E in *.
  pose proof (adv_gain _ _ _ Ha (d * K) ltac:(lia)). specialize (IH ltac:(lia)). lia.
Qed.

Lemma counter_range tr i : 0 ≤ counter tr i < 2 ^ 64.
Proof. apply reg_value_range. Qed.

(** The loop stops at the first read that is far enough. *)
Lemma wp_udelay_loop fuel k K n i delta (Q : unit → kern → Prop) :
  let c := counter (gio (kgic k)) in
  advances (gio (kgic k)) K n → c 0%nat + delta ≤ c n → (1 ≤ i ≤ n)%nat → (n - i < fuel)%nat →
  (∀ j, (1 ≤ j < i)%nat → c j - c 0%nat < delta) →
  (∀ m, (1 ≤ m ≤ n)%nat → delta ≤ c m - c 0%nat → (∀ j, (1 ≤ j < m)%nat → c j - c 0%nat < delta) →
    Q tt (waited_for k (S m))) →
  wp (udelay_loop dev fuel (c 0%nat) delta) Q (waited_for k i).
Proof.
  intros c Ha Hn Hi Hf Hbef HQ. revert i Hi Hf Hbef.
  induction fuel as [|fuel IH]; intros i Hi Hf Hbef; [lia|]. cbn [udelay_loop].
  apply wp_bind, wp_read_cntpct. fold c.
  assert (Hc : 0 ≤ c i - c 0%nat < 2 ^ 64).
  { pose proof (adv_le _ _ _ 0 i Ha ltac:(lia)). pose proof (counter_range (gio (kgic k)) i).
    pose proof (counter_range (gio (kgic k)) 0). unfold c. lia. }
  unfold u64. rewrite Z.mod_small by done. destruct (Z.ltb_spec (c i - c 0%nat) delta) as [Hlt|Hge].
  - assert (i ≠ n) by (intros ->; lia). apply IH; [lia|lia|].
    intros j Hj. destruct (decide (j = i)) as [->|]; [done|apply Hbef; lia].
  - apply wp_ret, HQ; [lia|lia|done].
Qed.
End clock.

(** ** Claims *)

Section claims.
Context (dev : device) (th : Z) (other : Z → cpu_context → Z → Z → PS kern cpu_context).

(** C3: the timer interrupt.  When the scheduler's invariant holds, the run queue
    has a free node for the running task, the controller reports interrupt 30
    and the timer's handler is installed, an interrupt of a running task reaches
    no panic: the interrupt is acknowledged once and first, the tick is counted,
    the scheduler decides as [schedule_preempt] specifies (C2), the timer is armed
    for a hundredth of a second, every tenth tick prints a dot, and the end of
    interrupt is written last, with the number that was acknowledged. *)
Theorem timer_interrupt_correct k A c ctx now now' :
  gic_ready (kgic k) → table_ok k → pending dev k = TIMER_IRQ →
  irq_table k !! Z.to_nat TIMER_IRQ = Some {| handler := th; hdev := 0 |} → th ≠ 0 →
  sched_inv (ksched k) A → room (ksched k) A → current_task (ksched k) = Some c →
  pwp (handle_irq dev th other now now' ctx) (λ r k', ∃ A' n s',
    k' = after (ticked (after k [ack_event dev k]) s') [eoi_event dev k] ∧
    decided (ksched k) A s' A' n ∧ frame_of (current_task (ksched k)) n ctx A' r) k.
Proof.
  intros Hr Ht Hp He Hth HA Hroom Hc.
  eapply (pwp_handle_irq _ _ _ _ _ _ _ (λ r k', ∃ A' n s', k' = ticked (after k [ack_event dev k]) s' ∧
    decided (ksched k) A s' A' n ∧ frame_of (current_task (ksched k)) n ctx A' r)); [done|done| |].
  - unfold target. rewrite Hp, He. change (TIMER_IRQ <? 1020) with true. cbn [handler hdev].
    rewrite (proj2 (Z.eqb_neq th 0)) by done. unfold call_handler. rewrite Z.eqb_refl.
    eapply pwp_tick; [exact (wp_preempt (ksched k) A c ctx now now' HA Hroom Hc)|].
    intros r s' (A' & n & Hd & Hf). by exists A', n, s'.
  - intros r k' (A' & n & s' & -> & Hd & Hf). split; [done|]. split; [done|]. by exists A', n, s'.
Qed.

(** An interrupt that has no handler, or whose number is that of no
    interrupt, only is acknowledged and ended; a tick before the first task
    exists also counts and arms the timer, and the interrupted frame is
    returned unchanged in both cases. *)
Theorem irq_without_task k ctx now now' :
  gic_ready (kgic k) → table_ok k →
  (target k (pending dev k) = None →
   handle_irq dev th other now now' ctx k =
     Some (Some ctx, after k [ack_event dev k; eoi_event dev k])) ∧
  (target k (pending dev k) = Some {| handler := th; hdev := 0 |} → current_task (ksched k) = None →
   handle_irq dev th other now now' ctx k =
     Some (Some ctx, after (ticked (after k [ack_event dev k]) (ksched k)) [eoi_event dev k])).
Proof.
  intros Hr Ht. split.
  - intros Hn. destruct (pwp_handle_irq dev th other now now' ctx k (λ r k', r = ctx ∧ k' = after k [ack_event dev k])
      (λ r k', r = ctx ∧ k' = after k [ack_event dev k; eoi_event dev k]) Hr Ht) as ([r|] & k' & E & H); [by rewrite Hn| | |done].
    + intros r k' [-> ->]. split_and!; [done|done|done|by rewrite after_after].
    + destruct H as [-> ->]. exact E.
  - intros Hn Hc. destruct (pwp_handle_irq dev th other now now' ctx k
      (λ r k', r = ctx ∧ k' = ticked (after k [ack_event dev k]) (ksched k))
      (λ r k', r = ctx ∧ k' = after (ticked (after k [ack_event dev k]) (ksched k)) [eoi_event dev k]) Hr Ht)
      as ([r|] & k' & E & H); [| | |done].
    + rewrite Hn. cbn [handler hdev]. unfold call_handler. rewrite Z.eqb_refl.
      apply (pwp_tick _ _ _ _ _ _ (λ r s', r = ctx ∧ s' = ksched k)).
      * eexists _, _. split; [by apply preempt_nothing|done].
      * by intros r s' [-> ->].
    + intros r k' [-> ->]. done.
    + destruct H as [-> ->]. exact E.
Qed.

(** C39: the clock in nanoseconds is the count times a thousand million, divided
    by the frequency, only up to a count of 18446744073; there the product
    leaves 64 bits and time starts again from zero. *)
Theorem get_ns_wraps k :
  let c := value_at dev k (Sys CNTPCT) in
  let k1 := after k [Rd (Sys CNTPCT) c] in
  let f := value_at dev k1 (Sys CNTFRQ) in
  f ≠ 0 →
  get_ns dev k = Some (ns_of c f, after k1 [Rd (Sys CNTFRQ) f]) ∧
  (c ≤ 18446744073 → ns_of c f = c * 1000000000 / f) ∧
  (f ≤ 10 ^ 18 → ns_of 18446744074 f < ns_of 18446744073 f).
Proof.
  intros c k1 f Hf. assert (Hc : 0 ≤ c < 2 ^ 64) by apply reg_value_range.
  assert (Hf0 : 0 ≤ f) by (pose proof (reg_value_range (Sys CNTFRQ) (dev (gio (kgic k1)) (Sys CNTFRQ))); unfold f, value_at; lia).
  split; [|split].
  - destruct (wp_eq (get_ns dev) (λ r k', r = ns_of c f ∧ k' = after k1 [Rd (Sys CNTFRQ) f]) k
      (ns_of c f) (after k1 [Rd (Sys CNTFRQ) f])) as (r & k' & E & -> & ->); [|done|done].
    unfold get_ns, mbind, st_bind, read_cntpct, read_cntfrq, udiv.
    assert (E1 : on_trace (reg_read dev (Sys CNTPCT)) k = Some (c, k1)) by done. rewrite E1.
    assert (E2 : on_trace (reg_read dev (Sys CNTFRQ)) k1 = Some (f, after k1 [Rd (Sys CNTFRQ) f])) by done.
    rewrite E2. by rewrite (proj2 (Z.eqb_neq f 0)).
  - intros Hle. unfold ns_of, u64. rewrite Z.mod_small; [done|lia].
  - intros Hle. unfold ns_of. change (u64 (18446744074 * 1000000000)) with 290448384.
    change (u64 (18446744073 * 1000000000)) with 18446744073000000000.
    pose proof (Z.div_le_mono 290448384 (18446744073000000000 - f) f ltac:(lia)) as H.
    replace (18446744073000000000 - f) with (18446744073000000000 + (-1) * f) in H by lia.
    rewrite Z.div_add in H by lia. lia.
Qed.

(** C38: a delay returns, after the first read of the counter that is the
    requested number of ticks past the first one; it lasts at least the
    microseconds asked for, less one tick.  The counter is assumed to go
    forward, by one at least every [K] reads, and not to wrap. *)
Theorem timer_udelay_waits k K us fuel :
  let tr := gio (kgic k) in
  let d := Z.to_nat (udelay_ticks us (timer_freq k)) in
  is_u32 us → is_u32 (timer_freq k) → advances dev tr K (S (d * K)) → (S (d * K) ≤ fuel)%nat →
  ∃ m, timer_udelay dev fuel us k = Some (tt, waited_for dev k (S m)) ∧ (1 ≤ m ≤ S (d * K))%nat ∧
    us * timer_freq k < (counter dev tr m - counter dev tr 0 + 1) * 1000000 ∧
    (∀ j, (1 ≤ j < m)%nat → counter dev tr j - counter dev tr 0 < udelay_ticks us (timer_freq k)).
Proof.
  intros tr d Hus Hf Ha Hfuel. unfold is_u32 in *.
  assert (Ed : udelay_ticks us (timer_freq k) = us * timer_freq k / 1000000).
  { unfold udelay_ticks, u64. rewrite Z.mod_small; nia. }
  assert (Hd : Z.of_nat d = udelay_ticks us (timer_freq k)).
  { unfold d. rewrite Z2Nat.id; [done|]. rewrite Ed. apply Z.div_pos; nia. }
  destruct (wp_bind (read_cntpct dev) (λ start, f ← gets timer_freq; udelay_loop dev fuel start (udelay_ticks us f))
    (λ _ k', ∃ m, k' = waited_for dev k (S m) ∧ (1 ≤ m ≤ S (d * K))%nat ∧
      udelay_ticks us (timer_freq k) ≤ counter dev tr m - counter dev tr 0 ∧
      (∀ j, (1 ≤ j < m)%nat → counter dev tr j - counter dev tr 0 < udelay_ticks us (timer_freq k))) k)
    as ([] & k' & E & m & -> & Hm & Hge & Hbef).
  - apply (wp_trace_read dev), wp_bind, wp_gets.
    apply (wp_udelay_loop dev fuel k K (S (d * K)) 1); [done| |lia|lia|lia|].
    + pose proof (adv_ticks dev tr K _ d Ha ltac:(lia)).
      pose proof (adv_le dev tr K _ (d * K) (S (d * K)) Ha ltac:(lia)). fold tr. change (timer_freq (after k _)) with (timer_freq k). lia.
    + intros m Hm Hge Hbef. exists m. done.
  - exists m. split; [exact E|]. split; [done|]. split; [|done]. rewrite Ed in Hge.
    pose proof (Z.mod_pos_bound (us * timer_freq k) 1000000 eq_refl).
    pose proof (Z.div_mod (us * timer_freq k) 1000000 ltac:(lia)). lia.
Qed.

(** The machine after the timer was started. *)
Definition timer_started (k : kern) (hz : Z) : kern :=
  let f := value_at dev k (Sys CNTFRQ) in
  after (set_table (<[Z.to_nat TIMER_IRQ := {| handler := th; hdev := 0 |}]> (irq_table k)) (set_freq (u32 f) k))
    [Rd (Sys CNTFRQ) f; Say "Timer: frequency %u Hz, target %u Hz" [u32 f; hz]; Wr (Sys CNTP_CTL) 0;
     Wr (Sys CNTP_TVAL) (u32 f / hz); Wr (Sys CNTP_CTL) 1; bank_write GICD_ISENABLER TIMER_IRQ;
     Say "Timer: initialized" []].

Lemma wp_timer_init k hz (Q : unit → kern → Prop) :
  table_ok k → irq_table k !! Z.to_nat TIMER_IRQ = Some no_handler → th ≠ 0 → gicd_base (kgic k) = GICD → hz ≠ 0 →
  Q tt (timer_started k hz) → wp (timer_init dev th hz) Q k.
Proof.
  intros Ht He Hth Hb Hhz HQ. unfold timer_init.
  apply wp_bind, (wp_trace_read dev), wp_bind, wp_modify, wp_bind, wp_gets, wp_bind, wp_trace_emit.
  apply wp_bind, wp_install; [done|]. unfold install_result. cbn [irq_table after set_gic set_freq].
  rewrite He. simpl (_ || _). rewrite (proj2 (Z.eqb_neq th 0)) by done. cbn [orb handler no_handler]. cbv iota.
  simpl (0 =? 0). cbv iota.
  apply wp_bind, wp_trace_emit, wp_bind. unfold udiv. rewrite (proj2 (Z.eqb_neq hz 0)) by done. apply wp_ret.
  apply wp_bind, wp_trace_emit. apply wp_bind, wp_trace_emit.
  apply wp_bind. unfold irq_enable. apply wp_zoom, wp_gate; [exact Hb|].
  apply wp_trace_emit. change ((TIMER_IRQ <? 0) || (1020 <=? TIMER_IRQ)) with false. change (0 =? 0) with true.
  cbv iota. unfold timer_started in HQ. rewrite after_table, after_freq in HQ.
  rewrite after_fold.
  rewrite !after_freq, !after_after, !after_table, !after_freq, !after_after. exact HQ.
Qed.

(** Starting the timer at a rate records the frequency of the counter,
    installs the handler, arms the timer for one period with the interrupt
    off, then switches it on and enables interrupt 30 at the controller. *)
Theorem timer_init_correct k hz :
  table_ok k → irq_table k !! Z.to_nat TIMER_IRQ = Some no_handler → th ≠ 0 → gicd_base (kgic k) = GICD → hz ≠ 0 →
  timer_init dev th hz k = Some (tt, timer_started k hz).
Proof.
  intros Ht He Hth Hb Hhz. destruct (wp_timer_init k hz (λ _ k', k' = timer_started k hz) Ht He Hth Hb Hhz)
    as ([] & k' & E & ->); done.
Qed.
End claims.

(** ** A machine

    A version 2 controller that always reports interrupt 30, a counter of
    62.5 MHz that gains one tick per access, the timer's handler at 0x1000. *)
Definition demo_dev : device := λ tr r,
  match r with
  | Mem32 _ => 30
  | Sys CNTPCT => 1000 + Z.of_nat (length tr)
  | Sys CNTFRQ => 62500000
  | Sys _ => 0
  end.
Definition demo_handler : Z := 0x1000.
Definition no_other (h : Z) (ctx : cpu_context) (irq d : Z) : PS kern cpu_context := pret ctx.
Definition demo_gic : gic := gic_up 2 (off_gic (blob_evs [])).
Definition empty_table : list irq_desc := replicate (Z.to_nat MAX_IRQS) no_handler.
Definition demo_kern (t : list irq_desc) (s : sched) : kern := {|
  kgic := demo_gic; irq_table := t; jiffies := 9; timer_freq := 62500000; ksched := s |}.
Definition timer_table : list irq_desc := <[30%nat := {| handler := demo_handler; hdev := 0 |}]> empty_table.
Definition idle_sched : sched :=
  {| eev := demo_rq; current_task := None; task_list := None; pids := Pid.Pid.pid_static |}.

Lemma demo_ready t s : gic_ready (kgic (demo_kern t s)).
Proof. by right. Qed.

Lemma timer_interrupt_correct_witness :
  ∃ e, pwp (handle_irq demo_dev demo_handler no_other 1000 1001 ctx_zero) (λ r k', ∃ A' n s',
    k' = after (ticked (after (demo_kern timer_table (demo_sched e)) [ack_event demo_dev (demo_kern timer_table (demo_sched e))]) s')
      [eoi_event demo_dev (demo_kern timer_table (demo_sched e))] ∧
    decided (demo_sched e) demo_wait s' A' n ∧ frame_of (Some 60) n ctx_zero A' r)
    (demo_kern timer_table (demo_sched e)).
Proof.
  destruct demo_sched_inv as [e He]. exists e.
  apply (timer_interrupt_correct demo_dev demo_handler no_other (demo_kern timer_table (demo_sched e)) demo_wait 60
    ctx_zero 1000 1001).
  - apply demo_ready.
  - reflexivity.
  - reflexivity.
  - reflexivity.
  - discriminate.
  - exact He.
  - exact (demo_room e).
  - reflexivity.
Defined.

Lemma irq_without_task_witness :
  handle_irq (λ _ _, 1023) demo_handler no_other 1000 1001 ctx_zero (demo_kern timer_table idle_sched) =
    Some (Some ctx_zero, after (demo_kern timer_table idle_sched)
      [ack_event (λ _ _, 1023) (demo_kern timer_table idle_sched);
       eoi_event (λ _ _, 1023) (demo_kern timer_table idle_sched)]) ∧
  handle_irq demo_dev demo_handler no_other 1000 1001 ctx_zero (demo_kern timer_table idle_sched) =
    Some (Some ctx_zero, after (ticked (after (demo_kern timer_table idle_sched)
      [ack_event demo_dev (demo_kern timer_table idle_sched)]) idle_sched)
      [eoi_event demo_dev (demo_kern timer_table idle_sched)]).
Proof.
  split.
  - apply (irq_without_task (λ _ _, 1023) demo_handler no_other (demo_kern timer_table idle_sched) ctx_zero 1000 1001);
      [apply demo_ready|reflexivity|reflexivity].
  - apply (irq_without_task demo_dev demo_handler no_other (demo_kern timer_table idle_sched) ctx_zero 1000 1001);
      [apply demo_ready|reflexivity|reflexivity|reflexivity].
Defined.

Lemma get_ns_wraps_witness :
  let k := demo_kern timer_table idle_sched in
  get_ns demo_dev k = Some (ns_of 1039 62500000,
    after (after k [Rd (Sys CNTPCT) 1039]) [Rd (Sys CNTFRQ) 62500000]) ∧
  ns_of 1039 62500000 = 16624 ∧ ns_of 18446744074 62500000 < ns_of 18446744073 62500000.
Proof.
  intros k. destruct (get_ns_wraps demo_dev k) as (H1 & H2 & H3); [vm_compute; discriminate|].
  split; [exact H1|]. split; [apply H2|apply H3]; vm_compute; discriminate.
Defined.

Lemma timer_init_correct_witness :
  timer_init demo_dev demo_handler 100 (demo_kern empty_table idle_sched) =
    Some (tt, timer_started demo_dev demo_handler (demo_kern empty_table idle_sched) 100).
Proof. apply (timer_init_correct demo_dev demo_handler); first [reflexivity|discriminate]. Defined.

(** The counter of the demonstration machine goes forward with every read. *)
Lemma demo_counter tr i : Z.of_nat (length tr) + Z.of_nat i < 1000000 →
  counter demo_dev tr i = 1000 + Z.of_nat (length tr) + Z.of_nat i.
Proof.
  intros Hi. unfold counter. assert (E : ∀ n, length (reads demo_dev tr n) = (length tr + n)%nat).
  { induction n as [|n IH]; cbn [reads]; [lia|]. rewrite length_app, IH. simpl. lia. }
  unfold demo_dev at 1, reg_value, u64. rewrite E, Z.mod_small; lia.
Qed.

Lemma timer_udelay_waits_witness :
  let k := demo_kern timer_table idle_sched in
  ∃ m, timer_udelay demo_dev 1000 2 k = Some (tt, waited_for demo_dev k (S m)) ∧ (1 ≤ m ≤ 126)%nat ∧
    2 * 62500000 < (counter demo_dev (gio demo_gic) m - counter demo_dev (gio demo_gic) 0 + 1) * 1000000 ∧
    (∀ j, (1 ≤ j < m)%nat → counter demo_dev (gio demo_gic) j - counter demo_dev (gio demo_gic) 0 < udelay_ticks 2 62500000).
Proof.
  intros k. apply (timer_udelay_waits demo_dev k 1 2 1000).
  - split; [discriminate|reflexivity].
  - split; [discriminate|reflexivity].
  - change (S (Z.to_nat (udelay_ticks 2 (timer_freq k)) * 1)) with 126%nat.
    assert (Hl : length (gio (kgic k)) = 39%nat) by reflexivity.
    split; intros i Hi; rewrite !demo_counter by lia; lia.
  - change (S (Z.to_nat (udelay_ticks 2 (timer_freq k)) * 1)) with 126%nat. lia.
Defined.

(** The rate given to [timer_init] sets the first period only: later ticks are
    a hundredth of a second apart. *)
Lemma timer_rate_fixed :
  let k := demo_kern empty_table idle_sched in
  Wr (Sys CNTP_TVAL) (62500000 / 1000) ∈ gio (kgic (timer_started demo_dev demo_handler k 1000)) ∧
  ∀ s', head (tick_accesses (timer_started demo_dev demo_handler k 1000)) = Some (Wr (Sys CNTP_TVAL) (62500000 / 100)) ∧
    kgic (ticked k s') = kgic (after k (tick_accesses k)).
Proof.
  intros k. split; [|done]. unfold timer_started, after, accessed. cbn [kgic gio set_gic]. apply elem_of_app. right.
  do 3 (apply elem_of_cons; right). left.
Qed.

(** Delays of 4294968 milliseconds, or of 4295 seconds, wrap at 32 bits: this one
    lasts 32.7 milliseconds. *)
Lemma delay_sec_wraps fuel k : delay_sec demo_dev fuel 4295 k = timer_udelay demo_dev fuel 32704 k.
Proof. done. Qed.
