(* ===== verification/TaskList.v ===== *)
(** * The task list and task_kill

    The list of task structures is doubly linked through the structures; taking
    a task out of it, and what [task_kill] does on every path. *)
From stdpp Require Import base gmap list option numbers sorting.
From S2P Require Import Prelude Panic Bitmap RBHeap RBTree Pid TaskDef Eevdf EevdfTree EevdfThm EevdfClaims Sched SchedThm SchedClaims.
#[local] Open Scope Z_scope.
Import Pid Eevdf Sched.

(** ** Segments *)

(** From [p], preceded by [pp], along the members [l] to the link [q]. *)
Fixpoint lseg (ts : gmap Z task) (pp p : ptr) (l : list Z) (q : ptr) : Prop :=
  match l with
  | [] => p = q
  | a :: l => p = Some a ∧ ∃ tk, ts !! a = Some tk ∧ prev tk = pp ∧ lseg ts (Some a) (next tk) l q
  end.
Definition lend (pp : ptr) (l : list Z) : ptr := match last l with Some a => Some a | None => pp end.

Lemma linked_lseg ts pp p l : linked ts pp p l ↔ lseg ts pp p l None.
Proof.
  revert pp p. induction l as [|a l IH]; intros pp p; simpl; [done|]. by setoid_rewrite IH.
Qed.

Lemma lend_cons pp a l : lend pp (a :: l) = lend (Some a) l.
Proof. unfold lend. rewrite last_cons. by destruct (last l). Qed.
Lemma lend_snoc pp l a : lend pp (l ++ [a]) = Some a.
Proof. unfold lend. by rewrite last_snoc. Qed.

Lemma lseg_app ts pp p l1 l2 q :
  lseg ts pp p (l1 ++ l2) q ↔ ∃ j, lseg ts pp p l1 j ∧ lseg ts (lend pp l1) j l2 q.
Proof.
  revert pp p. induction l1 as [|a l1 IH]; intros pp p; simpl.
  - split; [intros H; by exists p|by intros (j & -> & H)].
  - setoid_rewrite IH. setoid_rewrite lend_cons. naive_solver.
Qed.

Lemma lseg_frame ts ts' pp p l q :
  (∀ b, b ∈ l → ts' !! b = ts !! b) → lseg ts pp p l q → lseg ts' pp p l q.
Proof.
  revert pp p. induction l as [|a l IH]; intros pp p Heq; simpl; [done|].
  intros (-> & tk & Ha & Hp & Hl). split; [done|]. exists tk. split; [by rewrite Heq by left|].
  split; [done|]. apply IH; [|done]. intros b Hb. apply Heq. by right.
Qed.

Lemma lseg_retarget ts pp p l a j j' :
  lseg ts pp p (l ++ [a]) j → a ∉ l →
  ∃ tk, ts !! a = Some tk ∧ lseg (<[a := set_next j' tk]> ts) pp p (l ++ [a]) j'.
Proof.
  intros Hl Ha. apply lseg_app in Hl as (k & Hl & -> & tk & Hb & Hp & _).
  exists tk. split; [done|]. apply lseg_app. exists (Some a). split.
  - eapply lseg_frame; [|exact Hl]. intros c Hc. apply lookup_insert_ne. by intros ->.
  - split; [done|]. exists (set_next j' tk). by rewrite lookup_insert_eq.
Qed.

Lemma lseg_rehead ts pp pp' p a l q :
  lseg ts pp p (a :: l) q → a ∉ l →
  p = Some a ∧ ∃ tk, ts !! a = Some tk ∧ lseg (<[a := set_prev pp' tk]> ts) pp' p (a :: l) q.
Proof.
  intros (-> & tk & Hb & Hp & Hl) Ha. split; [done|]. exists tk. split; [done|]. split; [done|].
  exists (set_prev pp' tk). rewrite lookup_insert_eq. split; [done|]. split; [done|].
  eapply lseg_frame; [|exact Hl]. intros c Hc. apply lookup_insert_ne. by intros ->.
Qed.

(** ** Unlinking *)

(** A task without its links. *)
Definition core (t : task) : task := set_next None (set_prev None t).
Definition same_core (ts ts' : gmap Z task) : Prop := ∀ b, core <$> ts !! b = core <$> ts' !! b.

Lemma core_fields t t' : core t = core t' → pid t = pid t' ∧ state t = state t' ∧ priority t = priority t'.
Proof. destruct t, t'. by intros [=]. Qed.

#[export] Instance same_core_equiv : Equivalence same_core.
Proof.
  split; [by intros ts b|by intros ts ts' H b|]. intros ts1 ts2 ts3 H1 H2 b. by rewrite H1, H2.
Qed.
Lemma same_core_insert ts a tk tk' : ts !! a = Some tk → core tk' = core tk → same_core ts (<[a := tk']> ts).
Proof.
  intros Ha Hm b. destruct (decide (b = a)) as [->|]; [|by rewrite lookup_insert_ne].
  rewrite lookup_insert_eq, Ha. simpl. by rewrite Hm.
Qed.
Lemma same_core_lookup ts ts' a tk' :
  same_core ts ts' → ts' !! a = Some tk' → ∃ tk, ts !! a = Some tk ∧ core tk = core tk'.
Proof.
  intros H Ha. specialize (H a). rewrite Ha in H. destruct (ts !! a) as [tk|]; [|done].
  exists tk. split; [done|]. simpl in H. congruence.
Qed.

(** The head of the list without the member [a]. *)
Definition new_head (l1 : list Z) (tl nx : ptr) : ptr := match l1 with [] => nx | _ => tl end.

(** What is left of the list while its member [a] is taken out. *)
Record cut_at (A : queue) (a : Z) (tk : task) (l1 l2 : list Z) (tl pl : ptr) (A' : queue) : Prop := {
  cut_front : lseg (q_tasks A') None (new_head l1 tl (next tk)) l1 (next tk);
  cut_back : lseg (q_tasks A') pl (next tk) l2 None;
  cut_self : q_tasks A' !! a = Some tk;
  cut_core : same_core (q_tasks A) (q_tasks A');
  cut_list : q_list A' = q_list A;
}.

Lemma wp_cut_prev s0 s A a tk l1 l2 (Q : unit → sched → Prop) :
  holds s0 s A → lseg (q_tasks A) None (task_list s0) (l1 ++ a :: l2) None → NoDup (l1 ++ a :: l2) →
  q_tasks A !! a = Some tk → prev tk = lend None l1 →
  (∀ A' s', holds s0 s' A' → cut_at A a tk l1 l2 (task_list s0) (Some a) A' → Q tt s') →
  wp (when (negb (is_null (prev tk))) (twr (set_next (next tk)) (prev tk))) Q s.
Proof.
  intros Hh Hl Hnd Ha Hp HQ. apply lseg_app in Hl as (j & Hl1 & -> & tk' & Ha' & _ & Hl2).
  rewrite Ha in Ha'. injection Ha' as <-. apply list.NoDup_app in Hnd as (Hnd1 & Hout & Hnd2).
  destruct l1 as [|b l1 _] using rev_ind.
  - rewrite Hp. apply wp_ret. apply (HQ A); [done|]. split; [done|done|done|reflexivity|done].
  - rewrite Hp, lend_snoc. cbn [is_null negb when].
    apply list.NoDup_app in Hnd1 as (_ & Hb & _).
    assert (Hbl : b ∉ l1) by (intros H; apply (Hb b H); by left).
    assert (Hba : b ∉ a :: l2) by (intros H; apply (Hout b); [apply elem_of_app; right; by left|done]).
    destruct (lseg_retarget _ _ _ _ _ _ (next tk) Hl1 Hbl) as (tb & Htb & Hl1').
    apply (wp_task_write _ s0 s A b tb); [done|done|done|done|]. intros s' Hs'.
    apply (HQ _ s' Hs'). split; cbn [q_tasks q_list with_task].
    + unfold new_head. by destruct l1.
    + eapply lseg_frame; [|exact Hl2]. intros c Hc. apply lookup_insert_ne. intros ->. apply Hba. by right.
    + rewrite lookup_insert_ne; [done|]. intros ->. apply Hba. by left.
    + by eapply same_core_insert.
    + done.
Qed.

Lemma wp_cut_next s0 s A0 A a tk l1 l2 (Q : unit → sched → Prop) :
  holds s0 s A → NoDup (l1 ++ a :: l2) → prev tk = lend None l1 →
  cut_at A0 a tk l1 l2 (task_list s0) (Some a) A →
  (∀ A' s', holds s0 s' A' → cut_at A0 a tk l1 l2 (task_list s0) (prev tk) A' → Q tt s') →
  wp (when (negb (is_null (next tk))) (tp ← trd prev (Some a); twr (set_prev tp) (next tk))) Q s.
Proof.
  intros Hh Hnd Hp [Hf Hb Ha Hc Hq] HQ. apply list.NoDup_app in Hnd as (_ & Hout & Hnd2).
  apply list.NoDup_cons in Hnd2 as [Hal2 Hnd2]. destruct l2 as [|b l2].
  - simpl in Hb. rewrite Hb. apply wp_ret. apply (HQ A); [done|]. by split.
  - apply list.NoDup_cons in Hnd2 as [Hbl Hnd2].
    destruct (lseg_rehead _ _ (prev tk) _ _ _ _ Hb Hbl) as (En & tb & Htb & Hb').
    rewrite En. cbn [is_null negb when].
    apply wp_bind, (wp_task_read _ s0 s A a tk); [done|done|].
    apply (wp_task_write _ s0 s A b tb); [done|done|done|done|]. intros s' Hs'.
    apply (HQ _ s' Hs'). split; cbn [q_tasks q_list with_task].
    + eapply lseg_frame; [|exact Hf]. intros c Hcl. apply lookup_insert_ne.
      intros ->. apply (Hout c Hcl). right. by left.
    + exact Hb'.
    + rewrite lookup_insert_ne; [done|]. intros ->. apply Hal2. by left.
    + etrans; [exact Hc|]. by eapply same_core_insert.
    + done.
Qed.

Lemma wp_unlink_task s0 s A a l1 l2 (Q : unit → sched → Prop) :
  holds s0 s A → linked (q_tasks A) None (task_list s0) (l1 ++ a :: l2) → NoDup (l1 ++ a :: l2) →
  (∀ A' s' tl, holds (set_task_list tl s0) s' A' → q_list A' = q_list A →
     same_core (q_tasks A) (q_tasks A') → linked (q_tasks A') None tl (l1 ++ l2) → Q tt s') →
  wp (unlink_task (Some a)) Q s.
Proof.
  rewrite linked_lseg. intros Hh Hl Hnd HQ. pose proof Hl as Hl0.
  apply lseg_app in Hl0 as (j & Hl1 & -> & tk & Ha & Hp & Hl2). unfold unlink_task.
  apply wp_bind, (wp_task_read _ s0 s A a tk); [done|done|].
  apply wp_bind, (wp_task_read _ s0 s A a tk); [done|done|].
  apply wp_bind, (wp_cut_prev s0 s A a tk l1 l2); [done..|]. intros A1 s1 Hh1 Hc1.
  apply wp_bind, (wp_task_read _ s0 s1 A1 a tk); [done|apply Hc1|].
  apply wp_bind, (wp_cut_next s0 s1 A A1 a tk l1 l2); [done..|]. intros A2 s2 Hh2 [Hf Hb Hself Hcore Hq].
  apply wp_bind, wp_gets. pose proof Hh2 as (Hr2 & Etl & Ecur & Epid). rewrite Etl.
  assert (Hfin : linked (q_tasks A2) None (new_head l1 (task_list s0) (next tk)) (l1 ++ l2)).
  { apply linked_lseg, lseg_app. exists (next tk). split; [done|]. by rewrite <-Hp. }
  destruct l1 as [|b l1].
  - simpl in Hl1. rewrite Hl1. unfold ptr_eqb. rewrite bool_decide_true by done. cbn [when].
    apply wp_bind, (wp_task_read _ s0 s2 A2 a tk); [done|done|]. apply wp_modify.
    apply (HQ A2 _ (next tk)); [|done|done|done]. by split_and!.
  - destruct Hl1 as [E _]. rewrite E. simpl.
    unfold ptr_eqb. rewrite bool_decide_false by (intros [= ->]; apply list.NoDup_cons in Hnd as [Hnd _]; apply Hnd, elem_of_app; right; by left).
    cbn [when]. apply wp_ret. apply (HQ A2 _ (task_list s0)); [|done|done|done].
    split_and!; try done.
Qed.

(** ** task_kill *)

Lemma linked_det ts pp p l l' : linked ts pp p l → linked ts pp p l' → l = l'.
Proof.
  revert pp p l'. induction l as [|a l IH]; intros pp p [|b l']; simpl; try done.
  - by intros -> [? _].
  - by intros [-> _] ?.
  - intros (-> & tk & Ha & _ & Hl) ([= <-] & tk' & Ha' & _ & Hl'). rewrite Ha in Ha'. injection Ha' as <-.
    f_equal. by eapply IH.
Qed.

Lemma first_pid_skip ts n l1 a l2 tk :
  ts !! a = Some tk → pid tk ≠ n → first_pid ts n (l1 ++ a :: l2) = first_pid ts n (l1 ++ l2).
Proof.
  intros Ha Hn. induction l1 as [|b l1 IH]; simpl.
  - rewrite Ha. simpl. by rewrite (proj2 (Z.eqb_neq _ _)).
  - by rewrite IH.
Qed.

Lemma first_pid_core ts ts' n l : same_core ts ts' → first_pid ts n l = first_pid ts' n l.
Proof.
  intros H. induction l as [|a l IH]; simpl; [done|]. rewrite IH.
  assert (E : pid <$> ts !! a = pid <$> ts' !! a).
  { specialize (H a). destruct (ts !! a), (ts' !! a); simpl in *; try done.
    apply (inj Some), core_fields in H. by destruct H as [-> _]. }
  by rewrite E.
Qed.

(** The invariant of the structures, less the idle task. *)
Record settled (ts : gmap Z task) (q : list Z) (running : option Z) : Prop := {
  se_nice : ∀ a tk, ts !! a = Some tk → nice_ok tk;
  se_ready : ∀ a tk, ts !! a = Some tk → (a ∈ q ↔ state tk = TASK_READY ∧ pid tk ≠ 0);
  se_running : ∀ a tk, ts !! a = Some tk → state tk = TASK_RUNNING → running = Some a;
}.
Lemma tasks_ok_settled ts q tl r : tasks_ok ts q tl r ↔ settled ts q r ∧ has_idle ts tl.
Proof. split; [intros []; by split|intros [[] ?]; by split]. Qed.

(** Relinking keeps it. *)
Lemma settled_core ts ts' q r : same_core ts ts' → settled ts q r → settled ts' q r.
Proof.
  intros Hm [Hn Hr Hu].
  assert (Hget : ∀ a tk', ts' !! a = Some tk' → ∃ tk, ts !! a = Some tk ∧
    pid tk = pid tk' ∧ state tk = state tk' ∧ priority tk = priority tk').
  { intros a tk' Ha. destruct (same_core_lookup _ _ _ _ Hm Ha) as (tk & Htk & Hc).
    apply core_fields in Hc. by exists tk. }
  split.
  - intros a tk' Ha. destruct (Hget _ _ Ha) as (tk & Htk & _ & _ & Hp). specialize (Hn a tk Htk).
    unfold nice_ok in *. by rewrite <-Hp.
  - intros a tk' Ha. destruct (Hget _ _ Ha) as (tk & Htk & <- & <- & _). by apply Hr.
  - intros a tk' Ha Hst. destruct (Hget _ _ Ha) as (tk & Htk & _ & Es & _). apply (Hu a tk Htk). congruence.
Qed.
Lemma tasks_ok_core ts ts' q tl tl' r :
  same_core ts ts' → tasks_ok ts q tl r → has_idle ts' tl' → tasks_ok ts' q tl' r.
Proof. rewrite !tasks_ok_settled. intros Hm [Hs _] Hi. split; [by eapply settled_core|done]. Qed.

(** The task is off the queue, a zombie, its pid is free, and it is off the list:
    everything up to the last test of [task_kill]. *)
Record buried (s : sched) (A : queue) (a : Z) (tk : task) (l1 l2 : list Z) (s' : sched) (A' : queue) : Prop := {
  bu_inv : sched_inv (if ptr_eqb (Some a) (current_task s) then set_current_task None s' else s') A';
  bu_current : current_task s' = current_task s;
  bu_queue : q_list A' = filter (λ b, b ≠ a) (q_list A);
  bu_self : ∃ tk', q_tasks A' !! a = Some tk' ∧ core tk' = core (set_state TASK_ZOMBIE tk);
  bu_others : ∀ b, b ≠ a → core <$> q_tasks A' !! b = core <$> q_tasks A !! b;
  bu_list : linked (q_tasks A') None (task_list s') (l1 ++ l2);
  bu_pids : pid_ok (pids s');
  bu_free : 0 < pid tk < MAX_PID → pid_used (pids s') (pid tk) = false;
}.

Lemma wp_maybe_dequeue s A a tk (Q : unit → sched → Prop) :
  sched_inv s A → q_tasks A !! a = Some tk → pid tk ≠ 0 →
  (∀ s', holds s s' (dequeue_spec a A) → Q tt s') →
  wp (when (state tk =? TASK_READY) (on_eev (eevdf_dequeue (Some a)))) Q s.
Proof.
  intros Hinv Ha Hp HQ. pose proof Hinv as (_ & Hok & _).
  destruct (Z.eqb_spec (state tk) TASK_READY) as [E|E]; cbn [when].
  - by apply (wp_dequeue_eev s s A); [apply holds_refl|].
  - apply wp_ret, HQ. replace (dequeue_spec a A) with A; [by apply holds_refl|].
    destruct A as [q ts mv]. unfold dequeue_spec. simpl in *. f_equal. symmetry. apply filter_absent.
    rewrite (to_ready _ _ _ _ Hok a tk Ha). by intros [? _].
Qed.

Lemma wp_bury s A a tk l1 l2 (k : ST sched (option kill_result)) (Q : kill_result → sched → Prop) :
  sched_inv s A → pid_ok (pids s) → q_tasks A !! a = Some tk → pid tk ≠ 0 →
  linked (q_tasks A) None (task_list s) (l1 ++ a :: l2) → NoDup (l1 ++ a :: l2) →
  (∀ s' A', buried s A a tk l1 l2 s' A' → pwp k Q s') →
  pwp (when (state tk =? TASK_READY) (on_eev (eevdf_dequeue (Some a)));;
       twr (set_state TASK_ZOMBIE) (Some a);;
       p ← trd pid (Some a); on_pids (pid_free p);; unlink_task (Some a);; k) Q s.
Proof.
  intros Hinv Hpid Ha Hp0 Hlk Hnd HQ. pose proof Hinv as (_ & Hok & Hcur).
  apply pwp_lift, (wp_maybe_dequeue s A a tk); [done..|]. intros s1 Hh1. set (A1 := dequeue_spec a A) in *.
  apply pwp_lift, (wp_task_write _ s s1 A1 a tk); [done..|]. intros s2 Hh2. set (tk2 := set_state TASK_ZOMBIE tk) in *.
  set (A2 := with_task a tk2 A1) in *.
  assert (Ha2 : q_tasks A2 !! a = Some tk2) by apply lookup_insert_eq.
  apply pwp_lift, (wp_task_read _ s s2 A2 a tk2); [done|done|]. change (pid tk2) with (pid tk).
  apply pwp_lift, wp_zoom. pose proof Hh2 as (Hr2 & Etl2 & Ecur2 & Epid2). rewrite Epid2.
  eapply wp_mono; [by apply wp_pid_free|]. intros [] p1 (Hpok & _ & Hfree).
  set (s3 := set_pids p1 s2). assert (Hh3 : holds s3 s3 A2) by (by split_and!).
  assert (Hlk2 : linked (q_tasks A2) None (task_list s3) (l1 ++ a :: l2)).
  { change (task_list s3) with (task_list s2). rewrite Etl2. eapply linked_frame; [|exact Hlk]. intros b _.
    cbn [q_tasks A2 A1 with_task dequeue_spec]. destruct (decide (b = a)) as [->|].
    - by rewrite lookup_insert_eq, Ha.
    - by rewrite lookup_insert_ne. }
  apply pwp_lift, (wp_unlink_task s3 s3 A2 a l1 l2); [done..|]. intros A4 s4 tl Hh4 Hq4 Hcore Hl4.
  pose proof Hh4 as (Hr4 & Etl4 & Ecur4 & Epid4). simpl in Etl4, Ecur4, Epid4.
  assert (Hok2 : tasks_ok (q_tasks A2) (q_list A2) (task_list s)
    (if ptr_eqb (Some a) (current_task s) then None else current_task s)).
  { eapply (tasks_ok_state (q_tasks A) (q_list A)); [exact Hok|done| | | |done].
    - intros b Hb. cbn [q_list A2 A1 with_task dequeue_spec]. rewrite list_elem_of_filter. tauto.
    - cbn [q_list A2 A1 with_task dequeue_spec]. rewrite list_elem_of_filter. split; [tauto|by intros [? _]].
    - intros b Hb Hne. unfold ptr_eqb. rewrite bool_decide_false by congruence. done. }
  assert (Hok4 : tasks_ok (q_tasks A4) (q_list A4) (task_list s4)
    (if ptr_eqb (Some a) (current_task s) then None else current_task s)).
  { rewrite Hq4. eapply tasks_ok_core; [exact Hcore|exact Hok2|]. exists (l1 ++ l2).
    rewrite Etl4. split; [done|]. split.
    - apply list.NoDup_app in Hnd as (H1 & H2 & H3). apply list.NoDup_cons in H3 as [_ H3].
      apply list.NoDup_app. split; [done|]. split; [|done]. intros b Hb Hb2. apply (H2 b Hb). by right.
    - rewrite <-(first_pid_core (q_tasks A2)) by done.
      rewrite <-(first_pid_skip _ 0 l1 a l2 tk2) by done.
      destruct (to_idle _ _ _ _ Hok2) as (l & Hl & _ & Hi). rewrite <-Etl2 in Hl.
      by rewrite (linked_det _ _ _ _ _ Hlk2 Hl). }
  apply (HQ s4 A4). split.
  - unfold ptr_eqb in *. destruct (bool_decide_reflect (Some a = current_task s)) as [E|E].
    + split_and!; done.
    + split_and!; [done|by rewrite Ecur4, Ecur2|]. rewrite Ecur4, Ecur2.
      destruct (current_task s) as [c|] eqn:Ec; [|done]. destruct Hcur as (tc & Hc & Hst).
      assert (Hne : c ≠ a) by congruence. specialize (Hcore c). cbn [q_tasks A2 A1 with_task dequeue_spec] in Hcore.
      rewrite lookup_insert_ne, Hc in Hcore by done. destruct (q_tasks A4 !! c) as [tc'|]; [|done].
      exists tc'. split; [done|]. apply (inj Some), core_fields in Hcore as (_ & Hs & _). change (state tc = state tc') in Hs. congruence.
  - by rewrite Ecur4, Ecur2.
  - by rewrite Hq4.
  - specialize (Hcore a). rewrite Ha2 in Hcore. destruct (q_tasks A4 !! a) as [tk4|]; [|done].
    exists tk4. split; [done|]. by apply (inj Some) in Hcore.
  - intros b Hb. rewrite <-Hcore. cbn [q_tasks A2 A1 with_task dequeue_spec]. by rewrite lookup_insert_ne.
  - by rewrite Etl4.
  - by rewrite Epid4.
  - intros Hp. rewrite Epid4. change (pids s3) with p1. rewrite Hfree by lia. by rewrite Z.eqb_refl.
Qed.

(** What [task_kill] does to a task that is in the list. *)
Definition kill_post (s : sched) (A : queue) (a : Z) (tk : task) (l1 l2 : list Z) (r : kill_result) (s' : sched) : Prop :=
  if (pid tk =? 0) || (state tk =? TASK_ZOMBIE) then s' = s ∧ r = KRet (if pid tk =? 0 then -1 else 0)
  else ∃ s1 A1, buried s A a tk l1 l2 s1 A1 ∧
    if ptr_eqb (Some a) (current_task s)
    then ∃ A' n, decided (set_current_task None s1) A1 s' A' n ∧ r = KGone (JumpTo (Some n)) ∧ n ≠ a
    else r = KRet 0 ∧ s' = s1.

Lemma wp_task_kill s A a tk l1 l2 now :
  sched_inv s A → pid_ok (pids s) → q_tasks A !! a = Some tk →
  linked (q_tasks A) None (task_list s) (l1 ++ a :: l2) → NoDup (l1 ++ a :: l2) →
  pwp (task_kill (Some a) now) (kill_post s A a tk l1 l2) s.
Proof.
  intros Hinv Hpid Ha Hlk Hnd. pose proof (holds_refl _ _ Hinv) as Hh. unfold task_kill, kill_post. cbn [is_null].
  apply pwp_lift, (wp_task_read _ s s A a tk); [done|done|].
  destruct (Z.eqb_spec (pid tk) 0) as [Hp|Hp]; [by apply pwp_ret|].
  apply pwp_lift, (wp_task_read _ s s A a tk); [done|done|]. cbn [orb].
  destruct (Z.eqb_spec (state tk) TASK_ZOMBIE) as [Hz|Hz]; [by apply pwp_ret|].
  apply (wp_bury s A a tk l1 l2); [done..|]. intros s1 A1 Hb.
  apply pwp_lift, wp_gets. rewrite (bu_current _ _ _ _ _ _ _ _ Hb).
  destruct (ptr_eqb (Some a) (current_task s)) eqn:E; [|by apply pwp_ret; exists s1, A1].
  apply pwp_lift, wp_modify. pose proof (bu_inv _ _ _ _ _ _ _ _ Hb) as Hinv1. rewrite E in Hinv1.
  apply pwp_bind. eapply pwp_mono; [apply (wp_schedule _ A1 now Hinv1); by intros []|].
  intros act s' (A' & n & Hd & ->). apply pwp_ret. exists s1, A1. split; [done|]. exists A', n.
  split; [done|]. split; [done|]. intros ->.
  pose proof (dc_chosen _ _ _ _ _ Hd) as Hch. change (runnable _ A1) with (q_list A1) in Hch.
  rewrite (bu_queue _ _ _ _ _ _ _ _ Hb) in Hch. destruct (bu_self _ _ _ _ _ _ _ _ Hb) as (tk' & Htk' & Hco).
  apply core_fields in Hco as (Hpk & _). change (pid (set_state _ tk)) with (pid tk) in Hpk.
  destruct (filter (λ b, b ≠ a) (q_list A)) as [|x q] eqn:Ef.
  - destruct Hch as (tn & Htn & Hpn). pose proof (dc_links _ _ _ _ _ Hd a) as Hl.
    rewrite Htn, Htk' in Hl. simpl in Hl. unfold links in Hl. congruence.
  - destruct Hch as [Hin _]. rewrite <-Ef in Hin. by apply not_in_filter in Hin.
Qed.

(** C4: [task_kill] reaches no panic on a task of the list.  The idle task and
    zombies are left alone, with -1 and 0.  Any other task ends as a zombie, off
    the run queue and unlinked from the list, whose other members and whose
    order stay; its pid is free and the invariants of scheduler and pid
    allocator hold.  If it was the running task, the CPU goes to another one as
    [schedule] decides and the call does not come back. *)
Theorem task_kill_correct s A a tk l1 l2 now :
  sched_inv s A → pid_ok (pids s) → q_tasks A !! a = Some tk →
  linked (q_tasks A) None (task_list s) (l1 ++ a :: l2) → NoDup (l1 ++ a :: l2) →
  pwp (task_kill (Some a) now) (kill_post s A a tk l1 l2) s.
Proof. apply wp_task_kill. Qed.

Lemma demo_linked : linked demo_ts None (Some 101) [101; 100; 60; 50].
Proof. repeat (split; [reflexivity|]; eexists; split; [reflexivity|]; split; [reflexivity|]). reflexivity. Qed.
Lemma demo_nodup : NoDup [101; 100; 60; 50].
Proof. apply (bool_decide_unpack _). vm_compute. exact I. Qed.

(** Killing the queued task 100, and the running task 60. *)
Lemma task_kill_correct_witness :
  ∃ s, current_task s = Some 60 ∧
    pwp (task_kill (Some 100) 1000)
      (kill_post s demo_wait 100 (demo_tk 2 TASK_READY 700 (Some 60) (Some 101)) [101] [60; 50]) s ∧
    pwp (task_kill (Some 60) 1000)
      (kill_post s demo_wait 60 (demo_tk 1 TASK_RUNNING 400 (Some 50) (Some 100)) [101; 100] [50]) s.
Proof.
  destruct demo_sched_inv as [e He]. destruct (wp_pid_init pid_static eq_refl) as ([] & p & _ & Hp & _).
  exists (set_pids p (demo_sched e)). split; [reflexivity|]. split.
  - apply (task_kill_correct (set_pids p (demo_sched e)) demo_wait 100); [exact He|exact Hp|reflexivity| |exact demo_nodup].
    exact demo_linked.
  - apply (task_kill_correct (set_pids p (demo_sched e)) demo_wait 60); [exact He|exact Hp|reflexivity| |exact demo_nodup].
    exact demo_linked.
Defined.
