(* ===== verification/Syscall.v ===== *)
(** * System calls, exceptions and panics (kernel/syscall.c,
      arch/arm64/exception/exception.c, kernel/panic.c): translation

    State: the scheduler with the task structures, formatted output with the
    memory that strings live in, and the system registers that are accessed.
    [rodata] is where the linker puts a string literal.  A function that is
    called through a pointer of another type returns an [int] where the caller
    reads 64 bits: [hi] is what the upper half of the register holds. *)
From stdpp Require Import base gmap list option numbers strings.
From S2P Require Import Prelude Panic Dtb RBHeap TaskDef Sched Io Printk.
#[local] Open Scope Z_scope.
#[local] Open Scope panic_scope.

Module Syscall.
Import Sched Printk.

Record sys := {
  ssched : sched;
  spk : pk;
  sio : trace;
}.
Definition on_sched {A} (m : PST A) : PS sys A :=
  zoom ssched (λ v s, {| ssched := v; spk := spk s; sio := sio s |}) m.
Definition on_pk {A} (m : ST pk A) : ST sys A :=
  zoom spk (λ v s, {| ssched := ssched s; spk := v; sio := sio s |}) m.
Definition on_io {A} (m : ST trace A) : ST sys A :=
  zoom sio (λ v s, {| ssched := ssched s; spk := spk s; sio := v |}) m.

Definition SYS_WRITE : Z := 1.
Definition SYS_EXIT : Z := 60.
Definition SYS_KILL : Z := 129.

Definition msg_invalid : list Z := lit "Invalid syscall number: %d" ++ [10].
Definition msg_unimplemented : list Z := lit "Unimplemented syscall: %d" ++ [10].

Section syscall.
Context (rodata : list Z → Z).

(** ** Panics *)

Definition shutdown_system : ST trace unit :=
  emit Mask;;
  emit (Hvc 0x84000008);;
  emit (Hlt 0x18 0x18).

(** [__panic] does not return: it ends in a loop with interrupts masked. *)
Definition __panic {A} (file line func fmt : Z) (args : list Z) : PS sys A :=
  on_io (emit Mask);;
  on_pk (
    fprintk STDERR_FD (rodata (10 :: lit "Panic: fatal - kernel panic - not syncing" ++ [10])) [];;
    fprintk STDERR_FD (rodata (lit "Location: %s:%d" ++ [10])) [file; line];;
    fprintk STDERR_FD (rodata (lit "Function: %s" ++ [10])) [func];;
    fprintk STDERR_FD (rodata (lit "Info: ")) [];;
    vfprintk STDERR_FD fmt args;;
    fprintk STDERR_FD (rodata (10 :: lit "System halted." ++ [10])) []);;
  on_io shutdown_system;;
  panic.

(** ** System calls *)

Inductive sys_result := SRet (v : Z) | SGone (a : action).

(** A 64-bit register that was written with an [int]. *)
Context (hi : Z).
Definition int_reg (v : Z) : Z := u32 v + 2 ^ 32 * u32 hi.

Definition sys_exit (code now : Z) : PS sys sys_result :=
  a ←! on_sched (task_exit now);
  pret (match a with Stay => SRet (int_reg 0) | _ => SGone a end).

Definition sys_write (fd buf count : Z) : PS sys sys_result :=
  if fd =? STDOUT_FD then n ← on_pk (fprintk STDOUT_FD buf []); pret (SRet (int_reg n))
  else if fd =? STDERR_FD then n ← on_pk (fprintk STDERR_FD buf []); pret (SRet (int_reg n))
  else pret (SRet (int_reg (-1))).

Definition call_kill (pid0 now : Z) : PS sys sys_result :=
  r ←! on_sched (sys_kill pid0 now);
  pret (match r with KRet v => SRet (int_reg v) | KGone a => SGone a end).

(** The entries of the table that are not NULL; it has 130. *)
Definition syscall_table (num : Z) : option (list Z → Z → PS sys sys_result) :=
  if num =? SYS_KILL then Some (λ a now, call_kill (s32 (nth 0 a 0)) now)
  else if num =? SYS_EXIT then Some (λ a now, sys_exit (s32 (nth 0 a 0)) now)
  else if num =? SYS_WRITE then Some (λ a _, sys_write (s32 (nth 0 a 0)) (nth 1 a 0) (s32 (nth 2 a 0)))
  else None.
Definition table_size : Z := 130.

(** [args] are the six arguments; [now] is the reading of the clock by the
    scheduler. *)
Definition do_syscall (num : Z) (args : list Z) (now : Z) : PS sys sys_result :=
  if table_size <=? num then
    on_pk (printk (rodata msg_invalid) [num]);; pret (SRet (2 ^ 64 - 1))
  else
    match syscall_table num with
    | None => on_pk (printk (rodata msg_unimplemented) [num]);; pret (SRet (2 ^ 64 - 1))
    | Some f => f args now
    end.

(** ** Exceptions *)

Definition X0 : nat := 0.
Definition X8 : nat := 8.

(** The frame on return; [inr] when the task does not come back. *)
Definition handle_svc (ctx : cpu_context) (now : Z) : PS sys (cpu_context + action) :=
  r ←! do_syscall (ctx_get X8 ctx) (map (λ i, ctx_get i ctx) (seq 0 6)) now;
  pret (match r with SRet v => inl (ctx_set X0 v ctx) | SGone a => inr a end).

Definition should_reschedule : ST sys Z :=
  zoom ssched (λ v s, {| ssched := v; spk := spk s; sio := sio s |}) (
    curr ← gets current_task;
    if is_null curr then mret 0
    else st ← trd state curr; mret (if st =? TASK_ZOMBIE then 1 else 0)).

Definition ESR_EC_SHIFT : Z := 26.
Definition ESR_EC_MASK : Z := 0x3F.

(** [file], [line] and [func] are those of the panic. *)
Definition handle_sync_exception (dev : device) (file line func : Z) : PS sys unit :=
  esr ← on_io (reg_read dev (Sys ESR));
  far ← on_io (reg_read dev (Sys FAR));
  elr ← on_io (reg_read dev (Sys ELR));
  let ec := u32 (Z.land (Z.shiftr esr ESR_EC_SHIFT) ESR_EC_MASK) in
  __panic file line func (rodata (lit "Sync exception: EC=0x%x FAR=%p ELR=%p")) [ec; far; elr].
Definition handle_fiq (file line func : Z) : PS sys unit :=
  __panic file line func (rodata (lit "Unexpected FIQ")) [].
Definition handle_serror (file line func : Z) : PS sys unit :=
  __panic file line func (rodata (lit "SError exception")) [].
End syscall.

End Syscall.
