(* ===== verification/SyscallThm.v ===== *)
(** * System calls, exceptions and panics: proofs *)
From stdpp Require Import base gmap list option numbers strings sorting.
From S2P Require Import Prelude Panic CString CStringThm CStringCopy Dtb DtbThm RBHeap Pid TaskDef Eevdf EevdfThm EevdfClaims Sched SchedThm SchedClaims TaskList Klog KlogThm Printk PrintkThm Io Syscall.
Import CString Pid Sched Klog Printk Syscall.
#[local] Open Scope Z_scope.

(** ** Strings and messages *)

(** The literals are where [rodata] says. *)
Definition placed (rodata : list Z → Z) (m : mem) (ls : list (list Z)) : Prop :=
  Forall (λ l, rodata l ≠ 0 ∧ cstr m (rodata l) l) ls.

Lemma renders_app m l f a o : Forall (λ c, c ≠ 37) l → renders m f a o → renders m (l ++ f) a (l ++ o).
Proof. intros Hl Hr. induction Hl as [|c l Hc _ IH]; [done|]. by apply R_char. Qed.
Lemma renders_plain m l a : Forall (λ c, c ≠ 37) l → renders m l a l.
Proof. intros Hl. rewrite <-(app_nil_r l) at 1 2. apply renders_app; [done|apply R_nil]. Qed.

(** Literals without conversions. *)
Ltac plain_ok := apply (bool_decide_unpack _); vm_compute; exact I.

(** The part of the state that messages leave alone. *)
Definition quiet (s s' : sys) : Prop := ssched s' = ssched s ∧ sio s' = sio s ∧ text (spk s') = text (spk s).

Lemma wp_pk_said fd fmt args f out s recs (Q : Z → sys → Prop) :
  fmt ≠ 0 → cstr (text (spk s)) fmt f → renders (text (spk s)) f args out → zlen out < 2 ^ 31 →
  pk_ok (spk s) recs →
  (∀ s', quiet s s' → pk_ok (spk s') (said fd out recs) → Q (zlen out) s') →
  wp (on_pk (fprintk fd fmt args)) Q s.
Proof.
  intros Hf0 Hf Hr Hn Hok HQ. apply wp_zoom, (wp_said fd fmt args f out _ recs); [done..|].
  intros p Ht Hp. by apply HQ.
Qed.

Section thm.
Context (rodata : list Z → Z).

(** ** Panics *)

Definition panic_formats : list (list Z) :=
  [10 :: lit "Panic: fatal - kernel panic - not syncing" ++ [10]; lit "Location: %s:%d" ++ [10];
   lit "Function: %s" ++ [10]; lit "Info: "; 10 :: lit "System halted." ++ [10]].
(** What a panic logs. *)
Definition panic_lines (file_s func_s : list Z) (line : Z) (out : list Z) : list (list Z) :=
  [10 :: lit "Panic: fatal - kernel panic - not syncing" ++ [10];
   lit "Location: " ++ file_s ++ [58] ++ signed (s32 line) ++ [10];
   lit "Function: " ++ func_s ++ [10]; lit "Info: "; out; 10 :: lit "System halted." ++ [10]].
Definition say_all (recs : list record) (lines : list (list Z)) : list record :=
  foldl (λ r o, said STDERR_FD o r) recs lines.

Lemma renders_location m file file_s line :
  file ≠ 0 → cstr m file file_s → - 2 ^ 31 < s32 line →
  renders m (lit "Location: %s:%d" ++ [10]) [file; line]
    (lit "Location: " ++ file_s ++ [58] ++ signed (s32 line) ++ [10]).
Proof.
  intros Hf Hs Hl.
  change (lit "Location: %s:%d" ++ [10]) with (lit "Location: " ++ 37 :: 115 :: 58 :: 37 :: 100 :: [10]).
  apply renders_app; [plain_ok|]. eapply R_conv; [by apply C_s|]. apply R_char; [done|].
  eapply R_conv; [by apply C_d|]. apply renders_plain. plain_ok.
Qed.
Lemma renders_function m func func_s :
  func ≠ 0 → cstr m func func_s →
  renders m (lit "Function: %s" ++ [10]) [func] (lit "Function: " ++ func_s ++ [10]).
Proof.
  intros Hf Hs. change (lit "Function: %s" ++ [10]) with (lit "Function: " ++ 37 :: 115 :: [10]).
  apply renders_app; [plain_ok|]. eapply R_conv; [by apply C_s|]. apply renders_plain. plain_ok.
Qed.

(** One message of the panic. *)
Lemma wp_line fmt args f out p recs (k : ST pk Z) (Q : Z → pk → Prop) :
  fmt ≠ 0 → cstr (text p) fmt f → renders (text p) f args out → zlen out < 2 ^ 31 → pk_ok p recs →
  (∀ p', text p' = text p → pk_ok p' (said STDERR_FD out recs) → wp k Q p') →
  wp (vfprintk STDERR_FD fmt args;; k) Q p.
Proof. intros. apply wp_bind, (wp_said STDERR_FD fmt args f out _ recs); done. Qed.

Lemma wp_panic {A} file line func fmt args file_s func_s f out s recs (Q : option A → sys → Prop) :
  placed rodata (text (spk s)) panic_formats → pk_ok (spk s) recs →
  file ≠ 0 → cstr (text (spk s)) file file_s → func ≠ 0 → cstr (text (spk s)) func func_s →
  - 2 ^ 31 < s32 line → fmt ≠ 0 → cstr (text (spk s)) fmt f → renders (text (spk s)) f args out →
  Forall (λ o, zlen o < 2 ^ 31) (panic_lines file_s func_s line out) →
  (∀ p, text p = text (spk s) → pk_ok p (say_all recs (panic_lines file_s func_s line out)) →
    Q None {| ssched := ssched s; spk := p; sio := sio s ++ [Mask; Mask; Hvc 0x84000008; Hlt 0x18 0x18] |}) →
  wp (__panic rodata file line func fmt args) Q s.
Proof.
  intros Hpl Hok Hfile Hfs Hfunc Hfus Hline Hfmt Hf Hr Hlen HQ. unfold panic_formats, panic_lines in *.
  repeat (apply list.Forall_cons in Hpl as [[? ?] Hpl]).
  repeat (apply list.Forall_cons in Hlen as [? Hlen]).
  apply wp_bind, wp_zoom, wp_emit, wp_bind, wp_zoom. cbn [spk].
  eapply wp_line; [done|done|apply renders_plain; plain_ok|done|exact Hok|]. intros p1 T1 O1.
  eapply wp_line; [done|by rewrite T1|rewrite T1; by apply renders_location|done|exact O1|]. intros p2 T2 O2. rewrite T1 in T2.
  eapply wp_line; [done|by rewrite T2|rewrite T2; by apply renders_function|done|exact O2|]. intros p3 T3 O3. rewrite T2 in T3.
  eapply wp_line; [done|by rewrite T3|apply renders_plain; plain_ok|done|exact O3|]. intros p4 T4 O4. rewrite T3 in T4.
  eapply wp_line; [exact Hfmt|by rewrite T4|rewrite T4; exact Hr|done|exact O4|]. intros p5 T5 O5. rewrite T4 in T5.
  eapply wp_said; [done|by rewrite T5|apply renders_plain; plain_ok|done|exact O5|]. intros p6 T6 O6. rewrite T5 in T6.
  apply wp_bind, wp_zoom. apply wp_bind, wp_emit, wp_bind, wp_emit, wp_emit. apply wp_ret.
  cbn [ssched spk sio]. rewrite <-!app_assoc. by apply HQ.
Qed.

(** C31: a panic is final.  Whatever the message, [__panic] does not return to its
    caller: the log ends with the six messages (the place, the function and the
    rendered text among them), the scheduler is as it was, and the machine has
    masked its interrupts, called the firmware to power off and then the
    debugger, in this order. *)
Theorem panic_correct A file line func fmt args file_s func_s f out s recs :
  placed rodata (text (spk s)) panic_formats → pk_ok (spk s) recs →
  file ≠ 0 → cstr (text (spk s)) file file_s → func ≠ 0 → cstr (text (spk s)) func func_s →
  - 2 ^ 31 < s32 line → fmt ≠ 0 → cstr (text (spk s)) fmt f → renders (text (spk s)) f args out →
  Forall (λ o, zlen o < 2 ^ 31) (panic_lines file_s func_s line out) →
  wp (__panic (A:=A) rodata file line func fmt args) (λ r s', r = None ∧ ssched s' = ssched s ∧
    sio s' = sio s ++ [Mask; Mask; Hvc 0x84000008; Hlt 0x18 0x18] ∧
    text (spk s') = text (spk s) ∧
    pk_ok (spk s') (say_all recs (panic_lines file_s func_s line out))) s.
Proof. intros. eapply (wp_panic file line func fmt args); [done..|]. intros p Ht Hp. by split_and!. Qed.

(** ** System calls *)

Context (hi : Z).

(** The text of a system call that is not there. *)
Definition refused (num : Z) : list Z :=
  (if table_size <=? num then lit "Invalid syscall number: " else lit "Unimplemented syscall: ")
    ++ signed (s32 num) ++ [10].
Definition refusals : list (list Z) := [msg_invalid; msg_unimplemented].

Lemma renders_refused m (b : bool) num :
  - 2 ^ 31 < s32 num →
  renders m (if b then msg_invalid else msg_unimplemented) [num]
    ((if b then lit "Invalid syscall number: " else lit "Unimplemented syscall: ") ++ signed (s32 num) ++ [10]).
Proof.
  intros Hn. unfold msg_invalid, msg_unimplemented.
  destruct b; [change (lit "Invalid syscall number: %d" ++ [10]) with (lit "Invalid syscall number: " ++ 37 :: 100 :: [10])
    |change (lit "Unimplemented syscall: %d" ++ [10]) with (lit "Unimplemented syscall: " ++ 37 :: 100 :: [10])];
    (apply renders_app; [plain_ok|]); (eapply R_conv; [by apply C_d|]); apply renders_plain; plain_ok.
Qed.

Lemma syscall_table_none num :
  num ≠ SYS_KILL → num ≠ SYS_EXIT → num ≠ SYS_WRITE → syscall_table hi num = None.
Proof. intros. unfold syscall_table. by rewrite !(proj2 (Z.eqb_neq _ _)). Qed.

Lemma wp_refused num args now s recs (Q : sys_result → sys → Prop) :
  num ≠ SYS_KILL → num ≠ SYS_EXIT → num ≠ SYS_WRITE → - 2 ^ 31 < s32 num →
  placed rodata (text (spk s)) refusals → pk_ok (spk s) recs → zlen (refused num) < 2 ^ 31 →
  (∀ s', quiet s s' → pk_ok (spk s') (said STDOUT_FD (refused num) recs) → Q (SRet (2 ^ 64 - 1)) s') →
  pwp (do_syscall rodata hi num args now) Q s.
Proof.
  intros H1 H2 H3 Hn Hpl Hok Hlen HQ. unfold refusals in Hpl.
  repeat (apply list.Forall_cons in Hpl as [[? ?] Hpl]).
  unfold do_syscall. rewrite syscall_table_none by done.
  pose proof (renders_refused (text (spk s)) (table_size <=? num) num Hn) as Hr. unfold refused in *.
  destruct (table_size <=? num); apply pwp_lift;
    (eapply (wp_pk_said STDOUT_FD); [done|done|exact Hr|done|exact Hok|]); intros s' Hq Hp; apply pwp_ret; by apply HQ.
Qed.

(** The frame of the caller after a call that returned [v]. *)
Definition returned (ctx : cpu_context) (v : Z) : cpu_context + action := inl (ctx_set X0 v ctx).

Lemma pwp_handle_svc ctx now s (Q : cpu_context + action → sys → Prop) :
  pwp (do_syscall rodata hi (ctx_get X8 ctx) (map (λ i, ctx_get i ctx) (seq 0 6)) now)
    (λ r, Q (match r with SRet v => returned ctx v | SGone a => inr a end)) s →
  pwp (handle_svc rodata hi ctx now) Q s.
Proof. intros H. apply pwp_bind. eapply pwp_mono; [exact H|]. intros r s' HQ. by apply pwp_ret. Qed.

(** A number that is no system call, beyond the table or one of its holes,
    is refused: the number is logged, the caller finds 2^64-1 (that is, -1) in
    x0 and its other registers as they were, and no task is touched. *)
Theorem svc_unknown ctx now s recs :
  let num := ctx_get X8 ctx in
  num ≠ SYS_KILL → num ≠ SYS_EXIT → num ≠ SYS_WRITE → - 2 ^ 31 < s32 num →
  placed rodata (text (spk s)) refusals → pk_ok (spk s) recs → zlen (refused num) < 2 ^ 31 →
  pwp (handle_svc rodata hi ctx now) (λ r s', r = inl (ctx_set X0 (2 ^ 64 - 1) ctx) ∧
    ssched s' = ssched s ∧ sio s' = sio s ∧ pk_ok (spk s') (said STDOUT_FD (refused num) recs)) s.
Proof.
  intros num **. apply pwp_handle_svc, (wp_refused num _ now s recs); [done..|].
  intros s' (? & ? & ?) Hp. by split_and!.
Qed.

(** What a caller of SYS_KILL finds. *)
Definition kill_found (s : sys) (A : queue) (n : Z) (l : list Z) (ctx : cpu_context) (r : cpu_context + action) (s' : sys) : Prop :=
  spk s' = spk s ∧ sio s' = sio s ∧
  match first_pid (q_tasks A) n l with
  | None => r = returned ctx (int_reg hi (-1)) ∧ ssched s' = ssched s
  | Some a => ∃ tk l1 l2 k, l = l1 ++ a :: l2 ∧ q_tasks A !! a = Some tk ∧ pid tk = n ∧
      kill_post (ssched s) A a tk l1 l2 k (ssched s') ∧
      r = match k with KRet v => returned ctx (int_reg hi v) | KGone act => inr act end
  end.

Lemma first_pid_split ts n pp p l a :
  n ≠ -1 → linked ts pp p l → first_pid ts n l = Some a →
  ∃ tk l1 l2, l = l1 ++ a :: l2 ∧ ts !! a = Some tk ∧ pid tk = n.
Proof.
  intros Hn. revert pp p. induction l as [|b l IH]; intros pp p; simpl; [done|].
  intros (_ & tk & Hb & _ & Hl). rewrite Hb. simpl. destruct (Z.eqb_spec (pid tk) n).
  - intros [= ->]. by exists tk, [], l.
  - intros Hf. destruct (IH _ _ Hl Hf) as (tk' & l1 & l2 & -> & ? & ?). by exists tk', (b :: l1), l2.
Qed.

(** C20: SYS_KILL, for a pid other than -1, acts on the first task of the list with
    the pid in x0, as an [int], through [task_kill], and returns its result in x0;
    when no task has the pid it returns -1 and changes nothing.  A call in which
    the caller killed itself does not come back to it. *)
Theorem svc_kill_correct ctx now s A l :
  let n := s32 (ctx_get 0 ctx) in
  ctx_get X8 ctx = SYS_KILL → n ≠ -1 → sched_inv (ssched s) A → pid_ok (pids (ssched s)) →
  linked (q_tasks A) None (task_list (ssched s)) l → NoDup l →
  pwp (handle_svc rodata hi ctx now) (kill_found s A n l ctx) s.
Proof.
  intros n Hx8 Hn Hinv Hpid Hl Hnd. apply pwp_handle_svc. rewrite Hx8. unfold do_syscall.
  change (table_size <=? SYS_KILL) with false. change (syscall_table hi SYS_KILL) with (Some (λ a now, call_kill hi (s32 (nth 0 a 0)) now)).
  cbv iota. change (nth 0 (map (λ i, ctx_get i ctx) (seq 0 6)) 0) with (ctx_get 0 ctx).
  fold n. unfold call_kill. apply pwp_bind, pwp_zoom, pwp_lift. pose proof Hinv as (Hr & _).
  assert (Hts : tasks (ssched s) = q_tasks A) by (by destruct Hr as (_ & H & _)).
  eapply (wp_find _ n l); [by rewrite Hts|done|]. rewrite Hts. unfold kill_found.
  destruct (first_pid (q_tasks A) n l) as [a|] eqn:Ef; cbn [is_null].
  - destruct (first_pid_split _ _ _ _ _ _ Hn Hl Ef) as (tk & l1 & l2 & -> & Ha & Hp).
    eapply pwp_mono; [by apply (wp_task_kill _ A a tk l1 l2 now)|]. intros k s' Hk.
    apply pwp_ret. split_and!; [done..|]. exists tk, l1, l2, k. split_and!; [done..|]. by destruct k.
  - apply pwp_ret, pwp_ret. by split_and!.
Qed.

(** C21: SYS_EXIT in a task other than idle does not come back: the task is a
    zombie, its pid is free, and the CPU goes to the task that [schedule] picks,
    with the invariant of the scheduler. *)
Theorem svc_exit_correct ctx now s A c tk :
  ctx_get X8 ctx = SYS_EXIT → sched_inv (ssched s) A → pid_ok (pids (ssched s)) →
  current_task (ssched s) = Some c → q_tasks A !! c = Some tk → pid tk ≠ 0 →
  pwp (handle_svc rodata hi ctx now) (λ r s', ∃ A' n tk',
    r = inr (JumpTo (Some n)) ∧ n ≠ c ∧ spk s' = spk s ∧ sio s' = sio s ∧
    sched_inv (ssched s') A' ∧ current_task (ssched s') = Some n ∧ chosen (q_list A) (q_tasks A') n ∧
    q_tasks A' !! c = Some tk' ∧ state tk' = TASK_ZOMBIE ∧
    (0 < pid tk < MAX_PID → pid_used (pids (ssched s')) (pid tk) = false)) s.
Proof.
  intros Hx8 Hinv Hpid Hc Htk Hp. apply pwp_handle_svc. rewrite Hx8. unfold do_syscall.
  change (table_size <=? SYS_EXIT) with false. change (syscall_table hi SYS_EXIT) with (Some (λ a now, sys_exit hi (s32 (nth 0 a 0)) now)).
  cbv iota. unfold sys_exit. apply pwp_bind, pwp_zoom.
  eapply pwp_mono; [by apply (wp_task_exit _ A c tk)|].
  intros act s' (A' & n & tk' & H1 & H2 & -> & H4 & H5 & _ & H7 & H8 & _ & H10).
  apply pwp_ret. exists A', n, tk'. by split_and!.
Qed.

(** C30: SYS_WRITE on descriptor 1 or 2 logs the string at the address in x1, for
    a string without percent signs, up to its NUL character and whatever the
    count in x2; beyond 511 characters the record is cut off, as in every message
    (C29), while the result is the length of the whole string.  Another descriptor
    gives -1.  The log takes the level of both descriptors. *)
Theorem svc_write_correct ctx now s recs l :
  let fd := s32 (ctx_get 0 ctx) in
  ctx_get X8 ctx = SYS_WRITE → ctx_get 1 ctx ≠ 0 → cstr (text (spk s)) (ctx_get 1 ctx) l →
  Forall (λ c, c ≠ 37) l → zlen l < 2 ^ 31 → pk_ok (spk s) recs →
  pwp (handle_svc rodata hi ctx now) (λ r s', ssched s' = ssched s ∧ sio s' = sio s ∧
    if (fd =? STDOUT_FD) || (fd =? STDERR_FD)
    then r = inl (ctx_set X0 (int_reg hi (zlen l)) ctx) ∧ pk_ok (spk s') (said fd l recs)
    else r = inl (ctx_set X0 (int_reg hi (-1)) ctx) ∧ s' = s) s.
Proof.
  intros fd Hx8 Hb0 Hb Hl Hlen Hok. apply pwp_handle_svc. rewrite Hx8. unfold do_syscall.
  change (table_size <=? SYS_WRITE) with false.
  change (syscall_table hi SYS_WRITE) with (Some (λ (a : list Z) (_ : Z), sys_write hi (s32 (nth 0 a 0)) (nth 1 a 0) (s32 (nth 2 a 0)))).
  cbv iota beta. cbn [nth map seq]. fold fd. unfold sys_write.
  pose proof (renders_plain (text (spk s)) l [] Hl) as Hr.
  destruct (Z.eqb_spec fd STDOUT_FD) as [E|E]; [|destruct (Z.eqb_spec fd STDERR_FD) as [E'|E']];
    [rewrite E|rewrite E'|by apply pwp_ret]; apply pwp_lift;
    (eapply wp_pk_said; [done|exact Hb|exact Hr|done|exact Hok|]); intros s' (? & ? & ?) Hp; by apply pwp_ret.
Qed.
End thm.

(** ** Instances *)

(** Strings in memory, checked by computation. *)
Fixpoint bytes_here (m : mem) (p : Z) (l : list Z) : bool :=
  match l with
  | [] => true
  | c :: l => bool_decide (m !! p = Some c) && bytes_here m (p + 1) l
  end.
Definition str_here (m : mem) (p : Z) (l : list Z) : bool :=
  negb (p =? 0) && forallb (λ c, (0 <? c) && (c <? 256)) l && bytes_here m p (l ++ [0]).
Lemma bytes_here_sound m p l : bytes_here m p l = true → bytes_at m p l.
Proof.
  revert p. induction l as [|c l IH]; intros p H; [apply bytes_at_nil|]. apply bytes_at_cons.
  apply andb_prop in H as [H1 H2]. split; [by apply bool_decide_eq_true in H1|by apply IH].
Qed.
Lemma str_here_sound m p l : str_here m p l = true → p ≠ 0 ∧ cstr m p l.
Proof.
  intros H. apply andb_prop in H as [H Hb]. apply andb_prop in H as [Hp Hl]. split.
  - apply negb_true_iff, Z.eqb_neq in Hp. done.
  - split; [by apply bytes_here_sound|]. rewrite forallb_forall in Hl. apply Forall_forall. intros c Hc.
    apply list_elem_of_In, Hl, andb_prop in Hc as [? ?]. unfold nonzero. lia.
Qed.
Lemma placed_here rodata m ls : forallb (λ l, str_here m (rodata l) l) ls = true → placed rodata m ls.
Proof.
  intros H. rewrite forallb_forall in H. apply Forall_forall. intros l Hl.
  by apply str_here_sound, H, list_elem_of_In.
Qed.

(** The literals every hundred bytes from 3000 on; a file name, a function name,
    a message and a text without a terminating newline after them. *)
Definition demo_lits : list (list Z) :=
  panic_formats ++ refusals ++ [lit "main.c"; lit "kmain"; lit "no tasks"; lit "hello"].
Definition demo_rodata (l : list Z) : Z :=
  foldr (λ '(i, l') a, if bool_decide (l = l') then 3000 + 100 * i else a) 0 (zip (seqZ 0 11) demo_lits).
Definition demo_text : mem := foldr (λ l m, upd (demo_rodata l) (l ++ [0]) m) ∅ demo_lits.
Definition demo_out : pk := {|
  text := demo_text; printk_buf := replicate (Z.to_nat 512) 0; printk_buf_ptr := 0; printk_buf_rem := 0;
  log := demo_log; serial := [] |}.
#[global] Arguments demo_text : simpl never.
#[global] Arguments demo_rodata : simpl never.
Lemma demo_out_ok : pk_ok demo_out [].
Proof. split; [reflexivity|exact demo_log_ok|discriminate]. Qed.
Lemma demo_str l : str_here demo_text (demo_rodata l) l = true → demo_rodata l ≠ 0 ∧ cstr (text demo_out) (demo_rodata l) l.
Proof. apply str_here_sound. Qed.
Definition demo_sys (s : sched) : sys := {| ssched := s; spk := demo_out; sio := [] |}.
(** Tasks that the messages are not concerned with. *)
Definition demo_tasks : sched := demo_sched demo_rq.
(** The frame of a system call. *)
Definition demo_frame (num a0 a1 : Z) : cpu_context := ctx_set 8 num (ctx_set 1 a1 (ctx_set 0 a0 ctx_zero)).

Lemma panic_correct_witness :
  let file := lit "main.c" in let func := lit "kmain" in let fmt := lit "no tasks" in
  wp (__panic (A:=unit) demo_rodata (demo_rodata file) 42 (demo_rodata func) (demo_rodata fmt) [])
    (λ r s', r = None ∧ ssched s' = demo_tasks ∧ sio s' = [Mask; Mask; Hvc 0x84000008; Hlt 0x18 0x18] ∧
      text (spk s') = demo_text ∧ pk_ok (spk s') (say_all [] (panic_lines file func 42 fmt))) (demo_sys demo_tasks).
Proof.
  intros file func fmt.
  refine (panic_correct demo_rodata unit (demo_rodata file) 42 (demo_rodata func) (demo_rodata fmt) [] file func fmt fmt
    (demo_sys demo_tasks) [] _ demo_out_ok _ _ _ _ _ _ _ _ _).
  - apply placed_here. vm_compute. reflexivity.
  - discriminate.
  - apply demo_str. vm_compute. reflexivity.
  - discriminate.
  - apply demo_str. vm_compute. reflexivity.
  - reflexivity.
  - discriminate.
  - apply demo_str. vm_compute. reflexivity.
  - apply renders_plain. plain_ok.
  - repeat constructor.
Defined.

(** System call 57, which is a hole of the table. *)
Lemma svc_unknown_witness :
  pwp (handle_svc demo_rodata 0 (demo_frame 57 1 2) 0) (λ r s', r = inl (ctx_set X0 (2 ^ 64 - 1) (demo_frame 57 1 2)) ∧
    ssched s' = demo_tasks ∧ sio s' = [] ∧ pk_ok (spk s') (said 1 (lit "Unimplemented syscall: 57" ++ [10]) [])) (demo_sys demo_tasks).
Proof.
  refine (svc_unknown demo_rodata 0 (demo_frame 57 1 2) 0 (demo_sys demo_tasks) [] _ _ _ _ _ demo_out_ok _).
  - discriminate.
  - discriminate.
  - discriminate.
  - reflexivity.
  - apply placed_here. vm_compute. reflexivity.
  - reflexivity.
Defined.

(** Task 60 kills task 100, whose pid is 2; nobody has pid 9. *)
Lemma svc_kill_correct_witness :
  ∃ s, current_task (ssched s) = Some 60 ∧
    pwp (handle_svc demo_rodata 0 (demo_frame 129 2 0) 1000)
      (kill_found 0 s demo_wait 2 [101; 100; 60; 50] (demo_frame 129 2 0)) s ∧
    pwp (handle_svc demo_rodata 0 (demo_frame 129 9 0) 1000)
      (kill_found 0 s demo_wait 9 [101; 100; 60; 50] (demo_frame 129 9 0)) s.
Proof.
  destruct demo_sched_inv as [e He]. destruct (wp_pid_init pid_static eq_refl) as ([] & p & _ & Hp & _).
  exists (demo_sys (set_pids p (demo_sched e))). split; [reflexivity|]. split.
  - refine (svc_kill_correct demo_rodata 0 (demo_frame 129 2 0) 1000 (demo_sys (set_pids p (demo_sched e))) demo_wait
      [101; 100; 60; 50] eq_refl _ He Hp demo_linked demo_nodup). discriminate.
  - refine (svc_kill_correct demo_rodata 0 (demo_frame 129 9 0) 1000 (demo_sys (set_pids p (demo_sched e))) demo_wait
      [101; 100; 60; 50] eq_refl _ He Hp demo_linked demo_nodup). discriminate.
Defined.

Lemma svc_exit_correct_witness :
  ∃ s, current_task (ssched s) = Some 60 ∧
  pwp (handle_svc demo_rodata 0 (demo_frame 60 0 0) 1000) (λ r s', ∃ A' n tk',
    r = inr (JumpTo (Some n)) ∧ n ≠ 60 ∧ spk s' = spk s ∧ sio s' = sio s ∧
    sched_inv (ssched s') A' ∧ current_task (ssched s') = Some n ∧ chosen [101; 100] (q_tasks A') n ∧
    q_tasks A' !! 60 = Some tk' ∧ state tk' = TASK_ZOMBIE ∧
    (0 < 1 < MAX_PID → pid_used (pids (ssched s')) 1 = false)) s.
Proof.
  destruct demo_sched_inv as [e He]. destruct (wp_pid_init pid_static eq_refl) as ([] & p & _ & Hp & _).
  exists (demo_sys (set_pids p (demo_sched e))). split; [reflexivity|].
  refine (svc_exit_correct demo_rodata 0 (demo_frame 60 0 0) 1000 (demo_sys (set_pids p (demo_sched e))) demo_wait
    60 (demo_tk 1 TASK_RUNNING 400 (Some 50) (Some 100)) eq_refl He Hp eq_refl _ _).
  - reflexivity.
  - discriminate.
Defined.

(** "hello" is logged in full although the count is 0. *)
Lemma svc_write_correct_witness :
  let ctx := demo_frame 1 1 (demo_rodata (lit "hello")) in
  pwp (handle_svc demo_rodata 0 ctx 0) (λ r s', ssched s' = demo_tasks ∧ sio s' = [] ∧
    r = inl (ctx_set X0 (int_reg 0 5) ctx) ∧ pk_ok (spk s') (said 1 (lit "hello") [])) (demo_sys demo_tasks).
Proof.
  refine (svc_write_correct demo_rodata 0 (demo_frame 1 1 (demo_rodata (lit "hello"))) 0 (demo_sys demo_tasks) [] (lit "hello")
    eq_refl _ _ _ eq_refl demo_out_ok).
  - discriminate.
  - apply demo_str. vm_compute. reflexivity.
  - plain_ok.
Defined.

(** The text of a SYS_WRITE is the format: with a conversion in it the call
    fetches an argument that nobody passed. *)
Lemma sys_write_format e :
  sys_write 0 1 2000 7 {| ssched := demo_sched e; spk := demo_pk; sio := [] |} = None.
Proof. vm_compute. reflexivity. Qed.

(** A system call's -1 reaches the caller as -1 only if the upper half of x0
    happened to be all ones. *)
Lemma int_reg_minus hi : int_reg hi (-1) = 2 ^ 64 - 1 ↔ u32 hi = 2 ^ 32 - 1.
Proof. unfold int_reg. change (u32 (-1)) with (2 ^ 32 - 1). lia. Qed.
