(* ===== verification/Ubsan.v ===== *)
(** * Sanitizer reports (san/ubsan.c) and failed assertions (kernel/panic.h)

    The compiler calls a handler of its own for each kind of undefined behaviour
    that it finds at run time; every handler panics with its name. *)
From stdpp Require Import base list option numbers strings.
From S2P Require Import Prelude Panic CString CStringThm CStringCopy Dtb DtbThm RBHeap Pid TaskDef Eevdf EevdfThm EevdfClaims Sched SchedThm SchedClaims TaskList Klog KlogThm Printk PrintkThm Io Syscall SyscallThm.
#[local] Open Scope Z_scope.

Module Ubsan.
Import CString Pid Sched Klog Printk Syscall.

(** The uses of UBSAN_HANDLER. *)
Definition ubsan_handlers : list (list Z) := lit <$> [
  "__ubsan_handle_add_overflow"; "__ubsan_handle_sub_overflow"; "__ubsan_handle_mul_overflow"; "__ubsan_handle_divrem_overflow";
  "__ubsan_handle_negate_overflow"; "__ubsan_handle_shift_out_of_bounds"; "__ubsan_handle_load_invalid_value";
  "__ubsan_handle_out_of_bounds"; "__ubsan_handle_type_mismatch"; "__ubsan_handle_vla_bound_not_positive";
  "__ubsan_handle_nonnull_return"; "__ubsan_handle_nonnull_arg"; "__ubsan_handle_pointer_overflow";
  "__ubsan_handle_float_cast_overflow"; "__ubsan_handle_float_cast_invalid_value"; "__ubsan_handle_invalid_builtin";
  "__ubsan_handle_missing_return"; "__ubsan_handle_implicit_conversion"; "__ubsan_handle_type_mismatch_v1";
  "__ubsan_handle_builtin_unreachable"; "__ubsan_handle_function_type_mismatch"; "__ubsan_handle_nonnull_return_v1";
  "__ubsan_handle_nonnull_arg_v1"]%string.

Section ubsan.
Context (rodata : list Z → Z).

(** [name] is the format and [__func__] at once. *)
Definition ubsan_handler {A} (file line : Z) (name : list Z) : PS sys A :=
  __panic rodata file line (rodata name) (rodata name) [].

Definition BUG {A} (file line func : Z) : PS sys A :=
  __panic rodata file line func (rodata (lit "BUG at %s:%d")) [file; line].
Definition BUG_ON (file line func : Z) (cond : bool) (text : list Z) : PS sys unit :=
  if cond then __panic rodata file line func (rodata (lit "BUG_ON(%s)")) [rodata text] else pret tt.

(** A report of any of the handlers is final and names the handler twice: as
    the function and as the reason. *)
Lemma ubsan_report A file line name file_s s recs :
  name ∈ ubsan_handlers →
  placed rodata (text (spk s)) panic_formats → placed rodata (text (spk s)) ubsan_handlers → pk_ok (spk s) recs →
  file ≠ 0 → cstr (text (spk s)) file file_s → - 2 ^ 31 < s32 line →
  Forall (λ o, zlen o < 2 ^ 31) (panic_lines file_s name line name) →
  wp (ubsan_handler (A:=A) file line name) (λ r s', r = None ∧ ssched s' = ssched s ∧
    pk_ok (spk s') (say_all recs (panic_lines file_s name line name))) s.
Proof.
  intros Hn Hpl Hus Hok Hf Hfs Hl Hlen. unfold placed in Hus. rewrite Forall_forall in Hus. destruct (Hus name Hn) as [H0 Hs].
  apply (wp_panic rodata file line _ _ [] file_s name name name s recs); [done..| |done|].
  - apply renders_plain. assert (Hp : Forall (Forall (λ c, c ≠ 37)) ubsan_handlers) by plain_ok.
    rewrite Forall_forall in Hp. by apply Hp.
  - intros p _ Hp. by split_and!.
Qed.
End ubsan.

End Ubsan.
