(* ===== verification/TaskCreate.v ===== *)
(** * Creating tasks (kernel/sched/task.c): translation

    [task_create] is where the scheduler meets the kernel heap: a task structure
    and a stack are blocks of [vmalloc].  State: the scheduler with the task
    structures, and the heap.  A structure is in the scheduler's store from the
    moment its memory is cleared until the block is freed. *)
From stdpp Require Import base gmap list option numbers.
From S2P Require Import Prelude Spinlock Panic RBHeap MmuIface Frames Vmm Vmalloc Pid TaskDef Eevdf Sched.
#[local] Open Scope Z_scope.
#[local] Open Scope panic_scope.

Module TaskCreate.
Import Pid Eevdf Sched Vmalloc.

(** [sizeof(task_t)]: three ints and padding, two words, the 34 of the context,
    four pointers. *)
Definition sizeof_task : Z := 336.

Record task_args := { argc : Z; argv : Z; envp : Z }.

Record world (M : Type) := { wsched : sched; wheap : kheap M }.
#[global] Arguments wsched {M}.
#[global] Arguments wheap {M}.

Section create.
Context {M : Type} `{!MmuOps M, !FrameOps M}.
Implicit Types (w : world M).

Definition set_wsched (v : sched) w : world M := {| wsched := v; wheap := wheap w |}.
Definition set_wheap (v : kheap M) w : world M := {| wsched := wsched w; wheap := v |}.
Definition on_sched {A} (m : ST sched A) : ST (world M) A := zoom wsched set_wsched m.
Definition on_heap {A} (m : ST (kheap M) A) : ST (world M) A := zoom wheap set_wheap m.

(** The addresses of [task_entry_wrapper], [task_exit] and [idle_task_entry]. *)
Context (wrapper_code exit_code idle_code : Z).

(** [memset(task, 0, sizeof(task_t))] *)
Definition clear_task (a : Z) : ST sched unit := modify (λ s, set_tasks (<[a := task_zero]> (tasks s)) s).
(** [vfree(task, sizeof(task_t))] *)
Definition free_task (a : Z) : ST (world M) unit :=
  on_heap (vfree a sizeof_task);;
  on_sched (modify (λ s, set_tasks (delete a (tasks s)) s)).

Definition nice_of (p : Z) : Z :=
  if p <? EEVDF_MIN_NICE then EEVDF_MIN_NICE else if EEVDF_MAX_NICE <? p then EEVDF_MAX_NICE else p.

(** The registers that the first switch to the task loads. *)
Definition start_context (stack entry : Z) (args : option task_args) : cpu_context :=
  let stack_top := Z.land (u64 (stack + KERNEL_STACK_SIZE)) (u64 (Z.lnot 15)) in
  let c := ctx_set SP stack_top ctx_zero in
  let c := ctx_set PC wrapper_code c in
  let c := ctx_set X19 entry c in
  let c := ctx_set X20 (match args with Some a => u64 (argc a) | None => 0 end) c in
  let c := ctx_set X21 (match args with Some a => argv a | None => 0 end) c in
  let c := ctx_set X22 (match args with Some a => envp a | None => 0 end) c in
  let c := ctx_set X23 0 c in
  let c := ctx_set X29 0 c in
  let c := ctx_set X30 exit_code c in
  ctx_set PSTATE 0x345 c.

Definition link_task (task : ptr) : ST sched unit :=
  tl ← gets task_list;
  twr (set_next tl) task;;
  (if is_null tl then mret tt else twr (set_prev task) tl);;
  modify (set_task_list task).

Definition task_create (entry priority : Z) (args : option task_args) : ST (world M) ptr :=
  task ← on_heap (vmalloc sizeof_task);
  if task =? 0 then mret None
  else
    let t := Some task in
    on_sched (clear_task task);;
    p ← on_sched (on_pids pid_alloc);
    on_sched (twr (set_pid p) t);;
    p ← on_sched (trd pid t);
    if p <? 0 then free_task task;; mret None
    else
      on_sched (
        twr (set_state TASK_READY) t;;
        twr (set_priority (nice_of priority)) t;;
        twr (set_time_slice EEVDF_TIME_SLICE_NS) t;;
        twr (set_vruntime 0) t);;
      ks ← on_heap (vmalloc KERNEL_STACK_SIZE);
      on_sched (twr (set_kernel_stack ks) t);;
      if ks =? 0 then
        p ← on_sched (trd pid t);
        on_sched (on_pids (pid_free p));;
        free_task task;;
        mret None
      else
        pgd0 ← on_heap (on_vm (Vmm.on_mmu mmu_get_ttbr1));
        on_sched (twr (set_pgd pgd0) t);;
        when (negb (entry =? 0)) (on_sched (
          ks ← trd kernel_stack t;
          twr (set_context (start_context ks entry args)) t;;
          on_eev (eevdf_enqueue t)));;
        on_sched (link_task t);;
        mret t.

(** [task_init]; an inner [None] is its panic. *)
Definition task_init : PS (world M) unit :=
  on_sched (on_pids pid_init);;
  on_sched (on_eev eevdf_init);;
  idle ← task_create idle_code 0 None;
  if is_null idle then panic
  else
    on_sched (
      twr (set_pid 0) idle;;
      on_eev (eevdf_dequeue idle);;
      twr (set_state TASK_RUNNING) idle;;
      modify (set_current_task idle));;
    pret tt.
End create.

(** [task_entry_wrapper]: what the first instructions of a task do with the
    context: the function it calls and its arguments. *)
Definition entry_call (c : cpu_context) : Z * (Z * Z * Z) :=
  (ctx_get X19 c, (s32 (ctx_get X20 c), ctx_get X21 c, ctx_get X22 c)).
Definition task_entry_wrapper : ST sched (Z * (Z * Z * Z)) :=
  task ← gets current_task;
  c ← trd context task;
  mret (entry_call c).

End TaskCreate.
