(* ===== verification/TaskCreateThm.v ===== *)
(** * Creating tasks: proofs

    The new structure is on top of the task list and in the run queue, in memory
    that no other task uses. *)
From stdpp Require Import base gmap list option numbers sorting.
From S2P Require Import Prelude Panic Spinlock RBHeap RBTree MmuIface Frames Vmm VmmTree VmmThm Vmalloc VmallocThm VmallocMap VmallocAlloc VmallocClaims Bitmap Pid TaskDef Eevdf EevdfTree EevdfThm EevdfClaims Sched SchedThm SchedClaims TaskList TaskCreate.
#[local] Open Scope Z_scope.
Import Vmalloc Pid Eevdf Sched TaskCreate.

(** ** A block of the heap *)

Section heap.
Context {M : Type} `{MO : !MmuOps M, FO : !FrameOps M, FL : !FrameLaws M}.
Implicit Types (h : kheap M) (D : gset Z) (l : list Vmm.vma).

(** [r] is a fresh block for [size] bytes, above everything handed out before. *)
Record new_block h D l (size r : Z) h' D' l' (frs : list Z) : Prop := {
  nb_addr : r = vmalloc_next h + GUARD_SIZE;
  nb_positive : 0 < r;
  nb_next : vmalloc_next h' = vmalloc_next h + block_for size * 4096;
  nb_heap : heap_ok h' [] D' l';
  nb_live : live h' D' l' (block_for size) (vmalloc_next h) frs l;
  nb_frames : D' = list_to_set frs ∪ D ∧ ∀ pa, pa ∈ frs → pa ∉ D;
  nb_apart : meets_none (vmalloc_next h) (block_for size * 4096) l;
}.

Lemma take_fresh size vn base F' vn' :
  take size [] vn base F' vn' → base = vn ∧ F' = [] ∧ vn' = vn + size.
Proof. intros Ht. inversion Ht as [F1 va sz F2 HF|]; [by destruct F1|done]. Qed.

Lemma take_fresh_clear size vn base F' vn' :
  take size [] vn base F' vn' → Forall (separate (base, size)) F'.
Proof. intros Ht. destruct (take_fresh _ _ _ _ _ Ht) as (_ & -> & _). constructor. Qed.

(** The three ways [vmalloc] ends while nothing has been freed. *)
Lemma wp_new_block h D l size :
  heap_ok h [] D l → sane size → Z.of_nat (length l) + block_for size ≤ 256 →
  wp (vmalloc size) (λ r h',
    r = 0 ∧ h' = h ∨
    r = 0 ∧ vmalloc_next h' ≠ vmalloc_next h ∧ (∃ F', heap_ok h' F' D l) ∨
    ∃ D' l' frs, new_block h D l size r h' D' l' frs) h.
Proof.
  intros Hok Hsz Hroom. pose proof (pages_of_nonneg size) as Hpn. assert (Hn : 0 < block_for size) by (unfold block_for; lia).
  eapply wp_mono; [apply (wp_vmalloc h [] D l size Hok Hsz Hroom); intros base F' vn'; apply take_fresh_clear|].
  intros r h' [(-> & -> & _)|(base & F' & vn' & Htake & Hnx & Hcase)]; [by left|right].
  destruct (take_block _ _ _ _ _ _ _ _ Hok Hn Htake) as [Hb Hw _ Hfree _ _ _ _].
  destruct (take_fresh _ _ _ _ _ Htake) as (-> & -> & ->).
  destruct Hcase as [(-> & _ & Hok' & _)|(frs & l' & -> & Hlen & Hnd & Hfr & Hok' & Hl' & _)].
  - left. split; [done|]. split; [lia|]. by eexists.
  - right. exists (list_to_set frs ∪ D), l', frs. split; try done.
    + destruct Hb. unfold GUARD_SIZE. lia.
    + by eapply (post_live h h' [] D l (block_for size) _ (vmalloc_next h)).
Qed.

(** An older block stays live. *)
Lemma live_later h D l size r h' D' l' frs n base0 frs0 l0 :
  new_block h D l size r h' D' l' frs → live h D l n base0 frs0 l0 → vmalloc_next h ≤ vmalloc_next h' →
  ∃ l1, live h' D' l' n base0 frs0 l1.
Proof.
  intros [_ _ _ _ [_ _ _ _ _ Hl'] [-> _] _] [Hb Hw Hlen Hnd Hin Hl] Hle.
  eexists (_ ++ l0). split; [done| |done|done| |].
  - destruct Hw as (H1 & H2 & H3 & H4 & H5). unfold in_window. split_and!; try done. lia.
  - intros pa Hpa. apply elem_of_union. right. by apply Hin.
  - rewrite Hl', Hl. rewrite (app_assoc _ _ l0), (Permutation_app_comm (page_region_of (block_for size) _ <$> _)), <-app_assoc. done.
Qed.
End heap.

(** ** A structure that is not queued *)

Lemma rq_rep_frame s t q ts :
  rq_rep s t q → (∀ b, b ∈ q → ts !! b = etasks s !! b) → rq_rep (set_etasks ts s) t q.
Proof.
  intros [Hwh Hrb Hbl Hda Htk Hnd Hso Hlm Hpo Hnr Hlo] Heq. split; simpl; try done.
  - rewrite Forall_forall in *. intros b Hb. unfold task_ok. rewrite Heq by done. by apply Htk.
  - eapply ordered_frame; [|exact Hso]. intros b Hb. unfold vr. by rewrite Heq.
  - rewrite Hlo. symmetry. apply total_weight_frame. intros b Hb. unfold wt. by rewrite Heq.
Qed.

Lemma with_task_twice a tk tk' A : with_task a tk' (with_task a tk A) = with_task a tk' A.
Proof. unfold with_task. simpl. by rewrite insert_insert_eq. Qed.

Section sched.
Implicit Types (s : sched) (A : queue) (a : Z) (tk : task).

(** Changing the store outside the run queue. *)
Lemma holds_tasks s0 s A ts :
  holds s0 s A → (∀ b, b ∈ q_list A → ts !! b = q_tasks A !! b) →
  holds s0 (set_tasks ts s) (Queue (q_list A) ts (q_min A)).
Proof.
  intros (([t Hr] & Hts & Hm) & Hl & Hc & Hp) Heq. split_and!; [|done..].
  split; [|done]. exists t. apply rq_rep_frame; [exact Hr|]. by rewrite Hts.
Qed.

Lemma wp_clear s0 s A a (Q : unit → sched → Prop) :
  holds s0 s A → a ∉ q_list A →
  (∀ s', holds s0 s' (with_task a task_zero A) → Q tt s') → wp (clear_task a) Q s.
Proof.
  intros Hh Ha HQ. apply wp_modify, HQ. pose proof Hh as ((_ & Hts & _) & _).
  change (tasks s) with (etasks (eev s)). rewrite Hts.
  apply (holds_tasks s0 s A (<[a := task_zero]> (q_tasks A)) Hh). intros b Hb. apply lookup_insert_ne. by intros ->.
Qed.

Lemma wp_new_write f s0 s A a tk (Q : unit → sched → Prop) :
  holds s0 s (with_task a tk A) → a ∉ q_list A →
  (∀ s', holds s0 s' (with_task a (f tk) A) → Q tt s') → wp (twr f (Some a)) Q s.
Proof.
  intros Hh Ha HQ. eapply wp_twr; [rewrite (holds_lookup _ _ _ _ Hh); apply lookup_insert_eq|]. apply HQ.
  rewrite <-(with_task_twice a tk (f tk) A). pose proof Hh as ((_ & Hts & _) & _).
  change (tasks s) with (etasks (eev s)). rewrite Hts.
  apply (holds_tasks s0 s _ (<[a := f tk]> (q_tasks (with_task a tk A))) Hh).
  intros b Hb. apply lookup_insert_ne. by intros ->.
Qed.

Lemma wp_new_read {B} (f : task → B) s0 s A a tk (Q : B → sched → Prop) :
  holds s0 s (with_task a tk A) → Q (f tk) s → wp (trd f (Some a)) Q s.
Proof. intros Hh. apply (wp_task_read f s0 s (with_task a tk A) a tk); [done|apply lookup_insert_eq]. Qed.

(** The structure is gone again. *)
Lemma wp_forget s0 s A a tk (Q : unit → sched → Prop) :
  holds s0 s (with_task a tk A) → q_tasks A !! a = None → a ∉ q_list A →
  (∀ s', holds s0 s' A → Q tt s') → wp (modify (λ s, set_tasks (delete a (tasks s)) s)) Q s.
Proof.
  intros Hh Hn Ha HQ. apply wp_modify, HQ. pose proof Hh as ((_ & Hts & _) & _).
  change (tasks s) with (etasks (eev s)). rewrite Hts. cbn [q_tasks with_task].
  rewrite delete_insert_id by done. destruct A as [q ts m].
  apply (holds_tasks s0 s _ ts Hh). intros b Hb. symmetry. apply lookup_insert_ne. by intros ->.
Qed.

(** ** On top of the list *)

Lemma wp_link_task s0 s A a tk l (Q : unit → sched → Prop) :
  holds s0 s A → q_tasks A !! a = Some tk → prev tk = None → a ∉ l → NoDup l →
  linked (q_tasks A) None (task_list s0) l →
  (∀ s' A', holds (set_task_list (Some a) s0) s' A' → q_list A' = q_list A →
     same_core (q_tasks A) (q_tasks A') → linked (q_tasks A') None (Some a) (a :: l) →
     q_tasks A' !! a = Some (set_next (task_list s0) tk) → Q tt s') →
  wp (link_task (Some a)) Q s.
Proof.
  intros Hh Ha Hpv Hnl Hnd Hl HQ. unfold link_task. pose proof Hh as (_ & Etl & _).
  apply wp_bind, wp_gets. rewrite Etl.
  apply wp_bind, (wp_task_write _ s0 s A a tk); [done..|]. intros s1 Hh1. set (tk1 := set_next (task_list s0) tk) in *.
  assert (Ha1 : q_tasks (with_task a tk1 A) !! a = Some tk1) by apply lookup_insert_eq.
  assert (Hc1 : same_core (q_tasks A) (q_tasks (with_task a tk1 A))) by by eapply same_core_insert.
  assert (Hl1 : lseg (q_tasks (with_task a tk1 A)) None (task_list s0) l None).
  { eapply lseg_frame; [|by apply linked_lseg]. intros b Hb. apply lookup_insert_ne. by intros ->. }
  destruct l as [|b l]; simpl in Hl1.
  - rewrite Hl1 in *. cbn [is_null]. apply wp_bind, wp_ret, wp_modify.
    apply (HQ _ (with_task a tk1 A)); [|done|done| |done].
    + destruct Hh1 as (H1 & H2 & H3 & H4). by split_and!.
    + apply linked_lseg. split; [done|]. exists tk1. split_and!; [done|done|]. simpl. done.
  - apply list.NoDup_cons in Hnd as [Hbl _].
    destruct (lseg_rehead _ None (Some a) _ b l None Hl1 Hbl) as (Etl0 & tb & Hb & Hl2).
    rewrite Etl0. cbn [is_null].
    assert (Hne : b ≠ a) by (intros ->; apply Hnl; by left).
    apply wp_bind, (wp_task_write _ s0 s1 (with_task a tk1 A) b tb); [done..|]. intros s2 Hh2. apply wp_modify.
    apply (HQ _ (with_task b (set_prev (Some a) tb) (with_task a tk1 A))); [|done| | |].
    + destruct Hh2 as (H1 & H2 & H3 & H4). by split_and!.
    + etransitivity; [exact Hc1|]. by eapply same_core_insert.
    + apply linked_lseg. split; [done|]. exists tk1. cbn [q_tasks with_task] in *.
      rewrite lookup_insert_ne by done. split_and!; [done|done|].
      change (next tk1) with (task_list s0). by rewrite Etl0 in *.
    + cbn [q_tasks with_task]. rewrite lookup_insert_ne by done. by rewrite lookup_insert_eq.
Qed.

(** ** Queued and listed *)

(** The invariant of the scheduler, whether there is an idle task or not yet. *)
Definition loose_inv s A : Prop :=
  represents (eev s) A ∧ settled (q_tasks A) (q_list A) (current_task s) ∧
  match current_task s with
  | Some c => ∃ tk, q_tasks A !! c = Some tk ∧ state tk ≠ TASK_READY
  | None => True
  end.
Lemma sched_loose s A : sched_inv s A ↔ loose_inv s A ∧ has_idle (q_tasks A) (task_list s).
Proof. unfold sched_inv, loose_inv. rewrite tasks_ok_settled. tauto. Qed.

(** The state after the new structure [tk] at [a] was queued and listed. *)
Record entered s0 A a tk l s' A' : Prop := {
  en_inv : loose_inv s' A';
  en_idle : has_idle (q_tasks A) (task_list s0) → has_idle (q_tasks A') (task_list s');
  en_current : current_task s' = current_task s0;
  en_pids : pids s' = pids s0;
  en_list : task_list s' = Some a ∧ linked (q_tasks A') None (Some a) (a :: l);
  en_queue : q_list A' = q_list (enqueue_spec a (with_task a tk A)) ∧ q_list A' ≡ₚ a :: q_list A;
  en_self : q_tasks A' !! a = Some (set_next (task_list s0) (set_vruntime (Z.max (vruntime tk) (q_min A)) tk));
  en_others : ∀ b, b ≠ a → core <$> q_tasks A' !! b = core <$> q_tasks A !! b;
}.

Lemma first_pid_same ts ts' n l : (∀ b, b ∈ l → ts' !! b = ts !! b) → first_pid ts' n l = first_pid ts n l.
Proof.
  induction l as [|b l IH]; intros H; simpl; [done|]. rewrite H by left. rewrite IH; [done|]. intros c Hc. apply H. by right.
Qed.
Lemma linked_lookup ts pp p l b : linked ts pp p l → b ∈ l → is_Some (ts !! b).
Proof.
  revert pp p. induction l as [|c l IH]; intros pp p; simpl; [by intros _ ?%elem_of_nil|].
  intros (_ & tk & Hc & _ & Hl) [->|Hb]%elem_of_cons; [by eexists|by eapply IH].
Qed.

(** A ready structure joins the others. *)
Lemma settled_join ts q r a tk q' :
  settled ts q r → a ∉ q → nice_ok tk → state tk = TASK_READY → pid tk ≠ 0 →
  q' ≡ₚ a :: q → settled (<[a := tk]> ts) q' r.
Proof.
  intros [Hn Hr Hu] Haq Hnice Hst Hpid Hq. split.
  - intros b tb. destruct (decide (b = a)) as [->|Hb].
    + rewrite lookup_insert_eq. by intros [= <-].
    + rewrite lookup_insert_ne by done. apply Hn.
  - intros b tb. rewrite Hq, elem_of_cons. destruct (decide (b = a)) as [->|Hb].
    + rewrite lookup_insert_eq. intros [= <-]. tauto.
    + rewrite lookup_insert_ne by done. intros Hb0. rewrite <-(Hr b tb Hb0). tauto.
  - intros b tb. destruct (decide (b = a)) as [->|Hb].
    + rewrite lookup_insert_eq. intros [= <-]. rewrite Hst. discriminate.
    + rewrite lookup_insert_ne by done. apply Hu.
Qed.

Lemma wp_enter s0 s A a tk l (Q : unit → sched → Prop) :
  loose_inv s0 A → holds s0 s (with_task a tk A) → q_tasks A !! a = None →
  nice_ok tk → state tk = TASK_READY → pid tk ≠ 0 → prev tk = None →
  linked (q_tasks A) None (task_list s0) l → NoDup l → (length (q_list A) < 64)%nat →
  (∀ s' A', entered s0 A a tk l s' A' → Q tt s') →
  wp (on_eev (eevdf_enqueue (Some a))) (λ _ s2, wp (link_task (Some a)) Q s2) s.
Proof.
  intros Hinv Hh Hfr Hnice Hst Hpid Hpv Hl Hnd Hlen HQ. pose proof Hinv as ((_ & _ & _) & Hok & Hcur).
  assert (Haq : a ∉ q_list A).
  { destruct Hinv as (([t Hr] & Hts & _) & _). intros Hin. pose proof (rr_tasks _ _ _ Hr) as Htk.
    rewrite Forall_forall, Hts in Htk. specialize (Htk a Hin). unfold task_ok in Htk. by rewrite Hfr in Htk. }
  assert (Hal : ∀ b, b ∈ l → b ≠ a) by (intros b Hb ->; destruct (linked_lookup _ _ _ _ _ Hl Hb) as [x Hx]; congruence).
  set (A1 := with_task a tk A) in *. set (A2 := enqueue_spec a A1).
  assert (Ha1 : q_tasks A1 !! a = Some tk) by apply lookup_insert_eq.
  apply (wp_on_eev _ s0 s A1 (λ _ A', A' = A2)); [done| |].
  { eapply wp_mono; [by apply (wp_enqueue (eev s) A1 a tk); [apply Hh| | |]|]. intros [] e He. by exists A2. }
  intros [] ? s2 Hh2 ->. set (tk2 := set_vruntime (Z.max (vruntime tk) (q_min A)) tk).
  assert (HA2 : q_tasks A2 = <[a := tk2]> (q_tasks A)).
  { unfold A2, enqueue_spec. rewrite Ha1, Hst. cbn [q_tasks q_min A1 with_task]. simpl. by rewrite insert_insert_eq. }
  destruct (enqueue_spec_shape a A1 tk Ha1 Hst Hlen) as (Hq2 & _ & _). fold A2 in Hq2. change (q_list A1) with (q_list A) in Hq2.
  assert (Hok2 : settled (q_tasks A2) (q_list A2) (current_task s0)).
  { rewrite HA2. by apply (settled_join (q_tasks A) (q_list A)). }
  assert (Hl2 : linked (q_tasks A2) None (task_list s0) l).
  { eapply linked_frame; [|exact Hl]. intros b Hb. rewrite HA2, lookup_insert_ne; [done|]. intros <-. by apply (Hal a). }
  apply (wp_link_task s0 s2 A2 a tk2 l); [done|by rewrite HA2, lookup_insert_eq|done|by intros Hin; apply (Hal a)|done|done|].
  intros s' A' Hh3 Hq3 Hco Hl3 Hself. apply (HQ s' A'). destruct Hh3 as (Hr3 & Etl & Ecur & Epid). simpl in Etl, Ecur, Epid.
  split; [| |done|done|by rewrite Etl|by rewrite Hq3|done|].
  - split; [done|]. rewrite Ecur, Hq3. split; [by eapply settled_core|].
    destruct (current_task s0) as [c|]; [|done]. destruct Hcur as (tc & Hc & Hsc).
    assert (c ≠ a) by congruence. specialize (Hco c). rewrite HA2, lookup_insert_ne, Hc in Hco by done.
    destruct (q_tasks A' !! c) as [tc'|]; [|done]. exists tc'. split; [done|].
    apply (inj Some), core_fields in Hco as (_ & Hs & _). congruence.
  - intros (l0 & Hl0 & _ & Hi). rewrite Etl. exists (a :: l). split; [done|]. split.
    + apply list.NoDup_cons. split; [|done]. intros Hin. by apply (Hal a).
    + pose proof (first_pid_skip _ 0 [] a l _ Hself Hpid) as E. simpl app in E. rewrite E.
      rewrite <-(first_pid_core (q_tasks A2)) by done. rewrite HA2.
      rewrite (first_pid_same (q_tasks A)) by (intros b Hb; apply lookup_insert_ne; intros <-; by apply (Hal a)).
      by rewrite (linked_det _ _ _ _ _ Hl Hl0).
  - intros b Hb. rewrite <-(Hco b), HA2. by rewrite lookup_insert_ne.
Qed.
End sched.

(** ** task_create *)

Lemma wp_run {S A} (m : ST S A) (Q : A → S → Prop) s :
  wp m Q s → wp m (λ a s', Q a s' ∧ m s = Some (a, s')) s.
Proof. intros (a & s' & Hrun & HQ). by exists a, s'. Qed.

Section create.
Context {M : Type} `{MO : !MmuOps M, FO : !FrameOps M, FL : !FrameLaws M}.
Context (wrapper_code exit_code idle_code : Z).
Implicit Types (w : world M) (h : kheap M) (A : queue) (D : gset Z) (l : list Vmm.vma).

(** The scheduler and a heap from which nothing was freed yet; every task
    structure is at the start of a region. *)
Record world_ok w A D l : Prop := {
  wk_sched : loose_inv (wsched w) A;
  wk_pids : pid_ok (pids (wsched w));
  wk_heap : heap_ok (wheap w) [] D l;
  wk_homes : ∀ a, is_Some (q_tasks A !! a) → ∃ v, v ∈ l ∧ Vmm.vma_va v = a ∧ 0 < Vmm.vma_size v;
}.

(** The heap cannot serve the structure, or not the stack after it. *)
Definition no_memory h : Prop :=
  (∃ h', vmalloc sizeof_task h = Some (0, h')) ∨
  ∃ a h1 h2, vmalloc sizeof_task h = Some (a, h1) ∧ a ≠ 0 ∧ vmalloc KERNEL_STACK_SIZE h1 = Some (0, h2).
(** The stack gets a range of addresses, and then not all its frames. *)
Definition stack_oom h : Prop :=
  ∃ a h1 h2, vmalloc sizeof_task h = Some (a, h1) ∧ a ≠ 0 ∧
    vmalloc KERNEL_STACK_SIZE h1 = Some (0, h2) ∧ vmalloc_next h2 ≠ vmalloc_next h1.

(** x0..x30, sp, pc and the processor state that the first switch to the task
    loads: the entry point in x19, its three arguments behind it, [task_exit] as
    the return address, the end of the stack, [task_entry_wrapper]. *)
Definition first_regs (ks entry : Z) (args : option task_args) : list Z :=
  repeat 0 19 ++
  (entry :: match args with Some a => [u64 (argc a); argv a; envp a] | None => [0; 0; 0] end) ++
  repeat 0 7 ++ [exit_code; ks + 16384; wrapper_code; 0x345].

Definition new_task (p prio ks pgd0 : Z) (c : cpu_context) : task := {|
  pid := p; state := TASK_READY; priority := Z.max (-20) (Z.min 19 prio); time_slice := EEVDF_TIME_SLICE_NS;
  vruntime := 0; context := c; kernel_stack := ks; pgd := pgd0; next := None; prev := None |}.

(** Nothing but address space is gone. *)
Record refused w A D l w' : Prop := {
  rf_queue : represents (eev (wsched w')) A;
  rf_list : task_list (wsched w') = task_list (wsched w);
  rf_current : current_task (wsched w') = current_task (wsched w);
  rf_pids : pid_ok (pids (wsched w')) ∧ ∀ j, 0 ≤ j → pid_used (pids (wsched w')) j = pid_used (pids (wsched w)) j;
  rf_heap : ∃ F, heap_ok (wheap w') F D l;
  rf_reason : no_memory (wheap w) ∨ ∀ j, 0 < j < MAX_PID → pid_used (pids (wsched w)) j = true;
}.

(** The task at [a], with pid [p] and stack [ks], is there. *)
Record created w A D l (entry prio : Z) (args : option task_args) (ts : list Z) (a p ks : Z) w' A' D' l' : Prop := {
  ct_world : world_ok w' A' D' l';
  ct_pid : 0 < p < MAX_PID ∧ pid_used (pids (wsched w)) p = false ∧
    (∀ j, 0 < j < p → pid_used (pids (wsched w)) j = true) ∧
    ∀ j, 0 ≤ j → pid_used (pids (wsched w')) j = if j =? p then true else pid_used (pids (wsched w)) j;
  ct_fresh : q_tasks A !! a = None;
  ct_room : Z.of_nat (length l') = Z.of_nat (length l) + 9;
  ct_entered : entered (set_pids (pids (wsched w')) (wsched w)) A a
    (new_task p prio ks (mmu_ttbr1 (Vmm.mmu (vm (wheap w')))) (first_regs ks entry args))
    ts (wsched w') A';
  ct_blocks : ∃ f1 f2 l1 l2,
    live (wheap w') D' l' (block_for sizeof_task) (a - GUARD_SIZE) f1 l1 ∧
    live (wheap w') D' l' (block_for KERNEL_STACK_SIZE) (ks - GUARD_SIZE) f2 l2;
}.

Lemma nice_of_clamp p : nice_of p = Z.max (-20) (Z.min 19 p).
Proof.
  unfold nice_of, EEVDF_MIN_NICE, EEVDF_MAX_NICE.
  destruct (Z.ltb_spec p (-20)); [lia|]. destruct (Z.ltb_spec 19 p); lia.
Qed.
Lemma clamp_ok p : EEVDF_MIN_NICE ≤ Z.max (-20) (Z.min 19 p) ≤ EEVDF_MAX_NICE.
Proof. unfold EEVDF_MIN_NICE, EEVDF_MAX_NICE. lia. Qed.

(** Rounding down to 16 bytes. *)
Lemma round16 x : 0 ≤ x < 2 ^ 64 → x mod 16 = 0 → Z.land x (u64 (Z.lnot 15)) = x.
Proof.
  intros Hx Hm. change (u64 (Z.lnot 15)) with (Z.shiftl (Z.ones 60) 4).
  rewrite (Z.div_mod x 16), Hm, Z.add_0_r, Z.mul_comm by lia. change 16 with (2 ^ 4) at 2 4.
  rewrite <-Z.shiftl_mul_pow2, <-Z.shiftl_land, Z.land_ones by lia. f_equal. apply Z.mod_small.
  split; [apply Z.div_pos; lia|apply Z.div_lt_upper_bound; lia].
Qed.

Lemma start_context_regs ks entry args :
  0 ≤ ks → ks + 16384 < 2 ^ 64 → ks mod 16 = 0 →
  start_context wrapper_code exit_code ks entry args = first_regs ks entry args.
Proof.
  intros H1 H2 H3. unfold start_context, KERNEL_STACK_SIZE.
  assert (Hu : u64 (ks + 16384) = ks + 16384) by (unfold u64; rewrite (wrap_small 64); lia).
  rewrite Hu, round16; [by destruct args|lia|]. by rewrite Z.add_mod, H3 by lia.
Qed.

Lemma sane_task : sane sizeof_task.
Proof. split; [done|]. by vm_compute. Qed.
Lemma task_pages : 0 < pages_of sizeof_task.
Proof. by vm_compute. Qed.
Lemma sane_stack : sane KERNEL_STACK_SIZE.
Proof. split; [done|]. by vm_compute. Qed.

Lemma stack_aligned h D l ks h' D' l' frs :
  new_block h D l KERNEL_STACK_SIZE ks h' D' l' frs → 0 ≤ ks ∧ ks + 16384 < 2 ^ 64 ∧ ks mod 16 = 0.
Proof.
  intros Hnb. rewrite (nb_addr _ _ _ _ _ _ _ _ _ Hnb).
  destruct (lv_block _ _ _ _ _ _ _ (nb_live _ _ _ _ _ _ _ _ _ Hnb)) as (Hb & Hm & _ & He & _).
  change (block_for KERNEL_STACK_SIZE) with 6 in He. unfold GUARD_SIZE.
  pose proof (Z.div_mod (vmalloc_next h) 4096 ltac:(lia)) as Hq. rewrite Hm, Z.add_0_r in Hq.
  split; [lia|]. split; [lia|]. rewrite Hq.
  replace (4096 * (vmalloc_next h / 4096) + 4096) with ((256 * (vmalloc_next h / 4096 + 1)) * 16) by lia.
  by apply Z.mod_mul.
Qed.

(** The structure at the new block is not one in use. *)
Lemma block_fresh w A D l size r h' D' l' frs :
  world_ok w A D l → 0 < pages_of size → new_block (wheap w) D l size r h' D' l' frs → q_tasks A !! r = None.
Proof.
  intros Hok Hsz [-> _ _ _ _ _ Hap]. destruct (q_tasks A !! _) as [tk|] eqn:E; [|done].
  destruct (wk_homes _ _ _ _ Hok _ (mk_is_Some _ _ E)) as (v & Hv & Hva & Hvs).
  specialize (Hap v Hv). exfalso. unfold VmmTree.meets, vma_end in Hap.
  apply andb_false_iff in Hap. rewrite !Z.ltb_ge in Hap. unfold block_for, GUARD_SIZE in *. lia.
Qed.

Lemma length_numbered k frs : length (numbered k frs) = length frs.
Proof. revert k. induction frs as [|pa frs IH]; intros k; simpl; [done|]. by rewrite IH. Qed.

(** It is the start of its first data page. *)
Lemma block_home h D l size r h' D' l' frs :
  0 < pages_of size → new_block h D l size r h' D' l' frs → ∃ v, v ∈ l' ∧ Vmm.vma_va v = r ∧ 0 < Vmm.vma_size v.
Proof.
  intros Hsz [-> _ _ _ [_ _ Hlen _ _ Hl'] _ _].
  destruct (numbered_full 0 frs 1) as [pa Hpa]; [unfold block_for in *; lia|].
  exists (page_region_of (block_for size) (vmalloc_next h) (1, pa)). split; [|done].
  rewrite Hl'. apply elem_of_app. left. by apply list_elem_of_fmap_2.
Qed.

Lemma block_regions h D l size r h' D' l' frs :
  new_block h D l size r h' D' l' frs → Z.of_nat (length l') = Z.of_nat (length l) + block_for size.
Proof.
  intros [_ _ _ _ [_ _ Hlen _ _ Hl'] _ _]. rewrite Hl', length_app, length_fmap, length_numbered. lia.
Qed.
Lemma new_block_keeps h D l size r h' D' l' frs v : new_block h D l size r h' D' l' frs → v ∈ l → v ∈ l'.
Proof. intros [_ _ _ _ [_ _ _ _ _ Hl'] _ _] Hv. rewrite Hl'. apply elem_of_app. by right. Qed.

(** Giving the structure back. *)
Lemma wp_free_task w (s0 : sched) A D l h tk r D' l' frs (Q : unit → world M → Prop) :
  heap_ok h [] D l → new_block h D l sizeof_task r (wheap w) D' l' frs → q_tasks A !! r = None → r ∉ q_list A →
  holds s0 (wsched w) (with_task r tk A) →
  (∀ w' F, heap_ok (wheap w') F D l → holds s0 (wsched w') A → Q tt w') →
  wp (free_task r) Q w.
Proof.
  intros Hok Hnb Hn Hq Hh HQ. pose proof Hnb as [Er _ _ Hok' Hlive [ED HD] _].
  apply wp_bind, wp_zoom. rewrite Er.
  eapply wp_mono; [apply (wp_vfree (wheap w) [] D' l' sizeof_task _ frs l Hok' sane_task Hlive); constructor|].
  intros [] h2 ((l2 & Hl2 & Hok2) & _ & _). rewrite <-Er. apply wp_zoom, (wp_forget s0 _ A r tk); [done..|].
  intros s' Hs'. eapply HQ; [|exact Hs']. cbn [wheap set_wheap set_wsched].
  rewrite <-(regions_perm l2 l); [|eapply vabs_regions, hk_vm, Hok2|eapply vabs_regions, hk_vm, Hok|done].
  replace D with (D' ∖ list_to_set frs); [exact Hok2|]. rewrite ED. apply leibniz_equiv. intros pa.
  rewrite elem_of_difference, elem_of_union, elem_of_list_to_set. specialize (HD pa). tauto.
Qed.

(** The unused pids are the same after a pid was taken and freed. *)
Lemma pid_back p0 p1 p2 p :
  (∀ j, 0 ≤ j → pid_used p1 j = if j =? p then true else pid_used p0 j) → pid_used p0 p = false →
  (∀ j, 0 ≤ j → pid_used p2 j = if j =? p then false else pid_used p1 j) →
  ∀ j, 0 ≤ j → pid_used p2 j = pid_used p0 j.
Proof. intros H1 Hp H2 j Hj. rewrite H2, H1 by done. by destruct (Z.eqb_spec j p) as [->|]. Qed.

(** The second half: the pid [p] is the task's, and the stack is next. *)
Section second_half.
Variables (w w1 : world M) (A : queue) (D D1 : gset Z) (l l1 : list Vmm.vma) (frs : list Z) (a p entry prio : Z).
Variables (args : option task_args) (ts : list Z).
Hypothesis (Hok : world_ok w A D l) (Hroom : Z.of_nat (length l) + 9 ≤ 256) (Hoom : ¬ stack_oom (wheap w)).
Hypothesis (Hentry : entry ≠ 0) (Hlen : (length (q_list A) < 64)%nat).
Hypothesis (Hts : linked (q_tasks A) None (task_list (wsched w)) ts) (Hnd : NoDup ts).
Hypothesis (Hnb : new_block (wheap w) D l sizeof_task a (wheap w1) D1 l1 frs).
Hypothesis (Hrun : vmalloc sizeof_task (wheap w) = Some (a, wheap w1)).
Hypothesis (Hpids : pid_ok (pids (wsched w1))) (Hp : 0 < p < MAX_PID) (Hfree : pid_used (pids (wsched w)) p = false).
Hypothesis (Hleast : ∀ j, 0 < j < p → pid_used (pids (wsched w)) j = true).
Hypothesis (Hbits : ∀ j, 0 ≤ j → pid_used (pids (wsched w1)) j = if j =? p then true else pid_used (pids (wsched w)) j).

Let s1 := set_pids (pids (wsched w1)) (wsched w).
Definition half_task : task := {|
  pid := p; state := TASK_READY; priority := Z.max (-20) (Z.min 19 prio); time_slice := EEVDF_TIME_SLICE_NS;
  vruntime := 0; context := ctx_zero; kernel_stack := 0; pgd := 0; next := None; prev := None |}.

Lemma half_fresh : q_tasks A !! a = None ∧ a ∉ q_list A.
Proof.
  assert (Hf : q_tasks A !! a = None) by (eapply block_fresh; [exact Hok|exact task_pages|exact Hnb]).
  split; [done|]. destruct (wk_sched _ _ _ _ Hok) as (([t Hr] & Ht & _) & _). intros Hin.
  pose proof (rr_tasks _ _ _ Hr) as Htk. rewrite Forall_forall, Ht in Htk. specialize (Htk a Hin).
  unfold task_ok in Htk. by rewrite Hf in Htk.
Qed.

(** No stack: the pid and the structure go back. *)
Lemma wp_no_stack ww tk (Q : ptr → world M → Prop) :
  wheap ww = wheap w1 → holds s1 (wsched ww) (with_task a tk A) → pid tk = p →
  (∃ h2, vmalloc KERNEL_STACK_SIZE (wheap w1) = Some (0, h2)) →
  (∀ w', refused w A D l w' → Q None w') →
  wp (p ← on_sched (trd pid (Some a)); on_sched (on_pids (pid_free p));; free_task a;; mret None) Q ww.
Proof.
  intros Hh Hs Htk [h2 Hno] HQ. destruct half_fresh as [Hf Hq].
  apply wp_bind, wp_zoom, (wp_new_read pid s1 _ A a tk); [done|]. rewrite Htk.
  apply wp_bind, wp_zoom, wp_zoom. pose proof Hs as (Hr & Hl & Hc & Hpd).
  cbn [wsched set_wsched]. rewrite Hpd.
  eapply wp_mono; [by apply wp_pid_free|]. intros [] p2 (Hpok & _ & Hb2).
  apply wp_bind. eapply (wp_free_task _ (set_pids p2 s1) A D l (wheap w) tk a D1 l1 frs);
    [apply Hok|cbn [wheap set_wsched]; by rewrite Hh|done|done|by split_and!|].
  intros w' F HF (Hr' & Hl' & Hc' & Hp'). apply wp_ret, HQ. simpl in Hl', Hc', Hp'.
  split; [done|done|done| |by exists F|].
  - rewrite Hp'. split; [done|]. apply (pid_back _ (pids (wsched w1)) _ p); [done|done|].
    intros j Hj. rewrite Hb2 by (lia || done). done.
  - left. right. exists a, (wheap w1), h2. split_and!; [done| |done]. pose proof (nb_positive _ _ _ _ _ _ _ _ _ Hnb). lia.
Qed.

(** With a stack. *)
Lemma wp_with_stack ww ks D2 l2 frs2 (Q : ptr → world M → Prop) :
  new_block (wheap w1) D1 l1 KERNEL_STACK_SIZE ks (wheap ww) D2 l2 frs2 →
  holds s1 (wsched ww) (with_task a (set_kernel_stack ks half_task) A) →
  (∀ w' A' D' l', created w A D l entry prio args ts a p ks w' A' D' l' → Q (Some a) w') →
  wp (pgd0 ← on_heap (on_vm (Vmm.on_mmu mmu_get_ttbr1));
      on_sched (twr (set_pgd pgd0) (Some a));;
      when (negb (entry =? 0)) (on_sched (
        ks ← trd kernel_stack (Some a);
        twr (set_context (start_context wrapper_code exit_code ks entry args)) (Some a);;
        on_eev (eevdf_enqueue (Some a))));;
      on_sched (link_task (Some a));;
      mret (Some a)) Q ww.
Proof.
  intros Hnb2 Hs HQ. destruct half_fresh as [Hf Hq]. pose proof (wk_sched _ _ _ _ Hok) as Hinv.
  apply wp_bind, wp_zoom, wp_zoom, wp_zoom, wp_gets.
  assert (Hw : set_wheap (set_vm (Vmm.set_mmu (Vmm.mmu (vm (wheap ww))) (vm (wheap ww))) (wheap ww)) ww = ww)
    by (by destruct ww as [? [? ? ? ? ? ? ? ? []]]).
  rewrite Hw. clear Hw. set (g := mmu_ttbr1 (Vmm.mmu (vm (wheap ww)))).
  apply wp_bind, wp_zoom, (wp_new_write (set_pgd g) s1 _ A a (set_kernel_stack ks half_task)); [done..|]. intros s2 Hs2.
  apply wp_bind. rewrite (proj2 (Z.eqb_neq entry 0)) by done. cbn [negb when].
  apply wp_zoom. cbn [wsched set_wsched].
  apply wp_bind, (wp_new_read kernel_stack s1 s2 A a _ _ Hs2).
  change (kernel_stack (set_pgd g (set_kernel_stack ks half_task))) with ks.
  rewrite start_context_regs.
  2-4: destruct (stack_aligned _ _ _ _ _ _ _ _ Hnb2) as (? & ? & ?); done.
  set (c := first_regs ks entry args).
  apply wp_bind, (wp_new_write (set_context c) s1 s2 A a (set_pgd g (set_kernel_stack ks half_task))); [done..|].
  intros s3 Hs3. eapply wp_mono.
  { eapply (wp_enter s1 s3 A a (new_task p prio ks g c) ts (λ _ s4, ∃ A4, entered s1 A a (new_task p prio ks g c) ts s4 A4));
      [exact Hinv|exact Hs3|done|apply clamp_ok|done|simpl; lia|done|done|done|done|].
    intros s' A' He. by exists A'. }
  cbv beta. intros [] s4 Hlink. apply wp_bind, wp_zoom. cbn [wsched set_wsched].
  eapply wp_mono; [exact Hlink|]. intros [] s5 (A5 & He). apply wp_ret.
  apply (HQ _ A5 D2 l2). split.
  - split.
    + apply He.
    + cbn [wsched set_wsched]. by rewrite (en_pids _ _ _ _ _ _ _ He).
    + apply Hnb2.
    + intros b [tb Hb]. destruct (decide (b = a)) as [->|Hne].
      * destruct (block_home _ _ _ _ _ _ _ _ _ task_pages Hnb) as (v & Hv & ? & ?).
        exists v. split; [|done]. by eapply new_block_keeps.
      * pose proof (en_others _ _ _ _ _ _ _ He b Hne) as Hco. rewrite Hb in Hco.
        destruct (q_tasks A !! b) as [tb0|] eqn:Hb0; [|done].
        destruct (wk_homes _ _ _ _ Hok b (mk_is_Some _ _ Hb0)) as (v & Hv & ? & ?).
        exists v. split; [|done]. eapply new_block_keeps; [exact Hnb2|]. by eapply new_block_keeps.
  - cbn [wsched set_wsched]. rewrite (en_pids _ _ _ _ _ _ _ He). exact (conj Hp (conj Hfree (conj Hleast Hbits))).
  - done.
  - rewrite (block_regions _ _ _ _ _ _ _ _ _ Hnb2), (block_regions _ _ _ _ _ _ _ _ _ Hnb). vm_compute (block_for _). lia.
  - cbn [wsched set_wsched wheap]. pose proof (en_pids _ _ _ _ _ _ _ He) as Ep. simpl in Ep. rewrite Ep. exact He.
  - cbn [wsched set_wsched wheap]. destruct (live_later _ _ _ _ _ _ _ _ _ _ _ _ _ Hnb2 (nb_live _ _ _ _ _ _ _ _ _ Hnb)) as [l3 Hl3].
    { rewrite (nb_next _ _ _ _ _ _ _ _ _ Hnb2). pose proof (pages_of_nonneg KERNEL_STACK_SIZE). unfold block_for. lia. }
    exists frs, frs2, l3, l1. rewrite (nb_addr _ _ _ _ _ _ _ _ _ Hnb), (nb_addr _ _ _ _ _ _ _ _ _ Hnb2).
    rewrite !Z.add_simpl_r. split; [exact Hl3|]. exact (nb_live _ _ _ _ _ _ _ _ _ Hnb2).
Qed.
End second_half.

(** How [task_create] ends. *)
Definition create_post w A D l (entry prio : Z) (args : option task_args) (ts : list Z) (r : ptr) w' : Prop :=
  match r with
  | None => refused w A D l w'
  | Some a => ∃ p ks A' D' l', created w A D l entry prio args ts a p ks w' A' D' l'
  end.

Lemma wp_task_create w A D l entry prio args ts :
  world_ok w A D l → Z.of_nat (length l) + 9 ≤ 256 → ¬ stack_oom (wheap w) → entry ≠ 0 →
  (length (q_list A) < 64)%nat → linked (q_tasks A) None (task_list (wsched w)) ts → NoDup ts →
  wp (task_create wrapper_code exit_code entry prio args) (create_post w A D l entry prio args ts) w.
Proof.
  intros Hok Hroom Hoom Hentry Hlen Hts Hnd. pose proof Hok as [Hinv Hpid Hheap _].
  assert (H3 : block_for sizeof_task = 3) by by vm_compute. assert (H6 : block_for KERNEL_STACK_SIZE = 6) by by vm_compute.
  apply wp_bind, wp_zoom.
  eapply wp_mono; [apply wp_run, (wp_new_block (wheap w) D l sizeof_task Hheap sane_task); lia|].
  intros a h1 [Hcase Hrun].
  assert (Hnone : ∀ F, a = 0 → heap_ok h1 F D l → wp (mret None) (create_post w A D l entry prio args ts) (set_wheap h1 w)).
  { intros F -> HF. apply wp_ret. split; simpl; [apply Hinv|done|done|done|by exists F|]. left. left. by exists h1. }
  destruct Hcase as [(Ha & ->)|[(Ha & _ & F & HF)|(D1 & l1 & frs & Hnb)]].
  { rewrite Ha in Hnone |- *. by apply (Hnone []). }
  { rewrite Ha in Hnone |- *. by apply (Hnone F). }
  clear Hnone. pose proof (nb_positive _ _ _ _ _ _ _ _ _ Hnb) as Hpos.
  rewrite (proj2 (Z.eqb_neq a 0)) by lia. cbv zeta.
  destruct (half_fresh w (set_wheap h1 w) A D D1 l l1 frs a Hok Hnb) as [Hf Hq].
  apply wp_bind, wp_zoom, (wp_clear (wsched w) _ A a); [by (split_and!; [apply Hinv|..])|done|]. intros s1 Hs1.
  apply wp_bind, wp_zoom, wp_zoom. cbn [wsched set_wsched]. pose proof Hs1 as (Hr1 & Hl1 & Hc1 & Hp1). rewrite Hp1.
  eapply wp_mono; [by apply wp_pid_alloc|]. intros p p1 (Hpok & Hp).
  assert (Hs1' : holds (set_pids p1 (wsched w)) (set_pids p1 s1) (with_task a task_zero A)) by by split_and!.
  apply wp_bind, wp_zoom, (wp_new_write (set_pid p) (set_pids p1 (wsched w)) _ A a task_zero); [done..|]. intros s2 Hs2.
  apply wp_bind, wp_zoom, (wp_new_read pid _ _ _ _ _ _ Hs2). change (pid (set_pid p task_zero)) with p.
  destruct Hp as [(Hp & Hfree & Hleast & Hbits)|(-> & -> & Hall)].
  2:{ (* every pid is in use *)
    change (-1 <? 0) with true. cbv iota. apply wp_bind.
    eapply (wp_free_task _ (wsched w) A D l (wheap w) (set_pid (-1) task_zero) a D1 l1 frs); [done|done|done|done| |].
    { destruct Hs2 as (? & ? & ? & ?). by split_and!. }
    intros w' F HF (Hr' & Hl' & Hc' & Hp'). apply wp_ret. split; [done|done|done|by rewrite Hp'|by exists F|by right]. }
  rewrite (proj2 (Z.ltb_ge p 0)) by lia.
  rewrite nice_of_clamp. apply wp_bind, wp_zoom. cbn [wsched set_wsched].
  do 3 (apply wp_bind; eapply wp_new_write; [eassumption|done|]; intros ? ?).
  eapply wp_new_write; [eassumption|done|]. intros s3 Hs3.
  change (holds (set_pids p1 (wsched w)) s3 (with_task a (half_task p prio) A)) in Hs3.
  apply wp_bind, wp_zoom. cbn [wheap set_wsched set_wheap].
  eapply wp_mono; [apply wp_run, (wp_new_block h1 D1 l1 KERNEL_STACK_SIZE (nb_heap _ _ _ _ _ _ _ _ _ Hnb) sane_stack)|].
  { rewrite (block_regions _ _ _ _ _ _ _ _ _ Hnb). lia. }
  intros ks h2 [Hcase2 Hrun2].
  apply wp_bind, wp_zoom, (wp_new_write (set_kernel_stack ks) (set_pids p1 (wsched w)) _ A a (half_task p prio)); [done..|]. intros s4 Hs4.
  set (w1 := {| wsched := set_pids p1 s1; wheap := h1 |}).
  destruct Hcase2 as [(-> & ->)|[(-> & Hne & _)|(D2 & l2 & frs2 & Hnb2)]].
  - apply (wp_no_stack w w1 A D D1 l l1 frs a p) with (tk := set_kernel_stack 0 (half_task p prio)); try done. by exists h1.
  - exfalso. apply Hoom. exists a, h1, h2. split_and!; [done|lia|done|done].
  - pose proof (nb_positive _ _ _ _ _ _ _ _ _ Hnb2). rewrite (proj2 (Z.eqb_neq ks 0)) by lia.
    apply (wp_with_stack w w1 A D D1 l l1 frs a p entry prio args ts) with (ks := ks) (D2 := D2) (l2 := l2) (frs2 := frs2); try done.
    intros w' A' D' l' Hc. by exists p, ks, A', D', l'.
Qed.

(** ** task_init *)

(** Static data before [task_init], over a heap that works. *)
Record unborn w D l : Prop := {
  ub_tasks : etasks (eev (wsched w)) = ∅;
  ub_pool : pool_present (eev (wsched w));
  ub_pids : pid_lock (pids (wsched w)) = 0;
  ub_current : current_task (wsched w) = None;
  ub_list : task_list (wsched w) = None;
  ub_heap : heap_ok (wheap w) [] D l;
}.

(** One task, which is idle, has pid 0 and runs. *)
Definition idle_alone w a A D l : Prop :=
  world_ok w A D l ∧ sched_inv (wsched w) A ∧ current_task (wsched w) = Some a ∧
  q_list A = [] ∧ linked (q_tasks A) None (task_list (wsched w)) [a] ∧
  (∃ tk, q_tasks A !! a = Some tk ∧ pid tk = 0 ∧ state tk = TASK_RUNNING) ∧
  (∀ b, b ≠ a → q_tasks A !! b = None) ∧
  (∀ j, 0 ≤ j → pid_used (pids (wsched w)) j = (j =? 0) || (j =? 1)).

Lemma alone_inv s A a tk :
  represents (eev s) A → current_task s = Some a → q_list A = [] → q_tasks A !! a = Some tk →
  (∀ b, b ≠ a → q_tasks A !! b = None) → pid tk = 0 → state tk = TASK_RUNNING → nice_ok tk →
  linked (q_tasks A) None (task_list s) [a] → sched_inv s A.
Proof.
  intros Hr Hc Hq Ha Ho Hp Hs Hn Hl.
  assert (Hone : ∀ b tb, q_tasks A !! b = Some tb → b = a ∧ tb = tk).
  { intros b tb Hb. destruct (decide (b = a)) as [->|Hne]; [split; congruence|]. rewrite Ho in Hb by done. done. }
  split; [done|]. split; [split|].
  - intros b tb Hb. by destruct (Hone b tb Hb) as [_ ->].
  - intros b tb Hb. destruct (Hone b tb Hb) as [_ ->]. rewrite Hq, Hs. split; [by intros ?%elem_of_nil|by intros [? _]].
  - intros b tb Hb _. destruct (Hone b tb Hb) as [-> _]. done.
  - exists [a]. split; [done|]. split; [apply NoDup_singleton|]. simpl. rewrite Ha. simpl. rewrite Hp. by eexists.
  - rewrite Hc. exists tk. split; [done|]. by rewrite Hs.
Qed.

Lemma wp_task_init w D l :
  unborn w D l → Z.of_nat (length l) + 9 ≤ 256 → ¬ stack_oom (wheap w) → idle_code ≠ 0 →
  wp (task_init wrapper_code exit_code idle_code) (λ r w',
    match r with
    | None => no_memory (wheap w)
    | Some _ => ∃ a A D' l', idle_alone w' a A D' l' ∧ Z.of_nat (length l') = Z.of_nat (length l) + 9
    end) w.
Proof.
  intros [Htasks Hpool Hlock Hcur Hlist Hheap] Hroom Hoom Hidle. unfold task_init.
  apply wp_bind, wp_zoom, wp_zoom. eapply wp_mono; [by apply wp_pid_init|]. intros [] p0 (Hp0 & Hbits).
  apply wp_bind, wp_zoom, wp_zoom. cbn [wsched set_wsched]. change (eev (set_pids p0 (wsched w))) with (eev (wsched w)).
  eapply wp_mono; [by apply wp_init|]. intros [] e0 He. rewrite Htasks in He.
  set (w0 := set_wsched (set_eev e0 (set_pids p0 (wsched w))) (set_wsched (set_pids p0 (wsched w)) w)).
  assert (Hok : world_ok w0 (Queue [] ∅ 0) D l).
  { split; [|done|done|by intros a [tk Ha]]. split; [done|]. split; [by split; intros a tk Ha|].
    change (current_task (wsched w0)) with (current_task (wsched w)). by rewrite Hcur. }
  apply wp_bind. eapply wp_mono.
  { apply (wp_task_create w0 (Queue [] ∅ 0) D l idle_code 0 None []); [done..|simpl; lia| |constructor].
    change (task_list (wsched w0)) with (task_list (wsched w)). by rewrite Hlist. }
  intros [a|] w1 Hpost; cbn [is_null].
  2:{ apply wp_ret. destruct Hpost as [_ _ _ _ _ [?|Hall]]; [done|]. specialize (Hall 1 ltac:(unfold MAX_PID; lia)).
      change (pids (wsched w0)) with p0 in Hall. by rewrite Hbits in Hall. }
  destruct Hpost as (p & ks & A1 & D1 & l1 & [Hok1 (Hp & _ & Hleast & Hbits1) _ Hroom1 Hen _]).
  set (tk0 := new_task _ _ _ _ _) in Hen. destruct Hen as [_ _ Ecur Epid [Etl Hl1] [_ Hq1] Hself Hothers].
  set (tk1 := set_next _ _) in Hself. pose proof (wk_sched _ _ _ _ Hok1) as (Hr1 & _ & _).
  assert (Hh1 : holds (wsched w1) (wsched w1) A1) by by split_and!.
  apply wp_bind, wp_zoom, wp_bind, (wp_task_write (set_pid 0) (wsched w1) _ A1 a tk1); [done..|]. intros s2 Hh2.
  apply wp_bind, (wp_dequeue_eev (wsched w1) _ (with_task a (set_pid 0 tk1) A1) a); [done|]. intros s3 Hh3.
  set (A3 := dequeue_spec a (with_task a (set_pid 0 tk1) A1)) in Hh3.
  apply wp_bind, (wp_task_write (set_state TASK_RUNNING) (wsched w1) s3 A3 a (set_pid 0 tk1)); [done|apply lookup_insert_eq|done..|].
  intros s4 Hh4. apply wp_modify. apply wp_ret. set (A4 := with_task a (set_state TASK_RUNNING (set_pid 0 tk1)) A3) in Hh4.
  assert (Hq4 : q_list A4 = []).
  { cbn [q_list A4 A3 with_task dequeue_spec]. apply Permutation_singleton_r in Hq1. rewrite Hq1.
    by rewrite filter_cons_False by tauto. }
  assert (Ho4 : ∀ b, b ≠ a → q_tasks A4 !! b = None).
  { intros b Hb. cbn [q_tasks A4 A3 with_task dequeue_spec]. rewrite !lookup_insert_ne by done.
    specialize (Hothers b Hb). simpl in Hothers. by destruct (q_tasks A1 !! b). }
  assert (Hs4 : q_tasks A4 !! a = Some (set_state TASK_RUNNING (set_pid 0 tk1))) by apply lookup_insert_eq.
  destruct Hh4 as (Hr4 & El4 & Ec4 & Ep4). rewrite Etl in El4.
  assert (Hl4 : linked (q_tasks A4) None (task_list s4) [a]).
  { rewrite El4. simpl in Hl1 |- *. destruct Hl1 as (_ & tk & Ha & Hpv & Hnx). rewrite Hself in Ha. injection Ha as <-.
    split; [done|]. by eexists. }
  assert (Hinv4 : sched_inv (set_current_task (Some a) s4) A4).
  { apply (alone_inv _ A4 a (set_state TASK_RUNNING (set_pid 0 tk1))); done || apply clamp_ok. }
  exists a, A4, D1, l1. split; [|exact Hroom1]. split; [split|].
  - by apply sched_loose.
  - cbn [wsched set_wsched pids set_current_task]. rewrite Ep4. apply Hok1.
  - apply Hok1.
  - intros b [tb Hb]. destruct (decide (b = a)) as [->|Hne]; [|rewrite Ho4 in Hb by done; done].
    apply (wk_homes _ _ _ _ Hok1). by eexists.
  - split; [done|]. split; [done|]. split; [done|]. split; [done|]. split; [by eexists|]. split; [done|].
    intros j Hj. cbn [wsched set_wsched pids set_current_task]. rewrite Ep4, Hbits1 by done.
    change (pids (wsched w0)) with p0. rewrite Hbits by done.
    assert (p = 1) as ->.
    { destruct (decide (p = 1)); [done|]. specialize (Hleast 1 ltac:(lia)).
      change (pids (wsched w0)) with p0 in Hleast. by rewrite Hbits in Hleast. }
    destruct (Z.eqb_spec j 1) as [->|]; [done|]. by rewrite orb_false_r.
Qed.
End create.
