(* ===== verification/TaskCreateClaims.v ===== *)
(** * Creating tasks: the properties *)
From stdpp Require Import base gmap list option numbers sorting.
From S2P Require Import Prelude Panic Spinlock RBHeap RBTree MmuIface Frames Vmm VmmTree VmmThm Mmu MmuThm VmmClaims FramesMmu Vmalloc VmallocThm VmallocMap VmallocAlloc VmallocClaims Bitmap Pid TaskDef Eevdf EevdfTree EevdfThm EevdfClaims Sched SchedThm SchedClaims TaskList TaskCreate TaskCreateThm.
#[local] Open Scope Z_scope.
Import Vmalloc Pid Eevdf Sched TaskCreate.

Section claims.
Context {M : Type} `{MO : !MmuOps M, FO : !FrameOps M, FL : !FrameLaws M}.
Context (wrapper_code exit_code idle_code : Z).
Implicit Types (w : world M) (A : queue) (D : gset Z) (l : list Vmm.vma).

(** C5: [task_create] with an entry point, when nothing was freed before, nine
    more regions fit in the region pool, fewer than 64 tasks are queued, and the
    frames do not run out between the pages of a stack, gives a task or NULL.
    The task: its structure and its stack are live blocks of the heap that no
    task used before; its pid is the least unused one; the register words of its
    context are 0 but for the entry point in x19, the arguments in x20..x22 (0
    where there are none), [task_exit] in x30, the end of the new stack in sp,
    [task_entry_wrapper] in pc and 0x345 as processor state; its priority is the
    one asked for, or the nearest of -20 and 19; it is ready, queued at the
    virtual time of the queue, and first in the task list.  No other task changes
    but for its links, and the invariants of scheduler, pid allocator and heap
    hold.  NULL: the memory or the pids did not suffice, no task, list or pid is
    changed, and the heap has its regions and frames back. *)
Theorem task_create_correct w A D l entry prio args ts :
  world_ok w A D l → Z.of_nat (length l) + 9 ≤ 256 → ¬ stack_oom (wheap w) → entry ≠ 0 →
  (length (q_list A) < 64)%nat → linked (q_tasks A) None (task_list (wsched w)) ts → NoDup ts →
  wp (task_create wrapper_code exit_code entry prio args)
    (create_post wrapper_code exit_code w A D l entry prio args ts) w.
Proof. apply wp_task_create. Qed.

(** C6: [task_init] on static data, over a heap from which nothing was freed,
    with nine more regions free and frames that do not run out between the pages
    of a stack, either panics, and then the heap could not serve the structure or
    the stack of a task; or it establishes the invariant of the scheduler: there is
    one task, idle, with pid 0, running, not queued, alone in the list.  The pid
    it was created with, 1, stays in use and belongs to no task. *)
Theorem task_init_correct w D l :
  unborn w D l → Z.of_nat (length l) + 9 ≤ 256 → ¬ stack_oom (wheap w) → idle_code ≠ 0 →
  wp (task_init wrapper_code exit_code idle_code) (λ r w',
    match r with
    | None => no_memory (wheap w)
    | Some _ => ∃ a A D' l', idle_alone w' a A D' l' ∧ Z.of_nat (length l') = Z.of_nat (length l) + 9
    end) w.
Proof. apply wp_task_init. Qed.
End claims.

(** ** Instances *)

(** Running the two allocations of a task. *)
Definition first_two (h : kheap Mmu.mmu) : option (Z * Z) :=
  match vmalloc sizeof_task h with
  | Some (a, h1) => match vmalloc KERNEL_STACK_SIZE h1 with Some (b, _) => Some (a, b) | None => None end
  | None => None
  end.
Lemma two_no_oom h a b : first_two h = Some (a, b) → b ≠ 0 → ¬ stack_oom h.
Proof.
  unfold first_two. intros H Hb (a' & h1 & h2 & H1 & _ & H2 & _). rewrite H1, H2 in H. by injection H as _ <-.
Qed.
Definition gives (o : option (Z * Z)) (a b : Z) : bool := bool_decide (o = Some (a, b)).
Lemma run_two h a b : gives (first_two h) a b = true → first_two h = Some (a, b).
Proof. apply bool_decide_eq_true. Qed.

Definition demo_world : world Mmu.mmu := {|
  wsched := {| eev := set_etasks ∅ demo_rq; current_task := None; task_list := None; pids := pid_static |};
  wheap := boot_heap VMALLOC_START demo_vmm |}.
Definition demo_born : world Mmu.mmu := run_state (task_init 1000 2000 3000) demo_world.

Lemma demo_two_blocks : gives (first_two (wheap demo_world)) (VMALLOC_START + 0x1000) (VMALLOC_START + 0x4000) = true.
Proof. vm_compute. reflexivity. Qed.
Lemma demo_two_more : gives (first_two (wheap demo_born)) (VMALLOC_START + 0xA000) (VMALLOC_START + 0xD000) = true.
Proof. vm_compute. reflexivity. Qed.
Lemma demo_init : returns (task_init 1000 2000 3000) (Some tt) demo_world = true.
Proof. vm_compute. reflexivity. Qed.
#[local] Opaque demo_born.

Lemma demo_unborn : unborn demo_world ∅ [].
Proof.
  split; [done|exact demo_pool|done..|]. exact (boot_heap_ok demo_vmm ∅ demo_vmm_abs).
Qed.
Lemma demo_enough : ¬ stack_oom (wheap demo_world).
Proof. apply (two_no_oom _ _ _ (run_two _ _ _ demo_two_blocks)). by vm_compute. Qed.

Lemma task_init_correct_witness :
  wp (task_init 1000 2000 3000) (λ r w',
    match r with
    | None => no_memory (wheap demo_world)
    | Some _ => ∃ a A D' l', idle_alone w' a A D' l' ∧ Z.of_nat (length l') = 0 + 9
    end) demo_world.
Proof.
  refine (task_init_correct 1000 2000 3000 demo_world ∅ [] demo_unborn _ demo_enough _); by vm_compute.
Defined.

(** The state after [task_init]. *)
Lemma demo_alone :
  ∃ a A D l, idle_alone demo_born a A D l ∧ Z.of_nat (length l) = 9.
Proof.
  assert (H : wp (task_init 1000 2000 3000) (λ r w', r = Some tt → ∃ a A D l, idle_alone w' a A D l ∧ Z.of_nat (length l) = 9) demo_world).
  { eapply wp_mono; [apply (wp_task_init 1000 2000 3000 demo_world ∅ []); [exact demo_unborn|by vm_compute|exact demo_enough|done]|].
    intros r w' Hr ->. destruct Hr as (a & A & D & l & Ha & Hl). by exists a, A, D, l. }
  by apply (wp_det _ _ _ _ _ H (returns_run _ _ _ demo_init)).
Qed.

(** A second task with one argument. *)
Lemma task_create_correct_witness :
  ∃ a A D l, idle_alone demo_born a A D l ∧
    wp (task_create 1000 2000 5000 (-30) (Some {| argc := 1; argv := 7000; envp := 0 |}))
      (create_post 1000 2000 demo_born A D l 5000 (-30) (Some {| argc := 1; argv := 7000; envp := 0 |}) [a]) demo_born.
Proof.
  destruct demo_alone as (a & A & D & l & Ha & Hl). exists a, A, D, l. split; [exact Ha|].
  destruct Ha as (Hok & _ & _ & Hq & Hlk & _).
  apply (task_create_correct 1000 2000 demo_born A D l 5000 (-30) (Some {| argc := 1; argv := 7000; envp := 0 |}) [a]).
  - exact Hok.
  - rewrite Hl. discriminate.
  - apply (two_no_oom _ _ _ (run_two _ _ _ demo_two_more)). discriminate.
  - discriminate.
  - rewrite Hq. simpl. lia.
  - exact Hlk.
  - apply NoDup_singleton.
Defined.
