(* ===== verification/Asm.v ===== *)
(** * Exception entry and context switch (arch/arm64): translation

    The assembly of exception.S and context.S, the jump at the end of [schedule]
    and the system call instruction of unistd.h, as lists of instructions over
    the registers x0..x30 and sp, the exception registers, two conditions and
    memory in 64-bit words.  [code] gives the blocks by their labels; a block that
    falls through into the next one ends with its instructions.  A C function is
    what it does to this state. *)
From stdpp Require Import base gmap list option numbers strings.
From S2P Require Import Prelude TaskDef.
#[local] Open Scope Z_scope.

Module Asm.

Record cpu := Cpu {
  xs : list Z;
  sp : Z;
  elr : Z;
  spsr : Z;
  esr : Z;
  zf : bool;
  ge : bool;
  mpidr : Z;
  words : gmap Z Z;
}.
Definition set_xs (v : list Z) (s : cpu) : cpu := Cpu v (sp s) (elr s) (spsr s) (esr s) (zf s) (ge s) (mpidr s) (words s).
Definition set_sp (v : Z) (s : cpu) : cpu := Cpu (xs s) v (elr s) (spsr s) (esr s) (zf s) (ge s) (mpidr s) (words s).
Definition set_elr (v : Z) (s : cpu) : cpu := Cpu (xs s) (sp s) v (spsr s) (esr s) (zf s) (ge s) (mpidr s) (words s).
Definition set_spsr (v : Z) (s : cpu) : cpu := Cpu (xs s) (sp s) (elr s) v (esr s) (zf s) (ge s) (mpidr s) (words s).
Definition set_zf (v : bool) (s : cpu) : cpu := Cpu (xs s) (sp s) (elr s) (spsr s) (esr s) v (ge s) (mpidr s) (words s).
Definition set_ge (v : bool) (s : cpu) : cpu := Cpu (xs s) (sp s) (elr s) (spsr s) (esr s) (zf s) v (mpidr s) (words s).
Definition set_words (v : gmap Z Z) (s : cpu) : cpu := Cpu (xs s) (sp s) (elr s) (spsr s) (esr s) (zf s) (ge s) (mpidr s) v.

(** The base of an address: sp or a general register. *)
Inductive base := BSp | BX (r : nat).
Inductive sysreg := Esr | Elr | Spsr | Mpidr.

Inductive instr :=
  | Stp (r1 r2 : nat) (b : base) (off : Z)     (* stp r1, r2, [b, #off] *)
  | Ldp (r1 r2 : nat) (b : base) (off : Z)
  | Str (r : nat) (b : base) (off : Z)
  | Ldr (r : nat) (b : base) (off : Z)
  | StpPush (r1 r2 : nat)                      (* stp r1, r2, [sp, #-16]! *)
  | LdpPop (r1 r2 : nat)                       (* ldp r1, r2, [sp], #16 *)
  | AddSp (v : Z)                              (* add/sub sp, sp, #v *)
  | AddX (r : nat) (v : Z)                     (* add r, r, #v *)
  | MovFromSp (r : nat)                        (* mov r, sp *)
  | MovToSp (r : nat)                          (* mov sp, r *)
  | MovX (r r' : nat)
  | Mrs (r : nat) (q : sysreg)
  | Msr (q : sysreg) (r : nat)
  | Lsr (r : nat) (v : Z)                      (* lsr r, r, #v *)
  | CmpX (r : nat) (v : Z)
  | CmpXX (r r' : nat)
  | AndX (r : nat) (v : Z)                     (* and r, r, #v *)
  | StrZero (r : nat) (v : Z)                  (* str xzr, [r], #v *)
  | Wait                                       (* dsb, isb, wfe *)
  | Adr (r : nat) (l : string)
  | Bl (f : string)
  | B (l : string)
  | BEq (l : string)
  | BGe (l : string)
  | Cbnz (r : nat) (l : string)
  | Br (r : nat)
  | Ret
  | Eret.

(** How a run leaves: to an address, or out of the exception with a program
    counter and a processor state. *)
Inductive exit := Jump (a : Z) | Return (pc pstate : Z).

Definition rd (r : nat) : ST cpu Z := λ s, v ← xs s !! r; Some (v, s).
Definition wr (r : nat) (v : Z) : ST cpu unit := modify (λ s, set_xs (<[r := v]> (xs s)) s).
Definition addr (b : base) (off : Z) : ST cpu Z :=
  v ← match b with BSp => gets sp | BX r => rd r end; mret (u64 (v + off)).

(** Accesses are to aligned words that are mapped. *)
Definition store (a v : Z) : ST cpu unit := λ s,
  if (a mod 8 =? 0) then match words s !! a with Some _ => Some (tt, set_words (<[a := v]> (words s)) s) | None => None end
  else None.
Definition load (a : Z) : ST cpu Z := λ s,
  if (a mod 8 =? 0) then match words s !! a with Some v => Some (v, s) | None => None end else None.
Definition save (r : nat) (b : base) (off : Z) : ST cpu unit := v ← rd r; a ← addr b off; store a v.
Definition fetch (r : nat) (b : base) (off : Z) : ST cpu unit := a ← addr b off; v ← load a; wr r v.
Definition sysreg_get (q : sysreg) (s : cpu) : Z := match q with Esr => esr s | Elr => elr s | Spsr => spsr s | Mpidr => mpidr s end.
Definition sysreg_set (q : sysreg) (v : Z) (s : cpu) : cpu :=
  match q with Elr => set_elr v s | Spsr => set_spsr v s | Esr | Mpidr => s end.

Section exec.
(** The C functions, the addresses of labels and the blocks of code. *)
Context (callee : string → ST cpu unit) (label : string → Z) (code : string → list instr).

(** An instruction that goes on to the next one. *)
Definition step (i : instr) : ST cpu unit :=
  match i with
  | Stp r1 r2 b off => save r1 b off;; save r2 b (off + 8)
  | Ldp r1 r2 b off =>
      a ← addr b off; v1 ← load a; a ← addr b (off + 8); v2 ← load a; wr r1 v1;; wr r2 v2
  | Str r b off => save r b off
  | Ldr r b off => fetch r b off
  | StpPush r1 r2 => modify (λ s, set_sp (u64 (sp s - 16)) s);; save r1 BSp 0;; save r2 BSp 8
  | LdpPop r1 r2 => fetch r1 BSp 0;; fetch r2 BSp 8;; modify (λ s, set_sp (u64 (sp s + 16)) s)
  | AddSp v => modify (λ s, set_sp (u64 (sp s + v)) s)
  | AddX r v => x ← rd r; wr r (u64 (x + v))
  | MovFromSp r => v ← gets sp; wr r v
  | MovToSp r => v ← rd r; modify (set_sp v)
  | MovX r r' => v ← rd r'; wr r v
  | Mrs r q => v ← gets (sysreg_get q); wr r v
  | Msr q r => v ← rd r; modify (sysreg_set q v)
  | Lsr r v => x ← rd r; wr r (Z.shiftr x v)
  | CmpX r v => x ← rd r; modify (set_zf (x =? v))
  | CmpXX r r' =>
      x ← rd r; y ← rd r'; modify (set_zf (x =? y));; modify (set_ge (s64 y <=? s64 x))
  | AndX r v => x ← rd r; wr r (Z.land x v)
  | StrZero r v => a ← rd r; store a 0;; wr r (u64 (a + v))
  | Wait => mret tt
  | Adr r l => wr r (label l)
  | Bl f => callee f
  | B _ | BEq _ | BGe _ | Cbnz _ _ | Br _ | Ret | Eret => undef
  end.

(** [n] bounds the branches to other blocks. *)
Fixpoint exec (n : nat) : list instr → ST cpu exit :=
  fix go (l : list instr) : ST cpu exit :=
    match l with
    | [] => undef
    | B lb :: _ => match n with O => undef | S n => exec n (code lb) end
    | BEq lb :: l =>
        z ← gets zf;
        if (z : bool) then match n with O => undef | S n => exec n (code lb) end else go l
    | BGe lb :: l =>
        g ← gets ge;
        if (g : bool) then match n with O => undef | S n => exec n (code lb) end else go l
    | Cbnz r lb :: l =>
        v ← rd r;
        if ctrue v then match n with O => undef | S n => exec n (code lb) end else go l
    | Br r :: _ => v ← rd r; mret (Jump v)
    | Ret :: _ => v ← rd 30; mret (Jump v)
    | Eret :: _ => pc ← gets elr; ps ← gets spsr; mret (Return pc ps)
    | i :: l => step i;; go l
    end.
End exec.

(** ** The blocks of exception.S *)

Definition sizeof_context : Z := 272.

(** Lines 71-96 and 155-180. *)
Definition save_frame : list instr :=
  [AddSp (- sizeof_context);
   Stp 0 1 BSp 0; Stp 2 3 BSp 16; Stp 4 5 BSp 32; Stp 6 7 BSp 48; Stp 8 9 BSp 64; Stp 10 11 BSp 80;
   Stp 12 13 BSp 96; Stp 14 15 BSp 112; Stp 16 17 BSp 128; Stp 18 19 BSp 144; Stp 20 21 BSp 160;
   Stp 22 23 BSp 176; Stp 24 25 BSp 192; Stp 26 27 BSp 208; Stp 28 29 BSp 224; Str 30 BSp 240;
   MovFromSp 9; AddX 9 sizeof_context; Str 9 BSp 248;
   Mrs 9 Elr; Str 9 BSp 256; Mrs 9 Spsr; Str 9 BSp 264].

(** Lines 103-131 and 197-225. *)
Definition restore_frame : list instr :=
  [Ldr 9 BSp 256; Msr Elr 9; Ldr 9 BSp 264; Msr Spsr 9;
   Ldp 0 1 BSp 0; Ldp 2 3 BSp 16; Ldp 4 5 BSp 32; Ldp 6 7 BSp 48; Ldp 8 9 BSp 64; Ldp 10 11 BSp 80;
   Ldp 12 13 BSp 96; Ldp 14 15 BSp 112; Ldp 16 17 BSp 128; Ldp 18 19 BSp 144; Ldp 20 21 BSp 160;
   Ldp 22 23 BSp 176; Ldp 24 25 BSp 192; Ldp 26 27 BSp 208; Ldp 28 29 BSp 224; Ldr 30 BSp 240;
   Ldr 9 BSp 248; AddSp sizeof_context; MovToSp 9; Eret].

Definition irq_handler_spx : list instr :=
  save_frame ++ [MovFromSp 0; Bl "handle_irq"] ++ restore_frame.

Definition svc_handler : list instr :=
  save_frame ++
  [MovFromSp 0; Bl "handle_svc"; Bl "should_reschedule"; CmpX 0 0; BEq ".Lsvc_no_resched";
   MovFromSp 0; Bl "schedule_preempt"] ++ restore_frame.

(** A handler that does not expect to come back. *)
Definition fatal_handler (f : string) : list instr := [StpPush 29 30; Bl f; LdpPop 29 30; Eret].

Definition sync_handler_spx : list instr :=
  [Mrs 9 Esr; Lsr 9 26; CmpX 9 0x15; BEq "svc_handler"] ++ fatal_handler "handle_sync_exception".

(** ** context.S and the jump of [schedule] *)

Definition switch_to : list instr :=
  [Stp 19 20 (BX 0) 152; Stp 21 22 (BX 0) 168; Stp 23 24 (BX 0) 184; Stp 25 26 (BX 0) 200;
   Stp 27 28 (BX 0) 216; Stp 29 30 (BX 0) 232; MovFromSp 9; Str 9 (BX 0) 248; Adr 9 "1"; Str 9 (BX 0) 256;
   Ldp 19 20 (BX 1) 152; Ldp 21 22 (BX 1) 168; Ldp 23 24 (BX 1) 184; Ldp 25 26 (BX 1) 200;
   Ldp 27 28 (BX 1) 216; Ldp 29 30 (BX 1) 232; Ldr 9 (BX 1) 248; MovToSp 9; Ldr 9 (BX 1) 256; Br 9].
Definition switch_to_1 : list instr := [Ret].

(** The compiler chose the registers [r0]..[r3] for the operands. *)
Definition jump_to (r0 r1 r2 r3 : nat) : list instr := [MovToSp r0; MovX 29 r1; MovX 30 r2; Br r3].

Definition kernel_code (l : string) : list instr :=
  if bool_decide (l = "svc_handler") then svc_handler
  else if bool_decide (l = ".Lsvc_no_resched") then restore_frame
  else if bool_decide (l = "1") then switch_to_1
  else [].

(** ** svc *)

(** The vector and the fields of ESR for a system call instruction. *)
Definition EC_SVC : Z := 0x15.
Definition svc_syndrome (imm : Z) : Z := Z.shiftl EC_SVC 26 + Z.shiftl 1 25 + imm.

(** [syscall] of unistd.h up to the exception, at the instruction at [pc] in the
    processor state [ps]. *)
Definition syscall_entry (num : Z) (args : list Z) (pc ps : Z) : ST cpu unit :=
  modify (λ s, Cpu (<[8%nat := num]> (list_inserts 0 (take 6 args) (xs s))) (sp s) (u64 (pc + 4)) ps (svc_syndrome 0) (zf s) (ge s) (mpidr s) (words s)).

End Asm.
