(* ===== verification/AsmThm.v ===== *)
(** * Exception entry and context switch: proofs

    Runs of register pairs to and from a context in memory, by induction on the
    number of pairs; from these the blocks. *)
From stdpp Require Import base gmap list option numbers strings.
From S2P Require Import Prelude TaskDef Asm.
#[local] Open Scope Z_scope.
Import Asm.

(** ** Contexts in memory *)

(** Where the words of a context at [a] are. *)
Definition word (a : Z) (i : nat) : Z := a + 8 * Z.of_nat i.
Definition ctx_addr (a : Z) : Prop := 0 ≤ a ∧ a + 272 ≤ 2 ^ 64 ∧ a mod 8 = 0.
(** All its words are mapped. *)
Definition ctx_mapped (m : gmap Z Z) (a : Z) : Prop := ∀ i, (i < 34)%nat → is_Some (m !! word a i).
Definition ctx_at (m : gmap Z Z) (a : Z) (c : list Z) : Prop := ∀ i, (i < 34)%nat → m !! word a i = c !! i.

(** Registers [lo] to [hi] were stored at [a]; nothing else changed. *)
Definition saved (l : list Z) (a : Z) (lo hi : nat) (m m' : gmap Z Z) : Prop :=
  (∀ i, (lo ≤ i < hi)%nat → m' !! word a i = l !! i) ∧
  (∀ x, (∀ i, (lo ≤ i < hi)%nat → x ≠ word a i) → m' !! x = m !! x).
(** Registers [lo] to [hi] were loaded from [c]. *)
Definition loaded (c : list Z) (lo hi : nat) (l l' : list Z) : Prop :=
  ∀ i, l' !! i = if bool_decide (lo ≤ i < hi)%nat then c !! i else l !! i.

Definition base_is (b : base) (a : Z) (s : cpu) : Prop :=
  match b with BSp => sp s = a | BX r => xs s !! r = Some a end.

Fixpoint save_pairs (b : base) (r n : nat) : list instr :=
  match n with O => [] | S n => Stp r (S r) b (8 * Z.of_nat r) :: save_pairs b (S (S r)) n end.
Fixpoint load_pairs (b : base) (r n : nat) : list instr :=
  match n with O => [] | S n => Ldp r (S r) b (8 * Z.of_nat r) :: load_pairs b (S (S r)) n end.

Lemma word_u64 a i : ctx_addr a → (i < 34)%nat → u64 (a + 8 * Z.of_nat i) = word a i.
Proof. intros (H1 & H2 & _) Hi. unfold u64, word. rewrite (wrap_small 64); lia. Qed.
Lemma word_aligned a i : ctx_addr a → (word a i mod 8 =? 0) = true.
Proof.
  intros (_ & _ & H). unfold word. rewrite (Z.mul_comm 8), Z.mod_add by lia. by apply Z.eqb_eq.
Qed.
Lemma word_inj a i j : word a i = word a j → i = j.
Proof. unfold word. lia. Qed.

Lemma wp_getx r s v (Q : Z → cpu → Prop) : xs s !! r = Some v → Q v s → wp (rd r) Q s.
Proof. intros H HQ. exists v, s. unfold rd. by rewrite H. Qed.
Lemma wp_addr b off a s (Q : Z → cpu → Prop) : base_is b a s → Q (u64 (a + off)) s → wp (addr b off) Q s.
Proof.
  intros Hb HQ. apply wp_bind. destruct b as [|r].
  - apply wp_gets, wp_ret. simpl in Hb. by rewrite Hb.
  - by apply (wp_getx r s a); [|apply wp_ret].
Qed.
Lemma wp_st64 a v s (Q : unit → cpu → Prop) :
  (a mod 8 =? 0) = true → is_Some (words s !! a) → Q tt (set_words (<[a := v]> (words s)) s) → wp (store a v) Q s.
Proof. intros Ha [w Hw] HQ. eexists tt, _. split; [|exact HQ]. unfold store. by rewrite Ha, Hw. Qed.
Lemma wp_ld64 a v s (Q : Z → cpu → Prop) :
  (a mod 8 =? 0) = true → words s !! a = Some v → Q v s → wp (load a) Q s.
Proof. intros Ha Hw HQ. exists v, s. split; [|exact HQ]. unfold load. by rewrite Ha, Hw. Qed.

(** Register [r] to and from its word. *)
Lemma wp_save r i off b a v s (Q : unit → cpu → Prop) :
  ctx_addr a → (i < 34)%nat → off = 8 * Z.of_nat i → base_is b a s → ctx_mapped (words s) a → xs s !! r = Some v →
  Q tt (set_words (<[word a i := v]> (words s)) s) → wp (save r b off) Q s.
Proof.
  intros Ha Hi -> Hb Hm Hr HQ. apply wp_bind, (wp_getx _ _ v); [done|]. apply wp_bind, (wp_addr _ _ a); [done|].
  rewrite word_u64 by done. apply wp_st64; [by apply word_aligned|by apply Hm|done].
Qed.
Lemma wp_get_word {A} i off b a v s (k : Z → ST cpu A) (Q : A → cpu → Prop) :
  ctx_addr a → (i < 34)%nat → off = 8 * Z.of_nat i → base_is b a s → words s !! word a i = Some v →
  wp (k v) Q s → wp (x ← addr b off; y ← load x; k y) Q s.
Proof.
  intros Ha Hi -> Hb Hw HQ. apply wp_bind, (wp_addr _ _ a); [done|]. rewrite word_u64 by done.
  apply wp_bind, (wp_ld64 _ v); [by apply word_aligned|done|done].
Qed.

Lemma ctx_mapped_insert m a x v : ctx_mapped m a → ctx_mapped (<[x := v]> m) a.
Proof. intros H i Hi. destruct (decide (word a i = x)) as [->|]; [rewrite lookup_insert_eq; by eexists|rewrite lookup_insert_ne by done; by apply H]. Qed.
Lemma base_words b a s m : base_is b a s → base_is b a (set_words m s).
Proof. by destruct b. Qed.

Section exec.
Context (callee : string → ST cpu unit) (label : string → Z) (code : string → list instr).
Abbreviation exec := (exec callee label code).
Abbreviation step := (step callee label).

Definition straight (i : instr) : bool :=
  match i with B _ | BEq _ | BGe _ | Cbnz _ _ | Br _ | Ret | Eret => false | _ => true end.
Lemma exec_cons n i l : straight i = true → exec n (i :: l) = (step i;; exec n l).
Proof. by destruct n, i. Qed.
Lemma wp_exec n i l (Q : exit → cpu → Prop) s :
  straight i = true → wp (step i) (λ _ s', wp (exec n l) Q s') s → wp (exec n (i :: l)) Q s.
Proof. intros Hi H. rewrite exec_cons by done. by apply wp_bind. Qed.

Lemma wp_save_pairs b a n N r rest (Q : exit → cpu → Prop) s :
  ctx_addr a → base_is b a s → ctx_mapped (words s) a → (r + 2 * n ≤ length (xs s))%nat → (length (xs s) ≤ 34)%nat →
  (∀ m', saved (xs s) a r (r + 2 * n) (words s) m' → ctx_mapped m' a → wp (exec N rest) Q (set_words m' s)) →
  wp (exec N (save_pairs b r n ++ rest)) Q s.
Proof.
  intros Ha Hb Hm Hlen H34. revert r s Hb Hm Hlen H34. induction n as [|n IH]; intros r s Hb Hm Hlen H34 HQ; simpl.
  - replace s with (set_words (words s) s) by by destruct s. apply HQ; [|done]. split; [lia|done].
  - destruct (lookup_lt_is_Some_2 (xs s) r) as [v1 H1]; [lia|]. destruct (lookup_lt_is_Some_2 (xs s) (S r)) as [v2 H2]; [lia|].
    apply wp_exec; [done|]. apply wp_bind, (wp_save r r _ b a v1); [done|lia|done|done|done|done|].
    apply (wp_save (S r) (S r) _ b a v2); [done|lia|lia|by apply base_words|by apply ctx_mapped_insert|done|].
    apply IH; [by destruct b|by do 2 apply ctx_mapped_insert|cbn [xs set_words]; lia|done|].
    intros m' [S1 S2] Hm'. cbn [xs set_words words] in *. apply HQ; [|done]. split.
    + intros i Hi. destruct (decide (S (S r) ≤ i)%nat) as [?|?]; [apply S1; lia|].
      rewrite S2 by (intros j Hj E%word_inj; lia).
      destruct (decide (i = S r)) as [->|]; [by rewrite lookup_insert_eq, H2|].
      assert (i = r) as -> by lia. rewrite lookup_insert_ne by (intros E%word_inj; lia). by rewrite lookup_insert_eq, H1.
    + intros x Hx. rewrite S2 by (intros j Hj; apply Hx; lia). rewrite !lookup_insert_ne; [done|apply not_eq_sym, Hx; lia..].
Qed.

Lemma wp_setx r v s (Q : unit → cpu → Prop) : Q tt (set_xs (<[r := v]> (xs s)) s) → wp (wr r v) Q s.
Proof. intros H. by apply wp_modify. Qed.

Lemma wp_load_pairs b a c n N r rest (Q : exit → cpu → Prop) s :
  ctx_addr a → base_is b a s → match b with BSp => True | BX k => (k < r)%nat end →
  ctx_at (words s) a c → length c = 34%nat → (r + 2 * n ≤ length (xs s))%nat → (length (xs s) ≤ 34)%nat →
  (∀ l', loaded c r (r + 2 * n) (xs s) l' → wp (exec N rest) Q (set_xs l' s)) →
  wp (exec N (load_pairs b r n ++ rest)) Q s.
Proof.
  intros Ha Hb Hs Hm Hc. revert r s Hb Hs Hm. induction n as [|n IH]; intros r s Hb Hs Hm Hlen H34 HQ; simpl.
  - replace s with (set_xs (xs s) s) by by destruct s. apply HQ. intros i. by rewrite bool_decide_false by lia.
  - destruct (lookup_lt_is_Some_2 c r) as [v1 H1]; [lia|]. destruct (lookup_lt_is_Some_2 c (S r)) as [v2 H2]; [lia|].
    apply wp_exec; [done|]. apply (wp_get_word r _ b a v1); [done|lia|done|done|by rewrite Hm by lia|].
    apply (wp_get_word (S r) _ b a v2); [done|lia|lia|done|by rewrite Hm by lia|].
    apply wp_bind, wp_setx, wp_setx. cbn [xs set_xs].
    apply IH; [|destruct b; [done|lia]|done|cbn [xs set_xs]; rewrite !length_insert; lia|cbn [xs set_xs]; by rewrite !length_insert|].
    { destruct b as [|k]; [done|]. cbn [base_is xs set_xs] in *. by rewrite !list_lookup_insert_ne by lia. }
    intros l' Hl'. cbn [xs set_xs] in *. apply HQ. intros i. rewrite Hl'.
    destruct (decide (i = r)) as [->|Hr]; [|destruct (decide (i = S r)) as [->|Hr2]].
    + rewrite bool_decide_false, bool_decide_true by lia. rewrite list_lookup_insert_ne by lia.
      rewrite list_lookup_insert_eq by lia. by symmetry.
    + rewrite bool_decide_false, bool_decide_true by lia. rewrite list_lookup_insert_eq by (rewrite length_insert; lia). by symmetry.
    + rewrite !list_lookup_insert_ne by lia.
      destruct (decide (S (S r) ≤ i < S (S r) + 2 * n)%nat); [rewrite !bool_decide_true by lia|rewrite !bool_decide_false by lia]; done.
Qed.

(** One word. *)
Lemma wp_str r i off b a v n l (Q : exit → cpu → Prop) s :
  ctx_addr a → (i < 34)%nat → off = 8 * Z.of_nat i → base_is b a s → ctx_mapped (words s) a → xs s !! r = Some v →
  wp (exec n l) Q (set_words (<[word a i := v]> (words s)) s) → wp (exec n (Str r b off :: l)) Q s.
Proof. intros. apply wp_exec; [done|]. by apply (wp_save r i off b a v). Qed.
Lemma wp_ldr r i off b a v n l (Q : exit → cpu → Prop) s :
  ctx_addr a → (i < 34)%nat → off = 8 * Z.of_nat i → base_is b a s → words s !! word a i = Some v →
  wp (exec n l) Q (set_xs (<[r := v]> (xs s)) s) → wp (exec n (Ldr r b off :: l)) Q s.
Proof. intros. apply wp_exec; [done|]. apply (wp_get_word i off b a v); [done..|]. by apply wp_setx. Qed.

(** ** Entry and return *)

(** A value goes through x9 to a word of the context. *)
Lemma wp_str9 i off a v n l (Q : exit → cpu → Prop) s :
  ctx_addr a → (i < 34)%nat → off = 8 * Z.of_nat i → sp s = a → ctx_mapped (words s) a → (9 < length (xs s))%nat →
  wp (exec n l) Q (set_words (<[word a i := v]> (words s)) (set_xs (<[9%nat := v]> (xs s)) s)) →
  wp (exec n (Str 9 BSp off :: l)) Q (set_xs (<[9%nat := v]> (xs s)) s).
Proof.
  intros Ha Hi Ho Hs Hm Hl HQ. apply (wp_str 9 i off BSp a v); [done|done|done|done|done| |done].
  by apply list_lookup_insert_eq.
Qed.
Lemma wp_mrs9 q n l (Q : exit → cpu → Prop) s :
  wp (exec n l) Q (set_xs (<[9%nat := sysreg_get q s]> (xs s)) s) → wp (exec n (Mrs 9 q :: l)) Q s.
Proof. intros H. apply wp_exec; [done|]. by apply wp_bind, wp_gets, wp_setx. Qed.

(** The context of interrupted code. *)
Definition interrupted (s : cpu) : list Z := xs s ++ [sp s; elr s; spsr s].
(** It has a stack of 272 bytes. *)
Definition stacked (s : cpu) : Prop :=
  length (xs s) = 31%nat ∧ sp s ≤ 2 ^ 64 ∧ ctx_addr (sp s - 272) ∧ ctx_mapped (words s) (sp s - 272).

(** The frame is built; x9 was used. *)
Record framed (s : cpu) (s' : cpu) : Prop := {
  fr_sp : sp s' = sp s - 272;
  fr_ctx : ctx_at (words s') (sp s') (interrupted s);
  fr_rest : ∀ x, (∀ i, (i < 34)%nat → x ≠ word (sp s - 272) i) → words s' !! x = words s !! x;
  fr_xs : length (xs s') = 31%nat;
  fr_elr : elr s' = elr s;
}.

Lemma wp_save_frame N rest (Q : exit → cpu → Prop) s :
  stacked s → sp s < 2 ^ 64 → (∀ s', framed s s' → wp (exec N rest) Q s') → wp (exec N (save_frame ++ rest)) Q s.
Proof.
  intros (Hlen & Hsp & Ha & Hm) Hsp2 HQ. set (a := sp s - 272) in *. pose proof Ha as (Ha1 & Ha2 & _).
  assert (Hu : u64 (sp s + - sizeof_context) = a) by (unfold u64, sizeof_context; rewrite (wrap_small 64); lia).
  change (save_frame ++ rest) with (AddSp (- sizeof_context) :: save_pairs BSp 0 15 ++
    Str 30 BSp 240 :: MovFromSp 9 :: AddX 9 sizeof_context :: Str 9 BSp 248 :: Mrs 9 Elr :: Str 9 BSp 256 :: Mrs 9 Spsr :: Str 9 BSp 264 :: rest).
  apply wp_exec; [done|]. apply wp_modify. rewrite Hu. set (s1 := set_sp a s).
  apply (wp_save_pairs BSp a); [done|done|done|cbn; lia|cbn; lia|]. intros m1 [S1 S2] Hm1.
  destruct (lookup_lt_is_Some_2 (xs s) 30) as [v30 H30]; [lia|].
  apply (wp_str 30 30 _ BSp a v30); [done|lia|done|done|done|done|].
  apply wp_exec; [done|]. apply wp_bind, wp_gets, wp_setx.
  apply wp_exec; [done|]. apply wp_bind, (wp_getx _ _ a); [cbn; apply list_lookup_insert_eq; lia|]. apply wp_setx. cbn [xs set_xs set_words sp set_sp s1].
  assert (Hu2 : u64 (a + sizeof_context) = sp s) by (unfold u64, sizeof_context; rewrite (wrap_small 64); lia). rewrite Hu2.
  set (s2 := set_words (<[word a 30 := v30]> m1) s1).
  change (set_xs _ _) with (set_xs (<[9%nat := sp s]> (<[9%nat := a]> (xs s2))) s2). rewrite list_insert_insert_eq.
  assert (Hm2 : ctx_mapped (words s2) a) by by apply ctx_mapped_insert.
  apply (wp_str9 31 _ a); [done|lia|done|done|done|cbn; lia|].
  set (s3 := set_words _ _). apply wp_mrs9, (wp_str9 32 _ a); [done|lia|done|done|by apply ctx_mapped_insert|cbn; rewrite length_insert; lia|].
  set (s4 := set_words _ _). apply wp_mrs9, (wp_str9 33 _ a); [done|lia|done|done|by do 2 apply ctx_mapped_insert|cbn; rewrite !length_insert; lia|].
  set (s5 := set_words _ _). apply HQ.
  assert (Hw : words s5 = <[word a 33 := spsr s]> (<[word a 32 := elr s]> (<[word a 31 := sp s]> (<[word a 30 := v30]> m1)))) by done.
  split; [done| | |cbn; rewrite !length_insert; lia|done].
  - change (sp s5) with a. intros i Hi. rewrite Hw. unfold interrupted.
    destruct (decide (i < 30)%nat).
    + rewrite !lookup_insert_ne by (intros E%word_inj; lia). rewrite S1 by lia. by rewrite lookup_app_l by lia.
    + assert (i = 30 ∨ i = 31 ∨ i = 32 ∨ i = 33)%nat as [->|[->|[->| ->]]] by lia;
        repeat (rewrite lookup_insert_eq || rewrite lookup_insert_ne by (intros E%word_inj; lia)).
      * by rewrite lookup_app_l by lia.
      * by rewrite lookup_app_r, Hlen by lia.
      * by rewrite lookup_app_r, Hlen by lia.
      * by rewrite lookup_app_r, Hlen by lia.
  - intros x Hx. rewrite Hw. rewrite !lookup_insert_ne by (apply not_eq_sym, Hx; lia). rewrite S2; [done|].
    intros i Hi. apply Hx. lia.
Qed.

Lemma loaded_length c lo hi l l' : (hi ≤ length c)%nat → (hi ≤ length l)%nat → loaded c lo hi l l' → length l' = length l.
Proof.
  intros Hc Hl H. apply dec_stable. intros Hne.
  destruct (decide (length l < length l')%nat) as [Hlt|Hlt].
  - specialize (H (length l)). rewrite bool_decide_false, (lookup_ge_None_2 l) in H by lia.
    apply lookup_ge_None in H. lia.
  - specialize (H (length l')). rewrite (lookup_ge_None_2 l') in H by lia. symmetry in H.
    case_bool_decide; apply lookup_ge_None in H; lia.
Qed.

(** The registers, the stack pointer and the exit are those of the context in
    the frame, but for x9. *)
Lemma wp_restore_frame N c (Q : exit → cpu → Prop) s :
  length (xs s) = 31%nat → ctx_addr (sp s) → ctx_at (words s) (sp s) c → length c = 34%nat →
  (∀ s', xs s' = <[9%nat := ctx_get SP c]> (take 31 c) → sp s' = ctx_get SP c → words s' = words s →
     Q (Return (ctx_get PC c) (ctx_get PSTATE c)) s') →
  wp (exec N restore_frame) Q s.
Proof.
  intros Hlen Ha Hat Hc HQ.
  assert (Hget : ∀ i, (i < 34)%nat → words s !! word (sp s) i = Some (ctx_get i c)).
  { intros i Hi. rewrite Hat by done. unfold ctx_get. destruct (lookup_lt_is_Some_2 c i) as [v Hv]; [lia|].
    change (c !! i = Some (default 0 ((c : list Z) !! i))). by rewrite Hv. }
  change restore_frame with (Ldr 9 BSp 256 :: Msr Elr 9 :: Ldr 9 BSp 264 :: Msr Spsr 9 :: load_pairs BSp 0 15 ++
    Ldr 30 BSp 240 :: Ldr 9 BSp 248 :: AddSp sizeof_context :: MovToSp 9 :: [Eret]).
  apply (wp_ldr 9 32 _ BSp (sp s) (ctx_get PC c)); [done|lia|done|done|exact (Hget 32%nat ltac:(lia))|].
  apply wp_exec; [done|]. apply wp_bind, (wp_getx _ _ (ctx_get PC c)); [apply list_lookup_insert_eq; lia|]. apply wp_modify.
  set (s1 := sysreg_set _ _ _). assert (Hl1 : length (xs s1) = 31%nat) by (cbn; by rewrite length_insert).
  apply (wp_ldr 9 33 _ BSp (sp s) (ctx_get PSTATE c)); [done|lia|done|done|exact (Hget 33%nat ltac:(lia))|].
  apply wp_exec; [done|]. apply wp_bind, (wp_getx _ _ (ctx_get PSTATE c)); [apply list_lookup_insert_eq; change (9 < length (xs s1))%nat; lia|]. apply wp_modify.
  set (s2 := sysreg_set _ _ _). assert (Hl2 : length (xs s2) = 31%nat) by (cbn [xs s2 sysreg_set set_spsr set_xs]; by rewrite length_insert).
  apply (wp_load_pairs BSp (sp s) c); [done|done|done|done|done|lia|lia|]. intros l Hl.
  assert (Hll : length l = 31%nat) by (rewrite (loaded_length c 0 30 (xs s2) l); [done|lia|lia|exact Hl]).
  apply (wp_ldr 30 30 _ BSp (sp s) (ctx_get 30 c)); [done|lia|done|done|exact (Hget 30%nat ltac:(lia))|].
  apply (wp_ldr 9 31 _ BSp (sp s) (ctx_get SP c)); [done|lia|done|done|exact (Hget 31%nat ltac:(lia))|].
  apply wp_exec; [done|]. apply wp_modify. cbn [xs set_xs].
  apply wp_exec; [done|]. apply wp_bind, (wp_getx _ _ (ctx_get SP c)); [apply list_lookup_insert_eq; rewrite length_insert; lia|].
  apply wp_modify. cut (<[30%nat := ctx_get 30 c]> l = take 31 c).
  { intros E. destruct N; apply wp_bind, wp_gets, wp_bind, wp_gets, wp_ret; apply HQ; try done; cbn [xs set_xs set_sp]; by rewrite E. }
  apply list_eq. intros i. destruct (decide (i = 30%nat)) as [->|Hi].
  - rewrite list_lookup_insert_eq by lia. rewrite lookup_take_lt by lia.
    destruct (lookup_lt_is_Some_2 c 30) as [v Hv]; [lia|].
    change (Some (default 0 ((c : list Z) !! 30%nat)) = c !! 30%nat). by rewrite Hv.
  - rewrite list_lookup_insert_ne by done. rewrite Hl. case_bool_decide.
    + by rewrite lookup_take_lt by lia.
    + rewrite lookup_take_ge by lia. apply lookup_ge_None. lia.
Qed.

(** ** The handlers *)

(** What a C function does to the frame that sp points at: [c] becomes [c'], and
    x0 is [r]. *)
Definition calls (f : string) (c c' : list Z) (r : Z) : Prop :=
  ∀ s, ctx_addr (sp s) → ctx_at (words s) (sp s) c → xs s !! 0%nat = Some (sp s) → length (xs s) = 31%nat →
    wp (callee f) (λ _ s', sp s' = sp s ∧ length (xs s') = 31%nat ∧ ctx_at (words s') (sp s') c' ∧
      xs s' !! 0%nat = Some r) s.
(** One that takes no argument and leaves the frame alone. *)
Definition asks (f : string) (c : list Z) (r : Z) : Prop :=
  ∀ s, ctx_addr (sp s) → ctx_at (words s) (sp s) c → length (xs s) = 31%nat →
    wp (callee f) (λ _ s', sp s' = sp s ∧ length (xs s') = 31%nat ∧ ctx_at (words s') (sp s') c ∧
      xs s' !! 0%nat = Some r) s.

(** The interrupted code goes on with the registers of [c], but for x9. *)
Definition resumes (c : list Z) (e : exit) (s' : cpu) : Prop :=
  e = Return (ctx_get PC c) (ctx_get PSTATE c) ∧ sp s' = ctx_get SP c ∧
  xs s' = <[9%nat := ctx_get SP c]> (take 31 c).

Lemma wp_to_c f c c' r N rest (Q : exit → cpu → Prop) s :
  calls f c c' r → ctx_addr (sp s) → ctx_at (words s) (sp s) c → length (xs s) = 31%nat →
  (∀ s', sp s' = sp s → length (xs s') = 31%nat → ctx_at (words s') (sp s') c' → xs s' !! 0%nat = Some r →
     wp (exec N rest) Q s') →
  wp (exec N (MovFromSp 0 :: Bl f :: rest)) Q s.
Proof.
  intros Hf Ha Hc Hl HQ. apply wp_exec; [done|]. apply wp_bind, wp_gets, wp_setx.
  apply wp_exec; [done|]. eapply wp_mono; [apply (Hf (set_xs (<[0%nat := sp s]> (xs s)) s))|].
  - done.
  - done.
  - apply list_lookup_insert_eq. lia.
  - cbn [xs set_xs]. by rewrite length_insert.
  - intros [] s' (H1 & H2 & H3 & H4). by apply HQ.
Qed.

Lemma wp_irq N s c :
  stacked s → sp s < 2 ^ 64 → length c = 34%nat → (∃ r, calls "handle_irq" (interrupted s) c r) →
  wp (exec N irq_handler_spx) (resumes c) s.
Proof.
  intros Hs Hsp Hc [r Hf]. apply wp_save_frame; [done|done|]. intros s1 [F1 F2 _ F4 _].
  change ([MovFromSp 0; Bl "handle_irq"] ++ restore_frame) with (MovFromSp 0 :: Bl "handle_irq" :: restore_frame).
  assert (Ha : ctx_addr (sp s1)) by (rewrite F1; by destruct Hs as (_ & _ & ? & _)).
  apply (wp_to_c _ _ _ _ _ _ _ _ Hf Ha F2 F4). intros s2 E1 E2 E3 _.
  apply (wp_restore_frame N c); [done|by rewrite E1|done|done|by intros s3 ? ? _].
Qed.

(** The system call whose handler turns the frame [interrupted s0] into [c]. *)
Lemma wp_svc N s c :
  let s0 := set_zf true (set_xs (<[9%nat := 0x15]> (xs s)) s) in
  code "svc_handler" = svc_handler → code ".Lsvc_no_resched" = restore_frame →
  stacked s → sp s < 2 ^ 64 → Z.shiftr (esr s) 26 = 0x15 → length c = 34%nat →
  (∃ r, calls "handle_svc" (interrupted s0) c r) → asks "should_reschedule" c 0 →
  wp (exec (S (S N)) sync_handler_spx) (resumes c) s.
Proof.
  intros s0 Hc1 Hc2 Hs Hsp Hesr Hc [r Hf] Hg. pose proof Hs as (Hlen & _ & Ha & _).
  apply wp_exec; [done|]. apply wp_bind, wp_gets, wp_setx.
  apply wp_exec; [done|]. apply wp_bind, (wp_getx _ _ (esr s)); [apply list_lookup_insert_eq; lia|]. apply wp_setx.
  cbn [xs set_xs]. rewrite Hesr, list_insert_insert_eq.
  apply wp_exec; [done|]. apply wp_bind, (wp_getx _ _ 0x15); [apply list_lookup_insert_eq; lia|]. apply wp_modify.
  apply wp_bind, wp_gets. change (0x15 =? 0x15) with true. cbn [zf set_zf]. rewrite Hc1.
  change (wp (exec (S N) svc_handler) (resumes c) s0).
  assert (Hs0 : stacked s0) by (destruct Hs as (? & ? & ? & ?); split_and!; try done; cbn; by rewrite length_insert).
  apply wp_save_frame; [done|done|]. intros s1 [F1 F2 _ F4 _].
  change ([MovFromSp 0; Bl "handle_svc"; Bl "should_reschedule"; CmpX 0 0; BEq ".Lsvc_no_resched";
    MovFromSp 0; Bl "schedule_preempt"] ++ restore_frame) with (MovFromSp 0 :: Bl "handle_svc" :: Bl "should_reschedule" ::
    CmpX 0 0 :: BEq ".Lsvc_no_resched" :: MovFromSp 0 :: Bl "schedule_preempt" :: restore_frame).
  assert (Ha1 : ctx_addr (sp s1)) by by rewrite F1.
  apply (wp_to_c _ _ _ _ _ _ _ _ Hf Ha1 F2 F4). intros s2 E1 E2 E3 _.
  apply wp_exec; [done|]. eapply wp_mono; [by apply (Hg s2); [rewrite E1|..]|]. intros [] s3 (G1 & G2 & G3 & G4).
  apply wp_exec; [done|]. apply wp_bind, (wp_getx _ _ 0); [done|]. apply wp_modify.
  apply wp_bind, wp_gets. change (0 =? 0) with true. cbn [zf set_zf]. rewrite Hc2.
  apply (wp_restore_frame N c); [done| |done|done|by intros s4 ? ? _].
  cbn [sp set_zf]. by rewrite G1, E1.
Qed.

(** ** switch_to *)

(** The context of a task that called [switch_to] in state [s], whose context
    was [c0] before. *)
Definition suspended (s : cpu) (c0 : list Z) : list Z :=
  take 19 c0 ++ drop 19 (xs s) ++ [sp s; label "1"] ++ drop 33 c0.

Lemma suspended_lookup s c0 i :
  length (xs s) = 31%nat → length c0 = 34%nat →
  suspended s c0 !! i = if bool_decide (19 ≤ i < 31)%nat then xs s !! i
    else if bool_decide (i = 31%nat) then Some (sp s) else if bool_decide (i = 32%nat) then Some (label "1") else c0 !! i.
Proof.
  intros Hl Hc. unfold suspended. destruct (decide (i < 19)%nat).
  - rewrite lookup_app_l by (rewrite length_take; lia). rewrite lookup_take_lt by done.
    by rewrite !bool_decide_false by lia.
  - rewrite lookup_app_r by (rewrite length_take; lia). rewrite length_take, Nat.min_l by lia.
    destruct (decide (i < 31)%nat).
    + rewrite lookup_app_l by (rewrite length_drop; lia). rewrite lookup_drop, bool_decide_true by lia. f_equal. lia.
    + rewrite lookup_app_r by (rewrite length_drop; lia). rewrite length_drop, Hl, bool_decide_false by lia.
      destruct (decide (i = 31%nat)) as [->|]; [done|]. rewrite bool_decide_false by done.
      destruct (decide (i = 32%nat)) as [->|]; [done|]. rewrite bool_decide_false by done.
      rewrite lookup_app_r by (simpl; lia). rewrite lookup_drop. f_equal. simpl. lia.
Qed.

(** Contexts that do not overlap. *)
Definition apart (p n : Z) : Prop := p + 272 ≤ n ∨ n + 272 ≤ p.
Lemma apart_words p n i j : apart p n → (i < 34)%nat → (j < 34)%nat → word p i ≠ word n j.
Proof. unfold apart, word. lia. Qed.

Record switched (p : Z) (c0 c : list Z) (s s' : cpu) : Prop := {
  sw_sp : sp s' = ctx_get SP c;
  sw_xs : ∀ i, xs s' !! i = if bool_decide (19 ≤ i < 31)%nat then c !! i
    else if bool_decide (i = 9%nat) then Some (ctx_get PC c) else xs s !! i;
  sw_ctx : ctx_at (words s') p (suspended s c0);
  sw_rest : ∀ x, (∀ i, (i < 34)%nat → x ≠ word p i) → words s' !! x = words s !! x;
}.

Lemma ctx_at_mapped m a c : ctx_at m a c → length c = 34%nat → ctx_mapped m a.
Proof. intros H Hc i Hi. rewrite H by done. apply lookup_lt_is_Some_2. lia. Qed.
Lemma ctx_at_get m a c i : ctx_at m a c → length c = 34%nat → (i < 34)%nat → m !! word a i = Some (ctx_get i c).
Proof.
  intros H Hc Hi. rewrite H by done. destruct (lookup_lt_is_Some_2 c i) as [v Hv]; [lia|].
  change (c !! i = Some (default 0 ((c : list Z) !! i))). by rewrite Hv.
Qed.

Lemma wp_switch_to N s p n c0 c (Q : exit → cpu → Prop) :
  length (xs s) = 31%nat → xs s !! 0%nat = Some p → xs s !! 1%nat = Some n →
  ctx_addr p → ctx_addr n → apart p n → ctx_at (words s) p c0 → length c0 = 34%nat →
  ctx_at (words s) n c → length c = 34%nat →
  (∀ s', switched p c0 c s s' → Q (Jump (ctx_get PC c)) s') → wp (exec N switch_to) Q s.
Proof.
  intros Hlen H0 H1 Hp Hn Hap Hc0 Hl0 Hc Hl HQ. pose proof (ctx_at_mapped _ _ _ Hc0 Hl0) as Hm.
  change switch_to with (save_pairs (BX 0) 19 6 ++ MovFromSp 9 :: Str 9 (BX 0) 248 :: Adr 9 "1" :: Str 9 (BX 0) 256 ::
    load_pairs (BX 1) 19 6 ++ Ldr 9 (BX 1) 248 :: MovToSp 9 :: Ldr 9 (BX 1) 256 :: [Br 9]).
  apply (wp_save_pairs (BX 0) p); [done|done|done|lia|lia|]. intros m1 [S1 S2] Hm1.
  apply wp_exec; [done|]. apply wp_bind, wp_gets, wp_setx. cbn [xs sp set_words set_xs].
  apply (wp_str 9 31 _ (BX 0) p (sp s)); [done|lia|done|by cbn; rewrite list_lookup_insert_ne|done|apply list_lookup_insert_eq; cbn; lia|].
  apply wp_exec; [done|]. apply wp_setx. cbn [xs sp set_words set_xs words]. rewrite list_insert_insert_eq.
  apply (wp_str 9 32 _ (BX 0) p (label "1")); [done|lia|done|by cbn; rewrite list_lookup_insert_ne|by apply ctx_mapped_insert|apply list_lookup_insert_eq; cbn; lia|].
  cbn [words set_words set_xs]. set (m2 := <[word p 32 := label "1"]> _).
  set (s2 := set_words m2 _).
  assert (Hc2 : ctx_at m2 n c).
  { intros i Hi. unfold m2. rewrite !lookup_insert_ne by (apply apart_words; [done|lia|done]).
    rewrite S2 by (intros j Hj; apply not_eq_sym, apart_words; [done|lia|done]). by apply Hc. }
  apply (wp_load_pairs (BX 1) n c); [done| |lia|done|done|cbn; rewrite length_insert; lia|cbn; rewrite length_insert; lia|].
  { cbn. by rewrite list_lookup_insert_ne. }
  intros l Hll. assert (Hlenl : length l = 31%nat).
  { rewrite (loaded_length c 19 31 (xs s2) l); [cbn; by rewrite length_insert|lia|cbn; rewrite length_insert; lia|exact Hll]. }
  assert (Hn1 : l !! 1%nat = Some n).
  { rewrite Hll, bool_decide_false by lia. cbn. by rewrite list_lookup_insert_ne. }
  apply (wp_ldr 9 31 _ (BX 1) n (ctx_get SP c)); [done|lia|done|done|by apply (ctx_at_get _ _ _ 31); [|done|lia]|].
  apply wp_exec; [done|]. apply wp_bind, (wp_getx _ _ (ctx_get SP c)); [apply list_lookup_insert_eq; cbn [xs set_xs]; lia|]. apply wp_modify.
  apply (wp_ldr 9 32 _ (BX 1) n (ctx_get PC c)); [done|lia|done|by cbn; rewrite list_lookup_insert_ne|by apply (ctx_at_get _ _ _ 32); [|done|lia]|].
  cbn [xs set_xs set_sp sp]. rewrite list_insert_insert_eq.
  assert (Hfin : switched p c0 c s (set_xs (<[9%nat := ctx_get PC c]> l) (set_sp (ctx_get SP c) (set_xs (<[9%nat := ctx_get SP c]> l) (set_xs l s2))))).
  { split; [done| | |].
    - intros i. cbn [xs set_xs]. destruct (decide (i = 9%nat)) as [->|Hi].
      + rewrite list_lookup_insert_eq by lia. done.
      + rewrite list_lookup_insert_ne, Hll by done. cbn [xs s2 set_words set_xs]. rewrite list_lookup_insert_ne by done.
        rewrite (bool_decide_false (i = 9%nat)) by done. done.
    - intros i Hi. change (m2 !! word p i = suspended s c0 !! i). rewrite suspended_lookup by done. unfold m2.
      destruct (decide (i = 32%nat)) as [->|]; [by rewrite lookup_insert_eq|]. rewrite lookup_insert_ne by (intros E%word_inj; lia).
      destruct (decide (i = 31%nat)) as [->|]; [by rewrite lookup_insert_eq|]. rewrite lookup_insert_ne by (intros E%word_inj; lia).
      rewrite (bool_decide_false (i = 31%nat)), (bool_decide_false (i = 32%nat)) by done. case_bool_decide.
      + by apply S1.
      + rewrite S2 by (intros j Hj E%word_inj; lia). by apply Hc0.
    - intros x Hx. change (m2 !! x = words s !! x). unfold m2. rewrite !lookup_insert_ne by (apply not_eq_sym, Hx; lia).
      apply S2. intros i Hi. apply Hx. lia. }
  destruct N; (apply wp_bind, (wp_getx _ _ (ctx_get PC c)); [apply list_lookup_insert_eq; lia|]; apply wp_ret; by apply HQ).
Qed.

Lemma suspended_length s c0 : length (xs s) = 31%nat → length c0 = 34%nat → length (suspended s c0) = 34%nat.
Proof. intros Hl Hc. unfold suspended. rewrite !length_app, length_take, !length_drop. cbn [length]. lia. Qed.

(** ** The jump of [schedule] *)

Lemma wp_jump_to N r0 r1 r2 r3 s spv fp lr pc (Q : exit → cpu → Prop) :
  length (xs s) = 31%nat → xs s !! r0 = Some spv → xs s !! r1 = Some fp → xs s !! r2 = Some lr → xs s !! r3 = Some pc →
  r2 ≠ 29%nat → r3 ≠ 29%nat → r3 ≠ 30%nat →
  Q (Jump pc) (set_xs (<[30%nat := lr]> (<[29%nat := fp]> (xs s))) (set_sp spv s)) →
  wp (exec N (jump_to r0 r1 r2 r3)) Q s.
Proof.
  intros Hl H0 H1 H2 H3 N2 N3 N3' HQ. unfold jump_to.
  apply wp_exec; [done|]. apply wp_bind, (wp_getx _ _ spv); [done|]. apply wp_modify.
  apply wp_exec; [done|]. apply wp_bind, (wp_getx _ _ fp); [done|]. apply wp_setx.
  apply wp_exec; [done|]. apply wp_bind, (wp_getx _ _ lr); [cbn; by rewrite list_lookup_insert_ne|]. apply wp_setx.
  destruct N; (apply wp_bind, (wp_getx _ _ pc); [cbn; by rewrite !list_lookup_insert_ne|]; by apply wp_ret).
Qed.
End exec.
