(* ===== verification/AsmClaims.v ===== *)
(** * Exception entry and context switch: the properties *)
From stdpp Require Import base gmap list option numbers strings.
From S2P Require Import Prelude TaskDef Asm AsmThm.
#[local] Open Scope Z_scope.
Import Asm.

Section claims.
Context (callee : string → ST cpu unit) (label : string → Z).
Implicit Types (s : cpu) (c : list Z).

(** C9: an interrupt taken with room for a frame below sp: [irq_handler_spx] hands
    [handle_irq] a frame that holds the interrupted registers, stack pointer, program
    counter and processor state, and returns to what the frame holds
    afterwards, be it another task's; x9 alone is not restored, it is
    left with the stack pointer. *)
Theorem irq_return_correct code N s c :
  stacked s → sp s < 2 ^ 64 → length c = 34%nat → (∃ r, calls callee "handle_irq" (interrupted s) c r) →
  wp (exec callee label code N irq_handler_spx) (λ e s', e = Return (ctx_get PC c) (ctx_get PSTATE c) ∧
    sp s' = ctx_get SP c ∧ xs s' = <[9%nat := ctx_get SP c]> (take 31 c)) s.
Proof. apply wp_irq. Qed.

(** An interrupt that switches to no other task changes x9 of the code it
    interrupts, and nothing else that the code can see. *)
Lemma irq_clobbers_x9 code N s :
  stacked s → sp s < 2 ^ 64 → (∃ r, calls callee "handle_irq" (interrupted s) (interrupted s) r) →
  wp (exec callee label code N irq_handler_spx) (λ e s', e = Return (elr s) (spsr s) ∧ sp s' = sp s ∧
    xs s' = <[9%nat := sp s]> (xs s)) s.
Proof.
  intros Hs Hsp Hf. pose proof Hs as (Hl & _). unfold interrupted in *.
  eapply wp_mono; [apply (wp_irq callee label code N s (xs s ++ [sp s; elr s; spsr s]) Hs Hsp); [|exact Hf]|].
  { rewrite length_app, Hl. done. }
  intros e s' (-> & E2 & E3).
  assert (Hg : ∀ k, ctx_get (31 + k) (xs s ++ [sp s; elr s; spsr s]) = ctx_get k [sp s; elr s; spsr s]).
  { intros k. unfold ctx_get. change (default 0 ((xs s ++ [sp s; elr s; spsr s]) !! (31 + k)%nat) = default 0 ([sp s; elr s; spsr s] !! k)).
    rewrite lookup_app_r by lia. f_equal. f_equal. lia. }
  change SP with (31 + 0)%nat in *. change PC with (31 + 1)%nat. change PSTATE with (31 + 2)%nat. rewrite !Hg in *.
  split; [done|]. split; [done|]. rewrite E3, take_app_le by lia. by rewrite take_ge by lia.
Qed.

(** The registers at a system call instruction: the number in x8 and six
    arguments. *)
Definition call_regs (num : Z) (args l : list Z) : list Z := <[8%nat := num]> (list_inserts 0 (take 6 args) l).
(** The frame that [handle_svc] finds. *)
Definition call_frame (num : Z) (args : list Z) (pc ps : Z) s : list Z :=
  <[9%nat := EC_SVC]> (call_regs num args (xs s)) ++ [sp s; u64 (pc + 4); ps].

(** C10: a [syscall] from kernel code, through the vector, [svc_handler] and back,
    when [handle_svc] stores [v] in the frame's x0 and the caller is no zombie:
    [handle_svc] finds the number and the arguments, the caller continues after
    the instruction in its processor state, on its stack, with [v] in x0, and
    with all other registers as they were but x9, which the code does not
    declare as overwritten. *)
Theorem syscall_return N s num args pc ps v :
  stacked s → sp s < 2 ^ 64 →
  (∃ r, calls callee "handle_svc" (call_frame num args pc ps s) (<[0%nat := v]> (call_frame num args pc ps s)) r) →
  asks callee "should_reschedule" (<[0%nat := v]> (call_frame num args pc ps s)) 0 →
  wp (syscall_entry num args pc ps;; exec callee label kernel_code (S (S N)) sync_handler_spx) (λ e s',
    e = Return (u64 (pc + 4)) ps ∧ sp s' = sp s ∧
    xs s' = <[9%nat := sp s]> (<[0%nat := v]> (call_regs num args (xs s)))) s.
Proof.
  intros (Hl & Hsp1 & Ha & Hm) Hsp Hf Hg. apply wp_bind, wp_modify. fold (call_regs num args (xs s)).
  set (s1 := Cpu _ _ _ _ _ _ _ _ _).
  assert (Hl1 : length (call_regs num args (xs s)) = 31%nat) by (unfold call_regs; by rewrite length_insert, length_inserts).
  assert (Hlf : length (call_frame num args pc ps s) = 34%nat) by (unfold call_frame; rewrite length_app, length_insert, Hl1; done).
  eapply wp_mono; [apply (wp_svc callee label kernel_code N s1 (<[0%nat := v]> (call_frame num args pc ps s)))|].
  - reflexivity.
  - reflexivity.
  - by split_and!.
  - done.
  - reflexivity.
  - by rewrite length_insert.
  - exact Hf.
  - exact Hg.
  - intros e s' (-> & E2 & E3).
    assert (Hget : ∀ k, ctx_get (31 + k) (<[0%nat := v]> (call_frame num args pc ps s)) = ctx_get k [sp s; u64 (pc + 4); ps]).
    { intros k. unfold ctx_get.
      change (default 0 ((<[0%nat := v]> (call_frame num args pc ps s)) !! (31 + k)%nat) = default 0 ([sp s; u64 (pc + 4); ps] !! k)).
      rewrite list_lookup_insert_ne by lia. unfold call_frame. rewrite lookup_app_r by (rewrite length_insert; lia).
      rewrite length_insert, Hl1. f_equal. f_equal. lia. }
    change SP with (31 + 0)%nat in *. change PC with (31 + 1)%nat. change PSTATE with (31 + 2)%nat. rewrite !Hget in *.
    split; [done|]. split; [done|]. rewrite E3. unfold call_frame.
    rewrite insert_app_l by (rewrite length_insert; lia). rewrite take_app_le by (rewrite !length_insert; lia).
    rewrite take_ge by (rewrite !length_insert; lia).
    rewrite (list_insert_insert_ne _ 0 9) by done. by rewrite list_insert_insert_eq.
Qed.

(** C12: [switch_to] and back.  A task in state [s] calls [switch_to (p, n)]: control
    goes to where the context at [n] says, with its stack pointer and its x19
    to x30 (the rest of x0..x18 is not loaded), and the context at [p] records
    the same of the caller.  When later, in any state [t], somebody calls
    [switch_to] with the context at [p] as it was left, the first call returns
    to its caller: to the address in x30, with the stack pointer and x19..x30
    of [s]. *)
Theorem switch_round_trip N s p n c0 c t q d0 :
  length (xs s) = 31%nat → xs s !! 0%nat = Some p → xs s !! 1%nat = Some n →
  ctx_addr p → ctx_addr n → apart p n → ctx_at (words s) p c0 → length c0 = 34%nat →
  ctx_at (words s) n c → length c = 34%nat →
  length (xs t) = 31%nat → xs t !! 0%nat = Some q → xs t !! 1%nat = Some p →
  ctx_addr q → apart q p → ctx_at (words t) q d0 → length d0 = 34%nat →
  wp (exec callee label kernel_code N switch_to) (λ e s', e = Jump (ctx_get PC c) ∧ switched label p c0 c s s' ∧
    (ctx_at (words t) p (suspended label s c0) →
     wp (exec callee label kernel_code N switch_to) (λ e' t', e' = Jump (label "1") ∧ sp t' = sp s ∧
       (∀ i, (19 ≤ i < 31)%nat → xs t' !! i = xs s !! i) ∧
       wp (exec callee label kernel_code N (kernel_code "1")) (λ e'' t'', Some e'' = Jump <$> xs s !! 30%nat ∧ t'' = t') t') t)) s.
Proof.
  intros Hl H0 H1 Hp Hn Hap Hc0 Hl0 Hc Hlc Htl T0 T1 Hq Haq Hd0 Hld.
  apply (wp_switch_to callee label kernel_code N s p n c0 c); [done..|]. intros s' Hsw. split; [done|]. split; [done|]. intros Hsus.
  apply (wp_switch_to callee label kernel_code N t q p d0 (suspended label s c0)); [done..|by apply suspended_length|].
  assert (Hlk : ∀ i, suspended label s c0 !! i = _) by (intros i; by apply suspended_lookup).
  assert (Hsp : ctx_get SP (suspended label s c0) = sp s).
  { unfold ctx_get. change (default 0 ((suspended label s c0 : list Z) !! 31%nat) = sp s). by rewrite Hlk. }
  assert (Hpc : ctx_get PC (suspended label s c0) = label "1").
  { unfold ctx_get. change (default 0 ((suspended label s c0 : list Z) !! 32%nat) = label "1"). by rewrite Hlk. }
  intros t' [E1 E2 _ _]. rewrite Hsp in E1. rewrite Hpc.
  assert (Hx : ∀ i, (19 ≤ i < 31)%nat → xs t' !! i = xs s !! i).
  { intros i Hi. rewrite E2, bool_decide_true by done. by rewrite Hlk, bool_decide_true. }
  split; [done|]. split; [done|]. split; [done|].
  destruct (lookup_lt_is_Some_2 (xs s) 30) as [v Hv]; [lia|].
  change (kernel_code "1") with [Ret].
  destruct N; (apply wp_bind, (wp_getx _ _ v); [by rewrite Hx by lia|]; apply wp_ret; by rewrite Hv).
Qed.

(** The jump at the end of [schedule], to a task that an interrupt or
    [switch_to] suspended: x0..x28 are those of the task that went away. *)
Lemma jump_keeps_registers code N r0 r1 r2 r3 s c :
  length (xs s) = 31%nat → xs s !! r0 = Some (ctx_get SP c) → xs s !! r1 = Some (ctx_get X29 c) →
  xs s !! r2 = Some (ctx_get X30 c) → xs s !! r3 = Some (ctx_get PC c) → r2 ≠ 29%nat → r3 ≠ 29%nat → r3 ≠ 30%nat →
  wp (exec callee label code N (jump_to r0 r1 r2 r3)) (λ e s', e = Jump (ctx_get PC c) ∧ sp s' = ctx_get SP c ∧
    ∀ i, (i < 29)%nat → xs s' !! i = xs s !! i) s.
Proof.
  intros. apply (wp_jump_to callee label code N r0 r1 r2 r3 s (ctx_get SP c) (ctx_get X29 c) (ctx_get X30 c) (ctx_get PC c)); [done..|].
  split; [done|]. split; [done|]. intros i Hi. cbn [xs set_xs]. by rewrite !list_lookup_insert_ne by lia.
Qed.
End claims.

(** ** Instances *)

Definition ctx_here (m : gmap Z Z) (a : Z) (c : list Z) : bool :=
  forallb (λ i, bool_decide (m !! word a i = c !! i)) (seq 0 34).
Lemma ctx_here_at m a c : ctx_here m a c = true → ctx_at m a c.
Proof.
  unfold ctx_here. rewrite forallb_forall. intros H i Hi. specialize (H i).
  rewrite bool_decide_eq_true in H. apply H, in_seq. lia.
Qed.

(** Words that hold their own numbers, from 8000 on; 34 words below 4096. *)
Definition demo_words : gmap Z Z :=
  list_to_map ((λ i, (8000 + 8 * i, i)) <$> seqZ 0 300) ∪ list_to_map ((λ i, (3824 + 8 * i, 0)) <$> seqZ 0 34).
Definition demo_cpu (x0 x1 : Z) : cpu := {|
  xs := x0 :: x1 :: seqZ 102 29; sp := 4096; elr := 5000; spsr := 0x345; esr := 0; zf := false; ge := false; mpidr := 0; words := demo_words |}.
(** C functions that return 0; [handle_svc] stores 77 in the frame's x0. *)
Definition demo_callee (f : string) : ST cpu unit :=
  (if bool_decide (f = "handle_svc") then a ← gets sp; store a 77 else mret tt);; wr 0 0.

Lemma demo_returns_0 (P : cpu → Prop) s m :
  xs m = xs s → sp m = sp s → length (xs s) = 31%nat → P m → (∀ l, P m → P (set_xs l m)) →
  wp (wr 0 0) (λ _ s', sp s' = sp s ∧ length (xs s') = 31%nat ∧ P s' ∧ xs s' !! 0%nat = Some 0) m.
Proof.
  intros Hx Hs Hl HP HPx. apply wp_setx. cbn [xs sp set_xs]. rewrite Hx, length_insert. split; [done|]. split; [done|].
  split; [by apply HPx|]. apply list_lookup_insert_eq. lia.
Qed.
Lemma demo_quiet c : calls demo_callee "handle_irq" c c 0.
Proof.
  intros s _ Hc _ Hl. apply wp_bind, wp_ret. apply (demo_returns_0 (λ s', ctx_at (words s') (sp s') c)); done.
Qed.
Lemma demo_asks c : asks demo_callee "should_reschedule" c 0.
Proof.
  intros s _ Hc Hl. apply wp_bind, wp_ret. apply (demo_returns_0 (λ s', ctx_at (words s') (sp s') c)); done.
Qed.
Lemma demo_svc c : length c = 34%nat → calls demo_callee "handle_svc" c (<[0%nat := 77]> c) 0.
Proof.
  intros Hlc s Ha Hc _ Hl. apply wp_bind. change (bool_decide _) with true. cbv iota. apply wp_bind, wp_gets.
  pose proof (word_aligned _ 0 Ha) as Hal. unfold word in Hal. rewrite Z.add_0_r in Hal.
  apply wp_st64; [done| |].
  { specialize (Hc 0%nat ltac:(lia)). unfold word in Hc. rewrite Z.add_0_r in Hc. rewrite Hc. apply lookup_lt_is_Some_2. lia. }
  apply (demo_returns_0 (λ s', ctx_at (words s') (sp s') (<[0%nat := 77]> c))); try done.
  intros i Hi. cbn [words sp set_words]. destruct (decide (i = 0)%nat) as [->|Hne].
  - rewrite list_lookup_insert_eq by lia. unfold word. rewrite Z.add_0_r. apply lookup_insert_eq.
  - rewrite list_lookup_insert_ne, lookup_insert_ne by (unfold word; lia). by apply Hc.
Qed.

Lemma demo_stacked x0 x1 : stacked (demo_cpu x0 x1).
Proof.
  split; [reflexivity|]. split; [discriminate|]. split; [by split|].
  apply (ctx_at_mapped _ _ (repeat 0 34)); [|reflexivity]. apply ctx_here_at. vm_compute. reflexivity.
Qed.
Lemma demo_below x0 x1 : sp (demo_cpu x0 x1) < 2 ^ 64.
Proof. reflexivity. Qed.

Lemma irq_return_correct_witness :
  wp (exec demo_callee (λ _, 0) kernel_code 0 irq_handler_spx) (λ e s', e = Return 5000 0x345 ∧ sp s' = 4096 ∧
    xs s' = <[9%nat := 4096]> (7 :: 8 :: seqZ 102 29)) (demo_cpu 7 8).
Proof.
  exact (irq_return_correct demo_callee (λ _, 0) kernel_code 0 (demo_cpu 7 8) (interrupted (demo_cpu 7 8))
    (demo_stacked 7 8) (demo_below 7 8) eq_refl (ex_intro _ 0 (demo_quiet _))).
Defined.

Lemma syscall_return_witness :
  wp (syscall_entry 1 [1; 2000; 7] 600 0x345;; exec demo_callee (λ _, 0) kernel_code 2 sync_handler_spx) (λ e s',
    e = Return 604 0x345 ∧ sp s' = 4096 ∧
    xs s' = <[9%nat := 4096]> (<[0%nat := 77]> (call_regs 1 [1; 2000; 7] (7 :: 8 :: seqZ 102 29)))) (demo_cpu 7 8).
Proof.
  exact (syscall_return demo_callee (λ _, 0) 0 (demo_cpu 7 8) 1 [1; 2000; 7] 600 0x345 77
    (demo_stacked 7 8) (demo_below 7 8) (ex_intro _ 0 (demo_svc (call_frame 1 [1; 2000; 7] 600 0x345 (demo_cpu 7 8)) eq_refl)) (demo_asks _)).
Defined.

(** The context of the caller of [switch_to (8000, 9000)], and a later state. *)
Definition demo_suspended : list Z := suspended (λ _, 64) (demo_cpu 8000 9000) (seqZ 0 34).
Definition demo_later : cpu := {|
  xs := 10000 :: 8000 :: seqZ 302 29; sp := 12000; elr := 0; spsr := 0; esr := 0; zf := true; ge := true; mpidr := 0;
  words := list_to_map (zip ((λ i, 8000 + 8 * i) <$> seqZ 0 34) demo_suspended) ∪ demo_words |}.

Lemma switch_round_trip_witness :
  ctx_at (words demo_later) 8000 demo_suspended ∧
  wp (exec demo_callee (λ _, 64) kernel_code 0 switch_to) (λ e s', e = Jump 157 ∧
    switched (λ _, 64) 8000 (seqZ 0 34) (seqZ 125 34) (demo_cpu 8000 9000) s' ∧
    (ctx_at (words demo_later) 8000 demo_suspended →
     wp (exec demo_callee (λ _, 64) kernel_code 0 switch_to) (λ e' t', e' = Jump 64 ∧ sp t' = 4096 ∧
       (∀ i, (19 ≤ i < 31)%nat → xs t' !! i = xs (demo_cpu 8000 9000) !! i) ∧
       wp (exec demo_callee (λ _, 64) kernel_code 0 (kernel_code "1")) (λ e'' t'', Some e'' = Jump <$> Some 130 ∧ t'' = t') t')
     demo_later)) (demo_cpu 8000 9000).
Proof.
  split; [apply ctx_here_at; vm_compute; reflexivity|].
  refine (switch_round_trip demo_callee (λ _, 64) 0 (demo_cpu 8000 9000) 8000 9000 (seqZ 0 34) (seqZ 125 34)
    demo_later 10000 (seqZ 250 34) eq_refl eq_refl eq_refl _ _ _ _ eq_refl _ eq_refl eq_refl eq_refl eq_refl _ _ _ eq_refl).
  - by split.
  - by split.
  - left. discriminate.
  - apply ctx_here_at. vm_compute. reflexivity.
  - apply ctx_here_at. vm_compute. reflexivity.
  - by split.
  - right. discriminate.
  - apply ctx_here_at. vm_compute. reflexivity.
Defined.
