(* ===== verification/Vectors.v ===== *)
(** * The exception vector table (arch/arm64/exception/exception.S)

    The table as the assembler reads it: alignments and branches, placed from
    an arbitrary position on; the blocks behind its sixteen labels.  An
    exception goes to the base of the table plus an offset for where it
    comes from and for its kind. *)
From stdpp Require Import base list option numbers strings.
From S2P Require Import Prelude TaskDef Asm AsmThm AsmClaims.
#[local] Open Scope Z_scope.

Module Vectors.
Import Asm.

(** ** Placing code *)

Inductive item := Align (n : Z) | Code (i : instr).

(** The next multiple of [2 ^ n]. *)
Definition up (n pos : Z) : Z := (pos + (2 ^ n - 1)) / 2 ^ n * 2 ^ n.

(** Instructions are four bytes long. *)
Fixpoint place (pos : Z) (l : list item) : list (Z * instr) :=
  match l with
  | [] => []
  | Align n :: l => place (up n pos) l
  | Code i :: l => (pos, i) :: place (pos + 4) l
  end.
Definition at_addr (t : list (Z * instr)) (a : Z) : option instr :=
  p ← head (filter (λ p, p.1 = a) t); Some p.2.

(** ** The table and the handlers *)

Definition vector_labels : list string :=
  ["sync_handler_sp0"; "irq_handler_sp0"; "fiq_handler_sp0"; "serror_handler_sp0";
   "sync_handler_spx"; "irq_handler_spx"; "fiq_handler_spx"; "serror_handler_spx";
   "sync_handler_lower_aarch64"; "irq_handler_lower_aarch64"; "fiq_handler_lower_aarch64"; "serror_handler_lower_aarch64";
   "sync_handler_lower_aarch32"; "irq_handler_lower_aarch32"; "fiq_handler_lower_aarch32"; "serror_handler_lower_aarch32"]%string.
Definition vectors (ls : list string) : list item := mbind (λ l, [Align 7; Code (B l)]) ls.
Definition exception_vector_table : list item := Align 11 :: vectors vector_labels.

Definition is_one_of (l : string) (ls : list string) : bool := bool_decide (l ∈ ls).
Definition exception_code (l : string) : list instr :=
  if is_one_of l ["sync_handler_sp0"; "sync_handler_spx"] then sync_handler_spx
  else if is_one_of l ["sync_handler_lower_aarch64"; "sync_handler_lower_aarch32"] then fatal_handler "handle_sync_exception"
  else if is_one_of l ["irq_handler_spx"] then irq_handler_spx
  else if is_one_of l ["irq_handler_sp0"; "irq_handler_lower_aarch64"; "irq_handler_lower_aarch32"] then [B "irq_handler_spx"]
  else if is_one_of l ["fiq_handler_sp0"; "fiq_handler_spx"; "fiq_handler_lower_aarch64"; "fiq_handler_lower_aarch32"]
    then fatal_handler "handle_fiq"
  else if is_one_of l ["serror_handler_sp0"; "serror_handler_spx"; "serror_handler_lower_aarch64"; "serror_handler_lower_aarch32"]
    then fatal_handler "handle_serror"
  else kernel_code l.

(** ** Exceptions *)

Inductive source := CurrentSp0 | CurrentSpx | Lower64 | Lower32.
Inductive kind := Synchronous | Interrupt | Fast | SysError.

Definition vector_offset (c : source) (k : kind) : Z :=
  0x200 * match c with CurrentSp0 => 0 | CurrentSpx => 1 | Lower64 => 2 | Lower32 => 3 end +
  0x80 * match k with Synchronous => 0 | Interrupt => 1 | Fast => 2 | SysError => 3 end.

(** What the kernel promises to do with it. *)
Definition handler (c : source) (k : kind) : list instr :=
  match k, c with
  | Interrupt, _ => irq_handler_spx
  | Synchronous, (CurrentSp0 | CurrentSpx) => sync_handler_spx
  | Synchronous, _ => fatal_handler "handle_sync_exception"
  | Fast, _ => fatal_handler "handle_fiq"
  | SysError, _ => fatal_handler "handle_serror"
  end.

(** The C function that an exception with this syndrome ends in, if it is not one
    that the kernel resumes from. *)
Definition fatal_call (c : source) (k : kind) (syndrome : Z) : option string :=
  match k, c with
  | Interrupt, _ => None
  | Synchronous, (CurrentSp0 | CurrentSpx) =>
      if Z.shiftr syndrome 26 =? EC_SVC then None else Some "handle_sync_exception"%string
  | Synchronous, _ => Some "handle_sync_exception"%string
  | Fast, _ => Some "handle_fiq"%string
  | SysError, _ => Some "handle_serror"%string
  end.

(** ** The layout *)

Lemma up_bounds n pos : 0 ≤ n → pos ≤ up n pos < pos + 2 ^ n ∧ up n pos mod 2 ^ n = 0.
Proof.
  intros Hn. unfold up. assert (0 < 2 ^ n) by (by apply Z.pow_pos_nonneg). split; [|apply Z.mod_mul; lia].
  pose proof (Z.div_mod (pos + (2 ^ n - 1)) (2 ^ n) ltac:(lia)).
  pose proof (Z.mod_pos_bound (pos + (2 ^ n - 1)) (2 ^ n) ltac:(lia)). nia.
Qed.
Lemma up_128 m d : 0 ≤ d < 128 → up 7 (128 * m - d) = 128 * m.
Proof.
  intros Hd. destruct (up_bounds 7 (128 * m - d) ltac:(lia)) as [H1 H2]. change (2 ^ 7) with 128 in *.
  apply Z.mod_divide in H2 as [q Hq]; [|lia]. lia.
Qed.

(** The i-th label of the table is 128 i bytes on. *)
Lemma place_vectors ls m d :
  0 ≤ d < 128 → place (128 * m - d) (vectors ls) = imap (λ i l, (128 * (m + Z.of_nat i), B l)) ls.
Proof.
  revert m d. induction ls as [|l ls IH]; intros m d Hd; [done|]. change (vectors (l :: ls)) with (Align 7 :: Code (B l) :: vectors ls).
  cbn [place imap]. rewrite up_128 by done. f_equal; [by rewrite Z.add_0_r|].
  replace (128 * m + 4) with (128 * (m + 1) - 124) by lia. rewrite (IH (m + 1) 124) by lia.
  apply imap_ext. intros i x _. cbn. f_equal. lia.
Qed.
Lemma at_addr_vectors ls m i :
  at_addr (imap (λ i l, (128 * (m + Z.of_nat i), B l)) ls) (128 * (m + Z.of_nat i)) = B <$> ls !! i.
Proof.
  revert m i. induction ls as [|l ls IH]; intros m i; [by destruct i|]. unfold at_addr. cbn [imap]. rewrite filter_cons. cbn [fst].
  assert (Hx : imap ((λ i l, (128 * (m + Z.of_nat i), B l)) ∘ S) ls = imap (λ i l, (128 * ((m + 1) + Z.of_nat i), B l)) ls).
  { apply imap_ext. intros j x _. cbn. f_equal. lia. }
  destruct i as [|i]; [by rewrite decide_True|]. rewrite decide_False by lia. rewrite Hx.
  replace (128 * (m + Z.of_nat (S i))) with (128 * ((m + 1) + Z.of_nat i)) by lia. apply IH.
Qed.

Definition vector_index (c : source) (k : kind) : nat :=
  (4 * match c with CurrentSp0 => 0 | CurrentSpx => 1 | Lower64 => 2 | Lower32 => 3 end +
   match k with Synchronous => 0 | Interrupt => 1 | Fast => 2 | SysError => 3 end)%nat.
Definition vector_label (c : source) (k : kind) : string := default ""%string (vector_labels !! vector_index c k).

Lemma vector_at pos c k :
  at_addr (place pos exception_vector_table) (up 11 pos + vector_offset c k) = Some (B (vector_label c k)).
Proof.
  destruct (up_bounds 11 pos ltac:(lia)) as [_ [q Hq]%Z.mod_divide]; [|lia]. change (2 ^ 11) with 2048 in Hq.
  unfold exception_vector_table. cbn [place]. rewrite Hq.
  replace (q * 2048) with (128 * (16 * q) - 0) by lia. rewrite place_vectors by lia.
  replace (128 * (16 * q) - 0 + vector_offset c k) with (128 * (16 * q + Z.of_nat (vector_index c k))) by (destruct c, k; unfold vector_offset, vector_index; cbv match; lia).
  rewrite at_addr_vectors. by destruct c, k.
Qed.

Section vectors.
Context (callee : string → ST cpu unit) (label : string → Z).
Abbreviation exec := (exec callee label exception_code).

(** An exception with the table placed from [pos] on and [VBAR_EL1] at its label;
    [n] bounds the branches. *)
Definition take_exception (pos : Z) (c : source) (k : kind) (n : nat) : ST cpu exit :=
  match at_addr (place pos exception_vector_table) (up 11 pos + vector_offset c k) with
  | Some i => exec n [i]
  | None => undef
  end.

Lemma exec_branch n l rest s : exec (S n) (B l :: rest) s = exec n (exception_code l) s.
Proof. done. Qed.

Lemma reaches_handler pos c k n :
  ∃ m, (n ≤ m)%nat ∧ take_exception pos c k (S (S n)) = exec m (handler c k).
Proof.
  unfold take_exception. rewrite vector_at. destruct k, c; first [by exists (S n); split; [lia|]|by exists n].
Qed.

(** The state in which a handler calls [f]: the exception registers are as they
    were, and of x0..x30 all but x9. *)
Definition same_exception (s t : cpu) : Prop :=
  esr t = esr s ∧ elr t = elr s ∧ spsr t = spsr s ∧ ∀ i, i ≠ 9%nat → xs t !! i = xs s !! i.
Abbreviation after_call f n := (callee f;; exec n [LdpPop 29 30; Eret]).

Lemma exec_fatal f n s :
  exec n (fatal_handler f) s = (step callee label (StpPush 29 30);; after_call f n) s.
Proof. unfold fatal_handler. by rewrite !exec_cons by done. Qed.

Lemma wp_push s :
  stacked s → wp (step callee label (StpPush 29 30)) (λ _ t, same_exception s t) s.
Proof.
  intros (Hl & Hsp & Ha & Hm). pose proof Ha as (Ha1 & _ & _).
  assert (Hu : ∀ i, (i < 34)%nat → u64 (sp s - 272 + 8 * Z.of_nat i) = word (sp s - 272) i) by (intros i; by apply word_u64).
  assert (Hw : u64 (sp s - 16) = word (sp s - 272) 32) by (rewrite <-Hu by lia; f_equal; lia).
  destruct (lookup_lt_is_Some_2 (xs s) 29) as [v1 H1]; [lia|]. destruct (lookup_lt_is_Some_2 (xs s) 30) as [v2 H2]; [lia|].
  cbn [step]. apply wp_bind, wp_modify. rewrite Hw.
  assert (Hw0 : u64 (word (sp s - 272) 32 + 0) = word (sp s - 272) 32) by (rewrite Z.add_0_r; unfold word, u64; rewrite (wrap_small 64); lia).
  assert (Hw8 : u64 (word (sp s - 272) 32 + 8) = word (sp s - 272) 33) by (unfold word, u64; rewrite (wrap_small 64); lia).
  apply wp_bind. apply wp_bind, (wp_getx _ _ v1); [exact H1|]. apply wp_bind, (wp_addr _ _ (word (sp s - 272) 32)); [done|]. rewrite Hw0.
  apply wp_st64; [by apply word_aligned|apply Hm; lia|].
  apply wp_bind, (wp_getx _ _ v2); [exact H2|]. apply wp_bind, (wp_addr _ _ (word (sp s - 272) 32)); [done|]. rewrite Hw8.
  apply wp_st64; [by apply word_aligned|apply ctx_mapped_insert; [exact Hm|lia]|]. by split_and!.
Qed.

Lemma fatal_reaches f n s :
  stacked s → ∃ t, exec n (fatal_handler f) s = after_call f n t ∧ same_exception s t.
Proof.
  intros Hs. destruct (wp_push s Hs) as ([] & t & Hrun & Ht). exists t. split; [|exact Ht].
  rewrite exec_fatal. unfold mbind at 1, st_bind at 1. by rewrite Hrun.
Qed.

(** A C function that does not return. *)
Lemma fatal_stays f n s : (∀ t, callee f t = None) → exec n (fatal_handler f) s = None.
Proof.
  intros Hf. rewrite exec_fatal. unfold mbind, st_bind. destruct (step _ _ _ s) as [[[] t]|]; [by rewrite Hf|done].
Qed.

(** A synchronous exception of the current level that is no system call. *)
Lemma not_svc n s :
  (9 < length (xs s))%nat → Z.shiftr (esr s) 26 ≠ EC_SVC →
  exec n sync_handler_spx s =
  exec n (fatal_handler "handle_sync_exception") (set_zf false (set_xs (<[9%nat := Z.shiftr (esr s) 26]> (xs s)) s)).
Proof.
  intros Hl He. unfold sync_handler_spx. cbn [app].
  assert (Hr : ∀ v s', xs s' = <[9%nat := v]> (xs s) → rd 9 s' = Some (v, s')).
  { intros v s' Hx. unfold rd. by rewrite Hx, list_lookup_insert_eq by lia. }
  rewrite !exec_cons by done. cbn [step]. unfold mbind, st_bind, gets, wr, modify. cbn [sysreg_get].
  erewrite (Hr (esr s)) by done. cbn [xs set_xs]. rewrite list_insert_insert_eq.
  erewrite (Hr (Z.shiftr (esr s) 26)) by done. assert (Hz : (Z.shiftr (esr s) 26 =? 0x15) = false) by (by apply Z.eqb_neq). rewrite Hz.
  destruct n; reflexivity.
Qed.

Lemma fatal_call_handler c k m s f :
  fatal_call c k (esr s) = Some f →
  (stacked s → ∃ t, exec m (handler c k) s = after_call f m t ∧ same_exception s t) ∧
  ((∀ t, callee f t = None) → exec m (handler c k) s = None).
Proof.
  intros Hf. assert (Hcase : handler c k = fatal_handler f ∨
    handler c k = sync_handler_spx ∧ f = "handle_sync_exception"%string ∧ Z.shiftr (esr s) 26 ≠ EC_SVC).
  { unfold fatal_call in Hf. destruct k; [|discriminate Hf|left; injection Hf as <-; reflexivity..].
    destruct c; [| |left; injection Hf as <-; reflexivity..];
      (destruct (Z.eqb_spec (Z.shiftr (esr s) 26) EC_SVC) as [E|E]; [discriminate Hf|]; injection Hf as <-; right;
       split; [reflexivity|]; split; [reflexivity|exact E]). }
  destruct Hcase as [->|(-> & -> & He)]; [split; [apply fatal_reaches|apply fatal_stays]|]. split.
  - intros Hs. pose proof Hs as (Hl & _). rewrite not_svc by (lia || done).
    destruct (fatal_reaches "handle_sync_exception" m (set_zf false (set_xs (<[9%nat := Z.shiftr (esr s) 26]> (xs s)) s)))
      as (t & Ht & E1 & E2 & E3 & E4).
    { destruct Hs as (_ & H2 & H3 & H4). split_and!; try done. cbn. by rewrite length_insert. }
    exists t. split; [exact Ht|]. split_and!; [done..|]. intros i Hi. rewrite (E4 i Hi). cbn. by apply list_lookup_insert_ne.
  - intros Hn. destruct (le_lt_dec (length (xs s)) 9) as [Hl|Hl]; [|rewrite not_svc by done; by apply fatal_stays].
    unfold sync_handler_spx. cbn [app]. rewrite !exec_cons by done. cbn [step]. unfold mbind, st_bind, gets, wr, modify, rd.
    cbn [xs set_xs]. rewrite (lookup_ge_None_2 (<[9%nat := _]> (xs s))) by (rewrite length_insert; lia). done.
Qed.

(** C11: wherever the assembler places the table, its label is aligned as
    [VBAR_EL1] demands, and an exception of each kind reaches its handler within
    two branches.  So, with room for a frame on the stack, an interrupt from any
    level resumes what [handle_irq] left in the frame, and a system call of kernel
    code, unless its caller is a zombie afterwards, what [handle_svc] left.
    Whatever is neither an interrupt nor a system call of kernel code, such as a
    page fault or an undefined instruction of the kernel, a system call of a lower
    level, a fast interrupt or a system error, gets, with the same room, to the
    call of the C function that panics, with the exception registers and all of
    x0..x30 but x9 as they were; and if that function does not return, nothing is
    resumed. *)
Theorem exception_vectors_correct pos :
  up 11 pos mod 2048 = 0 ∧
  (∀ c k n, ∃ m, (n ≤ m)%nat ∧ take_exception pos c k (S (S n)) = exec m (handler c k)) ∧
  (∀ c n s f, stacked s → sp s < 2 ^ 64 → length f = 34%nat → (∃ r, calls callee "handle_irq" (interrupted s) f r) →
     wp (take_exception pos c Interrupt (S (S n))) (resumes f) s) ∧
  (∀ c n s f, c = CurrentSp0 ∨ c = CurrentSpx → stacked s → sp s < 2 ^ 64 → Z.shiftr (esr s) 26 = EC_SVC → length f = 34%nat →
     (∃ r, calls callee "handle_svc" (interrupted (set_zf true (set_xs (<[9%nat := EC_SVC]> (xs s)) s))) f r) →
     asks callee "should_reschedule" f 0 →
     wp (take_exception pos c Synchronous (S (S (S (S n))))) (resumes f) s) ∧
  (∀ c k n s f, fatal_call c k (esr s) = Some f →
     (stacked s → ∃ m t, take_exception pos c k (S (S n)) s = after_call f m t ∧ same_exception s t) ∧
     ((∀ t, callee f t = None) → take_exception pos c k (S (S n)) s = None)).
Proof.
  split; [by apply up_bounds|]. split; [apply reaches_handler|]. split_and!.
  - intros c n s f Hs Hsp Hf Hc. destruct (reaches_handler pos c Interrupt n) as (m & _ & ->). by apply wp_irq.
  - intros c n s f Hsrc Hs Hsp He Hf Hc Hq. destruct (reaches_handler pos c Synchronous (S (S n))) as (m & Hm & ->).
    destruct m as [|[|m]]; [lia..|]. replace (handler c Synchronous) with sync_handler_spx by (by destruct Hsrc as [->| ->]).
    by apply wp_svc.
  - intros c k n s f Hf. destruct (reaches_handler pos c k n) as (m & _ & ->).
    destruct (fatal_call_handler c k m s f Hf) as [H1 H2]. split; [|exact H2].
    intros Hs. destruct (H1 Hs) as (t & Ht). by exists m, t.
Qed.
End vectors.

End Vectors.
