(* ===== verification/Boot.v ===== *)
(** * Start-up and the move to the upper half (boot.S, mm/mmu.c)

    The code before [kmain], and the jump of [mmu_switch_to_higher_half], on the
    interpreter of Asm.v.  The addresses of the linker script and of the static
    variables are those of the labels. *)
From stdpp Require Import base gmap list option numbers strings.
From S2P Require Import Prelude TaskDef Asm AsmThm AsmClaims.
#[local] Open Scope Z_scope.
Import Asm.

Module Boot.

(** ** boot.S *)

Definition hang : list instr := [Wait; B "hang"].
Definition bss_clear_done : list instr := [Wait; Wait; Bl "kmain"] ++ hang.
Definition bss_clear_loop : list instr := [CmpXX 0 1; BGe "bss_clear_done"; StrZero 0 8; B "bss_clear_loop"].
Definition start : list instr :=
  [Adr 1 "dtb_ptr"; Str 0 (BX 1) 0; Adr 1 "boot_x0"; Str 0 (BX 1) 0;
   Mrs 0 Mpidr; AndX 0 0xFF; Cbnz 0 "hang";
   Adr 0 "_stack_top"; AndX 0 (u64 (Z.lnot 15)); MovToSp 0;
   Adr 0 "__bss_start"; Adr 1 "__bss_end"] ++ bss_clear_loop.

Definition boot_code (l : string) : list instr :=
  if bool_decide (l = "hang") then hang
  else if bool_decide (l = "bss_clear_loop") then bss_clear_loop
  else if bool_decide (l = "bss_clear_done") then bss_clear_done
  else [].

(** ** [mmu_switch_to_higher_half]

    The statement before the label, and after it with the return. *)
Definition switch_jump (offset : Z) : list instr := [Adr 0 "1f"; AddX 0 offset; Br 0].
Definition switch_stack (offset : Z) : list instr := [MovFromSp 1; AddX 1 offset; MovToSp 1; Ret].

End Boot.
Import Boot.

Section boot.
Context (callee : string → ST cpu unit) (label : string → Z).
Implicit Types (s : cpu).
Abbreviation run := (exec callee label boot_code).

(** ** Runs as equations

    [kmain] does not return, so a run is described by the run it goes on as. *)

Lemma run_step n i l s s1 r :
  straight i = true → wp (step callee label i) (λ _ s', s' = s1) s → run n l s1 = r → run n (i :: l) s = r.
Proof.
  intros Hi ([] & s' & E & ->) Hr. rewrite exec_cons by done. unfold mbind, st_bind. by rewrite E.
Qed.
Lemma run_call n f l s : run n (Bl f :: l) s = (callee f;; run n l) s.
Proof. by rewrite exec_cons. Qed.

(** A CPU that hangs never leaves. *)
Lemma run_hang n s : run n hang s = None.
Proof. revert s. induction n as [|n IH]; intros s; [done|]. unfold hang. by eapply (run_step _ Wait); [|apply wp_ret|apply IH]. Qed.

(** ** Clearing the static data *)

Definition cleared (lo hi : Z) (m m' : gmap Z Z) : Prop :=
  ∀ a, m' !! a = if bool_decide (lo ≤ a < hi ∧ a mod 8 = 0) then Some 0 else m !! a.
Definition mapped (lo hi : Z) (m : gmap Z Z) : Prop :=
  ∀ a, lo ≤ a < hi → a mod 8 = 0 → is_Some (m !! a).

Lemma s64_small x : 0 ≤ x < 2 ^ 63 → s64 x = x.
Proof. intros H. unfold s64. rewrite Z.mod_small by lia. by destruct (Z.ltb_spec x (2 ^ 63)); [|lia]. Qed.

Lemma cleared_one a hi m m' :
  a mod 8 = 0 → a + 8 ≤ hi → cleared (a + 8) hi (<[a := 0]> m) m' → cleared a hi m m'.
Proof.
  intros Ha Hle H b. rewrite H. destruct (decide (b = a)) as [->|Hne].
  - rewrite bool_decide_false, bool_decide_true, lookup_insert_eq by lia. done.
  - rewrite lookup_insert_ne by done. erewrite bool_decide_ext; [done|].
    split; [lia|]. intros [H1 H2]. split; [|done]. Z.div_mod_to_equations. lia.
Qed.

Record zeroed (lo hi : Z) s s' : Prop := {
  ze_words : cleared lo hi (words s) (words s');
  ze_sp : sp s' = sp s;
  ze_xs : ∀ i, (2 ≤ i)%nat → xs s' !! i = xs s !! i;
}.

Lemma run_bss n k s a hi :
  xs s !! 0%nat = Some a → xs s !! 1%nat = Some hi → hi = a + 8 * Z.of_nat n →
  0 ≤ a → hi < 2 ^ 63 → a mod 8 = 0 → mapped a hi (words s) →
  ∃ s', run (n + S k) bss_clear_loop s = run k bss_clear_done s' ∧ zeroed a hi s s'.
Proof.
  revert s a. induction n as [|n IH]; intros s a Hx0 Hx1 -> Ha Hhi Hal Hm.
  - exists (set_ge true (set_zf true s)). split.
    + eapply (run_step (S k) (CmpXX 0 1)); [done| |].
      { apply wp_bind, (wp_getx _ _ a); [done|]. apply wp_bind. eapply wp_getx; [exact Hx1|].
        apply wp_bind, wp_modify, wp_modify. rewrite Z.mul_0_r, Z.add_0_r, Z.eqb_refl, Z.leb_refl. done. }
      done.
    + split; [|done|done]. intros b. rewrite bool_decide_false by lia. done.
  - set (s1 := set_ge false (set_zf false s)).
    pose proof (lookup_lt_Some _ _ _ Hx1) as Hl.
    set (s2 := set_xs (<[0%nat := a + 8]> (xs s)) (set_words (<[a := 0]> (words s)) s1)).
    destruct (IH s2 (a + 8)) as (s' & E & [Z1 Z2 Z3]).
    + apply list_lookup_insert_eq. lia.
    + cbn [xs s2 set_xs]. by rewrite list_lookup_insert_ne.
    + lia.
    + lia.
    + lia.
    + by rewrite <-Zplus_mod_idemp_r, Z.mod_same, Z.add_0_r.
    + intros b Hb Hb8. cbn [words s2 set_xs set_words]. rewrite lookup_insert_ne by lia. apply Hm; [lia|done].
    + exists s'. split.
      * eapply (run_step _ (CmpXX 0 1) _ _ s1); [done| |].
        { apply wp_bind, (wp_getx _ _ a); [done|]. apply wp_bind. eapply wp_getx; [exact Hx1|].
          apply wp_bind, wp_modify, wp_modify. rewrite !s64_small by lia.
          rewrite (proj2 (Z.eqb_neq a _)), (proj2 (Z.leb_gt _ a)) by lia. done. }
        change (run (S n + S k) [BGe "bss_clear_done"; StrZero 0 8; B "bss_clear_loop"] s1) with
          (run (S n + S k) [StrZero 0 8; B "bss_clear_loop"] s1).
        eapply (run_step _ (StrZero 0 8) _ _ s2); [done| |exact E].
        apply wp_bind, (wp_getx _ _ a); [done|]. apply wp_bind, wp_st64; [by apply Z.eqb_eq|apply Hm; lia|].
        apply wp_setx. unfold u64. rewrite (wrap_small 64) by lia. done.
      * split; [|by rewrite Z2|].
        -- apply cleared_one; [done|lia|]. exact Z1.
        -- intros i Hi. rewrite Z3 by done. cbn [xs s2 set_xs]. by rewrite list_lookup_insert_ne by lia.
Qed.
End boot.

(** ** Start-up *)

(** The static data and the linker's symbols, as the image places them. *)
Record image (label : string → Z) (m : gmap Z Z) : Prop := {
  im_ptr : label "dtb_ptr" mod 8 = 0 ∧ is_Some (m !! label "dtb_ptr");
  im_x0 : label "boot_x0" mod 8 = 0 ∧ is_Some (m !! label "boot_x0");
  im_ne : label "dtb_ptr" ≠ label "boot_x0";
  im_bss : 0 ≤ label "__bss_start" ≤ label "__bss_end" ∧ label "__bss_end" < 2 ^ 63;
  im_bss_al : label "__bss_start" mod 8 = 0 ∧ label "__bss_end" mod 8 = 0;
  im_bss_mapped : mapped (label "__bss_start") (label "__bss_end") m;
  im_data : label "dtb_ptr" < label "__bss_start" ∧ label "boot_x0" < label "__bss_start";
  im_words : 0 ≤ label "dtb_ptr" ∧ 0 ≤ label "boot_x0";
  im_stack : 0 ≤ label "_stack_top" < 2 ^ 64;
}.

(** The words of the loader's pointer. *)
Definition saved_x0 (label : string → Z) (x0 : Z) (m : gmap Z Z) : gmap Z Z :=
  <[label "boot_x0" := x0]> (<[label "dtb_ptr" := x0]> m).

Section start.
Context (callee : string → ST cpu unit) (label : string → Z).
Implicit Types (s : cpu).
Abbreviation run := (exec callee label boot_code).

Lemma addr_u64 a : 0 ≤ a < 2 ^ 64 → u64 (a + 0) = a.
Proof. intros H. unfold u64. by rewrite Z.add_0_r, Z.mod_small. Qed.

(** [ldr x1, =l; str x0, [x1]] *)
Lemma run_save_x0 n l rest s x0 r :
  length (xs s) = 31%nat → xs s !! 0%nat = Some x0 → 0 ≤ label l < 2 ^ 64 → label l mod 8 = 0 → is_Some (words s !! label l) →
  run n rest (set_words (<[label l := x0]> (words s)) (set_xs (<[1%nat := label l]> (xs s)) s)) = r →
  run n (Adr 1 l :: Str 0 (BX 1) 0 :: rest) s = r.
Proof.
  intros Hl H0 Hr Ha Hm Hrest. eapply run_step; [done|by apply wp_setx|].
  eapply run_step; [done| |exact Hrest].
  apply wp_bind, (wp_getx _ _ x0); [cbn [xs set_xs]; by rewrite list_lookup_insert_ne|].
  apply wp_bind, (wp_addr _ _ (label l)); [apply list_lookup_insert_eq; lia|].
  rewrite addr_u64 by done. apply wp_st64; [by apply Z.eqb_eq|exact Hm|done].
Qed.

Lemma run_prologue n s x0 :
  length (xs s) = 31%nat → xs s !! 0%nat = Some x0 → image label (words s) →
  ∃ s1, words s1 = saved_x0 label x0 (words s) ∧ length (xs s1) = 31%nat ∧ sp s1 = sp s ∧
    xs s1 !! 0%nat = Some (Z.land (mpidr s) 0xFF) ∧
    run n start s = run n (drop 6 start) s1.
Proof.
  intros Hl H0 [[P1 P2] [X1 X2] Hne [[B0 B1] B2] _ _ [D1 D2] [W1 W2] _].
  eexists. split_and!; cycle 4.
  - apply run_save_x0 with (x0 := x0); [done|done|lia|done|done|].
    apply run_save_x0 with (x0 := x0).
    + cbn [xs set_xs set_words]. by rewrite length_insert.
    + cbn [xs set_xs set_words]. by rewrite list_lookup_insert_ne.
    + lia.
    + done.
    + cbn [words set_xs set_words]. by rewrite lookup_insert_ne.
    + eapply run_step; [done|apply wp_bind, wp_gets, wp_setx; reflexivity|].
      eapply run_step; [done| |reflexivity].
      apply wp_bind, (wp_getx _ _ (mpidr s)).
      * apply list_lookup_insert_eq. cbn [xs set_xs set_words]. rewrite !length_insert. lia.
      * apply wp_setx. reflexivity.
  - done.
  - cbn [xs set_xs set_words]. by rewrite !length_insert.
  - done.
  - apply list_lookup_insert_eq. cbn [xs set_xs set_words]. rewrite !length_insert. lia.
Qed.

(** Where [kmain] starts. *)
Record handed_over (x0 : Z) s s' : Prop := {
  ho_stack : sp s' = label "_stack_top" / 16 * 16;
  ho_ptr : words s' !! label "dtb_ptr" = Some x0 ∧ words s' !! label "boot_x0" = Some x0;
  ho_words : cleared (label "__bss_start") (label "__bss_end") (saved_x0 label x0 (words s)) (words s');
}.

Definition bss_words : nat := Z.to_nat ((label "__bss_end" - label "__bss_start") / 8).

Lemma run_primary k s x0 :
  length (xs s) = 31%nat → xs s !! 0%nat = Some x0 → image label (words s) → Z.land (mpidr s) 0xFF = 0 →
  ∃ s', run (bss_words + S k) start s = (callee "kmain";; run k hang) s' ∧ handed_over x0 s s'.
Proof.
  intros Hl H0 Him Hcpu. destruct (run_prologue (bss_words + S k) s x0 Hl H0 Him) as (s1 & E1 & E2 & E3 & E4 & E5).
  rewrite E5, Hcpu in *. clear E5. pose proof Him as [_ _ Hne [[B0 B1] B2] [A1 A2] Hm [D1 D2] _ Hst].
  set (top := label "_stack_top" / 16 * 16).
  set (s2 := set_xs (<[1%nat := label "__bss_end"]> (<[0%nat := label "__bss_start"]> (xs s1))) (set_sp top s1)).
  assert (Hn : label "__bss_end" = label "__bss_start" + 8 * Z.of_nat bss_words).
  { unfold bss_words. rewrite Z2Nat.id by (apply Z.div_pos; lia). Z.div_mod_to_equations. lia. }
  destruct (run_bss callee label bss_words k s2 (label "__bss_start") (label "__bss_end")) as (s3 & E6 & [Z1 Z2 Z3]).
  - cbn [xs s2 set_xs]. rewrite list_lookup_insert_ne by done. apply list_lookup_insert_eq. lia.
  - apply list_lookup_insert_eq. rewrite length_insert. lia.
  - done.
  - lia.
  - lia.
  - done.
  - intros a Ha Ha8. cbn [words s2 set_xs set_sp]. rewrite E1. unfold saved_x0. rewrite !lookup_insert_ne by lia. by apply Hm.
  - exists s3. split.
    + change (drop 6 start) with (Cbnz 0 "hang" :: Adr 0 "_stack_top" :: AndX 0 (u64 (Z.lnot 15)) :: MovToSp 0 ::
        Adr 0 "__bss_start" :: Adr 1 "__bss_end" :: bss_clear_loop).
      assert (Hz : ∀ n l, run n (Cbnz 0 "hang" :: l) s1 = run n l s1).
      { intros n l. assert (wp (rd 0) (λ v s', v = 0 ∧ s' = s1) s1) as (v & ? & Hrd & -> & ->) by (by apply (wp_getx _ _ 0)).
        destruct n; cbn [exec]; unfold mbind at 1, st_bind at 1; by rewrite Hrd. }
      rewrite Hz. eapply run_step; [done|by apply wp_setx|].
      eapply run_step; [done|apply wp_bind, (wp_getx _ _ (label "_stack_top")); [apply list_lookup_insert_eq; lia|by apply wp_setx]|].
      assert (Hland : Z.land (label "_stack_top") (u64 (Z.lnot 15)) = top).
      { change 15 with (2 ^ 4 - 1). unfold u64. by rewrite land_lnot_ones by lia. }
      rewrite Hland. cbn [xs set_xs]. rewrite list_insert_insert_eq.
      eapply run_step; [done|apply wp_bind, (wp_getx _ _ top); [apply list_lookup_insert_eq; lia|by apply wp_modify]|].
      eapply run_step; [done|by apply wp_setx|]. eapply run_step; [done|by apply wp_setx|].
      cbn [xs set_xs set_sp]. rewrite list_insert_insert_eq. change (run (bss_words + S k) bss_clear_loop s2 = (callee "kmain";; run k hang) s3).
      rewrite E6. by eapply (run_step _ _ k Wait); [|apply wp_ret|eapply (run_step _ _ k Wait); [|apply wp_ret|apply run_call]].
    + split; [by rewrite Z2| |].
      * rewrite !Z1, !bool_decide_false by lia. cbn [words s2 set_xs set_sp]. rewrite E1. unfold saved_x0.
        rewrite lookup_insert_eq. by rewrite lookup_insert_ne, lookup_insert_eq.
      * intros a. rewrite Z1. cbn [words s2 set_xs set_sp]. by rewrite E1.
Qed.

(** Another CPU stores its x0 all the same, and then waits. *)
Lemma run_secondary k s x0 :
  length (xs s) = 31%nat → xs s !! 0%nat = Some x0 → image label (words s) → Z.land (mpidr s) 0xFF ≠ 0 →
  ∃ s', run (S k) start s = run k hang s' ∧ words s' = saved_x0 label x0 (words s).
Proof.
  intros Hl H0 Him Hcpu. destruct (run_prologue (S k) s x0 Hl H0 Him) as (s1 & E1 & E2 & E3 & E4 & ->).
  exists s1. split; [|done]. set (rest := drop 7 start). change (drop 6 start) with (Cbnz 0 "hang" :: rest).
  assert (wp (rd 0) (λ v s', v = Z.land (mpidr s) 0xFF ∧ s' = s1) s1) as (v & ? & Hrd & -> & ->) by (by apply (wp_getx _ _ _ _ E4)).
  cbn [exec]. unfold mbind at 1, st_bind at 1. rewrite Hrd. unfold ctrue. by rewrite (proj2 (Z.eqb_neq _ 0)).
Qed.

(** C8: entered on CPU 0 with the boot loader's pointer in x0, the start-up code
    calls [kmain] on an aligned stack, with the pointer in [dtb_ptr] and in
    [boot_x0], every word of the static data zero, and nothing else in
    memory changed; if [kmain] came back it would wait forever. Any other CPU waits
    forever, but after it stored its own x0 in both variables. *)
Theorem boot_start_correct k s x0 :
  length (xs s) = 31%nat → xs s !! 0%nat = Some x0 → image label (words s) →
  (Z.land (mpidr s) 0xFF = 0 → ∃ s', run (bss_words + S k) start s = (callee "kmain";; run k hang) s' ∧ handed_over x0 s s') ∧
  (Z.land (mpidr s) 0xFF ≠ 0 → ∃ s', run (S k) start s = run k hang s' ∧ words s' = saved_x0 label x0 (words s)) ∧
  (∀ n s', run n hang s' = None).
Proof. intros Hl H0 Him. split_and!; [by apply run_primary|by apply run_secondary|apply run_hang]. Qed.

(** ** The move to the upper half

    The return address was computed before: the program goes on in the lower
    half, on the stack's upper alias. *)
Lemma higher_half_returns_low code N s offset ret :
  length (xs s) = 31%nat → xs s !! 30%nat = Some ret →
  wp (exec callee label code N (switch_jump offset)) (λ e s1, e = Jump (u64 (label "1f" + offset)) ∧
    wp (exec callee label code N (switch_stack offset)) (λ e' s2, e' = Jump ret ∧ sp s2 = u64 (sp s + offset)) s1) s.
Proof.
  intros Hl Hret. unfold switch_jump. apply wp_exec; [done|]. apply wp_setx.
  apply wp_exec; [done|]. apply wp_bind, (wp_getx _ _ (label "1f")); [apply list_lookup_insert_eq; lia|]. apply wp_setx.
  cbn [xs set_xs]. rewrite list_insert_insert_eq. set (s1 := set_xs _ _).
  assert (H1 : ∀ e, e = Jump (u64 (label "1f" + offset)) → e = Jump (u64 (label "1f" + offset)) ∧
    wp (exec callee label code N (switch_stack offset)) (λ e' s2, e' = Jump ret ∧ sp s2 = u64 (sp s + offset)) s1).
  { intros e ->. split; [done|]. unfold switch_stack. apply wp_exec; [done|]. apply wp_bind, wp_gets, wp_setx.
    apply wp_exec; [done|]. apply wp_bind, (wp_getx _ _ (sp s)); [apply list_lookup_insert_eq; cbn; rewrite length_insert; lia|].
    apply wp_setx. cbn [xs set_xs]. rewrite list_insert_insert_eq.
    apply wp_exec; [done|]. apply wp_bind, (wp_getx _ _ (u64 (sp s + offset))); [apply list_lookup_insert_eq; cbn; rewrite length_insert; lia|].
    apply wp_modify. destruct N; (apply wp_bind, (wp_getx _ _ ret);
      [cbn [xs set_xs set_sp s1]; by rewrite !list_lookup_insert_ne|by apply wp_ret]). }
  destruct N; (apply wp_bind, (wp_getx _ _ (u64 (label "1f" + offset))); [apply list_lookup_insert_eq; lia|]; by apply wp_ret, H1).
Qed.
End start.

(** ** An instance: three words of static data, entered with x0 = 0x48000000 *)

Definition demo_labels (l : string) : Z :=
  if bool_decide (l = "dtb_ptr") then 0x1000 else if bool_decide (l = "boot_x0") then 0x1008
  else if bool_decide (l = "__bss_start") then 0x2000 else if bool_decide (l = "__bss_end") then 0x2018
  else if bool_decide (l = "_stack_top") then 0x900c else 0.
Definition demo_image : gmap Z Z :=
  list_to_map ((λ a, (a, 7)) <$> [0x1000; 0x1008; 0x1ff8; 0x2000; 0x2008; 0x2010; 0x2018]).
Definition demo_reset : cpu := {|
  xs := 0x48000000 :: seqZ 1 30; sp := 0; elr := 0; spsr := 0; esr := 0; zf := false; ge := false;
  mpidr := 0x80000000; words := demo_image |}.

Lemma demo_image_ok : image demo_labels demo_image.
Proof.
  split.
  - split; [done|]. by eexists.
  - split; [done|]. by eexists.
  - done.
  - done.
  - done.
  - intros a Ha Ha8. change (0x2000 ≤ a < 0x2018) in Ha.
    assert (a = 0x2000 ∨ a = 0x2008 ∨ a = 0x2010) as [->|[->| ->]] by (Z.div_mod_to_equations; lia); by eexists.
  - done.
  - done.
  - done.
Qed.

Lemma boot_start_correct_witness :
  ∃ s', exec demo_callee demo_labels boot_code (3 + 5) start demo_reset =
    (demo_callee "kmain";; exec demo_callee demo_labels boot_code 4 hang) s' ∧ handed_over demo_labels 0x48000000 demo_reset s'.
Proof.
  exact (proj1 (boot_start_correct demo_callee demo_labels 4 demo_reset 0x48000000 eq_refl eq_refl demo_image_ok) eq_refl).
Defined.
