(* ===== verification/Kmain.v ===== *)
(** * Boot (init/main.c): translation

    State: the states of the components side by side.  The blob, the accesses to
    devices, the handler table, the timer and the scheduler are those of Irq.v;
    the kernel heap contains the region manager, the page tables and the page
    allocator.  A component runs on its part through a view of the machine. *)
From stdpp Require Import base gmap list option numbers strings.
From S2P Require Import Prelude Panic Spinlock RBHeap Pmm MmuIface Vmm Mmu TaskDef Sched CString Dtb PmmInit Klog Printk Frames FramesMmu Vmalloc Io Serial Gic Irq TaskCreate.
#[local] Open Scope Z_scope.
#[local] Open Scope panic_scope.

Module Kmain.
Import Dtb Mmu.

Record machine := {
  kern_of : Irq.kern;
  heap_of : Vmalloc.kheap mmu;
  log_of : Printk.pk;
  uart_at : Z;
  vbar_el1 : Z;
}.
Definition set_kern (v : Irq.kern) (s : machine) : machine :=
  {| kern_of := v; heap_of := heap_of s; log_of := log_of s; uart_at := uart_at s; vbar_el1 := vbar_el1 s |}.
Definition set_heap (v : Vmalloc.kheap mmu) (s : machine) : machine :=
  {| kern_of := kern_of s; heap_of := v; log_of := log_of s; uart_at := uart_at s; vbar_el1 := vbar_el1 s |}.
Definition set_log (v : Printk.pk) (s : machine) : machine :=
  {| kern_of := kern_of s; heap_of := heap_of s; log_of := v; uart_at := uart_at s; vbar_el1 := vbar_el1 s |}.
Definition set_uart_at (v : Z) (s : machine) : machine :=
  {| kern_of := kern_of s; heap_of := heap_of s; log_of := log_of s; uart_at := v; vbar_el1 := vbar_el1 s |}.
Definition set_vbar (v : Z) (s : machine) : machine :=
  {| kern_of := kern_of s; heap_of := heap_of s; log_of := log_of s; uart_at := uart_at s; vbar_el1 := v |}.

(** ** Parts *)

Definition gic_of (s : machine) : Gic.gic := Irq.kgic (kern_of s).
Definition set_gic (v : Gic.gic) (s : machine) : machine := set_kern (Irq.set_gic v (kern_of s)) s.
Definition dtb_of (s : machine) : dtb := Gic.gdt (gic_of s).
Definition trace_of (s : machine) : trace := Gic.gio (gic_of s).
Definition set_dtb (v : dtb) (s : machine) : machine :=
  set_gic {| Gic.gdt := v; Gic.gicd_base := Gic.gicd_base (gic_of s); Gic.gicc_base := Gic.gicc_base (gic_of s);
             Gic.gic_version := Gic.gic_version (gic_of s); Gic.gio := trace_of s |} s.
Definition set_trace (v : trace) (s : machine) : machine :=
  set_gic {| Gic.gdt := dtb_of s; Gic.gicd_base := Gic.gicd_base (gic_of s); Gic.gicc_base := Gic.gicc_base (gic_of s);
             Gic.gic_version := Gic.gic_version (gic_of s); Gic.gio := v |} s.
Definition vmm_of (s : machine) : Vmm.vmm mmu := Vmalloc.vm (heap_of s).
Definition set_vmm (v : Vmm.vmm mmu) (s : machine) : machine := set_heap (Vmalloc.set_vm v (heap_of s)) s.
Definition mmu_of (s : machine) : mmu := Vmm.mmu (vmm_of s).
Definition set_mmu (v : mmu) (s : machine) : machine := set_vmm (Vmm.set_mmu v (vmm_of s)) s.
Definition pmm_of (s : machine) : Pmm.pmm := pmm_st (mmu_of s).
Definition set_pmm (v : Pmm.pmm) (s : machine) : machine := set_mmu (Mmu.set_pmm v (mmu_of s)) s.

Definition on_kern {A} (m : ST Irq.kern A) : ST machine A := zoom kern_of set_kern m.
Definition on_log {A} (m : ST Printk.pk A) : ST machine A := zoom log_of set_log m.
Definition on_dtb {A} (m : ST dtb A) : ST machine A := zoom dtb_of set_dtb m.
Definition on_trace {A} (m : ST trace A) : ST machine A := zoom trace_of set_trace m.
Definition on_vmm {A} (m : ST (Vmm.vmm mmu) A) : ST machine A := zoom vmm_of set_vmm m.
Definition on_mmu {A} (m : ST mmu A) : ST machine A := zoom mmu_of set_mmu m.
Definition on_pmm {A} (m : ST Pmm.pmm A) : ST machine A := zoom pmm_of set_pmm m.
Definition on_uart {A} (m : ST Serial.uart A) : ST machine A :=
  zoom (λ s, {| Serial.udt := dtb_of s; Serial.uart_base := uart_at s; Serial.uio := trace_of s |})
       (λ u s, set_dtb (Serial.udt u) (set_trace (Serial.uio u) (set_uart_at (Serial.uart_base u) s))) m.
Definition on_init {A} (m : ST PmmInit.init A) : ST machine A :=
  zoom (λ s, {| PmmInit.pm := pmm_of s; PmmInit.dt := dtb_of s |})
       (λ i s, set_pmm (PmmInit.pm i) (set_dtb (PmmInit.dt i) s)) m.
Definition world_of (s : machine) : TaskCreate.world mmu :=
  {| TaskCreate.wsched := Irq.ksched (kern_of s); TaskCreate.wheap := heap_of s |}.
Definition on_world {A} (m : ST (TaskCreate.world mmu) A) : ST machine A :=
  zoom world_of
       (λ w s, set_kern (Irq.set_sched (TaskCreate.wsched w) (kern_of s)) (set_heap (TaskCreate.wheap w) s)) m.

Section kmain.
(** The device, the symbols of the linker and the addresses of code. *)
Context (dev : device) (ly : layout).
Context (vectors timer_handler wrapper_code exit_code idle_code : Z).
(** Where the linker puts a string literal, and the date of the build. *)
Context (rodata : list Z → Z) (build_date : list Z).

Definition KERNEL_NAME : list Z := lit "Arcline(R) 0.0.1".
Definition KERNEL_COPYRIGHT : list Z := lit "copyright (C) 2025 assembler-0".

(** A message of [kmain] itself; the slots of [args] hold its arguments. *)
Definition kmain_say (fmt : list Z) (args : list Z) : ST machine unit :=
  _ ← on_log (Printk.printk (rodata fmt) args); mret tt.

Definition vmm_init_identity : ST machine unit := mret tt.
Definition exception_init : ST machine unit := modify (set_vbar vectors).

(** [kmain] up to the map of the memory, without the integration tests.  The jump
    of [mmu_switch_to_higher_half] (Boot.v) changes no component's state. *)
Definition kmain_memory : PS machine unit :=
  on_uart Serial.serial_init;;
  on_log Printk.printk_init;;
  kmain_say (lit "%s" ++ [10]) [rodata KERNEL_NAME];;
  kmain_say (lit "%s" ++ [10]) [rodata KERNEL_COPYRIGHT];;
  kmain_say (lit "build %s" ++ [10]) [rodata build_date];;
  on_dtb (dtb_init (kernel_end ly));;
  on_dtb dtb_dump_info;;
  on_init (PmmInit.pmm_init_from_dtb (kernel_start ly) (kernel_end ly) (stack_bottom ly) (stack_top ly));;
  total ← on_pmm Pmm.pmm_total_pages;
  free ← on_pmm Pmm.pmm_free_pages_count;
  free' ← on_pmm Pmm.pmm_free_pages_count;
  kmain_say (lit "PMM: total=%d pages, free=%d pages (size=%d KiB)" ++ [10]) [u32 total; u32 free; u32 (free' * 4)];;
  c ← on_pmm Pmm.pmm_check;
  require (c =? 0);!
  kmain_say (lit "PMM: consistency check OK" ++ [10]) [];;
  vmm_init_identity;;
  r ← on_vmm Vmm.vmm_init;
  require (r =? 0);!
  kmain_say (lit "VMM: initialized RB-tree manager" ++ [10]) [];;
  on_mmu (mmu_init ly);;
  on_mmu mmu_enable;;
  total ← on_pmm Pmm.pmm_total_pages;
  let mem_size := u64 (total * 4096) in
  r ← on_mmu (mmu_map_region 0 mem_size init_attrs);
  when (r =? 0)
    (kmain_say (lit "MMU: mapped %d MiB physical memory to higher-half" ++ [10]) [u32 (mem_size / (1024 * 1024))]);;
  pret tt.

Definition kmain_devices : PS machine unit :=
  exception_init;;
  on_kern Irq.irq_init;;
  on_kern (Irq.on_gic Gic.gic_init);;
  on_kern (Irq.timer_init dev timer_handler 100);;
  on_vmm Vmm.vmm_dump;;
  pret tt.

Definition kmain_tasks : PS machine unit :=
  on_world (TaskCreate.task_init wrapper_code exit_code idle_code);!
  kmain_say (10 :: lit "IRQ: enabling interrupts..." ++ [10]) [];;
  on_trace (emit Unmask);;
  pret tt.

(** [kmain] up to the loop that waits for interrupts. *)
Definition kmain : PS machine unit := kmain_memory;! kmain_devices;! kmain_tasks.
End kmain.

End Kmain.
