(* ===== verification/KmainThm.v ===== *)
(** * Boot: from reset to the idle task

    Each call of [kmain] runs on its part of the machine by the component's own
    lemma; this file carries what they leave from one call to the next. *)
From stdpp Require Import base gmap list option numbers strings.
From Stdlib Require Import ZArith Lia.
From S2P Require Import Prelude Panic Spinlock Bitmap RBHeap Pmm MmuIface Vmm VmmThm Mmu MmuThm TaskDef Eevdf EevdfClaims Sched CString Dtb DtbThm DtbFind DtbUart DtbPath DtbTree PmmInit PmmInitThm PmmInitClaims PmmBoot Klog KlogThm Printk PrintkThm SyscallThm Frames FramesMmu Vmalloc VmallocThm VmallocMap VmallocAlloc VmallocClaims Io Serial SerialThm Gic GicThm Irq IrqThm IrqClaims TaskCreate TaskCreateThm Kmain.
#[local] Open Scope Z_scope.
Import Eevdf Sched Pmm Dtb Mmu Vmalloc Kmain.

(** The heap is still as the image has it: only its region manager changes. *)
Definition at_boot (k : Irq.kern) (v : Vmm.vmm mmu) (l : Printk.pk) (b vb : Z) : machine := {|
  kern_of := k; heap_of := boot_heap VMALLOC_START v; log_of := l; uart_at := b; vbar_el1 := vb |}.
(** A machine whose parsers see [d] and whose drivers did [tr]. *)
Definition with_io (d : dtb) (tr : trace) (k : Irq.kern) : Irq.kern :=
  Irq.set_gic {| Gic.gdt := d; Gic.gicd_base := Gic.gicd_base (Irq.kgic k); Gic.gicc_base := Gic.gicc_base (Irq.kgic k);
                 Gic.gic_version := Gic.gic_version (Irq.kgic k); Gic.gio := tr |} k.
Definition dtb_in (k : Irq.kern) : dtb := Gic.gdt (Irq.kgic k).
Definition trace_in (k : Irq.kern) : trace := Gic.gio (Irq.kgic k).
Definition with_mmu (t : mmu) (v : Vmm.vmm mmu) : Vmm.vmm mmu := Vmm.set_mmu t v.

Section views.
Context {A : Type}.
Implicit Types (Q : A → machine → Prop) (k : Irq.kern) (v : Vmm.vmm mmu).

Lemma wp_on_uart (m : ST Serial.uart A) Q k v l b vb :
  wp m (λ a u, Q a (at_boot (with_io (Serial.udt u) (Serial.uio u) k) v l (Serial.uart_base u) vb))
    {| Serial.udt := dtb_in k; Serial.uart_base := b; Serial.uio := trace_in k |} →
  wp (on_uart m) Q (at_boot k v l b vb).
Proof. intros H. apply wp_zoom. exact H. Qed.
Lemma wp_on_log (m : ST Printk.pk A) Q k v l b vb :
  wp m (λ a l', Q a (at_boot k v l' b vb)) l → wp (on_log m) Q (at_boot k v l b vb).
Proof. intros H. apply wp_zoom. exact H. Qed.
Lemma wp_on_dtb (m : ST dtb A) Q k v l b vb :
  wp m (λ a d, Q a (at_boot (with_io d (trace_in k) k) v l b vb)) (dtb_in k) → wp (on_dtb m) Q (at_boot k v l b vb).
Proof. intros H. apply wp_zoom. exact H. Qed.
Lemma wp_on_init (m : ST PmmInit.init A) Q k v l b vb :
  wp m (λ a i, Q a (at_boot (with_io (PmmInit.dt i) (trace_in k) k)
      (with_mmu (Mmu.set_pmm (PmmInit.pm i) (Vmm.mmu v)) v) l b vb))
    {| PmmInit.pm := pmm_st (Vmm.mmu v); PmmInit.dt := dtb_in k |} →
  wp (on_init m) Q (at_boot k v l b vb).
Proof. intros H. apply wp_zoom. exact H. Qed.
Lemma wp_on_vmm (m : ST (Vmm.vmm mmu) A) Q k v l b vb :
  wp m (λ a v', Q a (at_boot k v' l b vb)) v → wp (on_vmm m) Q (at_boot k v l b vb).
Proof. intros H. apply wp_zoom. exact H. Qed.
Lemma wp_on_mmu (m : ST mmu A) Q k v l b vb :
  wp m (λ a t, Q a (at_boot k (with_mmu t v) l b vb)) (Vmm.mmu v) → wp (on_mmu m) Q (at_boot k v l b vb).
Proof. intros H. apply wp_zoom. exact H. Qed.
Lemma wp_on_pmm (m : ST Pmm.pmm A) Q k v l b vb :
  wp m (λ a p, Q a (at_boot k (with_mmu (Mmu.set_pmm p (Vmm.mmu v)) v) l b vb)) (pmm_st (Vmm.mmu v)) →
  wp (on_pmm m) Q (at_boot k v l b vb).
Proof. intros H. apply wp_zoom. exact H. Qed.
Lemma wp_on_kern (m : ST Irq.kern A) Q k v l b vb :
  wp m (λ a k', Q a (at_boot k' v l b vb)) k → wp (on_kern m) Q (at_boot k v l b vb).
Proof. intros H. apply wp_zoom. exact H. Qed.
End views.

Lemma with_io_same k : with_io (dtb_in k) (trace_in k) k = k.
Proof. by destruct k as [[]]. Qed.
Lemma with_io_twice d tr d' tr' k : with_io d tr (with_io d' tr' k) = with_io d tr k.
Proof. by destruct k. Qed.
Lemma with_mmu_same v : with_mmu (Vmm.mmu v) v = v.
Proof. by destruct v. Qed.
Lemma set_pmm_same t : Mmu.set_pmm (pmm_st t) t = t.
Proof. by destruct t. Qed.

(** A read of the allocator. *)
Lemma wp_pmm_read {A} (m : ST Pmm.pmm A) (P : A → Prop) (Q : A → machine → Prop) k v l b vb :
  wp m (λ a p, P a ∧ p = pmm_st (Vmm.mmu v)) (pmm_st (Vmm.mmu v)) →
  (∀ a, P a → Q a (at_boot k v l b vb)) → wp (on_pmm m) Q (at_boot k v l b vb).
Proof.
  intros H HQ. apply wp_on_pmm. eapply wp_mono; [exact H|]. intros a p [Ha ->].
  rewrite set_pmm_same, with_mmu_same. by apply HQ.
Qed.

Lemma wp_counter {A} (f : Pmm.pmm → A) (s : Pmm.pmm) :
  (∀ w d, f (lk_set_word w (lk_set_daif d s)) = f s) → Pmm.pmm_lock s = 0 →
  wp (flags ← spinlock_lock_irqsave; c ← gets f; spinlock_unlock_irqrestore flags;; mret c)
    (λ a p, a = f s ∧ p = s) s.
Proof.
  intros Hf Hl. apply wp_bind, wp_lock_irqsave; [done|]. apply wp_bind, wp_gets.
  apply wp_bind, wp_unlock_irqrestore, wp_ret. split; [apply Hf|]. destruct s. simpl in *. by subst.
Qed.

(** ** Messages *)

Lemma signed_short v : zlen (signed v) ≤ 24.
Proof.
  assert (Hd : ∀ fuel f w, (length (digs fuel 10 f w) ≤ fuel)%nat).
  { induction fuel as [|fuel IH]; intros f w; simpl; [lia|]. destruct (0 <? w); simpl; [|lia]. specialize (IH f (w / 10)). lia. }
  assert (Hn : ∀ w, zlen (dec w) ≤ 23).
  { intros w. unfold dec, number, zlen. destruct (w =? 0); [simpl; lia|]. rewrite length_rev.
    specialize (Hd 23%nat (λ d, 48 + d) w). lia. }
  unfold signed, zlen. pose proof (Hn v). pose proof (Hn (- v)). unfold zlen in *. destruct (v <? 0); simpl length; lia.
Qed.

Lemma int_slot x : 0 ≤ x < 2 ^ 31 → - 2 ^ 31 < s32 (u32 x).
Proof.
  intros Hx. assert (Hu : u32 x = x) by (apply Z.mod_small; lia). rewrite Hu. unfold s32.
  rewrite (Z.mod_small x) by lia. cbv zeta. destruct (Z.ltb_spec x (2 ^ 31)); lia.
Qed.

(** The literal of a given number. *)
Ltac literal n := apply (list_elem_of_lookup_2 _ n); reflexivity.

Section messages.
Context (rodata : list Z → Z) (build_date : list Z).

(** The literals of [kmain]. *)
Definition kmain_strings : list (list Z) :=
  [lit "%s" ++ [10]; KERNEL_NAME; KERNEL_COPYRIGHT; lit "build %s" ++ [10]; build_date;
   lit "PMM: total=%d pages, free=%d pages (size=%d KiB)" ++ [10]; lit "PMM: consistency check OK" ++ [10];
   lit "VMM: initialized RB-tree manager" ++ [10];
   lit "MMU: mapped %d MiB physical memory to higher-half" ++ [10]; 10 :: lit "IRQ: enabling interrupts..." ++ [10]].

(** The log works, and the literals are in memory. *)
Definition logging (l : Printk.pk) : Prop :=
  placed rodata (Printk.text l) kmain_strings ∧ ∃ recs, pk_ok l recs.

Lemma wp_say k v l b vb fmt args out (rest : PS machine unit) (Q : option unit → machine → Prop) :
  logging l → fmt ∈ kmain_strings → (placed rodata (Printk.text l) kmain_strings → renders (Printk.text l) fmt args out) →
  zlen out < 2 ^ 31 → (∀ l', logging l' → wp rest Q (at_boot k v l' b vb)) →
  wp (kmain_say rodata fmt args;; rest) Q (at_boot k v l b vb).
Proof.
  intros [Hpl [recs Hok]] Hin Hr Hn HQ. pose proof (proj1 (Forall_forall _ _) Hpl fmt Hin) as [H0 Hc].
  apply wp_bind, wp_bind, wp_on_log. unfold Printk.printk, Printk.vprintk.
  apply (wp_said _ _ _ fmt out _ recs); [exact H0|exact Hc|by apply Hr|exact Hn|exact Hok|].
  intros l' Ht Hok'. apply wp_ret, HQ. split; [by rewrite Ht|]. by eexists.
Qed.

Lemma wp_say_plain k v l b vb fmt (rest : PS machine unit) (Q : option unit → machine → Prop) :
  logging l → fmt ∈ kmain_strings → Forall (λ c, c ≠ 37) fmt → zlen fmt < 2 ^ 31 →
  (∀ l', logging l' → wp rest Q (at_boot k v l' b vb)) →
  wp (kmain_say rodata fmt [];; rest) Q (at_boot k v l b vb).
Proof. intros Hl Hin Hp Hn. apply (wp_say _ _ _ _ _ fmt [] fmt); [done|done| |done]. intros _. by apply renders_plain. Qed.

(** The last message, on a machine past its start. *)
Lemma wp_say_last s :
  logging (log_of s) →
  wp (kmain_say rodata (10 :: lit "IRQ: enabling interrupts..." ++ [10]) []) (λ _ s', ∃ l', s' = set_log l' s ∧ logging l') s.
Proof.
  intros [Hpl [recs Hok]]. pose proof (proj1 (Forall_forall _ _) Hpl (10 :: lit "IRQ: enabling interrupts..." ++ [10])
    ltac:(literal 9%nat)) as [H0 Hc].
  apply wp_bind, wp_zoom. unfold Printk.printk, Printk.vprintk.
  eapply (wp_said _ _ _ _ _ _ recs); [exact H0|exact Hc|apply renders_plain; plain_ok|done|exact Hok|].
  intros l' Ht Hok'. apply wp_ret. exists l'. split; [done|]. split; [by rewrite Ht|]. by eexists.
Qed.

Lemma wp_say_string k v l b vb (pre str : list Z) (rest : PS machine unit) (Q : option unit → machine → Prop) :
  logging l → pre ++ 37 :: 115 :: [10] ∈ kmain_strings → Forall (λ c, c ≠ 37) pre → str ∈ kmain_strings →
  zlen pre + zlen str + 1 < 2 ^ 31 → (∀ l', logging l' → wp rest Q (at_boot k v l' b vb)) →
  wp (kmain_say rodata (pre ++ 37 :: 115 :: [10]) [rodata str];; rest) Q (at_boot k v l b vb).
Proof.
  intros Hl Hin Hp Hs Hn. apply (wp_say _ _ _ _ _ _ _ (pre ++ str ++ [10])); [done|done| |unfold zlen in *; rewrite !length_app; simpl; lia].
  intros Hpl. pose proof (proj1 (Forall_forall _ _) Hpl str Hs) as [H0 Hc]. apply renders_app; [done|].
  eapply R_conv; [by apply C_s|]. apply renders_plain. plain_ok.
Qed.

Lemma wp_say_total k v l b vb x y z (rest : PS machine unit) (Q : option unit → machine → Prop) :
  logging l → 0 ≤ x < 2 ^ 31 → 0 ≤ y < 2 ^ 31 → 0 ≤ z < 2 ^ 31 →
  (∀ l', logging l' → wp rest Q (at_boot k v l' b vb)) →
  wp (kmain_say rodata (lit "PMM: total=%d pages, free=%d pages (size=%d KiB)" ++ [10]) [u32 x; u32 y; u32 z];; rest) Q
    (at_boot k v l b vb).
Proof.
  intros Hl Hx Hy Hz. set (d w := signed (s32 (u32 w))).
  apply (wp_say _ _ _ _ _ _ _ (lit "PMM: total=" ++ d x ++ lit " pages, free=" ++ d y ++ lit " pages (size=" ++ d z ++ lit " KiB)" ++ [10])).
  - done.
  - literal 5%nat.
  - intros _. change (lit "PMM: total=%d pages, free=%d pages (size=%d KiB)" ++ [10]) with
      (lit "PMM: total=" ++ 37 :: 100 :: lit " pages, free=" ++ 37 :: 100 :: lit " pages (size=" ++ 37 :: 100 :: lit " KiB)" ++ [10]).
    do 3 (apply renders_app; [plain_ok|]; eapply R_conv; [by apply C_d, int_slot|]). apply renders_plain. plain_ok.
  - pose proof (signed_short (s32 (u32 x))). pose proof (signed_short (s32 (u32 y))). pose proof (signed_short (s32 (u32 z))).
    unfold d, zlen in *. rewrite !length_app. simpl (length (lit _)). simpl (length [_]). lia.
Qed.

Lemma wp_say_mapped k v l b vb x (rest : PS machine unit) (Q : option unit → machine → Prop) :
  logging l → 0 ≤ x < 2 ^ 31 → (∀ l', logging l' → wp rest Q (at_boot k v l' b vb)) →
  wp (kmain_say rodata (lit "MMU: mapped %d MiB physical memory to higher-half" ++ [10]) [u32 x];; rest) Q (at_boot k v l b vb).
Proof.
  intros Hl Hx. set (d := signed (s32 (u32 x))).
  apply (wp_say _ _ _ _ _ _ _ (lit "MMU: mapped " ++ d ++ lit " MiB physical memory to higher-half" ++ [10])).
  - done.
  - literal 8%nat.
  - intros _. change (lit "MMU: mapped %d MiB physical memory to higher-half" ++ [10]) with
      (lit "MMU: mapped " ++ 37 :: 100 :: lit " MiB physical memory to higher-half" ++ [10]).
    apply renders_app; [plain_ok|]. eapply R_conv; [by apply C_d, int_slot|]. apply renders_plain. plain_ok.
  - pose proof (signed_short (s32 (u32 x))). unfold d, zlen in *. rewrite !length_app. simpl (length (lit _)). simpl (length [_]). lia.
Qed.
End messages.

(** ** Memory *)

Section boot.
Context (dev : device) (ly : layout).
Context (vectors timer_handler wrapper_code exit_code idle_code : Z).
Context (rodata : list Z → Z) (build_date : list Z).
Context (evs : list ev) (u : option Z) (tsz p : Z).

(** The machine at the first call: static data as the image has it, a blob at the
    loader's pointer or where the search finds it, and linker symbols in order. *)
Record power_on (s : machine) : Prop := {
  po_heap : heap_of s = boot_heap VMALLOC_START (vmm_of s);
  po_pool : Vmm.vma_free_list (vmm_of s) = None ∧
    ∀ i, 0 ≤ i < 256 → is_Some (heap (Vmm.vma_tree (vmm_of s)) !! i);
  po_ring : Z.of_nat (length (Klog.klog_ring (Printk.log (log_of s)))) = 4096;
  po_text : placed rodata (Printk.text (log_of s)) (kmain_strings build_date) ∧
    Z.of_nat (length (Printk.printk_buf (log_of s))) = 512;
  po_date : zlen build_date < 2 ^ 30;
  po_found : settles (kernel_end ly) (dtb_of s) p;
  po_boot : boot_ok {| PmmInit.pm := pmm_of s; PmmInit.dt := set_ptr p (dtb_of s) |} evs u tsz
    (kernel_start ly) (kernel_end ly) (stack_bottom ly) (stack_top ly);
  po_version : ∃ n, tok (ram (dtb_of s)) (p + hdr_version) n;
  po_strings : aligned_blob (set_ptr p (dtb_of s)) ∧ terminated evs;
  po_layout : layout_ok ly;
  po_tasks : etasks (eev (Irq.ksched (kern_of s))) = ∅ ∧ pool_present (eev (Irq.ksched (kern_of s)));
  po_pids : Pid.Pid.pid_lock (pids (Irq.ksched (kern_of s))) = 0;
  po_sched : current_task (Irq.ksched (kern_of s)) = None ∧ task_list (Irq.ksched (kern_of s)) = None;
}.

(** The range that the allocator manages, and the pages withdrawn from it. *)
Definition ram_range : Z * Z := page_range (raw_range (fm_spec evs 0 false (2, 2))).
Definition in_use : Z → bool :=
  withdrawn ram_range.1 u p tsz (kernel_start ly) (kernel_end ly) (stack_bottom ly) (stack_top ly).

(** The console that [serial_init] finds: it runs before [dtb_init], so only the
    loader's pointer counts. *)
Definition console_at (s : machine) : Z := base_of (if ctrue (dtb_ptr (dtb_of s)) then u else None) (uart_at s).

(** The upper half after boot: the kernel image, the stack and as many pages as
    there is memory from address 0 on, at a constant distance; below, pages one
    to one. *)
Definition upper_half (total : Z) (t : mmu) : Prop :=
  let up := mapped_range (mem t) (ttbr1_el1 t) Vmm.vmm_kernel_base in
  up (page_down (kernel_start ly)) (page_up (kernel_end ly)) init_attrs ∧
  up (page_down (stack_bottom ly)) (page_up (stack_top ly)) init_attrs ∧
  up 0 (total * 4096) init_attrs ∧
  ∃ n, mapped_range (mem t) (ttbr0_el1 t) 0 0 (n * 4096) init_attrs ∧ (n * 4096 = 0x80000000 ∨ no_page (pmm_st t)).

(** The page tables and the allocator below the heap. *)
Record memory_up (s : machine) : Prop := {
  mu_regions : vabs ∅ (vmm_of s) [];
  mu_pmm : Pmm.pmm_ok (pmm_of s);
  mu_range : Pmm.pmm_mem_base (pmm_of s) = ram_range.1 ∧ Pmm.pmm_pages_total (pmm_of s) = total_of ram_range.2;
  mu_kept : ∀ j, 0 ≤ j < total_of ram_range.2 → in_use j = true → Pmm.page_alloc (pmm_of s) j = true;
  mu_enabled : ttbr0_el1 (mmu_of s) = ttbr0_pgd (mmu_of s) ∧ ttbr1_el1 (mmu_of s) = ttbr1_pgd (mmu_of s) ∧
    mair_el1 (mmu_of s) = mair_value ∧ tcr_el1 (mmu_of s) = tcr_value ∧ Z.testbit (sctlr_el1 (mmu_of s)) 0 = true;
  mu_maps : upper_half (total_of ram_range.2) (mmu_of s) ∨ no_page (pmm_of s);
}.

(** ** Page tables *)

(** What the calls of mm/mmu.c leave, from an allocator in state [p0]. *)
Record tables_up (p0 : Pmm.pmm) (t : mmu) : Prop := {
  tu_inv : inv_held ∅ t;
  tu_pmm : Pmm.pmm_ok (pmm_st t);
  tu_le : pmm_le p0 (pmm_st t);
  tu_enabled : ttbr0_el1 t = ttbr0_pgd t ∧ ttbr1_el1 t = ttbr1_pgd t ∧
    mair_el1 t = mair_value ∧ tcr_el1 t = tcr_value ∧ Z.testbit (sctlr_el1 t) 0 = true;
  tu_maps : upper_half (Pmm.pmm_pages_total p0) t ∨ no_page (pmm_st t);
}.

(** [mmu_enable] touches registers only. *)
Definition enabled_mmu (t t' : mmu) : Prop :=
  pmm_st t' = pmm_st t ∧ mem t' = mem t ∧ ttbr0_pgd t' = ttbr0_pgd t ∧ ttbr1_pgd t' = ttbr1_pgd t ∧
  ttbr0_el1 t' = ttbr0_pgd t ∧ ttbr1_el1 t' = ttbr1_pgd t ∧ mair_el1 t' = mair_value ∧ tcr_el1 t' = tcr_value ∧
  Z.testbit (sctlr_el1 t') 0 = true.

Lemma wp_mmu_enable t (Q : unit → mmu → Prop) :
  (∀ t', enabled_mmu t t' → Q tt t') → wp mmu_enable Q t.
Proof.
  intros HQ. unfold mmu_enable. apply wp_bind, wp_gets, wp_bind, wp_gets, wp_bind, wp_modify.
  apply wp_bind, wp_modify, wp_bind, wp_gets, wp_bind, wp_modify, wp_modify. apply HQ.
  split_and!; [done..|]. cbn [sctlr_el1 set_issued set_sctlr set_sysregs]. rewrite !Z.lor_spec. by rewrite orb_true_r.
Qed.

Lemma enabled_tables t t' own : enabled_mmu t t' → tables_ok t own → tables_ok t' own.
Proof.
  intros (Ep & Em & _) [A B C D]. split; rewrite ?Ep, ?Em; try done; intros; rewrite ?Ep; eauto.
  all: rewrite ?Em in *; eauto.
Qed.

Lemma pages_limit (q : Pmm.pmm) : Pmm.pmm_ok q → 0 ≤ Pmm.pmm_pages_total q ≤ PMM_MAX_PAGES.
Proof. intros Hq. apply Hq. Qed.

Lemma base_room total : 0 ≤ total ≤ 1048576 → Vmm.vmm_kernel_base + 0 + total * 4096 + 4096 < 2 ^ 64.
Proof. intros H. assert (Vmm.vmm_kernel_base = 0xFFFFFF8000000000) as -> by reflexivity. lia. Qed.

(** The last call: all pages from address 0 on. *)
Lemma wp_linear_map t own total (Q : Z → mmu → Prop) :
  tables_ok t own → (ttbr1_pgd t ≠ 0 → own !! ttbr1_pgd t = Some 3%nat) → 0 ≤ total ≤ PMM_MAX_PAGES →
  (∀ r t' own', tables_ok t' own' → own ⊆ own' → same_regs t t' →
     (ttbr1_pgd t = 0 ∧ t' = t ∨ no_page (pmm_st t') ∨
      mapped_upto t own (ttbr1_pgd t) (Vmm.vmm_kernel_base + 0) (λ j, leaf_map (0 + j * 4096) init_attrs) total t') →
     Q r t') →
  wp (mmu_map_region 0 (u64 (total * 4096)) init_attrs) Q t.
Proof.
  intros Hok Hr Ht HQ. change PMM_MAX_PAGES with 1048576 in Ht.
  assert (Hu : u64 (total * 4096) = total * 4096) by (apply u64_small; lia). rewrite Hu.
  destruct (Z.eq_dec (ttbr1_pgd t) 0) as [E|E].
  - unfold mmu_map_region. apply wp_bind, wp_gets. rewrite E. apply wp_ret.
    apply (HQ (-1) t own); [done|done|by repeat split|]. by left.
  - eapply wp_mono; [apply (wp_mmu_map_region t own); [done|done|by apply Hr|lia|lia|exact (base_room total Ht)]|].
    intros r t' (n & Hm & Hres). pose proof Hm as (own' & Hok' & Hsub & Hreg & _).
    apply (HQ r t' own'); [done..|]. right. destruct Hres as [(_ & -> & _)|(_ & Hno)]; [right|by left].
    assert (Hn : page_up (total * 4096) / 4096 = total).
    { rewrite page_up_spec by lia. replace (total * 4096 + 4095) with (4095 + total * 4096) by lia.
      rewrite Z.div_add, Z.div_mul by lia. by change (4095 / 4096) with 0. }
    assert (Hd : page_down 0 = 0) by reflexivity. rewrite Hn, Hd in Hm. exact Hm.
Qed.

Lemma upper_half_kept t1 t t' own total :
  layout_ok ly → init_post ly t1 → enabled_mmu t1 t → own !! ttbr0_pgd t = Some 3%nat → own !! ttbr1_pgd t = Some 3%nat →
  0 ≤ total ≤ PMM_MAX_PAGES → same_regs t t' →
  mapped_upto t own (ttbr1_pgd t) (Vmm.vmm_kernel_base + 0) (λ j, leaf_map (0 + j * 4096) init_attrs) total t' →
  upper_half total t'.
Proof.
  intros Hly (H0 & H1 & Hne & _ & Hk & Hs & n & Hn & Hid & Hfull) (Ep & Em & E0 & E1 & E2 & E3 & _) Ho0 Ho1 Ht Hreg Hm.
  change PMM_MAX_PAGES with 1048576 in Ht. destruct Hreg as (_ & _ & _ & _ & R0 & R1 & _ & Hle).
  destruct Hly as [(Hk1 & Hk2 & Hk3) Hks (Hs1 & Hs2 & Hs3) Hss].
  assert (Hlim : ∀ lo hi, 0 ≤ lo < 2 ^ 48 → 0 ≤ hi → hi + 4096 < 2 ^ 48 → ∀ pa, page_down lo ≤ pa < page_up hi → 0 ≤ pa < 2 ^ 48).
  { intros lo hi H2 H3 H4 pa. rewrite page_down_spec, page_up_spec by lia. Z.div_mod_to_equations. lia. }
  unfold upper_half. rewrite R0, R1, E2, E3 in *. rewrite <-E0, <-E1 in *. rewrite <-Em in Hk, Hs, Hid.
  split_and!.
  - eapply (mapped_range_keep t own _ _ _ _ 0 total); [done|done|by apply Hlim|lia|lia|exact Hk|exact Hm].
  - eapply (mapped_range_keep t own _ _ _ _ 0 total); [done|done|by apply Hlim|lia|lia|exact Hs|exact Hm].
  - eapply (mapped_upto_range t own _ _ 0); [done| |exact Hm]. lia.
  - exists n. split; [eapply (mapped_range_other t own); [exact Hid|done|exact Hne|exact Hm]|].
    destruct Hfull as [?|Hno]; [by left|right]. rewrite <-Ep in Hno. by eapply no_page_mono.
Qed.

(** The message about the mapped memory is not always given. *)
Lemma wp_last_message k v l b vb r x (Q : option unit → machine → Prop) :
  logging rodata build_date l → 0 ≤ x < 2 ^ 31 →
  (∀ l', logging rodata build_date l' → Q (Some tt) (at_boot k v l' b vb)) →
  wp (when (r =? 0) (kmain_say rodata (lit "MMU: mapped %d MiB physical memory to higher-half" ++ [10]) [u32 x]);; pret tt) Q
    (at_boot k v l b vb).
Proof.
  intros Hl Hx HQ. destruct (r =? 0); cbn [when].
  - apply (wp_say_mapped rodata build_date); [done|done|]. intros l' Hl'. by apply wp_ret, HQ.
  - apply wp_bind, wp_ret, wp_ret. by apply HQ.
Qed.

Lemma mib_range total : 0 ≤ total ≤ PMM_MAX_PAGES → 0 ≤ u64 (total * 4096) / (1024 * 1024) < 2 ^ 31.
Proof.
  change PMM_MAX_PAGES with 1048576. intros Ht. rewrite u64_small by lia.
  split; [apply Z.div_pos; lia|apply Z.div_lt_upper_bound; lia].
Qed.

Lemma wp_boot_tables k v l b vb (Q : option unit → machine → Prop) :
  logging rodata build_date l → Pmm.pmm_ok (pmm_st (Vmm.mmu v)) → layout_ok ly →
  (∀ t l', tables_up (pmm_st (Vmm.mmu v)) t → logging rodata build_date l' →
     Q (Some tt) (at_boot k (with_mmu t v) l' b vb)) →
  wp (on_mmu (mmu_init ly);; on_mmu mmu_enable;; total ← on_pmm pmm_total_pages;
      let mem_size := u64 (total * 4096) in
      r ← on_mmu (mmu_map_region 0 mem_size init_attrs);
      when (r =? 0)
        (kmain_say rodata (lit "MMU: mapped %d MiB physical memory to higher-half" ++ [10]) [u32 (mem_size / (1024 * 1024))]);;
      pret tt) Q (at_boot k v l b vb).
Proof.
  intros Hlog Hp Hly HQ. set (p0 := pmm_st (Vmm.mmu v)) in *.
  apply wp_bind, wp_on_mmu. eapply wp_mono; [by apply wp_mmu_init|]. intros ok t1 (Hres & Hri & Hle1).
  assert (∃ own, tables_ok t1 own ∧ (ttbr1_pgd t1 ≠ 0 → own !! ttbr1_pgd t1 = Some 3%nat) ∧
    (ok = true → own !! ttbr0_pgd t1 = Some 3%nat)) as (own & Hok1 & Hr1 & Hr0).
  { destruct ok; [|destruct Hri as (own & ? & ?); by exists own].
    pose proof Hres as (_ & _ & _ & (own & ? & ? & ?) & _). by exists own. }
  apply wp_bind, wp_on_mmu. change (Vmm.mmu (with_mmu t1 v)) with t1. apply wp_mmu_enable. intros t2 Hen.
  change (with_mmu t2 (with_mmu t1 v)) with (with_mmu t2 v).
  pose proof (enabled_tables _ _ _ Hen Hok1) as Hok2. pose proof Hok2 as [Hp2 _ _ _].
  assert (Ep : pmm_st t2 = pmm_st t1) by apply Hen.
  assert (E0 : ttbr0_pgd t2 = ttbr0_pgd t1) by apply Hen. assert (E1 : ttbr1_pgd t2 = ttbr1_pgd t1) by apply Hen.
  apply wp_bind, (wp_pmm_read _ (λ n, n = Pmm.pmm_pages_total p0)).
  { eapply wp_mono; [apply (wp_counter pmm_pages_total); [done|apply Hp2]|]. intros n q [-> ->]. split; [|done].
    change (Vmm.mmu (with_mmu t2 v)) with t2. rewrite Ep. apply Hle1. }
  intros n ->. assert (Htot : Pmm.pmm_pages_total (pmm_st t2) = Pmm.pmm_pages_total p0) by (rewrite Ep; apply Hle1).
  pose proof (pages_limit _ Hp2) as Hlim. rewrite Htot in Hlim.
  apply wp_bind, wp_on_mmu. change (Vmm.mmu (with_mmu t2 v)) with t2.
  apply (wp_linear_map t2 own); [done|by rewrite E1|done|]. intros r t3 own3 Hok3 Hsub Hreg Hcase.
  change (with_mmu t3 (with_mmu t2 v)) with (with_mmu t3 v).
  apply wp_last_message; [exact Hlog|by apply mib_range|]. intros l' Hl'. apply HQ; [|exact Hl'].
  pose proof Hreg as (R0 & R1 & R2 & R3 & R4 & R5 & R6 & Hle3). pose proof Hen as (_ & _ & _ & _ & N0 & N1 & N2 & N3 & N4).
  split.
  - exists own3. split_and!; [done| |by intros a Ha%elem_of_empty].
    rewrite R5, N1. intros Hnz. eapply lookup_weaken; [by apply Hr1|done].
  - apply Hok3.
  - eapply pmm_le_trans; [exact Hle1|]. by rewrite <-Ep.
  - rewrite R0, R1, R2, R3, R4, R5, R6, N0, N1, N2, N3, N4, E0, E1. done.
  - destruct Hcase as [[Hz ->]|[Hno|Hm]]; [|by right|].
    + right. destruct ok; [|by rewrite Ep]. destruct Hres as (_ & ? & _). congruence.
    + destruct ok; [left|right; eapply no_page_mono; [exact Hle3|by rewrite Ep]].
      pose proof Hres as (_ & Hnz & _). eapply (upper_half_kept t1 t2 t3 own);
        [done|exact Hres|exact Hen|rewrite E0; by apply Hr0|rewrite E1; by apply Hr1|done|exact Hreg|exact Hm].
Qed.

(** ** The console and the blob *)

Lemma wp_console_of d : 
  settles (kernel_end ly) d p → blob (set_ptr p d) evs →
  (∀ n x, (n, x) ∈ g_als (p1 evs None sig0) → 0 ∈ x) → uart_spec evs = Ret u →
  wp dtb_get_stdout_uart_base (λ r d', r = (if ctrue (dtb_ptr d) then u else None) ∧ d' = d) d.
Proof.
  intros Hs Hb Hals Hu. unfold settles in Hs. destruct (ctrue (dtb_ptr d)) eqn:E.
  - subst p. rewrite set_ptr_same in Hb. by apply (wp_uart d evs u).
  - unfold dtb_get_stdout_uart_base. apply wp_bind, wp_gets. rewrite E. by apply wp_ret.
Qed.

(** Up to the blob: the console is set up, the log empty, the pointer settled. *)
Lemma wp_boot_parse s rest (Q : option unit → machine → Prop) :
  power_on s →
  (∀ l, logging rodata build_date l →
     wp rest Q (at_boot (with_io (set_ptr p (dtb_of s)) (trace_of s ++ SerialThm.init_accesses (console_at s)) (kern_of s))
       (vmm_of s) l (console_at s) (vbar_el1 s))) →
  wp (on_uart Serial.serial_init;; on_log Printk.printk_init;;
      kmain_say rodata (lit "%s" ++ [10]) [rodata KERNEL_NAME];; kmain_say rodata (lit "%s" ++ [10]) [rodata KERNEL_COPYRIGHT];;
      kmain_say rodata (lit "build %s" ++ [10]) [rodata build_date];;
      on_dtb (dtb_init (kernel_end ly));; on_dtb dtb_dump_info;; rest) Q s.
Proof.
  intros [Hheap _ Hring [Htext Hbuf] Hdate Hset Hboot [n Hver] _ _ _ _ _] HQ. destruct Hboot as [_ Hblob Hals Hu _ _ _ _ _ _]. cbn [PmmInit.dt] in *.
  assert (Es : s = at_boot (kern_of s) (vmm_of s) (log_of s) (uart_at s) (vbar_el1 s)).
  { destruct s. unfold at_boot, vmm_of in *. simpl in *. by rewrite <-Hheap. }
  rewrite Es at 1. clear Es Hheap. pose proof Hblob as [Hp [Hm1 Hm2] [m Htot] _]. cbn [dtb_ptr ram set_ptr] in *.
  apply wp_bind, wp_on_uart, (SerialThm.wp_serial_init _ (if ctrue (dtb_ptr (dtb_of s)) then u else None));
    [by apply wp_console_of|].
  cbn [Serial.uart_base Serial.udt Serial.uio SerialThm.accessed Serial.set_base].
  apply wp_bind, wp_on_log, wp_zoom. eapply wp_mono; [by apply wp_log_init|]. intros [] lg [Hlg Hlev].
  apply (wp_say_string rodata build_date _ _ _ _ _ []); [|literal 0%nat|constructor|literal 1%nat|done|].
  { split; [exact Htext|]. exists []. split; [exact Hbuf|exact Hlg|by cbn [Printk.log]; rewrite Hlev]. }
  intros l1 Hl1. apply (wp_say_string rodata build_date _ _ _ _ _ []); [done|literal 0%nat|constructor|literal 2%nat|done|].
  intros l2 Hl2. apply (wp_say_string rodata build_date _ _ _ _ _ (lit "build "));
    [done|literal 3%nat|plain_ok|literal 4%nat|unfold zlen in *; simpl (length (lit _)); lia|]. intros l3 Hl3.
  apply wp_bind, wp_on_dtb. change (dtb_in (with_io ?d _ _)) with d.
  apply (wp_dtb_init _ _ p DTB_MAGIC); [done|lia|by split|].
  apply wp_bind, wp_on_dtb. change (dtb_in (with_io ?d _ _)) with d.
  apply (wp_dtb_dump_info _ DTB_MAGIC m n); [cbn [dtb_ptr set_ptr]; lia|by split|done|done|].
  unfold trace_in. cbn [Irq.kgic Irq.set_gic with_io Gic.gio].
  eapply HQ. exact Hl3.
Qed.

(** ** The whole of [kmain_memory] *)

Lemma pmm_le_booting q base size total taken t :
  booting q base size total taken → pmm_le q (pmm_st t) →
  Pmm.pmm_mem_base (pmm_st t) = base ∧ Pmm.pmm_pages_total (pmm_st t) = total ∧
  ∀ j, 0 ≤ j < total → taken j = true → Pmm.page_alloc (pmm_st t) j = true.
Proof.
  intros [_ Hb _ Ht Htk] (L1 & L2 & L3). split_and!; [congruence|congruence|].
  intros j Hj Hin. apply L3; [lia|]. by rewrite Htk.
Qed.

Lemma wp_boot_allocator k v l b vb rest (Q : option unit → machine → Prop) :
  logging rodata build_date l →
  boot_ok {| PmmInit.pm := pmm_st (Vmm.mmu v); PmmInit.dt := dtb_in k |} evs u tsz
    (kernel_start ly) (kernel_end ly) (stack_bottom ly) (stack_top ly) →
  dtb_ptr (dtb_in k) = p →
  (∀ q l', booting q ram_range.1 ram_range.2 (total_of ram_range.2) in_use → logging rodata build_date l' →
     wp rest Q (at_boot k (with_mmu (Mmu.set_pmm q (Vmm.mmu v)) v) l' b vb)) →
  wp (on_init (PmmInit.pmm_init_from_dtb (kernel_start ly) (kernel_end ly) (stack_bottom ly) (stack_top ly));;
      total ← on_pmm pmm_total_pages; free ← on_pmm pmm_free_pages_count; free' ← on_pmm pmm_free_pages_count;
      kmain_say rodata (lit "PMM: total=%d pages, free=%d pages (size=%d KiB)" ++ [10]) [u32 total; u32 free; u32 (free' * 4)];;
      c ← on_pmm pmm_check;
      pbind (require (c =? 0)) (λ _, kmain_say rodata (lit "PMM: consistency check OK" ++ [10]) [];; rest)) Q (at_boot k v l b vb).
Proof.
  intros Hlog Hb Hp HQ. apply wp_bind, wp_on_init, (wp_boot _ evs u tsz _ _ _ _ _ Hb). cbn [PmmInit.dt PmmInit.pm].
  unfold in_use, ram_range in HQ. rewrite Hp. destruct (page_range _) as [base size]. intros q Hq.
  rewrite with_io_same. pose proof (λ l', HQ q l' Hq) as HQ'. clear HQ. pose proof Hq as [Hok _ _ _ _]. pose proof Hok as [Hbm Hlk _ _ Htot _ Hfree].
  set (v' := with_mmu _ v) in *. change q with (pmm_st (Vmm.mmu v')) in Hok, Hbm, Hlk, Htot, Hfree.
  assert (Hfr : 0 ≤ pmm_pages_free (pmm_st (Vmm.mmu v')) ≤ 1048576 ∧ 0 ≤ pmm_pages_total (pmm_st (Vmm.mmu v')) ≤ 1048576).
  { split; [|exact Htot]. rewrite Hfree. unfold free_pages.
    pose proof (countb_range (λ j, negb (page_alloc (pmm_st (Vmm.mmu v')) j)) 0 (Z.to_nat (pmm_pages_total (pmm_st (Vmm.mmu v'))))).
    change PMM_MAX_PAGES with 1048576 in Htot. lia. }
  destruct Hfr as [Hfr Htl].
  apply wp_bind, (wp_pmm_read _ (λ n, n = pmm_pages_total (pmm_st (Vmm.mmu v')))); [by apply (wp_counter pmm_pages_total)|intros n ->].
  do 2 (apply wp_bind, (wp_pmm_read _ (λ n, n = pmm_pages_free (pmm_st (Vmm.mmu v')))); [by apply (wp_counter pmm_pages_free)|intros ? ->]).
  apply (wp_say_total rodata build_date); [exact Hlog|lia..|]. intros l1 Hl1.
  apply wp_bind, (wp_pmm_read _ (λ c, c = 0)); [|intros c ->].
  { eapply wp_mono; [apply wp_pmm_check; [done|done|lia|]|].
    - rewrite Hfree. unfold free_pages. pose proof (countb_range (λ j, negb (page_alloc (pmm_st (Vmm.mmu v')) j)) 0 (Z.to_nat (pmm_pages_total (pmm_st (Vmm.mmu v'))))). lia.
    - intros c ? [-> ->]. split; [|done]. by rewrite Hfree, Z.eqb_refl. }
  apply wp_bind, wp_ret. cbv beta iota.
  apply (wp_say_plain rodata build_date); [exact Hl1|literal 6%nat|plain_ok|done|exact HQ'].
Qed.

Lemma wp_kmain_memory s (Q : option unit → machine → Prop) :
  power_on s →
  (∀ v l, logging rodata build_date l →
     let s1 := at_boot (with_io (set_ptr p (dtb_of s)) (trace_of s ++ SerialThm.init_accesses (console_at s)) (kern_of s))
                 v l (console_at s) (vbar_el1 s) in
     memory_up s1 → Q (Some tt) s1) →
  wp (kmain_memory ly rodata build_date) Q s.
Proof.
  intros Hs HQ. pose proof Hs as [_ [Hfl Hpool] _ _ _ _ Hboot _ _ Hly _ _ _]. unfold kmain_memory.
  apply wp_boot_parse; [done|]. intros l Hl. set (k1 := with_io _ _ _) in *.
  apply wp_boot_allocator; [exact Hl|exact Hboot|done|]. intros q l1 Hq Hl1.
  apply wp_bind, wp_ret. set (v1 := with_mmu _ (vmm_of s)).
  apply wp_bind, wp_on_vmm. eapply wp_mono; [by apply (@wp_vmm_start mmu _ (holding ∅))|]. cbv beta. intros r v2 (-> & Habs & Hm2 & _).
  apply wp_bind, wp_ret. cbv beta iota.
  apply (wp_say_plain rodata build_date); [exact Hl1|literal 7%nat|plain_ok|done|]. intros l2 Hl2.
  assert (E2 : pmm_st (Vmm.mmu v2) = q) by by rewrite Hm2.
  apply wp_boot_tables; [exact Hl2|rewrite E2; apply Hq|done|]. rewrite E2. intros t l3 [T1 T2 T3 T4 T5] Hl3.
  destruct (pmm_le_booting _ _ _ _ _ _ Hq T3) as (B1 & B2 & B3).
  apply (HQ (with_mmu t v2) l3 Hl3). assert (Et : Pmm.pmm_pages_total q = total_of ram_range.2) by apply Hq.
  split; [by apply Habs|done|done|done|done|by rewrite <-Et].
Qed.

(** ** Devices *)

(** The kernel side after [kmain_devices], started in [k]. *)
Definition controller_up (k : Irq.kern) : Irq.kern :=
  let k' := Irq.set_table empty_table k in Irq.set_gic (gic_up (version_of evs) (Irq.kgic k')) k'.
Definition devices_up (k : Irq.kern) : Irq.kern := timer_started dev timer_handler (controller_up k) 100.

Lemma wp_kmain_devices k v l b vb (Q : option unit → machine → Prop) :
  blob (dtb_in k) evs → aligned_blob (dtb_in k) → terminated evs → timer_handler ≠ 0 → vabs ∅ v [] →
  Q (Some tt) (at_boot (devices_up k) v l b vectors) →
  wp (kmain_devices dev vectors timer_handler) Q (at_boot k v l b vb).
Proof.
  intros Hb Hal Hterm Hth Hv HQ. unfold kmain_devices. apply wp_bind, wp_modify.
  change (set_vbar vectors _) with (at_boot k v l b vectors).
  apply wp_bind, wp_on_kern, wp_modify. apply wp_bind, wp_on_kern, wp_zoom.
  apply (wp_gic_init _ (version_of evs)); [by apply (wp_detect _ evs)|].
  fold empty_table. fold (controller_up k).
  apply wp_bind, wp_on_kern, wp_timer_init; [|vm_compute; reflexivity|done|reflexivity|done|].
  { vm_compute. reflexivity. }
  apply wp_bind, wp_on_vmm. eapply wp_mono; [by apply (@wp_vmm_dump mmu _ (holding ∅))|].
  intros [] v' ->. apply wp_ret. cbn [fmap list_fmap]. rewrite app_nil_r.
  replace (Vmm.set_console (Vmm.console v) v) with v by by destruct v. exact HQ.
Qed.

(** A version 3 controller keeps what was enabled before. *)
Lemma init_keeps irq b : 0 ≤ irq < 1024 → foldl (gate_step irq) b (init_accesses 3) = b.
Proof.
  intros Hi. unfold init_accesses. simpl (3 =? 3). cbv iota.
  assert (0 ≤ irq / 32 < 32) by (Z.div_mod_to_equations; lia).
  cbn [foldl app gate_step]. rewrite ?cell_at by done. unfold GICD, Gic.GICD_CTLR, Gic.GICD_ISENABLER, Gic.GICD_ICENABLER.
  rewrite ?bool_decide_false by (intros [= Ha]; lia). by repeat case_match.
Qed.

(** The enable bits once interrupt 30 has been enabled. *)
Lemma enabled_irqs k b0 j :
  0 ≤ j < 1024 →
  enabled b0 (trace_in (devices_up k)) j =
  (j =? Irq.TIMER_IRQ) || (if version_of evs =? 3 then enabled b0 (trace_in k) j else false).
Proof.
  intros Hj. unfold trace_in, devices_up, timer_started, after.
  cbn [Irq.kgic Irq.set_gic GicThm.accessed Gic.gio Irq.set_table Irq.set_freq controller_up].
  rewrite enabled_app. cbn [foldl]. rewrite gate_bank by (done || (by left)).
  change (Gic.GICD_ISENABLER =? Gic.GICD_ISENABLER) with true.
  destruct (Z.eqb_spec j Irq.TIMER_IRQ) as [->|Hne]; [done|]. cbn [orb].
  unfold gic_up. cbn [Gic.gio GicThm.accessed]. rewrite enabled_app.
  destruct (Z.eqb_spec (version_of evs) 3) as [E|E].
  - rewrite E, init_keeps by done. unfold gate_step. cbn. by repeat case_match.
  - rewrite (version_two _ E), init_masks by done. unfold gate_step. by repeat case_match.
Qed.
End boot.
