(* ===== verification/KmainClaims.v ===== *)
(** * Boot: the property *)
From stdpp Require Import base gmap list option numbers strings.
From Stdlib Require Import ZArith Lia.
From S2P Require Import Prelude Panic Spinlock Bitmap RBHeap Pmm MmuIface Vmm VmmThm Mmu MmuThm VmmClaims TaskDef Eevdf EevdfClaims Pid Sched CString CStringThm CStringCopy Dtb DtbThm DtbFind DtbUart DtbPath DtbTree PmmInit PmmInitThm PmmInitClaims PmmBoot Klog KlogThm Printk PrintkThm SyscallThm Frames FramesMmu Vmalloc VmallocThm VmallocMap VmallocAlloc VmallocClaims Io Serial SerialThm Gic GicThm Irq IrqThm IrqClaims TaskCreate TaskCreateThm Kmain KmainThm.
#[local] Open Scope Z_scope.
#[local] Open Scope panic_scope.
Import Eevdf Sched Pmm Dtb Mmu Vmalloc Kmain.

Section claims.
Context (dev : device) (ly : layout).
Context (vectors timer_handler wrapper_code exit_code idle_code : Z).
Context (rodata : list Z → Z) (build_date : list Z).
Context (evs : list ev) (u : option Z) (tsz p : Z).
Abbreviation before_tasks := (kmain_memory ly rodata build_date;! kmain_devices dev vectors timer_handler).








(** With more than 2 GiB of memory the map goes on through the window of the
    kernel heap. *)
Lemma linear_map_meets_window total t :
  upper_half ly total t → 0x80000000 < total * 4096 →
  walk (mem t) (ttbr1_el1 t) (vpn VMALLOC_START) = Some (leaf_map 0x80000000 init_attrs).
Proof.
  intros (_ & _ & Hm & _) Ht. assert (VMALLOC_START = Vmm.vmm_kernel_base + 0x80000000) as -> by reflexivity.
  apply Hm; [lia|done].
Qed.

End claims.

(** ** An instance

    A blob at the loader's pointer that names a console, a version 2
    controller; image and stack as in PmmBoot.v. *)




